(** * KeepNotesClone: the offline-first synchronisation engine

    A shallow embedding of [SyncService] (services/syncService.ts), of the
    parts of [DatabaseService] (services/databaseService.ts) and of
    [AuthService] it relies on, followed by the properties of the engine.

    Conventions of the embedding.
    - An [async] method is a state transformer over [World] that either
      returns a value or throws ([Result]); what a method changed before it
      threw stays changed, as in JavaScript.
    - What depends on how callbacks interleave is stated over the same
      methods cut at their awaits ([Async]); a method cut this way and run
      without interruption is the sequential method.
    - The collaborators the engine does not own (the remote database client,
      the search index, AsyncStorage failures, the clock, string collation)
      are an environment [Env] of answers indexed by the number of calls made
      so far, so that two calls of the same operation may answer differently.
    - A [Date] is its time value in milliseconds, [None] being Invalid Date.
    - AsyncStorage holds the JSON text of each item; the model keeps the
      parsed JSON, typed by the TypeScript declarations.  Text that does not
      parse behaves, in every reader of the engine, like a missing item. *)

From Stdlib Require Import ZArith List Bool Ascii String Lia Permutation Sorted.
From stdpp Require Import base option list gmap strings pretty.

Local Open Scope Z_scope.

(** ** Dates and their ISO-8601 rendering *)

Module DateCodec.

Definition msPerDay : Z := 86400000.

(** Days since 1970-01-01 to (year, month, day) of the proleptic Gregorian
    calendar, the MakeDay/YearFromTime arithmetic of ECMAScript. *)
Definition civil_from_days (days : Z) : Z * Z * Z :=
  let z := days + 719468 in
  let era := z / 146097 in
  let doe := z - era * 146097 in
  let yoe := (doe - doe / 1460 + doe / 36524 - doe / 146096) / 365 in
  let doy := doe - (365 * yoe + yoe / 4 - yoe / 100) in
  let mp := (5 * doy + 2) / 153 in
  let d := doy - (153 * mp + 2) / 5 + 1 in
  let m := if mp <? 10 then mp + 3 else mp - 9 in
  let y := yoe + era * 400 + (if m <=? 2 then 1 else 0) in
  (y, m, d).

Definition days_from_civil (y m d : Z) : Z :=
  let y' := if m <=? 2 then y - 1 else y in
  let era := y' / 400 in
  let yoe := y' - era * 400 in
  let mp := if 2 <? m then m - 3 else m + 9 in
  let doy := (153 * mp + 2) / 5 + d - 1 in
  let doe := yoe * 365 + yoe / 4 - yoe / 100 + doy in
  era * 146097 + doe - 719468.

Definition digit_char (d : Z) : ascii :=
  ascii_of_nat (48 + Z.to_nat d).

Definition digit_val (c : ascii) : option Z :=
  let n := Z.of_nat (nat_of_ascii c) in
  if (48 <=? n) && (n <=? 57) then Some (n - 48) else None.

Definition pad2 (n : Z) : string :=
  String (digit_char (n / 10)) (String (digit_char (n mod 10)) "").

Definition pad3 (n : Z) : string :=
  String (digit_char (n / 100)) (pad2 (n mod 100)).

Definition pad4 (n : Z) : string :=
  String (digit_char (n / 1000)) (pad3 (n mod 1000)).

Definition pad6 (n : Z) : string :=
  pad2 (n / 10000) +:+ pad4 (n mod 10000).

(** [Date.prototype.toISOString]: YYYY-MM-DDTHH:mm:ss.sssZ, with the
    expanded six-digit year outside 0000..9999. *)
Definition toISOString (t : Z) : string :=
  let days := t / msPerDay in
  let ms := t mod msPerDay in
  let '(y, m, d) := civil_from_days days in
  let year :=
    if (0 <=? y) && (y <=? 9999) then pad4 y
    else if y <? 0 then "-" +:+ pad6 (- y) else "+" +:+ pad6 y in
  year +:+ "-" +:+ pad2 m +:+ "-" +:+ pad2 d +:+ "T"
    +:+ pad2 (ms / 3600000) +:+ ":" +:+ pad2 (ms / 60000 mod 60) +:+ ":"
    +:+ pad2 (ms / 1000 mod 60) +:+ "." +:+ pad3 (ms mod 1000) +:+ "Z".

Definition num2 (a b : ascii) : option Z :=
  match digit_val a, digit_val b with
  | Some x, Some y => Some (10 * x + y)
  | _, _ => None
  end.

Definition num3 (a b c : ascii) : option Z :=
  match digit_val a, num2 b c with
  | Some x, Some y => Some (100 * x + y)
  | _, _ => None
  end.

Definition num4 (a b c d : ascii) : option Z :=
  match num2 a b, num2 c d with
  | Some x, Some y => Some (100 * x + y)
  | _, _ => None
  end.

Definition is_char (c : ascii) (s : string) : bool :=
  String.eqb (String c "") s.

Definition daysInMonth (y m : Z) : Z :=
  if m =? 2 then
    (if ((y mod 4 =? 0) && negb (y mod 100 =? 0)) || (y mod 400 =? 0)
     then 29 else 28)
  else if (m =? 4) || (m =? 6) || (m =? 9) || (m =? 11) then 30 else 31.

(** [new Date(s)] for a string in the format [toISOString] writes with a
    four-digit year.  Strings in any other format are read as Invalid
    Date: the engine only ever reads back what it wrote. *)
Definition Date_parse (s : string) : option Z :=
  match s with
  | String y1 (String y2 (String y3 (String y4 (String s1
    (String m1 (String m2 (String s2
    (String d1 (String d2 (String s3
    (String h1 (String h2 (String s4
    (String i1 (String i2 (String s5
    (String c1 (String c2 (String s6
    (String f1 (String f2 (String f3 (String s7 EmptyString)))))))))))))))))))))))
    =>
      if is_char s1 "-" && is_char s2 "-" && is_char s3 "T"
         && is_char s4 ":" && is_char s5 ":" && is_char s6 "."
         && is_char s7 "Z"
      then
        match num4 y1 y2 y3 y4, num2 m1 m2, num2 d1 d2,
              num2 h1 h2, num2 i1 i2, num2 c1 c2, num3 f1 f2 f3 with
        | Some y, Some m, Some d, Some h, Some mi, Some sec, Some ms =>
            if (1 <=? m) && (m <=? 12) && (1 <=? d)
               && (d <=? daysInMonth y m)
               && (h <=? 23) && (mi <=? 59) && (sec <=? 59)
            then Some (days_from_civil y m d * msPerDay
                       + h * 3600000 + mi * 60000 + sec * 1000 + ms)
            else None
        | _, _, _, _, _, _, _ => None
        end
      else None
  | _ => None
  end.

End DateCodec.

(** [Date]: the time value of a JavaScript Date object; [None] is Invalid
    Date (time value NaN). *)
Definition Date : Type := option Z.

(** What [JSON.stringify] leaves of a Date and [JSON.parse] gives back: the
    ISO string, or [null] (here [None]) for Invalid Date. *)
Definition JsonDate : Type := option string.

(** [Date.prototype.toJSON]. *)
Definition Date_toJSON (d : Date) : JsonDate :=
  DateCodec.toISOString <$> d.

(** [new Date(v)] for [v] a JSON string or [null]; [new Date(null)] is the
    epoch. *)
Definition new_Date (v : JsonDate) : Date :=
  match v with
  | Some s => DateCodec.Date_parse s
  | None => Some 0
  end.

(** [a > b] on Dates compares time values; any comparison with NaN is
    false. *)
Definition Date_gt (a b : Date) : bool :=
  match a, b with
  | Some x, Some y => y <? x
  | _, _ => false
  end.

(** [b.getTime() - a.getTime()], [None] being NaN. *)
Definition Date_sub (b a : Date) : option Z :=
  match b, a with
  | Some x, Some y => Some (x - y)
  | _, _ => None
  end.

(** ** Data model (types/index.ts and the fields the services read)

    The records are indexed by the representation [D] of their timestamps:
    [Date] in memory, [JsonDate] once they went through JSON. *)

Record NoteOf (D : Type) : Type := mkNote {
  note_id : string;
  note_userId : option string;
  note_title : string;
  note_content : string;
  note_color : string;
  note_pinned : bool;
  note_archived : bool;
  note_labels : list string;
  note_imageUrl : option string;
  note_audioUrl : option string;
  note_audioTranscript : option string;
  note_checklistItems : list string;
  note_reminderDate : option string;
  note_createdAt : D;
  note_updatedAt : D;
}.
Arguments mkNote {D}.
Arguments note_id {D}.
Arguments note_userId {D}.
Arguments note_title {D}.
Arguments note_content {D}.
Arguments note_color {D}.
Arguments note_pinned {D}.
Arguments note_archived {D}.
Arguments note_labels {D}.
Arguments note_imageUrl {D}.
Arguments note_audioUrl {D}.
Arguments note_audioTranscript {D}.
Arguments note_checklistItems {D}.
Arguments note_reminderDate {D}.
Arguments note_createdAt {D}.
Arguments note_updatedAt {D}.

Abbreviation Note := (NoteOf Date).
Abbreviation NoteJson := (NoteOf JsonDate).

Record ChatMessageOf (D : Type) : Type := mkChatMessage {
  msg_id : string;
  msg_text : string;
  msg_isUser : bool;
  msg_timestamp : D;
}.
Arguments mkChatMessage {D}.
Arguments msg_id {D}.
Arguments msg_text {D}.
Arguments msg_isUser {D}.
Arguments msg_timestamp {D}.

Record ChatThreadOf (D : Type) : Type := mkChatThread {
  thread_id : string;
  thread_userId : option string;
  thread_title : string;
  thread_messages : list (ChatMessageOf D);
  thread_createdAt : D;
  thread_updatedAt : D;
}.
Arguments mkChatThread {D}.
Arguments thread_id {D}.
Arguments thread_userId {D}.
Arguments thread_title {D}.
Arguments thread_messages {D}.
Arguments thread_createdAt {D}.
Arguments thread_updatedAt {D}.

Abbreviation ChatThread := (ChatThreadOf Date).
Abbreviation ChatThreadJson := (ChatThreadOf JsonDate).

Record Label : Type := mkLabel {
  label_id : string;
  label_userId : option string;
  label_name : string;
  label_color : option string;
}.

(** [AuthUser] of authService.ts. *)
Record AuthUser : Type := mkAuthUser {
  user_id : string;
  user_email : string;
  user_name : string;
  user_avatar : string;
  user_emailVerified : bool;
}.

(** [JSON.stringify] on an entity: every field as it is, Dates through
    [toJSON]. *)
Definition Note_toJSON (n : Note) : NoteJson :=
  mkNote (note_id n) (note_userId n) (note_title n) (note_content n)
    (note_color n) (note_pinned n) (note_archived n) (note_labels n)
    (note_imageUrl n) (note_audioUrl n) (note_audioTranscript n)
    (note_checklistItems n) (note_reminderDate n)
    (Date_toJSON (note_createdAt n)) (Date_toJSON (note_updatedAt n)).

(** [{...note, createdAt: new Date(note.createdAt),
      updatedAt: new Date(note.updatedAt)}] of [getLocalNotes]. *)
Definition Note_revive (n : NoteJson) : Note :=
  mkNote (note_id n) (note_userId n) (note_title n) (note_content n)
    (note_color n) (note_pinned n) (note_archived n) (note_labels n)
    (note_imageUrl n) (note_audioUrl n) (note_audioTranscript n)
    (note_checklistItems n) (note_reminderDate n)
    (new_Date (note_createdAt n)) (new_Date (note_updatedAt n)).

Definition ChatMessage_toJSON (m : ChatMessageOf Date) : ChatMessageOf JsonDate :=
  mkChatMessage (msg_id m) (msg_text m) (msg_isUser m)
    (Date_toJSON (msg_timestamp m)).

Definition ChatMessage_revive (m : ChatMessageOf JsonDate) : ChatMessageOf Date :=
  mkChatMessage (msg_id m) (msg_text m) (msg_isUser m)
    (new_Date (msg_timestamp m)).

Definition ChatThread_toJSON (t : ChatThread) : ChatThreadJson :=
  mkChatThread (thread_id t) (thread_userId t) (thread_title t)
    (ChatMessage_toJSON <$> thread_messages t)
    (Date_toJSON (thread_createdAt t)) (Date_toJSON (thread_updatedAt t)).

(** The reviver of [getLocalChatThreads]. *)
Definition ChatThread_revive (t : ChatThreadJson) : ChatThread :=
  mkChatThread (thread_id t) (thread_userId t) (thread_title t)
    (ChatMessage_revive <$> thread_messages t)
    (new_Date (thread_createdAt t)) (new_Date (thread_updatedAt t)).

(** ** Pending operations *)

(** ['create' | 'update' | 'delete'] and ['notes' | 'chatThreads' | 'labels']. *)
Inductive OpType : Type := OpCreate | OpUpdate | OpDelete.
Inductive Collection : Type := ColNotes | ColChatThreads | ColLabels.

Definition OpType_name (t : OpType) : string :=
  match t with
  | OpCreate => "create"
  | OpUpdate => "update"
  | OpDelete => "delete"
  end.

(** The payload [data: any] of a pending operation.  The engine enqueues a
    Note, a ChatThread or [{ id }]; the label handlers expect a Label.  After
    a trip through JSON a Note or ChatThread payload is the plain JSON
    object: its timestamps are strings, nothing revives them. *)
Inductive OpData : Type :=
  | DataNote (n : Note)
  | DataChatThread (t : ChatThread)
  | DataLabel (l : Label)
  | DataId (id : string)
  | DataNoteJson (n : NoteJson)
  | DataChatThreadJson (t : ChatThreadJson).

(** [data.id]. *)
Definition data_id (d : OpData) : string :=
  match d with
  | DataNote n => note_id n
  | DataChatThread t => thread_id t
  | DataLabel l => label_id l
  | DataId id => id
  | DataNoteJson n => note_id n
  | DataChatThreadJson t => thread_id t
  end.

(** [JSON.parse(JSON.stringify(data))]. *)
Definition OpData_json (d : OpData) : OpData :=
  match d with
  | DataNote n => DataNoteJson (Note_toJSON n)
  | DataChatThread t => DataChatThreadJson (ChatThread_toJSON t)
  | _ => d
  end.

Record PendingOperationOf (D : Type) : Type := mkPendingOperation {
  op_id : string;
  op_type : OpType;
  op_collection : Collection;
  op_data : OpData;
  op_timestamp : D;
  op_retryCount : nat;
}.
Arguments mkPendingOperation {D}.
Arguments op_id {D}.
Arguments op_type {D}.
Arguments op_collection {D}.
Arguments op_data {D}.
Arguments op_timestamp {D}.
Arguments op_retryCount {D}.

Abbreviation PendingOperation := (PendingOperationOf Date).
Abbreviation PendingOperationJson := (PendingOperationOf JsonDate).

Definition PendingOperation_toJSON (op : PendingOperation) : PendingOperationJson :=
  mkPendingOperation (op_id op) (op_type op) (op_collection op)
    (OpData_json (op_data op)) (Date_toJSON (op_timestamp op))
    (op_retryCount op).

(** [{...op, timestamp: new Date(op.timestamp)}] of
    [loadPendingOperations]. *)
Definition PendingOperation_revive (op : PendingOperationJson) : PendingOperation :=
  mkPendingOperation (op_id op) (op_type op) (op_collection op)
    (op_data op) (new_Date (op_timestamp op)) (op_retryCount op).

Record SyncStatus : Type := mkSyncStatus {
  lastSyncTime : option Date;
  isOnline : bool;
  isSyncing : bool;
  pendingChanges : nat;
  conflictCount : nat;
}.

(** ** Results, errors and the environment *)

(** A thrown value: the [code] a Supabase error carries, if any, and its
    message. *)
Record JsError : Type := mkError {
  error_code : option string;
  error_message : string;
}.

Inductive Result (A : Type) : Type :=
  | Ok (a : A)
  | Throw (e : JsError).
Arguments Ok {A}.
Arguments Throw {A}.

(** The items of AsyncStorage the engine uses, by key. *)
Inductive StorageKey : Type :=
  | KeyNotes (userId : string)
  | KeyChatThreads (userId : string)
  | KeyLabels (userId : string)
  | KeyPendingOperations
  | KeyLastSyncTime.

(** The key as the source spells it: [`notes_${userId}`], ... *)
Definition key_name (k : StorageKey) : string :=
  match k with
  | KeyNotes u => "notes_" +:+ u
  | KeyChatThreads u => "chatThreads_" +:+ u
  | KeyLabels u => "labels_" +:+ u
  | KeyPendingOperations => "pendingOperations"
  | KeyLastSyncTime => "lastSyncTime"
  end.

(** The five families of keys never collide, so the store is kept as one
    typed component per family; the per-user families are maps from the
    user id. *)
Record AsyncStorage : Type := mkStorage {
  item_notes : gmap string (list NoteJson);
  item_chatThreads : gmap string (list ChatThreadJson);
  item_labels : gmap string (list Label);
  item_pendingOperations : option (list PendingOperationJson);
  item_lastSyncTime : option string;
}.

Inductive StorageCall : Type :=
  | GetItem (k : StorageKey)
  | SetItem (k : StorageKey).

(** Calls that leave the device: [databaseService] and [pineconeService]. *)
Inductive RemoteCall : Type :=
  | CallGetNotes (userId : string)
  | CallCreateNote (data : OpData)
  | CallUpdateNote (id : string) (data : OpData)
  | CallDeleteNote (id : string)
  | CallSaveNote (note : Note) (userId : string)
  | CallGetChatThreads (userId : string)
  | CallCreateChatThread (data : OpData)
  | CallUpdateChatThread (id : string) (data : OpData)
  | CallDeleteChatThread (id : string)
  | CallGetLabels (userId : string)
  | CallCreateLabel (data : OpData)
  | CallDeleteLabel (id : string)
  | CallIndexNote (note : Note) (userId : string)
  | CallUnindexNote (id : string).

Inductive Event : Type :=
  | EvStorage (c : StorageCall)
  | EvRemote (c : RemoteCall).

(** The contract of [databaseService] as the engine uses it.  Each answer
    may depend on how many calls were made before ([nat]); a promise may
    reject ([Throw]). *)
Record RemoteClient : Type := mkRemoteClient {
  db_getNotes : nat -> string -> Result (list Note);
  db_createNote : nat -> OpData -> Result (option Note);
  db_updateNote : nat -> string -> OpData -> Result (option Note);
  db_deleteNote : nat -> string -> Result bool;
  db_saveNote : nat -> Note -> string -> Result (option Note);
  db_getChatThreads : nat -> string -> Result (list ChatThread);
  db_createChatThread : nat -> OpData -> Result (option ChatThread);
  db_updateChatThread : nat -> string -> OpData -> Result (option ChatThread);
  db_deleteChatThread : nat -> string -> Result bool;
  db_getLabels : nat -> string -> Result (list Label);
  db_createLabel : nat -> OpData -> Result (option Label);
  db_deleteLabel : nat -> string -> Result bool;
}.

Record Env : Type := mkEnv {
  databaseService : RemoteClient;
  pinecone_indexNote : nat -> Note -> string -> Result unit;
  pinecone_deleteNote : nat -> string -> Result unit;
  (** whether the AsyncStorage call made as call number [n] rejects *)
  storageRejects : nat -> StorageCall -> bool;
  (** the clock read as call number [n] is about to be made *)
  now : nat -> Z;
  (** [a.localeCompare(b)] *)
  localeCompare : string -> string -> Z;
}.

(** ** The state: the fields of the [SyncService] singleton, the current
    user of [authService], AsyncStorage, and the calls made so far. *)
Record World : Type := mkWorld {
  syncStatus : SyncStatus;
  pendingOperations : list PendingOperation;
  currentUser : option AuthUser;
  storage : AsyncStorage;
  trace : list Event;
}.

Definition MAX_RETRY_COUNT : nat := 3.

Definition M (A : Type) : Type := World -> Result A * World.

Definition ret {A} (a : A) : M A := fun w => (Ok a, w).

Definition throw {A} (e : JsError) : M A := fun w => (Throw e, w).

Definition bind {A B} (c : M A) (k : A -> M B) : M B :=
  fun w =>
    match c w with
    | (Ok a, w') => k a w'
    | (Throw e, w') => (Throw e, w')
    end.

(** [try { c } catch (e) { h e }] *)
Definition try_catch {A} (c : M A) (h : JsError -> M A) : M A :=
  fun w =>
    match c w with
    | (Ok a, w') => (Ok a, w')
    | (Throw e, w') => h e w'
    end.

(** [try { c } finally { f }], for a [finally] block that cannot throw. *)
Definition try_finally {A} (c : M A) (f : World -> World) : M A :=
  fun w => let '(r, w') := c w in (r, f w').

Definition gets {A} (f : World -> A) : M A := fun w => (Ok (f w), w).

Definition modify (f : World -> World) : M unit := fun w => (Ok tt, f w).

Notation "'let!' x ':=' c 'in' k" := (bind c (fun x => k))
  (at level 10, x pattern, c at level 100, k at level 200).
Notation "c ';;;' k" := (bind c (fun _ => k))
  (at level 100, k at level 200, right associativity).

(** Field updates of the singleton. *)
Definition set_syncStatus (f : SyncStatus -> SyncStatus) (w : World) : World :=
  mkWorld (f (syncStatus w)) (pendingOperations w) (currentUser w)
    (storage w) (trace w).

Definition set_isSyncing (b : bool) : World -> World :=
  set_syncStatus (fun s =>
    mkSyncStatus (lastSyncTime s) (isOnline s) b (pendingChanges s)
      (conflictCount s)).

Definition set_isOnline (b : bool) : World -> World :=
  set_syncStatus (fun s =>
    mkSyncStatus (lastSyncTime s) b (isSyncing s) (pendingChanges s)
      (conflictCount s)).

Definition set_lastSyncTime (d : Date) : World -> World :=
  set_syncStatus (fun s =>
    mkSyncStatus (Some d) (isOnline s) (isSyncing s) (pendingChanges s)
      (conflictCount s)).

Definition set_pendingChanges (n : nat) : World -> World :=
  set_syncStatus (fun s =>
    mkSyncStatus (lastSyncTime s) (isOnline s) (isSyncing s) n
      (conflictCount s)).

Definition set_pendingOperations (ops : list PendingOperation) (w : World) : World :=
  mkWorld (syncStatus w) ops (currentUser w) (storage w) (trace w).

Definition set_storage (f : AsyncStorage -> AsyncStorage) (w : World) : World :=
  mkWorld (syncStatus w) (pendingOperations w) (currentUser w)
    (f (storage w)) (trace w).

Definition record_event (e : Event) (w : World) : World :=
  mkWorld (syncStatus w) (pendingOperations w) (currentUser w)
    (storage w) (trace w ++ [e]).

(** The number of calls made so far. *)
Definition tick (w : World) : nat := length (trace w).

(** The remote calls among the events of a trace. *)
Definition remoteCalls (tr : list Event) : list RemoteCall :=
  omap (fun e => match e with EvRemote c => Some c | EvStorage _ => None end) tr.

Definition storageCalls (tr : list Event) : list StorageCall :=
  omap (fun e => match e with EvStorage c => Some c | EvRemote _ => None end) tr.

(** ** JavaScript library functions the engine uses *)

(** [Array.prototype.findIndex]; [None] is -1. *)
Fixpoint findIndex {A} (p : A -> bool) (l : list A) : option nat :=
  match l with
  | [] => None
  | x :: l' => if p x then Some 0%nat else S <$> findIndex p l'
  end.

(** [Array.prototype.includes] on strings. *)
Definition includes (x : string) (l : list string) : bool :=
  existsb (String.eqb x) l.

(** A [Map<string, V>] keeps its entries in insertion order; setting a key
    that is present replaces the value where it stands. *)
Definition JsMap (V : Type) : Type := list (string * V).

Fixpoint Map_get {V} (k : string) (m : JsMap V) : option V :=
  match m with
  | [] => None
  | (k', v) :: m' => if String.eqb k k' then Some v else Map_get k m'
  end.

Fixpoint Map_set {V} (k : string) (v : V) (m : JsMap V) : JsMap V :=
  match m with
  | [] => [(k, v)]
  | (k', v') :: m' =>
      if String.eqb k k' then (k', v) :: m' else (k', v') :: Map_set k v m'
  end.

Definition Map_values {V} (m : JsMap V) : list V := m.*2.

(** [Array.prototype.sort] with a comparator, as a stable insertion sort.
    A comparator answer of NaN counts as 0 (SortCompare). *)
Fixpoint sort_insert {A} (cmp : A -> A -> Z) (x : A) (l : list A) : list A :=
  match l with
  | [] => [x]
  | y :: l' => if 0 <? cmp x y then y :: sort_insert cmp x l' else x :: l
  end.

Definition Array_sort {A} (cmp : A -> A -> Z) (l : list A) : list A :=
  foldr (sort_insert cmp) [] l.

Definition nan_to_zero (v : option Z) : Z := default 0 v.

(** [String.prototype.trim] removes the WhiteSpace and LineTerminator code
    points of ECMAScript from both ends: U+0009 to U+000D, U+0020, U+00A0,
    U+1680, U+2000 to U+200A, U+2028, U+2029, U+202F, U+205F, U+3000 and
    U+FEFF.  A string is its UTF-8 text, so a code point above U+007F is the
    two or three bytes of its encoding. *)
Definition is_space (c : ascii) : bool :=
  let n := nat_of_ascii c in
  ((9 <=? n)%nat && (n <=? 13)%nat) || (n =? 32)%nat.

(** U+00A0 is C2 A0. *)
Definition is_space2 (c1 c2 : ascii) : bool :=
  (nat_of_ascii c1 =? 194)%nat && (nat_of_ascii c2 =? 160)%nat.

(** U+1680 is E1 9A 80; U+2000 to U+200A, U+2028, U+2029 and U+202F are
    E2 80 followed by 80 to 8A, A8, A9 and AF; U+205F is E2 81 9F; U+3000
    is E3 80 80; U+FEFF is EF BB BF. *)
Definition is_space3 (c1 c2 c3 : ascii) : bool :=
  let n1 := nat_of_ascii c1 in
  let n2 := nat_of_ascii c2 in
  let n3 := nat_of_ascii c3 in
  ((n1 =? 225) && (n2 =? 154) && (n3 =? 128))%nat
  || ((n1 =? 226) && (n2 =? 128)
      && (((128 <=? n3) && (n3 <=? 138)) || (n3 =? 168) || (n3 =? 169)
          || (n3 =? 175)))%nat
  || ((n1 =? 226) && (n2 =? 129) && (n3 =? 159))%nat
  || ((n1 =? 227) && (n2 =? 128) && (n3 =? 128))%nat
  || ((n1 =? 239) && (n2 =? 187) && (n3 =? 191))%nat.

(** The white space at the front of a string is removed; [backwards] is
    for a string that is read from its end, whose encodings come with
    their bytes in the opposite order. *)
Fixpoint strip (backwards : bool) (s : string) : string :=
  match s with
  | String c1 s1 =>
      if is_space c1 then strip backwards s1
      else
        match s1 with
        | String c2 s2 =>
            if (if backwards then is_space2 c2 c1 else is_space2 c1 c2)
            then strip backwards s2
            else
              match s2 with
              | String c3 s3 =>
                  if (if backwards then is_space3 c3 c2 c1
                      else is_space3 c1 c2 c3)
                  then strip backwards s3
                  else s
              | EmptyString => s
              end
        | EmptyString => s
        end
  | EmptyString => EmptyString
  end.

Definition trimStart (s : string) : string := strip false s.

Definition trimEnd (s : string) : string :=
  String.rev (strip true (String.rev s)).

Definition trim (s : string) : string := trimEnd (trimStart s).

(** [Array.prototype.join] on strings. *)
Fixpoint join (sep : string) (l : list string) : string :=
  match l with
  | [] => ""
  | [x] => x
  | x :: l' => x +:+ sep +:+ join sep l'
  end.

(** A string is truthy when it is not empty. *)
Definition truthy (s : string) : bool := negb (String.eqb s "").

(** ** DatabaseService (services/databaseService.ts)

    Every method wraps one Supabase request in [try]/[catch].  A request
    answers [{ data, error }] or rejects; rows are given as
    [transformNoteFromDb] and its siblings read them, and a request is
    identified by the argument the method received, from whose fields it is
    built. *)

Inductive SbReply (A : Type) : Type :=
  | SbData (data : option A)
  | SbError (error : JsError)
  | SbReject (e : JsError).
Arguments SbData {A}.
Arguments SbError {A}.
Arguments SbReject {A}.

Record Supabase : Type := mkSupabase {
  sb_notes_select : nat -> string -> SbReply (list Note);
  sb_notes_insert : nat -> OpData -> SbReply Note;
  sb_notes_update : nat -> string -> OpData -> SbReply Note;
  sb_notes_delete : nat -> string -> SbReply unit;
  sb_chat_threads_select : nat -> string -> SbReply (list ChatThread);
  sb_chat_threads_insert : nat -> OpData -> SbReply ChatThread;
  sb_chat_threads_update : nat -> string -> OpData -> SbReply ChatThread;
  sb_chat_threads_delete : nat -> string -> SbReply unit;
  sb_labels_select : nat -> string -> SbReply (list Label);
  sb_labels_insert : nat -> OpData -> SbReply Label;
  sb_labels_delete : nat -> string -> SbReply unit;
}.

Module DatabaseService.
Section Methods.
Variable supabase : Supabase.

(** [const { data, error } = await request; if (error) throw error;
     return (data || []).map(transform)] inside [try], [catch] returning
    the empty list. *)
Definition list_request {A} (reply : SbReply (list A)) : Result (list A) :=
  match reply with
  | SbData data => Ok (default [] data)
  | SbError _ => Ok []
  | SbReject _ => Ok []
  end.

(** The same for [.single()] requests: [return transform(data)], which
    throws on a null row; [catch] returns [null]. *)
Definition single_request {A} (reply : SbReply A) : Result (option A) :=
  match reply with
  | SbData (Some row) => Ok (Some row)
  | SbData None => Ok None
  | SbError _ => Ok None
  | SbReject _ => Ok None
  end.

(** [if (error) throw error; return true], [catch] returning [false]. *)
Definition delete_request (reply : SbReply unit) : Result bool :=
  match reply with
  | SbData _ => Ok true
  | SbError _ => Ok false
  | SbReject _ => Ok false
  end.

Definition getNotes (t : nat) (userId : string) : Result (list Note) :=
  list_request (sb_notes_select supabase t userId).

Definition createNote (t : nat) (note : OpData) : Result (option Note) :=
  single_request (sb_notes_insert supabase t note).

Definition updateNote (t : nat) (noteId : string) (updates : OpData)
  : Result (option Note) :=
  single_request (sb_notes_update supabase t noteId updates).

Definition deleteNote (t : nat) (noteId : string) : Result bool :=
  delete_request (sb_notes_delete supabase t noteId).

Definition getChatThreads (t : nat) (userId : string) : Result (list ChatThread) :=
  list_request (sb_chat_threads_select supabase t userId).

Definition createChatThread (t : nat) (thread : OpData) : Result (option ChatThread) :=
  single_request (sb_chat_threads_insert supabase t thread).

Definition updateChatThread (t : nat) (threadId : string) (updates : OpData)
  : Result (option ChatThread) :=
  single_request (sb_chat_threads_update supabase t threadId updates).

Definition deleteChatThread (t : nat) (threadId : string) : Result bool :=
  delete_request (sb_chat_threads_delete supabase t threadId).

Definition getLabels (t : nat) (userId : string) : Result (list Label) :=
  list_request (sb_labels_select supabase t userId).

Definition createLabel (t : nat) (label : OpData) : Result (option Label) :=
  single_request (sb_labels_insert supabase t label).

Definition deleteLabel (t : nat) (labelId : string) : Result bool :=
  delete_request (sb_labels_delete supabase t labelId).

(** The [noteData] object of [saveNote]: the fields of the note under the
    given user, without id and timestamps (the empty id and Invalid Date
    stand for the absent fields). *)
Definition noteData (note : Note) (userId : string) : Note :=
  mkNote "" (Some userId) (note_title note) (note_content note)
    (note_color note) (note_pinned note) (note_archived note)
    (note_labels note) (note_imageUrl note) (note_audioUrl note)
    (note_audioTranscript note) (note_checklistItems note)
    (note_reminderDate note) None None.

Definition has_code (e : JsError) (code : string) : bool :=
  match error_code e with
  | Some c => String.eqb c code
  | None => false
  end.

(** [saveNote]: update when the note has an id other than 'temp'; create
    when it has none or when the update did not produce a note. *)
Definition saveNote (t : nat) (note : Note) (userId : string)
  : Result (option Note) :=
  let create := createNote t (DataNote (noteData note userId)) in
  let body :=
    if truthy (note_id note) && negb (String.eqb (note_id note) "temp") then
      match updateNote t (note_id note) (DataNote note) with
      | Ok (Some updatedNote) => Ok (Some updatedNote)
      | Ok None => create
      | Throw updateError =>
          if has_code updateError "PGRST116" then create
          else if has_code updateError "42501" then Ok None
          else Throw updateError
      end
    else create in
  match body with
  | Ok r => Ok r
  | Throw _ => Ok None
  end.

(** The shipped client, as the engine sees it. *)
Definition client : RemoteClient :=
  mkRemoteClient getNotes createNote updateNote deleteNote saveNote
    getChatThreads createChatThread updateChatThread deleteChatThread
    getLabels createLabel deleteLabel.

End Methods.
End DatabaseService.

(** ** SyncService (services/syncService.ts) *)

Section SyncService.
Variable env : Env.

(** [new Date()] and [Date.now()]. *)
Definition newDate : M Date := gets (fun w => Some (now env (tick w))).
Definition Date_now : M Z := gets (fun w => now env (tick w)).

Definition storageError : JsError := mkError None "AsyncStorage".
Definition rangeError : JsError := mkError None "Invalid time value".

(** An AsyncStorage call is recorded and rejects when the environment
    says so; the item is read or written by the caller afterwards. *)
Definition AsyncStorage_call (c : StorageCall) : M unit :=
  fun w =>
    let w' := record_event (EvStorage c) w in
    if storageRejects env (tick w) c then (Throw storageError, w')
    else (Ok tt, w').

(** A call to a remote collaborator is recorded and answered by the
    environment. *)
Definition remote_call {A} (c : RemoteCall) (answer : nat -> Result A) : M A :=
  fun w => (answer (tick w), record_event (EvRemote c) w).

Definition db : RemoteClient := databaseService env.

(** *** Persistence *)

Definition savePendingOperations : M unit :=
  try_catch
    (AsyncStorage_call (SetItem KeyPendingOperations) ;;;
     modify (fun w =>
       set_storage (fun st =>
         mkStorage (item_notes st) (item_chatThreads st) (item_labels st)
           (Some (PendingOperation_toJSON <$> pendingOperations w))
           (item_lastSyncTime st)) w))
    (fun _ => ret tt).

Definition loadPendingOperations : M unit :=
  try_catch
    (AsyncStorage_call (GetItem KeyPendingOperations) ;;;
     let! data := gets (fun w => item_pendingOperations (storage w)) in
     match data with
     | Some ops =>
         modify (set_pendingOperations (PendingOperation_revive <$> ops)) ;;;
         modify (fun w => set_pendingChanges (length (pendingOperations w)) w)
     | None => ret tt
     end)
    (fun _ => ret tt).

Definition loadLastSyncTime : M unit :=
  try_catch
    (AsyncStorage_call (GetItem KeyLastSyncTime) ;;;
     let! data := gets (fun w => item_lastSyncTime (storage w)) in
     match data with
     | Some s =>
         if truthy s then modify (set_lastSyncTime (DateCodec.Date_parse s))
         else ret tt
     | None => ret tt
     end)
    (fun _ => ret tt).

Definition saveLastSyncTime : M unit :=
  try_catch
    (let! last := gets (fun w => lastSyncTime (syncStatus w)) in
     match last with
     | Some (Some t) =>
         AsyncStorage_call (SetItem KeyLastSyncTime) ;;;
         modify (set_storage (fun st =>
           mkStorage (item_notes st) (item_chatThreads st) (item_labels st)
             (item_pendingOperations st) (Some (DateCodec.toISOString t))))
     | Some None => throw rangeError
     | None => ret tt
     end)
    (fun _ => ret tt).

(** *** Local storage operations *)

Definition getLocalNotes (userId : string) : M (list Note) :=
  try_catch
    (AsyncStorage_call (GetItem (KeyNotes userId)) ;;;
     let! data := gets (fun w => item_notes (storage w) !! userId) in
     match data with
     | None => ret []
     | Some l => ret (Note_revive <$> l)
     end)
    (fun _ => ret []).

Definition saveLocalNotes (userId : string) (notes : list Note) : M unit :=
  try_catch
    (AsyncStorage_call (SetItem (KeyNotes userId)) ;;;
     modify (set_storage (fun st =>
       mkStorage (<[userId := Note_toJSON <$> notes]> (item_notes st))
         (item_chatThreads st) (item_labels st)
         (item_pendingOperations st) (item_lastSyncTime st))))
    (fun _ => ret tt).

Definition updateLocalNote (userId : string) (note : Note) : M unit :=
  let! notes := getLocalNotes userId in
  let notes' :=
    match findIndex (fun n => String.eqb (note_id n) (note_id note)) notes with
    | Some index => <[index := note]> notes
    | None => note :: notes
    end in
  saveLocalNotes userId notes'.

Definition removeLocalNote (userId : string) (noteId : string) : M unit :=
  let! notes := getLocalNotes userId in
  let filteredNotes :=
    List.filter (fun n => negb (String.eqb (note_id n) noteId)) notes in
  saveLocalNotes userId filteredNotes.

Definition getLocalChatThreads (userId : string) : M (list ChatThread) :=
  try_catch
    (AsyncStorage_call (GetItem (KeyChatThreads userId)) ;;;
     let! data := gets (fun w => item_chatThreads (storage w) !! userId) in
     match data with
     | None => ret []
     | Some l => ret (ChatThread_revive <$> l)
     end)
    (fun _ => ret []).

Definition saveLocalChatThreads (userId : string) (threads : list ChatThread)
  : M unit :=
  try_catch
    (AsyncStorage_call (SetItem (KeyChatThreads userId)) ;;;
     modify (set_storage (fun st =>
       mkStorage (item_notes st)
         (<[userId := ChatThread_toJSON <$> threads]> (item_chatThreads st))
         (item_labels st) (item_pendingOperations st)
         (item_lastSyncTime st))))
    (fun _ => ret tt).

Definition updateLocalChatThread (userId : string) (thread : ChatThread)
  : M unit :=
  let! threads := getLocalChatThreads userId in
  let threads' :=
    match findIndex (fun t => String.eqb (thread_id t) (thread_id thread))
            threads with
    | Some index => <[index := thread]> threads
    | None => thread :: threads
    end in
  saveLocalChatThreads userId threads'.

Definition getLocalLabels (userId : string) : M (list Label) :=
  try_catch
    (AsyncStorage_call (GetItem (KeyLabels userId)) ;;;
     let! data := gets (fun w => item_labels (storage w) !! userId) in
     ret (default [] data))
    (fun _ => ret []).

Definition saveLocalLabels (userId : string) (labels : list Label) : M unit :=
  try_catch
    (AsyncStorage_call (SetItem (KeyLabels userId)) ;;;
     modify (set_storage (fun st =>
       mkStorage (item_notes st) (item_chatThreads st)
         (<[userId := labels]> (item_labels st))
         (item_pendingOperations st) (item_lastSyncTime st))))
    (fun _ => ret tt).

(** *** Pending operations management *)

Definition addPendingOperation (type : OpType) (collection : Collection)
    (data : OpData) : M unit :=
  let! stamp := Date_now in
  let! timestamp := newDate in
  let operation : PendingOperation :=
    mkPendingOperation
      (if truthy (data_id data) then data_id data
       else OpType_name type +:+ "_" +:+ pretty stamp)
      type collection data timestamp 0 in
  modify (fun w => set_pendingOperations (pendingOperations w ++ [operation]) w) ;;;
  modify (fun w => set_pendingChanges (length (pendingOperations w)) w) ;;;
  savePendingOperations.

Definition is_some {A} (o : option A) : bool :=
  match o with Some _ => true | None => false end.

Definition processPendingNoteOperation (operation : PendingOperation) : M bool :=
  let data := op_data operation in
  match op_type operation with
  | OpCreate =>
      let! createdNote :=
        remote_call (CallCreateNote data) (fun t => db_createNote db t data) in
      ret (is_some createdNote)
  | OpUpdate =>
      let! updatedNote :=
        remote_call (CallUpdateNote (data_id data) data)
          (fun t => db_updateNote db t (data_id data) data) in
      ret (is_some updatedNote)
  | OpDelete =>
      remote_call (CallDeleteNote (data_id data))
        (fun t => db_deleteNote db t (data_id data))
  end.

Definition processPendingChatThreadOperation (operation : PendingOperation)
  : M bool :=
  let data := op_data operation in
  match op_type operation with
  | OpCreate =>
      let! createdThread :=
        remote_call (CallCreateChatThread data)
          (fun t => db_createChatThread db t data) in
      ret (is_some createdThread)
  | OpUpdate =>
      let! updatedThread :=
        remote_call (CallUpdateChatThread (data_id data) data)
          (fun t => db_updateChatThread db t (data_id data) data) in
      ret (is_some updatedThread)
  | OpDelete =>
      remote_call (CallDeleteChatThread (data_id data))
        (fun t => db_deleteChatThread db t (data_id data))
  end.

Definition processPendingLabelOperation (operation : PendingOperation) : M bool :=
  let data := op_data operation in
  match op_type operation with
  | OpCreate =>
      let! createdLabel :=
        remote_call (CallCreateLabel data) (fun t => db_createLabel db t data) in
      ret (is_some createdLabel)
  | OpDelete =>
      remote_call (CallDeleteLabel (data_id data))
        (fun t => db_deleteLabel db t (data_id data))
  | _ => ret false
  end.

(** The [switch (operation.collection)] of [processPendingOperations]. *)
Definition replay (operation : PendingOperation) : M bool :=
  match op_collection operation with
  | ColNotes => processPendingNoteOperation operation
  | ColChatThreads => processPendingChatThreadOperation operation
  | ColLabels => processPendingLabelOperation operation
  end.

Definition retry (operation : PendingOperation) : PendingOperation :=
  mkPendingOperation (op_id operation) (op_type operation)
    (op_collection operation) (op_data operation) (op_timestamp operation)
    (S (op_retryCount operation)).

(** What one iteration of the [for] loop found. *)
Inductive Attempt : Type := Succeeded | Failed | Threw.

Definition attempt (operation : PendingOperation) : M Attempt :=
  try_catch
    (let! success := replay operation in
     ret (if success then Succeeded else Failed))
    (fun _ => ret Threw).

(** One iteration: the operation as the loop leaves it (its [retryCount]
    is incremented in place) and the ids pushed on
    [successfulOperations]. *)
Definition settle (operation : PendingOperation) (a : Attempt)
  : PendingOperation * list string :=
  match a with
  | Succeeded => (operation, [op_id operation])
  | Failed =>
      let operation' := retry operation in
      if (MAX_RETRY_COUNT <=? op_retryCount operation')%nat
      then (operation', [op_id operation])
      else (operation', [])
  | Threw => (retry operation, [])
  end.

(** The [for (const operation of this.pendingOperations)] loop: the
    operations as they stand afterwards, and [successfulOperations]. *)
Fixpoint drain (ops : list PendingOperation)
  : M (list PendingOperation * list string) :=
  match ops with
  | [] => ret ([], [])
  | operation :: rest =>
      let! a := attempt operation in
      let! r := drain rest in
      ret ((settle operation a).1 :: r.1, (settle operation a).2 ++ r.2)
  end.

Definition processPendingOperations : M unit :=
  let! ops := gets pendingOperations in
  if (length ops =? 0)%nat then ret tt
  else
    let! user := gets currentUser in
    match user with
    | None => ret tt
    | Some _ =>
        let! r := drain ops in
        let successfulOperations := r.2 in
        modify (set_pendingOperations
          (List.filter (fun op => negb (includes (op_id op) successfulOperations))
             r.1)) ;;;
        modify (fun w => set_pendingChanges (length (pendingOperations w)) w) ;;;
        savePendingOperations
    end.

(** *** Search index operations *)

Definition indexNote (note : Note) (userId : string) : M unit :=
  try_catch
    (let searchText :=
       trim (join " "
         (List.filter truthy
            [note_title note; note_content note;
             default "" (note_audioTranscript note);
             join " " (note_labels note)])) in
     if truthy searchText then
       remote_call (CallIndexNote note userId)
         (fun t => pinecone_indexNote env t note userId)
     else ret tt)
    (fun _ => ret tt).

Fixpoint indexNotes (notes : list Note) (userId : string) : M unit :=
  match notes with
  | [] => ret tt
  | note :: rest => indexNote note userId ;;; indexNotes rest userId
  end.

Definition updateSearchIndex (notes : list Note) (userId : string) : M unit :=
  try_catch
    (let notesWithContent :=
       List.filter (fun note =>
         truthy (trim (note_title note)) || truthy (trim (note_content note))
         || truthy (default "" (note_audioTranscript note))) notes in
     indexNotes notesWithContent userId)
    (fun _ => ret tt).

(** *** Data merging with conflict resolution *)

Definition seed {A} (id : A -> string) (l : list A) : JsMap A :=
  foldl (fun m x => Map_set (id x) x m) [] l.

(** The [for (const cloudNote of cloudNotes)] loop of [mergeNotes]. *)
Fixpoint mergeNotes_loop (cloudNotes : list Note) (noteMap : JsMap Note)
  : M (JsMap Note) :=
  match cloudNotes with
  | [] => ret noteMap
  | cloudNote :: rest =>
      match Map_get (note_id cloudNote) noteMap with
      | None =>
          mergeNotes_loop rest (Map_set (note_id cloudNote) cloudNote noteMap)
      | Some localNote =>
          if Date_gt (note_updatedAt cloudNote) (note_updatedAt localNote) then
            mergeNotes_loop rest (Map_set (note_id cloudNote) cloudNote noteMap)
          else if Date_gt (note_updatedAt localNote) (note_updatedAt cloudNote) then
            try_catch
              (addPendingOperation OpUpdate ColNotes (DataNote localNote))
              (fun _ => ret tt) ;;;
            mergeNotes_loop rest noteMap
          else mergeNotes_loop rest noteMap
      end
  end.

(** [(a, b) => b.updatedAt.getTime() - a.updatedAt.getTime()] *)
Definition newestFirst {A} (updatedAt : A -> Date) (a b : A) : Z :=
  nan_to_zero (Date_sub (updatedAt b) (updatedAt a)).

Definition mergeNotes (localNotes cloudNotes : list Note) : M (list Note) :=
  let! noteMap := mergeNotes_loop cloudNotes (seed note_id localNotes) in
  ret (Array_sort (newestFirst note_updatedAt) (Map_values noteMap)).

Definition mergeChatThreads (localThreads cloudThreads : list ChatThread)
  : list ChatThread :=
  let threadMap :=
    foldl (fun threadMap cloudThread =>
      match Map_get (thread_id cloudThread) threadMap with
      | None => Map_set (thread_id cloudThread) cloudThread threadMap
      | Some localThread =>
          if Date_gt (thread_updatedAt cloudThread) (thread_updatedAt localThread)
          then Map_set (thread_id cloudThread) cloudThread threadMap
          else threadMap
      end) (seed thread_id localThreads) cloudThreads in
  Array_sort (newestFirst thread_updatedAt) (Map_values threadMap).

(** [mergeLabels] on labels as [Label] declares them, each with a name.
    [transformLabelFromDb] passes a [null] name through, and on such a
    label [a.name.localeCompare] throws when the sort hands it over as
    [a]: that the model does not have, and what is stated of [syncLabels]
    over the shipped client is stated for the case that it returns. *)
Definition mergeLabels (localLabels cloudLabels : list Label) : list Label :=
  let labelMap :=
    foldl (fun m label => Map_set (label_id label) label m)
      (seed label_id localLabels) cloudLabels in
  Array_sort (fun a b => localeCompare env (label_name a) (label_name b))
    (Map_values labelMap).

(** *** Sync of the individual collections *)

Definition syncNotes (userId : string) : M unit :=
  try_catch
    (let! localNotes := getLocalNotes userId in
     let! cloudNotes :=
       remote_call (CallGetNotes userId) (fun t => db_getNotes db t userId) in
     let! mergedNotes := mergeNotes localNotes cloudNotes in
     saveLocalNotes userId mergedNotes ;;;
     updateSearchIndex mergedNotes userId)
    (fun error => throw error).

Definition syncChatThreads (userId : string) : M unit :=
  try_catch
    (let! localThreads := getLocalChatThreads userId in
     let! cloudThreads :=
       remote_call (CallGetChatThreads userId)
         (fun t => db_getChatThreads db t userId) in
     let mergedThreads := mergeChatThreads localThreads cloudThreads in
     saveLocalChatThreads userId mergedThreads)
    (fun error => throw error).

Definition syncLabels (userId : string) : M unit :=
  try_catch
    (let! localLabels := getLocalLabels userId in
     let! cloudLabels :=
       remote_call (CallGetLabels userId) (fun t => db_getLabels db t userId) in
     let mergedLabels := mergeLabels localLabels cloudLabels in
     saveLocalLabels userId mergedLabels)
    (fun error => throw error).

(** *** Main sync operation *)

(** The statements of the [try] block of [syncAll] after the flag is
    set. *)
Definition syncSteps (user : AuthUser) : M bool :=
  processPendingOperations ;;;
  syncNotes (user_id user) ;;;
  syncChatThreads (user_id user) ;;;
  syncLabels (user_id user) ;;;
  let! d := newDate in
  modify (set_lastSyncTime d) ;;;
  saveLastSyncTime ;;;
  ret true.

(** The [try] block of [syncAll] with its [catch]. *)
Definition syncCycle (user : AuthUser) : M bool :=
  try_catch
    (modify (set_isSyncing true) ;;; syncSteps user)
    (fun _ => ret false).

Definition syncAll : M bool :=
  let! syncing := gets (fun w => isSyncing (syncStatus w)) in
  if syncing then ret false
  else
    let! user := gets currentUser in
    match user with
    | None => ret false
    | Some user =>
        let! online := gets (fun w => isOnline (syncStatus w)) in
        if negb online then ret false
        else try_finally (syncCycle user) (set_isSyncing false)
    end.

(** *** Note operations with sync *)

(** [user?.id || 'guest'] *)
Definition storageUserId (user : option AuthUser) : string :=
  match user with
  | Some u => if truthy (user_id u) then user_id u else "guest"
  | None => "guest"
  end.

(** The statements of [saveNote] after the local write: the cloud sync,
    or the reason there is none. *)
Definition pushNote (user : option AuthUser) (note : Note) : M unit :=
  let! online := gets (fun w => isOnline (syncStatus w)) in
  match user with
  | Some u =>
      if negb (String.eqb (user_id u) "guest") && online then
        try_catch
          (let! savedNote :=
             remote_call (CallSaveNote note (user_id u))
               (fun t => db_saveNote db t note (user_id u)) in
           match savedNote with
           | Some _ => indexNote note (user_id u)
           | None => addPendingOperation OpUpdate ColNotes (DataNote note)
           end)
          (fun _ => addPendingOperation OpUpdate ColNotes (DataNote note))
      else if String.eqb (user_id u) "guest" then ret tt
      else addPendingOperation OpUpdate ColNotes (DataNote note)
  | None => ret tt
  end.

Definition saveNote (note : Note) : M unit :=
  let! user := gets currentUser in
  try_catch
    (let userId := storageUserId user in
     updateLocalNote userId note ;;;
     pushNote user note)
    (fun _ => ret tt).

Definition deleteNote (noteId : string) : M unit :=
  let! user := gets currentUser in
  try_catch
    (let userId := storageUserId user in
     removeLocalNote userId noteId ;;;
     let! online := gets (fun w => isOnline (syncStatus w)) in
     match user with
     | Some u =>
         if negb (String.eqb (user_id u) "guest") && online then
           try_catch
             (let! success :=
                remote_call (CallDeleteNote noteId)
                  (fun t => db_deleteNote db t noteId) in
              if success then ret tt
              else addPendingOperation OpDelete ColNotes (DataId noteId))
             (fun _ => addPendingOperation OpDelete ColNotes (DataId noteId)) ;;;
           try_catch
             (remote_call (CallUnindexNote noteId)
                (fun t => pinecone_deleteNote env t noteId))
             (fun _ => ret tt)
         else if String.eqb (user_id u) "guest" then ret tt
         else addPendingOperation OpDelete ColNotes (DataId noteId)
     | None => ret tt
     end)
    (fun _ => ret tt).

(** *** Chat thread operations *)

Definition saveChatThread (thread : ChatThread) : M unit :=
  let! user := gets currentUser in
  match user with
  | None => updateLocalChatThread "guest" thread
  | Some u =>
      try_catch
        (updateLocalChatThread (user_id u) thread ;;;
         let! online := gets (fun w => isOnline (syncStatus w)) in
         if online then
           let! savedThread :=
             remote_call (CallUpdateChatThread (thread_id thread) (DataChatThread thread))
               (fun t => db_updateChatThread db t (thread_id thread)
                           (DataChatThread thread)) in
           match savedThread with
           | Some _ => ret tt
           | None => addPendingOperation OpUpdate ColChatThreads (DataChatThread thread)
           end
         else addPendingOperation OpUpdate ColChatThreads (DataChatThread thread))
        (fun _ => addPendingOperation OpUpdate ColChatThreads (DataChatThread thread))
  end.

(** *** The triggers of a sync *)

(** The NetInfo listener; [connected] is [state.isConnected], possibly
    null. *)
Definition onNetInfo (connected : option bool) : M unit :=
  let! wasOffline := gets (fun w => negb (isOnline (syncStatus w))) in
  modify (set_isOnline (default false connected)) ;;;
  let! online := gets (fun w => isOnline (syncStatus w)) in
  if wasOffline && online then syncAll ;;; ret tt else ret tt.

(** The AppState listener, for [nextAppState === 'active']. *)
Definition onAppActive : M unit :=
  let! online := gets (fun w => isOnline (syncStatus w)) in
  if online then syncAll ;;; ret tt else ret tt.

(** The callback of the periodic timer. *)
Definition onInterval : M unit :=
  let! st := gets syncStatus in
  if isOnline st && negb (isSyncing st) then syncAll ;;; ret tt else ret tt.

Definition forcSync : M bool := syncAll.

End SyncService.

(** [keeps f c]: running [c] does not change the observation [f] of the
    world, whether [c] returns or throws. *)
Definition keeps {X A} (f : World -> X) (c : M A) : Prop :=
  forall w, f (c w).2 = f w.

(** [total c]: [c] never throws. *)
Definition total {A} (c : M A) : Prop :=
  forall w, exists a, (c w).1 = Ok a.

Definition flag (w : World) : bool := isSyncing (syncStatus w).

(** ** The guards and the triggers of a sync

    [syncAll] tests its guards and sets [isSyncing] without an [await] in
    between, and resets it in [finally]; nothing else writes the flag. *)

(** The guards of [syncAll]: the user it would sync for, if it goes
    ahead. *)
Definition admits (w : World) : option AuthUser :=
  if isSyncing (syncStatus w) then None
  else
    match currentUser w with
    | None => None
    | Some user => if isOnline (syncStatus w) then Some user else None
    end.

Inductive Trigger : Type :=
  | PeriodicTimer
  | ConnectivityChange (connected : option bool)
  | AppForeground
  | ExplicitRefresh.

(** What the listener of a trigger does itself, and whether it then calls
    [syncAll]. *)
Definition listen (t : Trigger) (w : World) : World * bool :=
  match t with
  | PeriodicTimer =>
      (w, isOnline (syncStatus w) && negb (isSyncing (syncStatus w)))
  | ConnectivityChange connected =>
      let w' := set_isOnline (default false connected) w in
      (w', negb (isOnline (syncStatus w)) && isOnline (syncStatus w'))
  | AppForeground => (w, isOnline (syncStatus w))
  | ExplicitRefresh => (w, true)
  end.

(** ** Sample collaborators and worlds, used to exercise the statements *)

Module Sample.

(** A remote client whose store is empty and whose writes fail. *)
Definition offlineClient : RemoteClient :=
  mkRemoteClient
    (fun _ _ => Ok []) (fun _ _ => Ok None) (fun _ _ _ => Ok None)
    (fun _ _ => Ok false) (fun _ _ _ => Ok None)
    (fun _ _ => Ok []) (fun _ _ => Ok None) (fun _ _ _ => Ok None)
    (fun _ _ => Ok false)
    (fun _ _ => Ok []) (fun _ _ => Ok None) (fun _ _ => Ok false).

Definition codePointCompare (a b : string) : Z :=
  match String.compare a b with
  | Lt => -1
  | Eq => 0
  | Gt => 1
  end.

Definition envWith (client : RemoteClient) : Env :=
  mkEnv client (fun _ _ _ => Ok tt) (fun _ _ => Ok tt)
    (fun _ _ => false) (fun n => 1700000000000 + Z.of_nat n)
    codePointCompare.

Definition env : Env := envWith offlineClient.

Definition alice : AuthUser :=
  mkAuthUser "auth0|alice" "alice@example.com" "Alice" "" true.

Definition emptyStorage : AsyncStorage := mkStorage ∅ ∅ ∅ None None.

Definition idleStatus : SyncStatus := mkSyncStatus None true false 0 0.

(** A freshly started engine, online, with [alice] signed in. *)
Definition signedIn : World :=
  mkWorld idleStatus [] (Some alice) emptyStorage [].

(** The same without a user: guest mode. *)
Definition guest : World :=
  mkWorld idleStatus [] None emptyStorage [].

Definition networkError : JsError := mkError None "Network request failed".

Definition label (id name : string) : Label := mkLabel id None name None.

Definition note (id title : string) (updatedAt : Z) : Note :=
  mkNote id None title "" "default" false false [] None None None [] None
    (Some 0) (Some updatedAt).

Definition thread (id title : string) (updatedAt : Z) : ChatThread :=
  mkChatThread id None title [] (Some 0) (Some updatedAt).

(** Every request rejects. *)
Definition rejectingClient : RemoteClient :=
  mkRemoteClient
    (fun _ _ => Throw networkError) (fun _ _ => Throw networkError)
    (fun _ _ _ => Throw networkError) (fun _ _ => Throw networkError)
    (fun _ _ _ => Throw networkError)
    (fun _ _ => Throw networkError) (fun _ _ => Throw networkError)
    (fun _ _ _ => Throw networkError) (fun _ _ => Throw networkError)
    (fun _ _ => Throw networkError) (fun _ _ => Throw networkError)
    (fun _ _ => Throw networkError).

Definition rejecting : Env := envWith rejectingClient.

(** Every write succeeds; the remote store is empty. *)
Definition healthyClient : RemoteClient :=
  mkRemoteClient
    (fun _ _ => Ok []) (fun _ _ => Ok (Some (note "n0" "created" 1)))
    (fun _ id _ => Ok (Some (note id "updated" 1))) (fun _ _ => Ok true)
    (fun _ n _ => Ok (Some n))
    (fun _ _ => Ok []) (fun _ _ => Ok (Some (thread "t0" "created" 1)))
    (fun _ id _ => Ok (Some (thread id "updated" 1))) (fun _ _ => Ok true)
    (fun _ _ => Ok []) (fun _ _ => Ok (Some (label "l0" "created")))
    (fun _ _ => Ok true).

Definition healthy : Env := envWith healthyClient.

Definition pending (type : OpType) (collection : Collection) (data : OpData)
    (retryCount : nat) : PendingOperation :=
  mkPendingOperation (data_id data) type collection data
    (Some 1700000000000) retryCount.

Definition withQueue (q : list PendingOperation) (w : World) : World :=
  set_pendingChanges (length q) (set_pendingOperations q w).

(** A queue of two: a delete, and an update carrying a note. *)
Definition twoPending : World :=
  withQueue
    [pending OpDelete ColNotes (DataId "n0") 0;
     pending OpUpdate ColNotes (DataNote (note "n1" "a" 5)) 1]
    signedIn.

(** The shipped client over a Supabase whose notes table does not have
    the note (update answers PGRST116) and refuses inserts. *)
Definition notFound : JsError := mkError (Some "PGRST116") "no rows".

Definition missingRowSupabase : Supabase :=
  mkSupabase
    (fun _ _ => SbData (Some [])) (fun _ _ => SbReject networkError)
    (fun _ _ _ => SbError notFound) (fun _ _ => SbData None)
    (fun _ _ => SbData (Some [])) (fun _ _ => SbReject networkError)
    (fun _ _ _ => SbError notFound) (fun _ _ => SbData None)
    (fun _ _ => SbData (Some [])) (fun _ _ => SbReject networkError)
    (fun _ _ => SbData None).

Definition missingRow : Env :=
  envWith (DatabaseService.client missingRowSupabase).

(** The shipped client over a Supabase whose notes table cannot be
    reached; the chat threads table holds one thread and the labels table
    one label. *)
Definition notesDownSupabase : Supabase :=
  mkSupabase
    (fun _ _ => SbReject networkError) (fun _ _ => SbReject networkError)
    (fun _ _ _ => SbReject networkError) (fun _ _ => SbReject networkError)
    (fun _ _ => SbData (Some [thread "t1" "remote thread" 5]))
    (fun _ _ => SbReject networkError)
    (fun _ _ _ => SbError notFound) (fun _ _ => SbData None)
    (fun _ _ => SbData (Some [label "l1" "work"]))
    (fun _ _ => SbReject networkError)
    (fun _ _ => SbData None).

Definition notesDown : Env :=
  envWith (DatabaseService.client notesDownSupabase).

End Sample.

(** ** The drain loop, without its monadic plumbing

    The loop never throws; these are its results. *)

(** One iteration's [try]/[catch]: what the replay of [operation] came to,
    and the world it left. *)
Definition attempted (env : Env) (operation : PendingOperation) (w : World)
  : Attempt * World :=
  match replay env operation w with
  | (Ok true, w') => (Succeeded, w')
  | (Ok false, w') => (Failed, w')
  | (Throw _, w') => (Threw, w')
  end.

(** The operations after the loop, [successfulOperations], and the world. *)
Fixpoint drained (env : Env) (ops : list PendingOperation) (w : World)
  : list PendingOperation * list string * World :=
  match ops with
  | [] => ([], [], w)
  | operation :: rest =>
      let r := attempted env operation w in
      let d := drained env rest r.2 in
      ((settle operation r.1).1 :: d.1.1, (settle operation r.1).2 ++ d.1.2, d.2)
  end.

(** The queue after [n] sync cycles' worth of draining. *)
Fixpoint drainTimes (env : Env) (n : nat) (w : World) : World :=
  match n with
  | O => w
  | S n' => drainTimes env n' (processPendingOperations env w).2
  end.

(** The entries of a queue for one entity id. *)
Definition entriesFor (id : string) (q : list PendingOperation)
  : list PendingOperation :=
  List.filter (fun o => String.eqb (op_id o) id) q.

(** ** A cycle over the shipped client, stage by stage *)

(** The rows of a reply as the list readers of [DatabaseService] return
    them: nothing when Supabase reported an error, rejected, or answered
    [null]. *)
Definition rows {A} (reply : SbReply (list A)) : list A :=
  match reply with
  | SbData (Some l) => l
  | _ => []
  end.

(** What [getLocalChatThreads] and [getLocalLabels] return in a world. *)
Definition localChatThreads (env : Env) (u : string) (w : World)
  : list ChatThread :=
  if storageRejects env (tick w) (GetItem (KeyChatThreads u)) then []
  else ChatThread_revive <$> default [] (item_chatThreads (storage w) !! u).

Definition localLabels (env : Env) (u : string) (w : World) : list Label :=
  if storageRejects env (tick w) (GetItem (KeyLabels u)) then []
  else default [] (item_labels (storage w) !! u).

(** The statements of the [try] block of [syncAll] from the label sync
    on. *)
Definition syncLabelsOn (env : Env) (user : AuthUser) : M bool :=
  syncLabels env (user_id user) ;;;
  let! d := newDate env in
  modify (set_lastSyncTime d) ;;;
  saveLastSyncTime env ;;;
  ret true.

(** ** The merge, without its plumbing *)

Section Reconcile.
Context {A : Type} (id : A -> string) (updatedAt : A -> Date).

(** One turn of the loop over the cloud entities of [mergeNotes] and
    [mergeChatThreads], as far as the map goes. *)
Definition reconcile (m : JsMap A) (cloud : A) : JsMap A :=
  match Map_get (id cloud) m with
  | None => Map_set (id cloud) cloud m
  | Some localEntity =>
      if Date_gt (updatedAt cloud) (updatedAt localEntity)
      then Map_set (id cloud) cloud m
      else m
  end.

(** Which of the two the map holds afterwards. *)
Definition lastWriteWins (localEntity : option A) (cloud : A) : A :=
  match localEntity with
  | None => cloud
  | Some l => if Date_gt (updatedAt cloud) (updatedAt l) then cloud else l
  end.

(** The entity with a given id in a collection. *)
Definition findBy (k : string) (l : list A) : option A :=
  List.find (fun e => String.eqb (id e) k) l.

(** A map built by the merges: its keys are the ids of its values. *)
Definition keyed (m : JsMap A) : Prop :=
  Forall (fun kv => kv.1 = id kv.2) m.
End Reconcile.

(** The local notes [mergeNotes] enqueues for upload, in order. *)
Fixpoint localWinners (cloudNotes : list Note) (noteMap : JsMap Note)
  : list Note :=
  match cloudNotes with
  | [] => []
  | cloudNote :: rest =>
      match Map_get (note_id cloudNote) noteMap with
      | None =>
          localWinners rest (Map_set (note_id cloudNote) cloudNote noteMap)
      | Some localNote =>
          if Date_gt (note_updatedAt cloudNote) (note_updatedAt localNote) then
            localWinners rest (Map_set (note_id cloudNote) cloudNote noteMap)
          else if Date_gt (note_updatedAt localNote) (note_updatedAt cloudNote) then
            localNote :: localWinners rest noteMap
          else localWinners rest noteMap
      end
  end.

(** What of a pending operation does not depend on the clock. *)
Definition opContents (o : PendingOperation) : OpType * Collection * OpData * nat :=
  (op_type o, op_collection o, op_data o, op_retryCount o).

(** The notes a merge returns, as a function of the two snapshots. *)
Definition mergedNotes (localNotes cloudNotes : list Note) : list Note :=
  Array_sort (newestFirst note_updatedAt)
    (Map_values (foldl (reconcile note_id note_updatedAt)
                   (seed note_id localNotes) cloudNotes)).

(** Whether [saveNote] goes to the remote store. *)
Definition goesRemote (w : World) : bool :=
  match currentUser w with
  | Some u => negb (String.eqb (user_id u) "guest") && isOnline (syncStatus w)
  | None => false
  end.

(** ** Sequences of requests to the engine *)

Inductive Request : Type :=
  | ReqSaveNote (note : Note)
  | ReqDeleteNote (noteId : string)
  | ReqSaveChatThread (thread : ChatThread)
  | ReqSync (t : Trigger).

Definition perform (env : Env) (r : Request) : M unit :=
  match r with
  | ReqSaveNote note => saveNote env note
  | ReqDeleteNote noteId => deleteNote env noteId
  | ReqSaveChatThread thread => saveChatThread env thread
  | ReqSync PeriodicTimer => onInterval env
  | ReqSync (ConnectivityChange connected) => onNetInfo env connected
  | ReqSync AppForeground => onAppActive env
  | ReqSync ExplicitRefresh => forcSync env ;;; ret tt
  end.

(** The world after a sequence of requests, each run to completion. *)
Fixpoint run (env : Env) (rs : list Request) (w : World) : World :=
  match rs with
  | [] => w
  | r :: rs' => run env rs' (perform env r w).2
  end.

(** ** The engine cut at its awaits

    JavaScript runs one callback at a time, and a callback gives way only
    at an [await].  A [Task] is a method of the engine cut there: [Sync] is
    code that runs without giving way, [Await] a place where the method is
    suspended and other callbacks may run.  [Enter] and [Leave] stand at
    the beginning and at the end of the [try] statement of [syncAll]: a
    sync cycle is in progress from the one to the other.

    The methods below are those of the sequential model, statement by
    statement, with the awaits of the source; run without anything in
    between they are the sequential methods ([complete]).  An awaited call
    of AsyncStorage or of a remote service is issued at once and answered
    after the suspension.  The drain loop goes over the live queue, which
    other callbacks may extend while the loop is suspended, so its length
    is not known when it begins: [fuel] bounds the number of its
    iterations, and a loop that is not interrupted needs no more than the
    length of the queue. *)

Module Async.

Inductive Task (A : Type) : Type :=
  | Return (a : A)
  | Raise (e : JsError)
  | Sync (upd : World -> World) (next : World -> Task A)
  | Await (rest : Task A)
  | Enter (rest : Task A)
  | Leave (rest : Task A).
Arguments Return {A}.
Arguments Raise {A}.
Arguments Sync {A}.
Arguments Await {A}.
Arguments Enter {A}.
Arguments Leave {A}.

Fixpoint bind_task {A B} (t : Task A) (k : A -> Task B) : Task B :=
  match t with
  | Return a => k a
  | Raise e => Raise e
  | Sync upd next => Sync upd (fun w => bind_task (next w) k)
  | Await rest => Await (bind_task rest k)
  | Enter rest => Enter (bind_task rest k)
  | Leave rest => Leave (bind_task rest k)
  end.

Notation "'let*' x ':=' t 'in' k" := (bind_task t (fun x => k))
  (at level 10, x pattern, t at level 100, k at level 200).
Notation "t ';;*' k" := (bind_task t (fun _ => k))
  (at level 100, k at level 200, right associativity).

(** [try { t } catch (error) { h error }] *)
Fixpoint try_catch {A} (t : Task A) (h : JsError -> Task A) : Task A :=
  match t with
  | Return a => Return a
  | Raise e => h e
  | Sync upd next => Sync upd (fun w => try_catch (next w) h)
  | Await rest => Await (try_catch rest h)
  | Enter rest => Enter (try_catch rest h)
  | Leave rest => Leave (try_catch rest h)
  end.

(** [try { t } finally { f }] *)
Fixpoint try_finally {A} (t : Task A) (f : World -> World) : Task A :=
  match t with
  | Return a => Sync f (fun _ => Return a)
  | Raise e => Sync f (fun _ => Raise e)
  | Sync upd next => Sync upd (fun w => try_finally (next w) f)
  | Await rest => Await (try_finally rest f)
  | Enter rest => Enter (try_finally rest f)
  | Leave rest => Leave (try_finally rest f)
  end.

(** Code without an await, given by what it does to the world. *)
Definition atomic {A} (c : M A) : Task A :=
  Sync (fun w => (c w).2)
    (fun w => match (c w).1 with Ok a => Return a | Throw e => Raise e end).

(** [await t]: the caller is suspended until [t] has settled. *)
Fixpoint await {A} (t : Task A) : Task A :=
  match t with
  | Return a => Await (Return a)
  | Raise e => Await (Raise e)
  | Sync upd next => Sync upd (fun w => await (next w))
  | Await rest => Await (await rest)
  | Enter rest => Enter (await rest)
  | Leave rest => Leave (await rest)
  end.

(** An awaited call of AsyncStorage or of a remote service. *)
Definition io {A} (c : M A) : Task A := await (atomic c).

(** [counted t]: [t] is one sync cycle, in progress from its first
    statement to its last. *)
Fixpoint leaving {A} (t : Task A) : Task A :=
  match t with
  | Return a => Leave (Return a)
  | Raise e => Leave (Raise e)
  | Sync upd next => Sync upd (fun w => leaving (next w))
  | Await rest => Await (leaving rest)
  | Enter rest => Enter (leaving rest)
  | Leave rest => Leave (leaving rest)
  end.

Definition counted {A} (t : Task A) : Task A := Enter (leaving t).

(** A task run to its end with nothing in between. *)
Fixpoint complete {A} (t : Task A) : M A :=
  match t with
  | Return a => ret a
  | Raise e => throw e
  | Sync upd next => fun w => complete (next w) (upd w)
  | Await rest => complete rest
  | Enter rest => complete rest
  | Leave rest => complete rest
  end.

(** A task run up to its next await: what is left of it, the world, and
    the number of cycles in progress. *)
Fixpoint advance {A} (t : Task A) (w : World) (n : nat) : Task A * World * nat :=
  match t with
  | Sync upd next => advance (next w) (upd w) n
  | Enter rest => advance rest w (S n)
  | Leave rest => advance rest w (pred n)
  | _ => (t, w, n)
  end.

Section Methods.
Variable env : Env.

(** *** Persistence *)

Definition savePendingOperations : Task unit :=
  try_catch
    (let* ops := atomic (gets pendingOperations) in
     io (AsyncStorage_call env (SetItem KeyPendingOperations));;*
     atomic (modify (set_storage (fun st =>
       mkStorage (item_notes st) (item_chatThreads st) (item_labels st)
         (Some (PendingOperation_toJSON <$> ops)) (item_lastSyncTime st)))))
    (fun _ => Return tt).

Definition saveLastSyncTime : Task unit :=
  try_catch
    (let* last := atomic (gets (fun w => lastSyncTime (syncStatus w))) in
     match last with
     | Some (Some t) =>
         io (AsyncStorage_call env (SetItem KeyLastSyncTime));;*
         atomic (modify (set_storage (fun st =>
           mkStorage (item_notes st) (item_chatThreads st) (item_labels st)
             (item_pendingOperations st) (Some (DateCodec.toISOString t)))))
     | Some None => Raise (rangeError)
     | None => Return tt
     end)
    (fun _ => Return tt).

(** *** Local storage operations *)

Definition getLocalNotes (userId : string) : Task (list Note) :=
  try_catch
    (io (AsyncStorage_call env (GetItem (KeyNotes userId)));;*
     let* data := atomic (gets (fun w => item_notes (storage w) !! userId)) in
     match data with
     | None => Return []
     | Some l => Return (Note_revive <$> l)
     end)
    (fun _ => Return []).

Definition saveLocalNotes (userId : string) (notes : list Note) : Task unit :=
  try_catch
    (io (AsyncStorage_call env (SetItem (KeyNotes userId)));;*
     atomic (modify (set_storage (fun st =>
       mkStorage (<[userId := Note_toJSON <$> notes]> (item_notes st))
         (item_chatThreads st) (item_labels st)
         (item_pendingOperations st) (item_lastSyncTime st)))))
    (fun _ => Return tt).

Definition updateLocalNote (userId : string) (note : Note) : Task unit :=
  let* notes := await (getLocalNotes userId) in
  let notes' :=
    match findIndex (fun n => String.eqb (note_id n) (note_id note)) notes with
    | Some index => <[index := note]> notes
    | None => note :: notes
    end in
  await (saveLocalNotes userId notes').

Definition removeLocalNote (userId : string) (noteId : string) : Task unit :=
  let* notes := await (getLocalNotes userId) in
  let filteredNotes :=
    List.filter (fun n => negb (String.eqb (note_id n) noteId)) notes in
  await (saveLocalNotes userId filteredNotes).

Definition getLocalChatThreads (userId : string) : Task (list ChatThread) :=
  try_catch
    (io (AsyncStorage_call env (GetItem (KeyChatThreads userId)));;*
     let* data := atomic (gets (fun w => item_chatThreads (storage w) !! userId)) in
     match data with
     | None => Return []
     | Some l => Return (ChatThread_revive <$> l)
     end)
    (fun _ => Return []).

Definition saveLocalChatThreads (userId : string) (threads : list ChatThread)
  : Task unit :=
  try_catch
    (io (AsyncStorage_call env (SetItem (KeyChatThreads userId)));;*
     atomic (modify (set_storage (fun st =>
       mkStorage (item_notes st)
         (<[userId := ChatThread_toJSON <$> threads]> (item_chatThreads st))
         (item_labels st) (item_pendingOperations st)
         (item_lastSyncTime st)))))
    (fun _ => Return tt).

Definition updateLocalChatThread (userId : string) (thread : ChatThread)
  : Task unit :=
  let* threads := await (getLocalChatThreads userId) in
  let threads' :=
    match findIndex (fun t => String.eqb (thread_id t) (thread_id thread))
            threads with
    | Some index => <[index := thread]> threads
    | None => thread :: threads
    end in
  await (saveLocalChatThreads userId threads').

Definition getLocalLabels (userId : string) : Task (list Label) :=
  try_catch
    (io (AsyncStorage_call env (GetItem (KeyLabels userId)));;*
     let* data := atomic (gets (fun w => item_labels (storage w) !! userId)) in
     Return (default [] data))
    (fun _ => Return []).

Definition saveLocalLabels (userId : string) (labels : list Label) : Task unit :=
  try_catch
    (io (AsyncStorage_call env (SetItem (KeyLabels userId)));;*
     atomic (modify (set_storage (fun st =>
       mkStorage (item_notes st) (item_chatThreads st)
         (<[userId := labels]> (item_labels st))
         (item_pendingOperations st) (item_lastSyncTime st)))))
    (fun _ => Return tt).

(** *** Pending operations management *)

Definition addPendingOperation (type : OpType) (collection : Collection)
    (data : OpData) : Task unit :=
  let* stamp := atomic (Date_now env) in
  let* timestamp := atomic (newDate env) in
  let operation : PendingOperation :=
    mkPendingOperation
      (if truthy (data_id data) then data_id data
       else OpType_name type +:+ "_" +:+ pretty stamp)
      type collection data timestamp 0 in
  atomic (modify (fun w =>
    set_pendingOperations (pendingOperations w ++ [operation]) w));;*
  atomic (modify (fun w => set_pendingChanges (length (pendingOperations w)) w));;*
  await savePendingOperations.

Definition processPendingNoteOperation (operation : PendingOperation)
  : Task bool :=
  let data := op_data operation in
  match op_type operation with
  | OpCreate =>
      let* createdNote := io (remote_call (CallCreateNote data)
                          (fun t => db_createNote (db env) t data)) in
      Return (is_some createdNote)
  | OpUpdate =>
      let* updatedNote := io (remote_call (CallUpdateNote (data_id data) data)
                          (fun t => db_updateNote (db env) t (data_id data) data)) in
      Return (is_some updatedNote)
  | OpDelete =>
      io (remote_call (CallDeleteNote (data_id data))
            (fun t => db_deleteNote (db env) t (data_id data)))
  end.

Definition processPendingChatThreadOperation (operation : PendingOperation)
  : Task bool :=
  let data := op_data operation in
  match op_type operation with
  | OpCreate =>
      let* createdThread := io (remote_call (CallCreateChatThread data)
                            (fun t => db_createChatThread (db env) t data)) in
      Return (is_some createdThread)
  | OpUpdate =>
      let* updatedThread := io (remote_call (CallUpdateChatThread (data_id data) data)
                            (fun t => db_updateChatThread (db env) t
                                        (data_id data) data)) in
      Return (is_some updatedThread)
  | OpDelete =>
      io (remote_call (CallDeleteChatThread (data_id data))
            (fun t => db_deleteChatThread (db env) t (data_id data)))
  end.

Definition processPendingLabelOperation (operation : PendingOperation)
  : Task bool :=
  let data := op_data operation in
  match op_type operation with
  | OpCreate =>
      let* createdLabel := io (remote_call (CallCreateLabel data)
                           (fun t => db_createLabel (db env) t data)) in
      Return (is_some createdLabel)
  | OpDelete =>
      io (remote_call (CallDeleteLabel (data_id data))
            (fun t => db_deleteLabel (db env) t (data_id data)))
  | _ => Return false
  end.

Definition replay (operation : PendingOperation) : Task bool :=
  match op_collection operation with
  | ColNotes => await (processPendingNoteOperation operation)
  | ColChatThreads => await (processPendingChatThreadOperation operation)
  | ColLabels => await (processPendingLabelOperation operation)
  end.

Definition attempt (operation : PendingOperation) : Task Attempt :=
  try_catch
    (let* success := replay operation in
     Return (if success then Succeeded else Failed))
    (fun _ => Return Threw).

(** The [for (const operation of this.pendingOperations)] loop from index
    [i] on: the array is the live one, [operation.retryCount++] changes
    the element in place, and the result is [successfulOperations]. *)
Fixpoint drain (fuel i : nat) (successfulOperations : list string)
  : Task (list string) :=
  match fuel with
  | O => Return successfulOperations
  | S fuel' =>
      let* ops := atomic (gets pendingOperations) in
      match ops !! i with
      | None => Return successfulOperations
      | Some operation =>
          let* a := attempt operation in
          atomic (modify (fun w =>
            set_pendingOperations
              (<[i := (settle operation a).1]> (pendingOperations w)) w));;*
          drain fuel' (S i) (successfulOperations ++ (settle operation a).2)
      end
  end.

Definition processPendingOperations (fuel : nat) : Task unit :=
  let* ops := atomic (gets pendingOperations) in
  if (length ops =? 0)%nat then Return tt
  else
    let* user := atomic (gets currentUser) in
    match user with
    | None => Return tt
    | Some _ =>
        let* successfulOperations := drain fuel 0 [] in
        atomic (modify (fun w =>
          set_pendingOperations
            (List.filter
               (fun op => negb (includes (op_id op) successfulOperations))
               (pendingOperations w)) w));;*
        atomic (modify (fun w =>
          set_pendingChanges (length (pendingOperations w)) w));;*
        await savePendingOperations
    end.

(** *** Search index operations *)

Definition indexNote (note : Note) (userId : string) : Task unit :=
  try_catch
    (let searchText :=
       trim (join " "
         (List.filter truthy
            [note_title note; note_content note;
             default "" (note_audioTranscript note);
             join " " (note_labels note)])) in
     if truthy searchText then
       io (remote_call (CallIndexNote note userId)
             (fun t => pinecone_indexNote env t note userId))
     else Return tt)
    (fun _ => Return tt).

Fixpoint indexNotes (notes : list Note) (userId : string) : Task unit :=
  match notes with
  | [] => Return tt
  | note :: rest => await (indexNote note userId);;* indexNotes rest userId
  end.

Definition updateSearchIndex (notes : list Note) (userId : string) : Task unit :=
  try_catch
    (let notesWithContent :=
       List.filter (fun note =>
         truthy (trim (note_title note)) || truthy (trim (note_content note))
         || truthy (default "" (note_audioTranscript note))) notes in
     indexNotes notesWithContent userId)
    (fun _ => Return tt).

(** *** Data merging with conflict resolution *)

Fixpoint mergeNotes_loop (cloudNotes : list Note) (noteMap : JsMap Note)
  : Task (JsMap Note) :=
  match cloudNotes with
  | [] => Return noteMap
  | cloudNote :: rest =>
      match Map_get (note_id cloudNote) noteMap with
      | None =>
          mergeNotes_loop rest (Map_set (note_id cloudNote) cloudNote noteMap)
      | Some localNote =>
          if Date_gt (note_updatedAt cloudNote) (note_updatedAt localNote) then
            mergeNotes_loop rest (Map_set (note_id cloudNote) cloudNote noteMap)
          else if Date_gt (note_updatedAt localNote) (note_updatedAt cloudNote) then
            try_catch
              (await (addPendingOperation OpUpdate ColNotes (DataNote localNote)))
              (fun _ => Return tt);;*
            mergeNotes_loop rest noteMap
          else mergeNotes_loop rest noteMap
      end
  end.

Definition mergeNotes (localNotes cloudNotes : list Note) : Task (list Note) :=
  let* noteMap := mergeNotes_loop cloudNotes (seed note_id localNotes) in
  Return (Array_sort (newestFirst note_updatedAt) (Map_values noteMap)).

(** *** Sync of the individual collections *)

Definition syncNotes (userId : string) : Task unit :=
  try_catch
    (let* localNotes := await (getLocalNotes userId) in
     let* cloudNotes := io (remote_call (CallGetNotes userId)
                        (fun t => db_getNotes (db env) t userId)) in
     let* mergedNotes := await (mergeNotes localNotes cloudNotes) in
     await (saveLocalNotes userId mergedNotes);;*
     await (updateSearchIndex mergedNotes userId))
    (fun error => Raise error).

Definition syncChatThreads (userId : string) : Task unit :=
  try_catch
    (let* localThreads := await (getLocalChatThreads userId) in
     let* cloudThreads := io (remote_call (CallGetChatThreads userId)
                          (fun t => db_getChatThreads (db env) t userId)) in
     let mergedThreads := mergeChatThreads localThreads cloudThreads in
     await (saveLocalChatThreads userId mergedThreads))
    (fun error => Raise error).

Definition syncLabels (userId : string) : Task unit :=
  try_catch
    (let* localLabels := await (getLocalLabels userId) in
     let* cloudLabels := io (remote_call (CallGetLabels userId)
                         (fun t => db_getLabels (db env) t userId)) in
     let mergedLabels := mergeLabels env localLabels cloudLabels in
     await (saveLocalLabels userId mergedLabels))
    (fun error => Raise error).

(** *** Main sync operation *)

Definition syncSteps (fuel : nat) (user : AuthUser) : Task bool :=
  await (processPendingOperations fuel);;*
  await (syncNotes (user_id user));;*
  await (syncChatThreads (user_id user));;*
  await (syncLabels (user_id user));;*
  let* d := atomic (newDate env) in
  atomic (modify (set_lastSyncTime d));;*
  await saveLastSyncTime;;*
  Return true.

Definition syncCycle (fuel : nat) (user : AuthUser) : Task bool :=
  try_catch
    (atomic (modify (set_isSyncing true));;* syncSteps fuel user)
    (fun _ => Return false).

Definition syncAll (fuel : nat) : Task bool :=
  let* syncing := atomic (gets (fun w => isSyncing (syncStatus w))) in
  if syncing then Return false
  else
    let* user := atomic (gets currentUser) in
    match user with
    | None => Return false
    | Some user =>
        let* online := atomic (gets (fun w => isOnline (syncStatus w))) in
        if negb online then Return false
        else counted (try_finally (syncCycle fuel user) (set_isSyncing false))
    end.

(** *** Note operations with sync *)

Definition pushNote (user : option AuthUser) (note : Note) : Task unit :=
  let* online := atomic (gets (fun w => isOnline (syncStatus w))) in
  match user with
  | Some u =>
      if negb (String.eqb (user_id u) "guest") && online then
        try_catch
          (let* savedNote := io (remote_call (CallSaveNote note (user_id u))
                             (fun t => db_saveNote (db env) t note (user_id u))) in
           match savedNote with
           | Some _ => await (indexNote note (user_id u))
           | None => await (addPendingOperation OpUpdate ColNotes (DataNote note))
           end)
          (fun _ => await (addPendingOperation OpUpdate ColNotes (DataNote note)))
      else if String.eqb (user_id u) "guest" then Return tt
      else await (addPendingOperation OpUpdate ColNotes (DataNote note))
  | None => Return tt
  end.

Definition saveNote (note : Note) : Task unit :=
  let* user := atomic (gets currentUser) in
  try_catch
    (let userId := storageUserId user in
     await (updateLocalNote userId note);;*
     pushNote user note)
    (fun _ => Return tt).

Definition deleteNote (noteId : string) : Task unit :=
  let* user := atomic (gets currentUser) in
  try_catch
    (let userId := storageUserId user in
     await (removeLocalNote userId noteId);;*
     let* online := atomic (gets (fun w => isOnline (syncStatus w))) in
     match user with
     | Some u =>
         if negb (String.eqb (user_id u) "guest") && online then
           try_catch
             (let* success := io (remote_call (CallDeleteNote noteId)
                              (fun t => db_deleteNote (db env) t noteId)) in
              if success then Return tt
              else await (addPendingOperation OpDelete ColNotes (DataId noteId)))
             (fun _ =>
                await (addPendingOperation OpDelete ColNotes (DataId noteId)));;*
           try_catch
             (io (remote_call (CallUnindexNote noteId)
                    (fun t => pinecone_deleteNote env t noteId)))
             (fun _ => Return tt)
         else if String.eqb (user_id u) "guest" then Return tt
         else await (addPendingOperation OpDelete ColNotes (DataId noteId))
     | None => Return tt
     end)
    (fun _ => Return tt).

(** *** Chat thread operations *)

Definition saveChatThread (thread : ChatThread) : Task unit :=
  let* user := atomic (gets currentUser) in
  match user with
  | None => await (updateLocalChatThread "guest" thread)
  | Some u =>
      try_catch
        (await (updateLocalChatThread (user_id u) thread);;*
         let* online := atomic (gets (fun w => isOnline (syncStatus w))) in
         if online then
           let* savedThread :=
             io (remote_call
                   (CallUpdateChatThread (thread_id thread) (DataChatThread thread))
                   (fun t => db_updateChatThread (db env) t (thread_id thread)
                               (DataChatThread thread))) in
           match savedThread with
           | Some _ => Return tt
           | None =>
               await (addPendingOperation OpUpdate ColChatThreads
                        (DataChatThread thread))
           end
         else
           await (addPendingOperation OpUpdate ColChatThreads
                    (DataChatThread thread)))
        (fun _ =>
           await (addPendingOperation OpUpdate ColChatThreads
                    (DataChatThread thread)))
  end.

(** *** The triggers of a sync

    The listeners call [syncAll] without awaiting it. *)

Definition onNetInfo (fuel : nat) (connected : option bool) : Task unit :=
  let* wasOffline := atomic (gets (fun w => negb (isOnline (syncStatus w)))) in
  atomic (modify (set_isOnline (default false connected)));;*
  let* online := atomic (gets (fun w => isOnline (syncStatus w))) in
  if wasOffline && online then syncAll fuel;;* Return tt else Return tt.

Definition onAppActive (fuel : nat) : Task unit :=
  let* online := atomic (gets (fun w => isOnline (syncStatus w))) in
  if online then syncAll fuel;;* Return tt else Return tt.

Definition onInterval (fuel : nat) : Task unit :=
  let* st := atomic (gets syncStatus) in
  if isOnline st && negb (isSyncing st) then syncAll fuel;;* Return tt else Return tt.

(** [return await this.syncAll()] *)
Definition forcSync (fuel : nat) : Task bool := await (syncAll fuel).

(** The callback of a request. *)
Definition call (fuel : nat) (r : Request) : Task unit :=
  match r with
  | ReqSaveNote note => saveNote note
  | ReqDeleteNote noteId => deleteNote noteId
  | ReqSaveChatThread thread => saveChatThread thread
  | ReqSync PeriodicTimer => onInterval fuel
  | ReqSync (ConnectivityChange connected) => onNetInfo fuel connected
  | ReqSync AppForeground => onAppActive fuel
  | ReqSync ExplicitRefresh => forcSync fuel;;* Return tt
  end.

End Methods.

(** *** Interleavings

    The engine between two callbacks: the world, the number of sync cycles
    in progress, and the callbacks that are suspended. *)
Record Engine : Type := mkEngine {
  world : World;
  cycles : nat;
  suspended : list (Task unit);
}.

(** A callback that reached an await waits there; one that came to its
    end is gone. *)
Definition park (t : Task unit) (pool : list (Task unit)) : list (Task unit) :=
  match t with
  | Await rest => pool ++ [rest]
  | _ => pool
  end.

Definition proceed (t : Task unit) (pool : list (Task unit)) (e : Engine)
  : Engine :=
  let r := advance t (world e) (cycles e) in
  mkEngine r.1.2 r.2 (park r.1.1 pool).

Inductive step (env : Env) : Engine -> Engine -> Prop :=
  | step_call fuel r e :
      (** a trigger fires or a write method is called: its callback runs
          up to its first await *)
      step env e (proceed (call env fuel r) (suspended e) e)
  | step_resume i t e :
      (** a suspended callback goes on, up to its next await *)
      suspended e !! i = Some t ->
      step env e (proceed t (delete i (suspended e)) e)
  | step_outside w' e :
      (** any other code runs: the initialisation of the engine, which
          loads the queue and the time of the last sync, the
          authentication service, AsyncStorage; only [syncAll] writes
          [isSyncing] *)
      flag w' = flag (world e) ->
      step env e (mkEngine w' (cycles e) (suspended e)).

(** The states of an engine that started with no sync in progress. *)
Definition reachable (env : Env) (e : Engine) : Prop :=
  exists w0, flag w0 = false /\ rtc (step env) (mkEngine w0 0 []) e.

(** *** What a task may do to [isSyncing]

    [quiet]: the task never writes the flag and is no part of a cycle. *)
Inductive quiet {A} : Task A -> Prop :=
  | quiet_Return a : quiet (Return a)
  | quiet_Raise e : quiet (Raise e)
  | quiet_Sync upd next :
      (forall w, flag (upd w) = flag w) -> (forall w, quiet (next w)) ->
      quiet (Sync upd next)
  | quiet_Await rest : quiet rest -> quiet (Await rest).

(** [ok inside b t]: [t], run outside or inside a cycle with the flag at
    [b], enters a cycle only with the flag clear, sets the flag before it
    is suspended in the cycle, and leaves the cycle with the flag clear. *)
Inductive ok {A} : bool -> bool -> Task A -> Prop :=
  | ok_Return b a : ok false b (Return a)
  | ok_Raise b e : ok false b (Raise e)
  | ok_Sync b upd next :
      (forall w, flag w = b -> flag (upd w) = b) ->
      (forall w, flag w = b -> ok false b (next w)) ->
      ok false b (Sync upd next)
  | ok_Await b rest : (forall b', ok false b' rest) -> ok false b (Await rest)
  | ok_Enter rest : ok true false rest -> ok false false (Enter rest)
  | ok_inside_Sync b upd next :
      (forall w, flag w = b -> ok true (flag (upd w)) (next w)) ->
      ok true b (Sync upd next)
  | ok_inside_Await rest : ok true true rest -> ok true true (Await rest)
  | ok_Leave rest : ok false false rest -> ok true false (Leave rest).

(** The suspended callbacks, and how many of them are in a cycle. *)
Inductive pool_ok : list (Task unit) -> nat -> Prop :=
  | pool_nil : pool_ok [] 0
  | pool_outside t pool k :
      (forall b, ok false b t) -> pool_ok pool k -> pool_ok (t :: pool) k
  | pool_inside t pool k :
      ok true true t -> pool_ok pool k -> pool_ok (t :: pool) (S k).

(** What is left of a callback that stopped outside a cycle. *)
Definition settled {A} (t : Task A) : Prop :=
  match t with
  | Return _ | Raise _ => True
  | Await rest => forall b, ok false b rest
  | _ => False
  end.

(** The invariant of the interleavings. *)
Definition invariant (e : Engine) : Prop :=
  pool_ok (suspended e) (cycles e)
  /\ (cycles e <= 1)%nat
  /\ (flag (world e) = true <-> cycles e = 1%nat).

End Async.

(** The engine of [Sample.signedIn] after an explicit refresh has run up to
    its first await, and after the app then came to the foreground. *)
Definition refreshStarted : Async.Engine :=
  Async.proceed (Async.call Sample.env 8 (ReqSync ExplicitRefresh)) []
    (Async.mkEngine Sample.signedIn 0 []).

Definition foregroundWhileRefreshing : Async.Engine :=
  Async.proceed (Async.call Sample.env 8 (ReqSync AppForeground))
    (Async.suspended refreshStarted) refreshStarted.

(** The ids of the notes stored for a user. *)
Definition storedNoteIds (userId : string) (w : World) : list string :=
  note_id <$> default [] (item_notes (storage w) !! userId).

(** The ids of the chat threads stored for a user. *)
Definition storedThreadIds (userId : string) (w : World) : list string :=
  thread_id <$> default [] (item_chatThreads (storage w) !! userId).

(** ** The queue across a restart *)

(** The instants [toISOString] writes with a four-digit year: the years
    0000 to 9999. *)
Definition fourDigitYear (d : Date) : Prop :=
  exists t, d = Some t /\ -62167219200000 <= t < 253402300800000.

(** An operation as it comes back from the store: its payload is the JSON
    form of the payload. *)
Definition asStored (op : PendingOperation) : PendingOperation :=
  mkPendingOperation (op_id op) (op_type op) (op_collection op)
    (OpData_json (op_data op)) (op_timestamp op) (op_retryCount op).

(** The engine after the process restarted: the fields of the singleton
    are those its constructor sets, AsyncStorage is what it was (the user
    is the one [authService] restores). *)
Definition restart (w : World) : World :=
  mkWorld (mkSyncStatus None true false 0 0) [] (currentUser w) (storage w)
    (trace w).

(** The scenario of the specification: a guest saves five notes, with
    sync requests in between. *)
Definition fiveSaves : list Request :=
  [ReqSaveNote (Sample.note "n1" "one" 1); ReqSaveNote (Sample.note "n2" "two" 2);
   ReqSync ExplicitRefresh; ReqSaveNote (Sample.note "n3" "three" 3);
   ReqSaveNote (Sample.note "n4" "four" 4); ReqSync AppForeground;
   ReqSaveNote (Sample.note "n5" "five" 5)].

(** A guest chats and takes notes. *)
Definition guestChat : list Request :=
  [ReqSaveChatThread (Sample.thread "t1" "first chat" 1);
   ReqSaveNote (Sample.note "n1" "one" 1); ReqSync PeriodicTimer;
   ReqSaveChatThread (Sample.thread "t2" "second chat" 2);
   ReqSaveChatThread (Sample.thread "t1" "first chat, continued" 3);
   ReqDeleteNote "n1"].

(** The shipped client over a Supabase that refuses every update
    carrying a note titled 'draft' and applies any other; its tables are
    empty. *)
Definition constraintError : JsError :=
  mkError (Some "23514") "violates check constraint".

Definition noDraftsSupabase : Supabase :=
  mkSupabase
    (fun _ _ => SbData (Some [])) (fun _ _ => SbReject Sample.networkError)
    (fun _ _ data =>
       match data with
       | DataNote n =>
           if String.eqb (note_title n) "draft" then SbError constraintError
           else SbData (Some n)
       | _ => SbError constraintError
       end)
    (fun _ _ => SbData None)
    (fun _ _ => SbData (Some [])) (fun _ _ => SbReject Sample.networkError)
    (fun _ _ _ => SbError Sample.notFound) (fun _ _ => SbData None)
    (fun _ _ => SbData (Some [])) (fun _ _ => SbReject Sample.networkError)
    (fun _ _ => SbData None).

Definition noDrafts : Env :=
  Sample.envWith (DatabaseService.client noDraftsSupabase).

(** [alice], offline, saves the note 'n1' twice: as a draft, then in its
    final form. *)
Definition savedTwiceOffline : World :=
  run noDrafts
    [ReqSaveNote (Sample.note "n1" "draft" 1);
     ReqSaveNote (Sample.note "n1" "final" 2)]
    (set_isOnline false Sample.signedIn).

(** A sequence of enqueue requests, each run to completion. *)
Fixpoint enqueueAll (env : Env) (reqs : list (OpType * Collection * OpData))
    (w : World) : World :=
  match reqs with
  | [] => w
  | (type, collection, data) :: rest =>
      enqueueAll env rest (addPendingOperation env type collection data w).2
  end.

(** ** Invariants of the engine *)

(** [preserves P c]: run in a world where [P] holds, [c] leaves a world
    where [P] holds, whether it returns or throws. *)
Definition preserves {A} (P : World -> Prop) (c : M A) : Prop :=
  forall w, P w -> P (c w).2.

(** [hasPendingChanges()] and [getSyncStatus()] (a copy of the status). *)
Definition hasPendingChanges (w : World) : bool :=
  (0 <? pendingChanges (syncStatus w))%nat.

Definition getSyncStatus (w : World) : SyncStatus := syncStatus w.

(** The counter [pendingChanges] is the length of the queue. *)
Definition countsQueue (w : World) : Prop :=
  pendingChanges (syncStatus w) = length (pendingOperations w).

(** The kinds of operation the write methods and [mergeNotes] enqueue. *)
Definition enqueuedKind (type : OpType) (collection : Collection) : bool :=
  match type, collection with
  | OpUpdate, ColNotes => true
  | OpDelete, ColNotes => true
  | OpUpdate, ColChatThreads => true
  | _, _ => false
  end.

(** The requests of [databaseService] that create a row, or delete a chat
    thread or a label. *)
Definition createsOrDeletesBeyondNotes (c : RemoteCall) : bool :=
  match c with
  | CallCreateNote _ | CallCreateChatThread _ | CallDeleteChatThread _
  | CallCreateLabel _ | CallDeleteLabel _ => true
  | _ => false
  end.

(** The queue in memory and the queue in AsyncStorage hold only operations
    of the kinds the engine enqueues, and no request of the kinds above
    was made. *)
Definition engineMade (w : World) : Prop :=
  Forall (fun op => enqueuedKind (op_type op) (op_collection op) = true)
    (pendingOperations w)
  /\ Forall (fun op => enqueuedKind (op_type op) (op_collection op) = true)
       (default [] (item_pendingOperations (storage w)))
  /\ Forall (fun c => createsOrDeletesBeyondNotes c = false)
       (remoteCalls (trace w)).

(** The two assignments every change of the queue makes:
    [this.pendingOperations = q] and
    [this.syncStatus.pendingChanges = this.pendingOperations.length]. *)
Definition requeue (q : list PendingOperation) (w : World) : World :=
  set_pendingChanges (length q) (set_pendingOperations q w).

(** [a] is at least as recent as [b]; Invalid Date is not comparable. *)
Definition notOlder (a b : Date) : Prop :=
  match a, b with
  | Some x, Some y => y <= x
  | _, _ => False
  end.

(** The text [indexNote] builds from a note, and the filter of
    [updateSearchIndex]. *)
Definition searchText (note : Note) : string :=
  trim (join " "
    (List.filter truthy
       [note_title note; note_content note;
        default "" (note_audioTranscript note);
        join " " (note_labels note)])).

Definition hasContent (note : Note) : bool :=
  truthy (trim (note_title note)) || truthy (trim (note_content note))
  || truthy (default "" (note_audioTranscript note)).

(** U+00A0 (no-break space) and U+3000 (ideographic space), as text. *)
Definition noBreakSpace : string :=
  String (ascii_of_nat 194) (String (ascii_of_nat 160) "").

Definition ideographicSpace : string :=
  String (ascii_of_nat 227)
    (String (ascii_of_nat 128) (String (ascii_of_nat 128) "")).

(** An AsyncStorage whose reads reject and whose writes are accepted. *)
Definition unreadableStorage : Env :=
  mkEnv Sample.offlineClient (fun _ _ _ => Ok tt) (fun _ _ => Ok tt)
    (fun _ c => match c with GetItem _ => true | SetItem _ => false end)
    (fun n => 1700000000000 + Z.of_nat n) Sample.codePointCompare.

(** ** AuthService (services/authService.ts)

    The service keeps the current user, the Auth0 credentials, an
    [initialized] flag and the registered listeners; it stores the session
    in AsyncStorage under the keys ['auth0_credentials'] and
    ['currentUser'].  Auth0, the id generator and the failures of
    AsyncStorage are answers of an environment, indexed by the number of
    calls made so far.  A listener is known by its identity: what a
    callback does is outside the service, apart from whether its first call
    throws; a callback is taken not to call back into the service.  An
    optional field that is [None] is a property the object does not have.
    The stored items are those the service wrote, as [JSON.parse] gives
    them back; a call that AsyncStorage rejects writes and removes
    nothing. *)

Module AuthService.

(** [Credentials] of react-native-auth0, the fields the service reads. *)
Record Credentials : Type := mkCredentials {
  accessToken : string;
  idToken : string;
  refreshToken : option string;
}.

(** The answer of [auth0.auth.userInfo]. *)
Record UserInfo : Type := mkUserInfo {
  sub : option string;
  email : option string;
  name : option string;
  nickname : option string;
  picture : option string;
  email_verified : option bool;
}.

(** [Partial<AuthUser>] *)
Record AuthUserUpdates : Type := mkUpdates {
  upd_id : option string;
  upd_email : option string;
  upd_name : option string;
  upd_avatar : option string;
  upd_emailVerified : option bool;
}.

Definition Listener : Type := nat.

Inductive AuthKey : Type := KeyCredentials | KeyCurrentUser.

Definition authKey_name (k : AuthKey) : string :=
  match k with
  | KeyCredentials => "auth0_credentials"
  | KeyCurrentUser => "currentUser"
  end.

Inductive AuthCall : Type :=
  | AuthGetItem (k : AuthKey)
  | AuthSetItem (k : AuthKey)
  | AuthMultiRemove (ks : list AuthKey)
  | Authorize
  | GetUserInfo (token : string)
  | ClearSession
  | RefreshToken (token : string).

Inductive AuthEvent : Type :=
  | Called (c : AuthCall)
  | Notified (l : Listener) (user : option AuthUser).

(** The two items of the session, as [JSON.parse] reads them. *)
Record SessionStore : Type := mkSessionStore {
  item_credentials : option Credentials;
  item_currentUser : option AuthUser;
}.

Record AuthEnv : Type := mkAuthEnv {
  authorize : nat -> Result Credentials;
  userInfo : nat -> string -> Result UserInfo;
  clearSession : nat -> Result unit;
  refreshToken_request : nat -> string -> Result Credentials;
  generateId : nat -> string;
  (** whether the AsyncStorage call made as call number [n] rejects *)
  rejects : nat -> AuthCall -> bool;
  (** whether the first call of a listener throws *)
  listenerThrows : Listener -> option AuthUser -> bool;
  auth0Domain : string;
  auth0ClientId : string;
}.

(** The fields of the singleton, AsyncStorage, and what happened so far. *)
Record AuthState : Type := mkAuthState {
  currentUser : option AuthUser;
  credentials : option Credentials;
  initialized : bool;
  listeners : list Listener;
  store : SessionStore;
  history : list AuthEvent;
}.

Definition AuthM (A : Type) : Type := AuthState -> Result A * AuthState.

Global Instance AuthM_ret : MRet AuthM := fun A a s => (Ok a, s).

Global Instance AuthM_bind : MBind AuthM := fun A B k c s =>
  match c s with
  | (Ok a, s') => k a s'
  | (Throw e, s') => (Throw e, s')
  end.

Definition throwError {A} (message : string) : AuthM A :=
  fun s => (Throw (mkError None message), s).

(** [try { c } catch (error) { h }] *)
Definition catch {A} (c : AuthM A) (h : AuthM A) : AuthM A :=
  fun s =>
    match c s with
    | (Ok a, s') => (Ok a, s')
    | (Throw _, s') => h s'
    end.

Definition get {A} (f : AuthState -> A) : AuthM A := fun s => (Ok (f s), s).

Definition update (f : AuthState -> AuthState) : AuthM unit :=
  fun s => (Ok tt, f s).

Definition set_currentUser (u : option AuthUser) (s : AuthState) : AuthState :=
  mkAuthState u (credentials s) (initialized s) (listeners s) (store s)
    (history s).

Definition set_credentials (c : option Credentials) (s : AuthState) : AuthState :=
  mkAuthState (currentUser s) c (initialized s) (listeners s) (store s)
    (history s).

Definition set_initialized (b : bool) (s : AuthState) : AuthState :=
  mkAuthState (currentUser s) (credentials s) b (listeners s) (store s)
    (history s).

Definition set_listeners (ls : list Listener) (s : AuthState) : AuthState :=
  mkAuthState (currentUser s) (credentials s) (initialized s) ls (store s)
    (history s).

Definition set_store (f : SessionStore -> SessionStore) (s : AuthState) : AuthState :=
  mkAuthState (currentUser s) (credentials s) (initialized s) (listeners s)
    (f (store s)) (history s).

Definition record (e : AuthEvent) (s : AuthState) : AuthState :=
  mkAuthState (currentUser s) (credentials s) (initialized s) (listeners s)
    (store s) (history s ++ [e]).

(** The number of calls and notifications so far. *)
Definition clock (s : AuthState) : nat := length (history s).

(** [a || b] on strings: [a] unless it is undefined or empty. *)
Definition orElse (a : option string) (b : string) : string :=
  match a with
  | Some s => if truthy s then s else b
  | None => b
  end.

(** The [AuthUser] that [getUserInfo] makes of Auth0's answer;
    [generated] is [generateId()], used when there is no [sub]. *)
Definition toAuthUser (info : UserInfo) (generated : string) : AuthUser :=
  mkAuthUser (orElse (sub info) generated)
    (orElse (email info) "")
    (orElse (name info) (orElse (nickname info) "User"))
    (orElse (picture info) "")
    (default false (email_verified info)).

(** [{ ...user, ...updates }] *)
Definition applyUpdates (user : AuthUser) (updates : AuthUserUpdates) : AuthUser :=
  mkAuthUser (default (user_id user) (upd_id updates))
    (default (user_email user) (upd_email updates))
    (default (user_name user) (upd_name updates))
    (default (user_avatar user) (upd_avatar updates))
    (default (user_emailVerified user) (upd_emailVerified updates)).

(** [{ ...credentials, ...newCredentials }]: a refresh token that the new
    credentials do not carry stays. *)
Definition mergeCredentials (old new : Credentials) : Credentials :=
  mkCredentials (accessToken new) (idToken new)
    (match refreshToken new with
     | Some r => Some r
     | None => refreshToken old
     end).

(** [Array.prototype.indexOf] and [splice(index, 1)]. *)
Fixpoint indexOf (l : Listener) (ls : list Listener) : option nat :=
  match ls with
  | [] => None
  | l' :: ls' => if Nat.eqb l' l then Some 0%nat else S <$> indexOf l ls'
  end.

Definition splice1 {A} (index : nat) (l : list A) : list A :=
  take index l ++ drop (S index) l.

Section Methods.
Variable env : AuthEnv.

(** A call to AsyncStorage: recorded, and rejected when the environment
    says so. *)
Definition storage_call (c : AuthCall) : AuthM unit :=
  fun s =>
    let s' := record (Called c) s in
    if rejects env (clock s) c then (Throw (mkError None "AsyncStorage"), s')
    else (Ok tt, s').

(** A call to Auth0: recorded and answered by the environment. *)
Definition auth0_call {A} (c : AuthCall) (answer : nat -> Result A) : AuthM A :=
  fun s => (answer (clock s), record (Called c) s).

(** [notifyListeners]: every listener is called with the current user;
    what a listener throws is caught. *)
Definition notifyListeners : AuthM unit :=
  update (fun s =>
    foldl (fun s' l => record (Notified l (currentUser s)) s') s (listeners s)).

Definition initialize : AuthM unit :=
  catch
    (storage_call (AuthGetItem KeyCredentials);;
     storedCredentials ← get (fun s => item_credentials (store s));
     storage_call (AuthGetItem KeyCurrentUser);;
     storedUser ← get (fun s => item_currentUser (store s));
     match storedCredentials, storedUser with
     | Some c, Some u =>
         update (set_credentials (Some c));;
         update (set_currentUser (Some u))
     | _, _ => mret tt
     end;;
     update (set_initialized true);;
     notifyListeners)
    (update (set_initialized true)).

Definition getUserInfo : AuthM (option AuthUser) :=
  catch
    (creds ← get credentials;
     match creds with
     | Some c =>
         if truthy (accessToken c) then
           info ← auth0_call (GetUserInfo (accessToken c))
                    (fun t => userInfo env t (accessToken c));
           generated ← get (fun s => generateId env (clock s));
           mret (Some (toAuthUser info generated))
         else throwError "No access token available"
     | None => throwError "No access token available"
     end)
    (mret None).

Definition login : AuthM (option AuthUser) :=
  catch
    (creds ← auth0_call Authorize (authorize env);
     update (set_credentials (Some creds));;
     user ← getUserInfo;
     match user with
     | Some u =>
         update (set_currentUser (Some u));;
         storage_call (AuthSetItem KeyCredentials);;
         update (set_store (fun st =>
           mkSessionStore (Some creds) (item_currentUser st)));;
         storage_call (AuthSetItem KeyCurrentUser);;
         update (set_store (fun st =>
           mkSessionStore (item_credentials st) (Some u)));;
         notifyListeners;;
         mret (Some u)
     | None => throwError "Failed to get user info"
     end)
    (mret None).

Definition logout : AuthM unit :=
  catch
    (creds ← get credentials;
     match creds with
     | Some _ => auth0_call ClearSession (clearSession env)
     | None => mret tt
     end;;
     storage_call (AuthMultiRemove [KeyCredentials; KeyCurrentUser]);;
     update (set_store (fun _ => mkSessionStore None None));;
     update (set_credentials None);;
     update (set_currentUser None);;
     notifyListeners)
    (update (set_credentials None);;
     update (set_currentUser None);;
     notifyListeners).

Definition refreshTokens : AuthM bool :=
  catch
    (creds ← get credentials;
     match creds with
     | Some c =>
         match refreshToken c with
         | Some r =>
             if truthy r then
               newCredentials ← auth0_call (RefreshToken r)
                                  (fun t => refreshToken_request env t r);
               update (set_credentials (Some (mergeCredentials c newCredentials)));;
               storage_call (AuthSetItem KeyCredentials);;
               update (set_store (fun st =>
                 mkSessionStore (Some (mergeCredentials c newCredentials))
                   (item_currentUser st)));;
               mret true
             else mret false
         | None => mret false
         end
     | None => mret false
     end)
    (mret false).

Definition getCurrentUser (s : AuthState) : option AuthUser := currentUser s.

(** [this.credentials?.accessToken || null] *)
Definition getAccessToken (s : AuthState) : option string :=
  match credentials s with
  | Some c => if truthy (accessToken c) then Some (accessToken c) else None
  | None => None
  end.

Definition getIdToken (s : AuthState) : option string :=
  match credentials s with
  | Some c => if truthy (idToken c) then Some (idToken c) else None
  | None => None
  end.

Definition isAuthenticated (s : AuthState) : bool :=
  is_some (currentUser s) && is_some (credentials s).

Definition updateUserProfile (updates : AuthUserUpdates) : AuthM (option AuthUser) :=
  catch
    (user ← get currentUser;
     match user with
     | None => throwError "Not authenticated"
     | Some u =>
         update (set_currentUser (Some (applyUpdates u updates)));;
         storage_call (AuthSetItem KeyCurrentUser);;
         update (set_store (fun st =>
           mkSessionStore (item_credentials st) (Some (applyUpdates u updates))));;
         notifyListeners;;
         get currentUser
     end)
    (mret None).

Definition deleteAccount : AuthM bool :=
  catch
    (get isAuthenticated ≫= fun authenticated : bool =>
     if authenticated then logout;; mret true
     else throwError "Not authenticated")
    (mret false).

(** [addAuthStateListener(callback)]: the callback is registered, then
    called with the current user; that call is not guarded.  The function
    it returns is [unsubscribe callback]. *)
Definition addAuthStateListener (callback : Listener) : AuthM unit :=
  update (fun s => set_listeners (listeners s ++ [callback]) s);;
  user ← get currentUser;
  update (record (Notified callback user));;
  if listenerThrows env callback user then throwError "listener"
  else mret tt.

Definition unsubscribe (callback : Listener) : AuthM unit :=
  update (fun s =>
    match indexOf callback (listeners s) with
    | Some index => set_listeners (splice1 index (listeners s)) s
    | None => s
    end).

Definition isHealthy (s : AuthState) : bool :=
  initialized s && truthy (auth0Domain env) && truthy (auth0ClientId env).

Definition refreshSession : AuthM (option AuthUser) :=
  catch (get currentUser) (mret None).

Definition validateSession : AuthM bool :=
  catch (get (fun s => is_some (currentUser s))) (mret false).

(** [handleSocialLogin]: throws, and its [catch] rethrows. *)
Definition handleSocialLogin (provider : string) : AuthM unit :=
  fun s =>
    match throwError (provider +:+ " login not yet implemented") s with
    | (Throw error, s') => (Throw error, s')
    | r => r
    end.

End Methods.

(** A new instance of the service over what AsyncStorage holds. *)
Definition fresh (st : SessionStore) : AuthState :=
  mkAuthState None None false [] st [].

(** A process restart: the fields are those of a new instance, AsyncStorage
    is what it was. *)
Definition relaunch (s : AuthState) : AuthState :=
  mkAuthState None None false [] (store s) (history s).

End AuthService.

(** ** Collaborators of the authentication service used in examples *)

Module AuthSample.
Import AuthService.

Definition tokens : Credentials := mkCredentials "access" "id" (Some "refresh").

(** What Auth0 answers to a refresh: new tokens, no new refresh token. *)
Definition renewed : Credentials := mkCredentials "access2" "id2" None.

Definition profile : UserInfo :=
  mkUserInfo (Some "auth0|1") (Some "ada@example.org") (Some "Ada") None None
    (Some true).

Definition ada : AuthUser :=
  mkAuthUser "auth0|1" "ada@example.org" "Ada" "" true.

Definition rename : AuthUserUpdates :=
  mkUpdates None None (Some "Ada L.") None None.

(** Auth0 answers every request and AsyncStorage accepts every call. *)
Definition healthy : AuthEnv :=
  mkAuthEnv (fun _ => Ok tokens) (fun _ _ => Ok profile) (fun _ => Ok tt)
    (fun _ _ => Ok renewed) (fun _ => "generated") (fun _ _ => false)
    (fun _ _ => false) "example.auth0.com" "client".

(** As [healthy], but AsyncStorage rejects every write and removal. *)
Definition readOnly : AuthEnv :=
  mkAuthEnv (fun _ => Ok tokens) (fun _ _ => Ok profile) (fun _ => Ok tt)
    (fun _ _ => Ok renewed) (fun _ => "generated")
    (fun _ c =>
       match c with
       | AuthSetItem _ | AuthMultiRemove _ => true
       | _ => false
       end)
    (fun _ _ => false) "example.auth0.com" "client".

Definition empty : SessionStore := mkSessionStore None None.

(** Ada is signed in, her session is stored, two listeners are registered. *)
Definition signedIn : AuthState :=
  mkAuthState (Some ada) (Some tokens) true [0%nat; 1%nat]
    (mkSessionStore (Some tokens) (Some ada)) [].

End AuthSample.

(** * Properties *)

(** ** The date codec *)

Example toISOString_epoch :
  DateCodec.toISOString 0 = "1970-01-01T00:00:00.000Z".
Proof. reflexivity. Qed.

Example toISOString_2024 :
  DateCodec.toISOString 1709210096789 = "2024-02-29T12:34:56.789Z".
Proof. reflexivity. Qed.

Example Date_parse_2024 :
  DateCodec.Date_parse "2024-02-29T12:34:56.789Z" = Some 1709210096789.
Proof. reflexivity. Qed.

Example Date_parse_garbage : DateCodec.Date_parse "yesterday" = None.
Proof. reflexivity. Qed.

Module DateCodecFacts.
Import DateCodec.

Lemma digit_val_char k : 0 <= k <= 9 -> digit_val (digit_char k) = Some k.
Proof.
  intros H.
  assert (k = 0 \/ k = 1 \/ k = 2 \/ k = 3 \/ k = 4 \/ k = 5 \/ k = 6
          \/ k = 7 \/ k = 8 \/ k = 9) as Hk by lia.
  repeat (destruct Hk as [->|Hk]; [reflexivity|]). subst k. reflexivity.
Qed.

Lemma num2_pad a :
  0 <= a <= 99 -> num2 (digit_char (a / 10)) (digit_char (a mod 10)) = Some a.
Proof.
  intros H. unfold num2.
  rewrite !digit_val_char by (Z.div_mod_to_equations; lia).
  f_equal. Z.div_mod_to_equations. lia.
Qed.

Lemma num3_pad a :
  0 <= a <= 999 ->
  num3 (digit_char (a / 100)) (digit_char (a mod 100 / 10))
       (digit_char (a mod 100 mod 10)) = Some a.
Proof.
  intros H. unfold num3.
  rewrite digit_val_char by (Z.div_mod_to_equations; lia).
  rewrite num2_pad by (Z.div_mod_to_equations; lia).
  f_equal. Z.div_mod_to_equations. lia.
Qed.

Lemma num4_pad a :
  0 <= a <= 9999 ->
  num4 (digit_char (a / 1000)) (digit_char (a mod 1000 / 100))
       (digit_char (a mod 1000 mod 100 / 10))
       (digit_char (a mod 1000 mod 100 mod 10)) = Some a.
Proof.
  intros H. unfold num4, num2.
  rewrite !digit_val_char by (Z.div_mod_to_equations; lia).
  f_equal. Z.div_mod_to_equations. lia.
Qed.

(** Reading back the fields of a well-formed date-time. *)
Lemma Date_parse_fields y m d h mi s ms :
  0 <= y <= 9999 -> 1 <= m <= 12 -> 1 <= d <= daysInMonth y m ->
  0 <= h <= 23 -> 0 <= mi <= 59 -> 0 <= s <= 59 -> 0 <= ms <= 999 ->
  Date_parse
    (pad4 y +:+ "-" +:+ pad2 m +:+ "-" +:+ pad2 d +:+ "T"
     +:+ pad2 h +:+ ":" +:+ pad2 mi +:+ ":" +:+ pad2 s +:+ "."
     +:+ pad3 ms +:+ "Z")
  = Some (days_from_civil y m d * msPerDay
          + h * 3600000 + mi * 60000 + s * 1000 + ms).
Proof.
  intros Hy Hm Hd Hh Hmi Hs Hms.
  assert (Hd31 : d <= 31).
  { unfold daysInMonth in Hd.
    repeat match type of Hd with context [if ?c then _ else _] => destruct c end;
      lia. }
  unfold pad4, pad3, pad2, Date_parse.
  lazy beta iota zeta
    delta [append is_char String.eqb Ascii.eqb Bool.eqb andb].
  rewrite num4_pad by exact Hy.
  rewrite !num2_pad by lia.
  rewrite num3_pad by exact Hms.
  repeat match goal with
         | |- context [?a <=? ?b] => rewrite (proj2 (Z.leb_le a b)) by lia
         end.
  reflexivity.
Qed.

(** The calendar arithmetic: the civil date of a day number is a real
    date, and gives the day number back. *)
Lemma civil_from_days_spec days :
  forall y m d, civil_from_days days = (y, m, d) ->
  1 <= m <= 12 /\ 1 <= d <= daysInMonth y m /\ days_from_civil y m d = days.
Proof.
  intros y m d. unfold civil_from_days.
  set (z := days + 719468). set (era := z / 146097).
  set (doe := z - era * 146097).
  set (yoe := (doe - doe / 1460 + doe / 36524 - doe / 146096) / 365).
  set (doy := doe - (365 * yoe + yoe / 4 - yoe / 100)).
  set (mp := (5 * doy + 2) / 153).
  intros [= <- <- <-].
  assert (Hdoe : 0 <= doe <= 146096) by (subst doe era; Z.div_mod_to_equations; lia).
  assert (Hyoe : 0 <= yoe <= 399) by (subst yoe; Z.div_mod_to_equations; lia).
  assert (Hdoy : 0 <= doy <= 365) by (subst doy yoe; Z.div_mod_to_equations; lia).
  assert (Hmp : 0 <= mp <= 11) by (subst mp; Z.div_mod_to_equations; lia).
  assert (Hd : 1 <= doy - (153 * mp + 2) / 5 + 1 <= 31)
    by (subst mp; Z.div_mod_to_equations; lia).
  set (m := if mp <? 10 then mp + 3 else mp - 9).
  assert (Hcase : (mp < 10 /\ m = mp + 3) \/ (10 <= mp /\ m = mp - 9)).
  { subst m. destruct (mp <? 10) eqn:E;
      [apply Z.ltb_lt in E|apply Z.ltb_ge in E]; lia. }
  clearbody m.
  assert (Hmp' : (if 2 <? m then m - 3 else m + 9) = mp).
  { destruct (2 <? m) eqn:E; [apply Z.ltb_lt in E|apply Z.ltb_ge in E]; lia. }
  split; [lia|]. split.
  - split; [lia|]. unfold daysInMonth.
    destruct (m =? 2) eqn:Em2.
    + apply Z.eqb_eq in Em2. assert (Hfeb : mp = 11) by lia.
      replace (m <=? 2) with true by (symmetry; apply Z.leb_le; lia).
      destruct (((yoe + era * 400 + 1) mod 4 =? 0)
                && negb ((yoe + era * 400 + 1) mod 100 =? 0)
                || ((yoe + era * 400 + 1) mod 400 =? 0)) eqn:El.
      * rewrite Hfeb. change ((153 * 11 + 2) / 5) with 337. lia.
      * apply orb_false_iff in El. destruct El as [E1 E2].
        apply Z.eqb_neq in E2. apply andb_false_iff in E1.
        rewrite negb_false_iff, Z.eqb_neq, Z.eqb_eq in E1.
        rewrite Hfeb. change ((153 * 11 + 2) / 5) with 337.
        clear Hcase Hmp' Hd Em2 Hfeb Hmp Hdoy. clearbody doe era. clear z.
        subst doy yoe. Z.div_mod_to_equations. lia.
    + apply Z.eqb_neq in Em2.
      destruct ((m =? 4) || (m =? 6) || (m =? 9) || (m =? 11)) eqn:E30; [|lia].
      rewrite !orb_true_iff, !Z.eqb_eq in E30.
      clear Hmp'. subst mp. Z.div_mod_to_equations. lia.
  - unfold days_from_civil. rewrite Hmp'.
    destruct (m <=? 2) eqn:E; [apply Z.leb_le in E|apply Z.leb_gt in E].
    + replace (yoe + era * 400 + 1 - 1) with (yoe + era * 400) by lia.
      replace ((yoe + era * 400) / 400) with era
        by (Z.div_mod_to_equations; lia).
      replace (yoe + era * 400 - era * 400) with yoe by lia.
      subst doy doe z. lia.
    + replace (yoe + era * 400 + 0) with (yoe + era * 400) by lia.
      replace ((yoe + era * 400) / 400) with era
        by (Z.div_mod_to_equations; lia).
      replace (yoe + era * 400 - era * 400) with yoe by lia.
      subst doy doe z. lia.
Qed.

Lemma civil_from_days_year days :
  -719528 <= days < 2932897 -> 0 <= (civil_from_days days).1.1 <= 9999.
Proof.
  intros H. unfold civil_from_days. cbn [fst].
  set (z := days + 719468). set (era := z / 146097).
  set (doe := z - era * 146097).
  set (yoe := (doe - doe / 1460 + doe / 36524 - doe / 146096) / 365).
  set (doy := doe - (365 * yoe + yoe / 4 - yoe / 100)).
  set (mp := (5 * doy + 2) / 153).
  assert (Hera : -1 <= era <= 24) by (subst era z; Z.div_mod_to_equations; lia).
  assert (Hdoe : 0 <= doe <= 146096) by (subst doe era; Z.div_mod_to_equations; lia).
  assert (Hlow : era = -1 -> 146037 <= doe) by (subst doe era z; Z.div_mod_to_equations; lia).
  assert (Hhigh : era = 24 -> doe <= 146036) by (subst doe era z; Z.div_mod_to_equations; lia).
  assert (Hyoe : 0 <= yoe <= 399) by (subst yoe; Z.div_mod_to_equations; lia).
  assert (Hdoy : 0 <= doy <= 365) by (subst doy yoe; Z.div_mod_to_equations; lia).
  assert (Hmp : 0 <= mp <= 11) by (subst mp; Z.div_mod_to_equations; lia).
  assert (Hlow' : era = -1 -> yoe = 399 /\ 10 <= mp).
  { intros He. specialize (Hlow He). clear Hhigh Hmp Hdoy Hyoe.
    clearbody doe era. clear z H. subst mp doy yoe.
    Z.div_mod_to_equations. lia. }
  assert (Hhigh' : era = 24 -> yoe = 399 -> mp < 10).
  { intros He Hy. specialize (Hhigh He). clear Hlow Hlow' Hmp Hdoy Hyoe.
    clearbody doe era. clear z H. subst mp doy. rewrite Hy.
    change (365 * 399 + 399 / 4 - 399 / 100) with 145731.
    Z.div_mod_to_equations. lia. }
  clearbody mp yoe era.
  destruct (mp <? 10) eqn:E; [apply Z.ltb_lt in E|apply Z.ltb_ge in E].
  - replace (mp + 3 <=? 2) with false by (symmetry; apply Z.leb_gt; lia). lia.
  - replace (mp - 9 <=? 2) with true by (symmetry; apply Z.leb_le; lia). lia.
Qed.

(** ISO-8601 round trip: every instant of the years 0000 to 9999 is read
    back from its [toISOString] rendering. *)
Lemma Date_parse_toISOString t :
  -62167219200000 <= t < 253402300800000 ->
  Date_parse (toISOString t) = Some t.
Proof.
  intros Ht. unfold toISOString.
  assert (Hdays : -719528 <= t / msPerDay < 2932897)
    by (unfold msPerDay; Z.div_mod_to_equations; lia).
  pose proof (civil_from_days_year _ Hdays) as Hy.
  destruct (civil_from_days (t / msPerDay)) as [[y m] d] eqn:Hc.
  destruct (civil_from_days_spec _ y m d Hc) as (Hm & Hd & Hback).
  cbn [fst] in Hy.
  replace ((0 <=? y) && (y <=? 9999)) with true
    by (symmetry; apply andb_true_intro; split; apply Z.leb_le; lia).
  assert (Hms : 0 <= t mod msPerDay < 86400000)
    by (unfold msPerDay; Z.div_mod_to_equations; lia).
  rewrite Date_parse_fields; try assumption;
    try (Z.div_mod_to_equations; lia).
  f_equal. rewrite Hback. unfold msPerDay in *. Z.div_mod_to_equations. lia.
Qed.
End DateCodecFacts.

(** ** Frame reasoning: what a method leaves unchanged *)

Section Frames.
Context {X : Type} (f : World -> X).

Lemma keeps_ret {A} (a : A) : keeps f (ret a).
Proof. intros w. reflexivity. Qed.

Lemma keeps_throw {A} e : keeps f (@throw A e).
Proof. intros w. reflexivity. Qed.

Lemma keeps_gets {A} (g : World -> A) : keeps f (gets g).
Proof. intros w. reflexivity. Qed.

Lemma keeps_modify (g : World -> World) :
  (forall w, f (g w) = f w) -> keeps f (modify g).
Proof. intros H w. apply H. Qed.

Lemma keeps_bind {A B} (c : M A) (k : A -> M B) :
  keeps f c -> (forall a, keeps f (k a)) -> keeps f (bind c k).
Proof.
  intros Hc Hk w. unfold bind. specialize (Hc w).
  destruct (c w) as [[a|e] w']; simpl in *.
  - rewrite Hk. exact Hc.
  - exact Hc.
Qed.

Lemma keeps_try_catch {A} (c : M A) (h : JsError -> M A) :
  keeps f c -> (forall e, keeps f (h e)) -> keeps f (try_catch c h).
Proof.
  intros Hc Hh w. unfold try_catch. specialize (Hc w).
  destruct (c w) as [[a|e] w']; simpl in *.
  - exact Hc.
  - rewrite Hh. exact Hc.
Qed.

Lemma keeps_try_finally {A} (c : M A) (g : World -> World) :
  keeps f c -> (forall w, f (g w) = f w) -> keeps f (try_finally c g).
Proof.
  intros Hc Hg w. unfold try_finally. specialize (Hc w).
  destruct (c w) as [r w']; simpl in *. rewrite Hg. exact Hc.
Qed.
End Frames.

Lemma total_ret {A} (a : A) : total (ret a).
Proof. intros w. eexists. reflexivity. Qed.

Lemma total_gets {A} (g : World -> A) : total (gets g).
Proof. intros w. eexists. reflexivity. Qed.

Lemma total_modify g : total (modify g).
Proof. intros w. eexists. reflexivity. Qed.

Lemma total_bind {A B} (c : M A) (k : A -> M B) :
  total c -> (forall a, total (k a)) -> total (bind c k).
Proof.
  intros Hc Hk w. unfold bind. destruct (Hc w) as [a Ha].
  destruct (c w) as [[a'|e] w']; simpl in *; [|discriminate].
  apply Hk.
Qed.

Lemma total_try_catch {A} (c : M A) (h : JsError -> M A) :
  (forall e, total (h e)) -> total (try_catch c h).
Proof.
  intros Hh w. unfold try_catch.
  destruct (c w) as [[a|e] w']; simpl; [eexists; reflexivity | apply Hh].
Qed.

(** The syntactic cases of a frame or totality goal. *)
Ltac frame_step :=
  first
    [ apply keeps_ret | apply keeps_throw | apply keeps_gets
    | apply keeps_bind; [| intros ?]
    | apply keeps_try_catch; [| intros ?]
    | apply keeps_modify; intros ?; reflexivity
    | apply total_ret | apply total_gets | apply total_modify
    | apply total_try_catch; intros ?
    | apply total_bind; [| intros ?]
    | match goal with
      | |- keeps _ (match ?x with _ => _ end) => destruct x
      | |- total (match ?x with _ => _ end) => destruct x
      | |- keeps _ (if ?x then _ else _) => destruct x
      | |- total (if ?x then _ else _) => destruct x
      end
    | progress cbv beta zeta ].

Ltac frame := repeat frame_step; eauto.






(** ** The sync guard *)

Lemma syncAll_admits env w :
  syncAll env w =
    match admits w with
    | None => (Ok false, w)
    | Some user => try_finally (syncCycle env user) (set_isSyncing false) w
    end.
Proof.
  unfold syncAll, admits, bind, gets. simpl.
  destruct (isSyncing (syncStatus w)); [reflexivity|].
  destruct (currentUser w) as [u|]; [|reflexivity].
  destruct (isOnline (syncStatus w)); reflexivity.
Qed.

Create HintDb frames.

(** Observations of [syncStatus] other than [pendingChanges]: the methods
    below leave them alone.  In particular nothing but [syncAll] writes
    [isSyncing]. *)
Section StatusFrames.
Variable env : Env.
Context {X : Type} (f : World -> X).

Hypothesis Hev : forall e w, f (record_event e w) = f w.
Hypothesis Hqueue : forall ops w, f (set_pendingOperations ops w) = f w.
Hypothesis Hstore : forall g w, f (set_storage g w) = f w.
Hypothesis Hchanges : forall n w, f (set_pendingChanges n w) = f w.
Hypothesis Hlast : forall d w, f (set_lastSyncTime d w) = f w.

Lemma status_storage_call c : keeps f (AsyncStorage_call env c).
Proof using Hev.
  intros w. unfold AsyncStorage_call.
  destruct (storageRejects env (tick w) c); apply Hev.
Qed.

Lemma status_remote_call {A} c (answer : nat -> Result A) :
  keeps f (remote_call c answer).
Proof using Hev. intros w. apply Hev. Qed.

Ltac status_frame :=
  repeat first
    [ solve [auto with frames]
    | apply status_storage_call
    | apply status_remote_call
    | apply keeps_modify; intros ?;
      first [ apply Hqueue | apply Hstore | apply Hchanges | apply Hlast ]
    | frame_step ].

Lemma status_savePendingOperations : keeps f (savePendingOperations env).
Proof using Hev Hstore. unfold savePendingOperations. status_frame. Qed.

Lemma status_addPendingOperation t c d : keeps f (addPendingOperation env t c d).
Proof using Hev Hstore Hqueue Hchanges.
  unfold addPendingOperation. status_frame.
Qed.

Lemma status_replay op : keeps f (replay env op).
Proof using Hev.
  unfold replay, processPendingNoteOperation,
    processPendingChatThreadOperation, processPendingLabelOperation.
  status_frame.
Qed.
Hint Resolve status_replay : frames.

Lemma status_drain ops : keeps f (drain env ops).
Proof using Hev.
  induction ops as [|op ops IH]; simpl; status_frame.
Qed.
Hint Resolve status_drain status_addPendingOperation : frames.

Lemma status_processPendingOperations : keeps f (processPendingOperations env).
Proof using Hev Hstore Hqueue Hchanges.
  unfold processPendingOperations. status_frame.
Qed.

Lemma status_indexNotes l u : keeps f (indexNotes env l u).
Proof using Hev. induction l as [|n l IH]; simpl; status_frame. Qed.
Hint Resolve status_indexNotes : frames.

Lemma status_mergeNotes_loop cloud m : keeps f (mergeNotes_loop env cloud m).
Proof using Hev Hstore Hqueue Hchanges.
  revert m. induction cloud as [|c cloud IH]; intros m; simpl; status_frame.
Qed.
Hint Resolve status_mergeNotes_loop status_processPendingOperations : frames.

Lemma status_mergeNotes l c : keeps f (mergeNotes env l c).
Proof using Hev Hstore Hqueue Hchanges. unfold mergeNotes. status_frame. Qed.

Lemma status_syncNotes u : keeps f (syncNotes env u).
Proof using Hev Hstore Hqueue Hchanges. unfold syncNotes. status_frame. Qed.

Lemma status_syncChatThreads u : keeps f (syncChatThreads env u).
Proof using Hev Hstore. unfold syncChatThreads. status_frame. Qed.

Lemma status_syncLabels u : keeps f (syncLabels env u).
Proof using Hev Hstore. unfold syncLabels. status_frame. Qed.
Hint Resolve status_syncNotes status_syncChatThreads status_syncLabels : frames.

Lemma status_syncSteps user : keeps f (syncSteps env user).
Proof using All. unfold syncSteps. status_frame. Qed.

Lemma status_saveNote n : keeps f (saveNote env n).
Proof using Hev Hstore Hqueue Hchanges. unfold saveNote. status_frame. Qed.

Lemma status_deleteNote id : keeps f (deleteNote env id).
Proof using Hev Hstore Hqueue Hchanges. unfold deleteNote. status_frame. Qed.

Lemma status_saveChatThread t : keeps f (saveChatThread env t).
Proof using Hev Hstore Hqueue Hchanges. unfold saveChatThread. status_frame. Qed.
End StatusFrames.

Lemma flag_syncSteps env user : keeps flag (syncSteps env user).
Proof. apply status_syncSteps; reflexivity. Qed.

Lemma flag_listen t w : flag (listen t w).1 = flag w.
Proof. destruct t; reflexivity. Qed.

Lemma admits_flag w user : admits w = Some user -> flag w = false.
Proof.
  unfold admits, flag. destruct (isSyncing (syncStatus w)); [discriminate|].
  reflexivity.
Qed.

Lemma syncAll_returns env w :
  exists r, (syncAll env w).1 = Ok r.
Proof.
  rewrite syncAll_admits. destruct (admits w) as [user|]; [|eauto].
  unfold try_finally, syncCycle, try_catch.
  destruct (bind _ _ w) as [[r|e] w']; simpl; eauto.
Qed.

Lemma syncAll_leaves_flag_clear env w :
  flag w = false -> flag (syncAll env w).2 = false.
Proof.
  intros Hw. rewrite syncAll_admits. destruct (admits w) as [user|]; [|exact Hw].
  unfold try_finally. destruct (syncCycle env user w) as [r w']. reflexivity.
Qed.

(** The listeners of the source are [listen] followed, when it says so, by
    a call of [syncAll] whose result is dropped. *)
Lemma listeners_listen env w :
  let request t :=
    if (listen t w).2 then (syncAll env ;;; ret tt) (listen t w).1
    else (Ok tt, (listen t w).1) in
  onInterval env w = request PeriodicTimer
  /\ (forall c, onNetInfo env c w = request (ConnectivityChange c))
  /\ onAppActive env w = request AppForeground
  /\ forcSync env w = syncAll env (listen ExplicitRefresh w).1.
Proof.
  simpl. repeat split.
  - unfold onInterval, bind, gets. simpl.
    destruct (isOnline (syncStatus w) && negb (isSyncing (syncStatus w)));
      reflexivity.
  - intros c. unfold onNetInfo, bind, gets, modify. simpl.
    destruct (negb (isOnline (syncStatus w)) && default false c); reflexivity.
  - unfold onAppActive, bind, gets. simpl.
    destruct (isOnline (syncStatus w)); reflexivity.
Qed.

(** ** What each method leaves unchanged

    [f] is an observation of the world; each hypothesis says that [f] does
    not see one kind of change, and each lemma uses the hypotheses for the
    changes its method makes. *)
Section MethodFrames.
Variable env : Env.
Context {X : Type} (f : World -> X).

Hypothesis Hev_storage : forall c w, f (record_event (EvStorage c) w) = f w.
Hypothesis Hev_remote : forall c w, f (record_event (EvRemote c) w) = f w.
Hypothesis Hstatus : forall g w, f (set_syncStatus g w) = f w.
Hypothesis Hqueue : forall ops w, f (set_pendingOperations ops w) = f w.
Hypothesis Hnotes : forall v w,
  f (set_storage (fun st =>
       mkStorage (v st) (item_chatThreads st) (item_labels st)
         (item_pendingOperations st) (item_lastSyncTime st)) w) = f w.
Hypothesis Hthreads : forall v w,
  f (set_storage (fun st =>
       mkStorage (item_notes st) (v st) (item_labels st)
         (item_pendingOperations st) (item_lastSyncTime st)) w) = f w.
Hypothesis Hlabels : forall v w,
  f (set_storage (fun st =>
       mkStorage (item_notes st) (item_chatThreads st) (v st)
         (item_pendingOperations st) (item_lastSyncTime st)) w) = f w.
Hypothesis Hpending : forall v w,
  f (set_storage (fun st =>
       mkStorage (item_notes st) (item_chatThreads st) (item_labels st)
         (v st) (item_lastSyncTime st)) w) = f w.
Hypothesis HlastSync : forall v w,
  f (set_storage (fun st =>
       mkStorage (item_notes st) (item_chatThreads st) (item_labels st)
         (item_pendingOperations st) (v st)) w) = f w.

Lemma keeps_storage_call c : keeps f (AsyncStorage_call env c).
Proof using Hev_storage.
  intros w. unfold AsyncStorage_call.
  destruct (storageRejects env (tick w) c); simpl; apply Hev_storage.
Qed.

Lemma keeps_remote {A} c (answer : nat -> Result A) :
  keeps f (remote_call c answer).
Proof using Hev_remote. intros w. apply Hev_remote. Qed.

Ltac method_frame :=
  repeat first
    [ solve [auto with frames]
    | apply keeps_storage_call
    | apply keeps_remote
    | apply keeps_modify; intros ?;
      first [ apply Hstatus | apply Hqueue | apply Hnotes | apply Hthreads
            | apply Hlabels | apply Hpending | apply HlastSync ]
    | frame_step ].

Lemma keeps_getLocalNotes u : keeps f (getLocalNotes env u).
Proof using Hev_storage. unfold getLocalNotes. method_frame. Qed.

Lemma keeps_saveLocalNotes u l : keeps f (saveLocalNotes env u l).
Proof using Hev_storage Hnotes. unfold saveLocalNotes. method_frame. Qed.

Lemma keeps_updateLocalNote u n : keeps f (updateLocalNote env u n).
Proof using Hev_storage Hnotes.
  unfold updateLocalNote.
  apply keeps_bind; [apply keeps_getLocalNotes|intros ?].
  apply keeps_saveLocalNotes.
Qed.

Lemma keeps_removeLocalNote u id : keeps f (removeLocalNote env u id).
Proof using Hev_storage Hnotes.
  unfold removeLocalNote.
  apply keeps_bind; [apply keeps_getLocalNotes|intros ?].
  apply keeps_saveLocalNotes.
Qed.

Lemma keeps_getLocalChatThreads u : keeps f (getLocalChatThreads env u).
Proof using Hev_storage. unfold getLocalChatThreads. method_frame. Qed.

Lemma keeps_saveLocalChatThreads u l : keeps f (saveLocalChatThreads env u l).
Proof using Hev_storage Hthreads. unfold saveLocalChatThreads. method_frame. Qed.

Lemma keeps_updateLocalChatThread u t : keeps f (updateLocalChatThread env u t).
Proof using Hev_storage Hthreads.
  unfold updateLocalChatThread.
  apply keeps_bind; [apply keeps_getLocalChatThreads|intros ?].
  apply keeps_saveLocalChatThreads.
Qed.

Lemma keeps_getLocalLabels u : keeps f (getLocalLabels env u).
Proof using Hev_storage. unfold getLocalLabels. method_frame. Qed.

Lemma keeps_saveLocalLabels u l : keeps f (saveLocalLabels env u l).
Proof using Hev_storage Hlabels. unfold saveLocalLabels. method_frame. Qed.

Lemma keeps_savePendingOperations : keeps f (savePendingOperations env).
Proof using Hev_storage Hpending. unfold savePendingOperations. method_frame. Qed.

Lemma keeps_saveLastSyncTime : keeps f (saveLastSyncTime env).
Proof using Hev_storage HlastSync. unfold saveLastSyncTime. method_frame. Qed.

Lemma keeps_addPendingOperation t c d : keeps f (addPendingOperation env t c d).
Proof using Hev_storage Hpending Hstatus Hqueue.
  unfold addPendingOperation, Date_now, newDate. method_frame.
Qed.

Lemma keeps_replay op : keeps f (replay env op).
Proof using Hev_remote.
  unfold replay, processPendingNoteOperation,
    processPendingChatThreadOperation, processPendingLabelOperation.
  method_frame.
Qed.

Lemma keeps_drain ops : keeps f (drain env ops).
Proof using Hev_remote.
  induction ops as [|op ops IH]; simpl; [apply keeps_ret|].
  apply keeps_bind; [|intros ?; apply keeps_bind; [exact IH|intros; apply keeps_ret]].
  unfold attempt. apply keeps_try_catch; [|intros; apply keeps_ret].
  apply keeps_bind; [apply keeps_replay|intros; apply keeps_ret].
Qed.

Lemma keeps_processPendingOperations : keeps f (processPendingOperations env).
Proof using Hev_storage Hev_remote Hpending Hstatus Hqueue.
  unfold processPendingOperations.
  apply keeps_bind; [apply keeps_gets|intros ops].
  destruct (length ops =? 0)%nat; [apply keeps_ret|].
  apply keeps_bind; [apply keeps_gets|intros [user|]]; [|apply keeps_ret].
  apply keeps_bind; [apply keeps_drain|intros r].
  method_frame.
Qed.

Lemma keeps_indexNote n u : keeps f (indexNote env n u).
Proof using Hev_remote. unfold indexNote. method_frame. Qed.

Lemma keeps_indexNotes l u : keeps f (indexNotes env l u).
Proof using Hev_remote.
  induction l as [|n l IH]; simpl; [apply keeps_ret|].
  apply keeps_bind; [apply keeps_indexNote|intros; exact IH].
Qed.

Lemma keeps_updateSearchIndex l u : keeps f (updateSearchIndex env l u).
Proof using Hev_remote.
  unfold updateSearchIndex.
  apply keeps_try_catch; [apply keeps_indexNotes|intros; apply keeps_ret].
Qed.

Lemma keeps_mergeNotes_loop cloud m : keeps f (mergeNotes_loop env cloud m).
Proof using Hev_storage Hpending Hstatus Hqueue.
  revert m. induction cloud as [|c cloud IH]; intros m; simpl;
    [apply keeps_ret|].
  destruct (Map_get (note_id c) m) as [l|]; [|apply IH].
  destruct (Date_gt (note_updatedAt c) (note_updatedAt l)); [apply IH|].
  destruct (Date_gt (note_updatedAt l) (note_updatedAt c)); [|apply IH].
  apply keeps_bind; [|intros; apply IH].
  apply keeps_try_catch; [apply keeps_addPendingOperation|intros; apply keeps_ret].
Qed.

Lemma keeps_mergeNotes l c : keeps f (mergeNotes env l c).
Proof using Hev_storage Hpending Hstatus Hqueue.
  unfold mergeNotes.
  apply keeps_bind; [apply keeps_mergeNotes_loop|intros; apply keeps_ret].
Qed.

Lemma keeps_syncNotes u : keeps f (syncNotes env u).
Proof using Hev_storage Hev_remote Hpending Hstatus Hqueue Hnotes.
  unfold syncNotes. apply keeps_try_catch; [|intros; apply keeps_throw].
  apply keeps_bind; [apply keeps_getLocalNotes|intros ?].
  apply keeps_bind; [apply keeps_remote|intros ?].
  apply keeps_bind; [apply keeps_mergeNotes|intros ?].
  apply keeps_bind; [apply keeps_saveLocalNotes|intros ?].
  apply keeps_updateSearchIndex.
Qed.

Lemma keeps_syncChatThreads u : keeps f (syncChatThreads env u).
Proof using Hev_storage Hev_remote Hthreads.
  unfold syncChatThreads. apply keeps_try_catch; [|intros; apply keeps_throw].
  apply keeps_bind; [apply keeps_getLocalChatThreads|intros ?].
  apply keeps_bind; [apply keeps_remote|intros ?].
  apply keeps_saveLocalChatThreads.
Qed.

Lemma keeps_syncLabels u : keeps f (syncLabels env u).
Proof using Hev_storage Hev_remote Hlabels.
  unfold syncLabels. apply keeps_try_catch; [|intros; apply keeps_throw].
  apply keeps_bind; [apply keeps_getLocalLabels|intros ?].
  apply keeps_bind; [apply keeps_remote|intros ?].
  apply keeps_saveLocalLabels.
Qed.

Lemma keeps_saveNote n : keeps f (saveNote env n).
Proof using Hev_storage Hev_remote Hpending Hstatus Hqueue Hnotes.
  unfold saveNote.
  apply keeps_bind; [apply keeps_gets|intros user].
  apply keeps_try_catch; [|intros; apply keeps_ret].
  apply keeps_bind; [apply keeps_updateLocalNote|intros ?].
  apply keeps_bind; [apply keeps_gets|intros online].
  destruct user as [u|]; [|apply keeps_ret].
  destruct (negb (String.eqb (user_id u) "guest") && online).
  - apply keeps_try_catch; [|intros; apply keeps_addPendingOperation].
    apply keeps_bind; [apply keeps_remote|intros [saved|]];
      [apply keeps_indexNote|apply keeps_addPendingOperation].
  - destruct (String.eqb (user_id u) "guest");
      [apply keeps_ret|apply keeps_addPendingOperation].
Qed.

Lemma keeps_deleteNote id : keeps f (deleteNote env id).
Proof using Hev_storage Hev_remote Hpending Hstatus Hqueue Hnotes.
  unfold deleteNote.
  apply keeps_bind; [apply keeps_gets|intros user].
  apply keeps_try_catch; [|intros; apply keeps_ret].
  apply keeps_bind; [apply keeps_removeLocalNote|intros ?].
  apply keeps_bind; [apply keeps_gets|intros online].
  destruct user as [u|]; [|apply keeps_ret].
  destruct (negb (String.eqb (user_id u) "guest") && online).
  - apply keeps_bind.
    + apply keeps_try_catch; [|intros; apply keeps_addPendingOperation].
      apply keeps_bind; [apply keeps_remote|intros [|]];
        [apply keeps_ret|apply keeps_addPendingOperation].
    + intros ?. apply keeps_try_catch; [apply keeps_remote|intros; apply keeps_ret].
  - destruct (String.eqb (user_id u) "guest");
      [apply keeps_ret|apply keeps_addPendingOperation].
Qed.

Lemma keeps_saveChatThread t : keeps f (saveChatThread env t).
Proof using Hev_storage Hev_remote Hpending Hstatus Hqueue Hthreads.
  unfold saveChatThread.
  apply keeps_bind; [apply keeps_gets|intros [u|]];
    [|apply keeps_updateLocalChatThread].
  apply keeps_try_catch; [|intros; apply keeps_addPendingOperation].
  apply keeps_bind; [apply keeps_updateLocalChatThread|intros ?].
  apply keeps_bind; [apply keeps_gets|intros [|]];
    [|apply keeps_addPendingOperation].
  apply keeps_bind; [apply keeps_remote|intros [saved|]];
    [apply keeps_ret|apply keeps_addPendingOperation].
Qed.

Lemma keeps_syncSteps user : keeps f (syncSteps env user).
Proof using All.
  unfold syncSteps, newDate.
  apply keeps_bind; [apply keeps_processPendingOperations|intros ?].
  apply keeps_bind; [apply keeps_syncNotes|intros ?].
  apply keeps_bind; [apply keeps_syncChatThreads|intros ?].
  apply keeps_bind; [apply keeps_syncLabels|intros ?].
  apply keeps_bind; [apply keeps_gets|intros ?].
  apply keeps_bind; [apply keeps_modify; intros; apply Hstatus|intros ?].
  apply keeps_bind; [apply keeps_saveLastSyncTime|intros ?].
  apply keeps_ret.
Qed.

Lemma keeps_syncAll : keeps f (syncAll env).
Proof using All.
  intros w. rewrite syncAll_admits. destruct (admits w) as [user|]; [|reflexivity].
  revert w. apply keeps_try_finally; [|intros; apply Hstatus].
  unfold syncCycle. apply keeps_try_catch; [|intros; apply keeps_ret].
  apply keeps_bind; [apply keeps_modify; intros; apply Hstatus|intros ?].
  apply keeps_syncSteps.
Qed.
End MethodFrames.

(** ** Methods that never throw *)
Section Totality.
Variable env : Env.

Ltac total_frame := repeat first [ solve [auto with frames] | frame_step ].

Lemma total_savePendingOperations : total (savePendingOperations env).
Proof. unfold savePendingOperations. total_frame. Qed.

Lemma total_addPendingOperation t c d : total (addPendingOperation env t c d).
Proof.
  unfold addPendingOperation, Date_now, newDate. total_frame.
Qed.

Lemma total_attempt op : total (attempt env op).
Proof. unfold attempt. total_frame. Qed.

Lemma total_drain ops : total (drain env ops).
Proof.
  induction ops as [|op ops IH]; simpl; [apply total_ret|].
  apply total_bind; [apply total_attempt|intros a].
  apply total_bind; [exact IH|intros r; apply total_ret].
Qed.

Lemma total_processPendingOperations : total (processPendingOperations env).
Proof.
  unfold processPendingOperations.
  apply total_bind; [apply total_gets|intros ops].
  destruct (length ops =? 0)%nat; [apply total_ret|].
  apply total_bind; [apply total_gets|intros [user|]]; [|apply total_ret].
  apply total_bind; [apply total_drain|intros r].
  total_frame.
Qed.

Lemma total_getLocalNotes u : total (getLocalNotes env u).
Proof. unfold getLocalNotes. total_frame. Qed.

Lemma total_saveLocalNotes u l : total (saveLocalNotes env u l).
Proof. unfold saveLocalNotes. total_frame. Qed.

Lemma total_updateLocalNote u n : total (updateLocalNote env u n).
Proof.
  unfold updateLocalNote.
  apply total_bind; [apply total_getLocalNotes|intros; apply total_saveLocalNotes].
Qed.

Lemma total_getLocalChatThreads u : total (getLocalChatThreads env u).
Proof. unfold getLocalChatThreads. total_frame. Qed.

Lemma total_saveLocalChatThreads u l : total (saveLocalChatThreads env u l).
Proof. unfold saveLocalChatThreads. total_frame. Qed.

Lemma total_updateLocalChatThread u t : total (updateLocalChatThread env u t).
Proof.
  unfold updateLocalChatThread.
  apply total_bind;
    [apply total_getLocalChatThreads|intros; apply total_saveLocalChatThreads].
Qed.

Lemma total_saveNote n : total (saveNote env n).
Proof.
  unfold saveNote. apply total_bind; [apply total_gets|intros user].
  apply total_try_catch. intros; apply total_ret.
Qed.

Lemma total_deleteNote id : total (deleteNote env id).
Proof.
  unfold deleteNote. apply total_bind; [apply total_gets|intros user].
  apply total_try_catch. intros; apply total_ret.
Qed.

Lemma total_saveChatThread t : total (saveChatThread env t).
Proof.
  unfold saveChatThread. apply total_bind; [apply total_gets|intros [u|]].
  - apply total_try_catch. intros; apply total_addPendingOperation.
  - apply total_updateLocalChatThread.
Qed.
End Totality.

(** ** Draining the queue *)

Lemma attempt_attempted env op w :
  attempt env op w = (Ok (attempted env op w).1, (attempted env op w).2).
Proof.
  unfold attempt, attempted, try_catch, bind, ret.
  destruct (replay env op w) as [[[|]|e] w']; reflexivity.
Qed.

Lemma drain_drained env ops w :
  drain env ops w = (Ok (drained env ops w).1, (drained env ops w).2).
Proof.
  revert w. induction ops as [|op ops IH]; intros w; [reflexivity|].
  simpl. unfold bind at 1. rewrite attempt_attempted.
  unfold bind at 1. rewrite IH. reflexivity.
Qed.

Lemma drained_app env l1 l2 w :
  drained env (l1 ++ l2) w =
    let d1 := drained env l1 w in
    let d2 := drained env l2 d1.2 in
    (d1.1.1 ++ d2.1.1, d1.1.2 ++ d2.1.2, d2.2).
Proof.
  revert w. induction l1 as [|op l1 IH]; intros w; simpl.
  - destruct (drained env l2 w) as [[? ?] ?]. reflexivity.
  - rewrite IH. simpl. rewrite <- app_assoc. reflexivity.
Qed.

Lemma settle_id op a : op_id (settle op a).1 = op_id op.
Proof.
  destruct a; unfold settle; try reflexivity.
  match goal with |- context [if ?c then _ else _] => destruct c end;
    reflexivity.
Qed.

Lemma settle_ids op a x : In x (settle op a).2 -> x = op_id op.
Proof.
  destruct a; unfold settle.
  - intros [<-|[]]. reflexivity.
  - match goal with |- context [if ?c then _ else _] => destruct c end;
      [intros [<-|[]]; reflexivity | intros []].
  - intros [].
Qed.

Lemma drained_op_ids env ops w :
  map op_id (drained env ops w).1.1 = map op_id ops.
Proof.
  revert w. induction ops as [|op ops IH]; intros w; simpl; [reflexivity|].
  rewrite settle_id, IH. reflexivity.
Qed.

Lemma drained_ids env ops w x :
  In x (drained env ops w).1.2 -> In x (map op_id ops).
Proof.
  revert w. induction ops as [|op ops IH]; intros w; simpl; [tauto|].
  rewrite in_app_iff. intros [H|H].
  - left. symmetry. eapply settle_ids, H.
  - right. eapply IH, H.
Qed.

Lemma includes_In x l : includes x l = true <-> In x l.
Proof.
  unfold includes. rewrite existsb_exists. split.
  - intros (y & Hy & Heq). apply String.eqb_eq in Heq. subst. exact Hy.
  - intros H. exists x. split; [exact H|apply String.eqb_refl].
Qed.

Lemma entriesFor_none id q :
  ~ In id (map op_id q) -> entriesFor id q = [].
Proof.
  induction q as [|o q IH]; simpl; [reflexivity|]. intros H.
  destruct (String.eqb_spec (op_id o) id) as [Heq|Hne]; [tauto|].
  apply IH. tauto.
Qed.

Lemma entriesFor_filter id p q :
  entriesFor id (List.filter p q) = List.filter p (entriesFor id q).
Proof.
  unfold entriesFor. induction q as [|o q IH]; simpl; [reflexivity|].
  destruct (p o) eqn:Hp; simpl;
    destruct (String.eqb (op_id o) id); simpl; rewrite ?Hp, IH; reflexivity.
Qed.

Lemma entriesFor_app id q1 q2 :
  entriesFor id (q1 ++ q2) = entriesFor id q1 ++ entriesFor id q2.
Proof. apply List.filter_app. Qed.

Lemma entriesFor_hit id o q :
  op_id o = id -> entriesFor id (o :: q) = o :: entriesFor id q.
Proof. intros <-. unfold entriesFor. simpl. rewrite String.eqb_refl. reflexivity. Qed.

(** What a drain does to the one queue entry of an entity: it stays, as
    [settle] left it, unless its own attempt put its id on the removal
    list. *)
Lemma processPendingOperations_entry env w user before op after :
  currentUser w = Some user ->
  pendingOperations w = before ++ op :: after ->
  ~ In (op_id op) (map op_id (before ++ after)) ->
  let a := (attempted env op (drained env before w).2).1 in
  entriesFor (op_id op) (pendingOperations (processPendingOperations env w).2)
    = match (settle op a).2 with
      | [] => [(settle op a).1]
      | _ => []
      end.
Proof.
  intros Huser Hq Huniq a.
  unfold processPendingOperations.
  unfold bind at 1. unfold gets at 1. rewrite Hq.
  replace (length (before ++ op :: after) =? 0)%nat with false
    by (rewrite length_app; simpl; symmetry; apply Nat.eqb_neq; lia).
  unfold bind at 1. unfold gets at 1. rewrite Huser.
  unfold bind at 1. rewrite drain_drained.
  unfold bind at 1. unfold modify at 1.
  unfold bind at 1. unfold modify at 1.
  rewrite (keeps_savePendingOperations env pendingOperations)
    by reflexivity.
  simpl pendingOperations.
  rewrite drained_app. simpl.
  set (d1 := drained env before w).
  set (r := attempted env op d1.2).
  set (d2 := drained env after r.2).
  rewrite entriesFor_filter, entriesFor_app, entriesFor_hit by apply settle_id.
  assert (Hb : ~ In (op_id op) (map op_id d1.1.1)).
  { unfold d1. rewrite drained_op_ids. rewrite map_app, in_app_iff in Huniq. tauto. }
  assert (Ha : ~ In (op_id op) (map op_id d2.1.1)).
  { unfold d2. rewrite drained_op_ids. rewrite map_app, in_app_iff in Huniq. tauto. }
  rewrite (entriesFor_none _ _ Hb), (entriesFor_none _ _ Ha). simpl.
  rewrite settle_id.
  assert (Hids : includes (op_id op) (d1.1.2 ++ (settle op r.1).2 ++ d2.1.2)
                 = match (settle op r.1).2 with [] => false | _ => true end).
  { destruct (settle op r.1).2 as [|x l] eqn:Hs.
    - simpl. apply not_true_is_false. rewrite includes_In, in_app_iff.
      intros [H|H].
      + apply drained_ids in H. rewrite map_app, in_app_iff in Huniq. tauto.
      + apply drained_ids in H. rewrite map_app, in_app_iff in Huniq. tauto.
    - apply includes_In. rewrite !in_app_iff. right; left.
      assert (x = op_id op) as <- by (eapply settle_ids; rewrite Hs; left; reflexivity).
      left. reflexivity. }
  rewrite Hids. subst a. fold d1. fold r.
  destruct (settle op r.1).2; reflexivity.
Qed.

(** An attempt that returns [false] costs a retry; the entry is dropped
    when its count reaches the ceiling.  One that throws costs a retry and
    is never compared with the ceiling.  One that succeeds is removed. *)
Lemma processPendingOperations_outcome env w user before op after :
  currentUser w = Some user ->
  pendingOperations w = before ++ op :: after ->
  ~ In (op_id op) (map op_id (before ++ after)) ->
  entriesFor (op_id op) (pendingOperations (processPendingOperations env w).2)
    = match (replay env op (drained env before w).2).1 with
      | Ok true => []
      | Ok false =>
          if (MAX_RETRY_COUNT <=? S (op_retryCount op))%nat then []
          else [retry op]
      | Throw _ => [retry op]
      end.
Proof.
  intros Hu Hq Hn.
  rewrite (processPendingOperations_entry env w user before op after Hu Hq Hn).
  unfold attempted.
  destruct (replay env op (drained env before w).2) as [[[|]|e] w'];
    cbn -[Nat.leb MAX_RETRY_COUNT]; try reflexivity.
  destruct (MAX_RETRY_COUNT <=? S (op_retryCount op))%nat; reflexivity.
Qed.

(** ** The engine cut at its awaits (C1) *)

(** ** The methods cut at their awaits, run without interruption *)

Lemma bind_ext {A B} (c c' : M A) (k k' : A -> M B) :
  (forall w, c w = c' w) -> (forall a w, k a w = k' a w) ->
  forall w, bind c k w = bind c' k' w.
Proof.
  intros Hc Hk w. unfold bind. rewrite Hc.
  destruct (c' w) as [[a|e] w']; [apply Hk|reflexivity].
Qed.

Lemma try_catch_ext {A} (c c' : M A) (h h' : JsError -> M A) :
  (forall w, c w = c' w) -> (forall e w, h e w = h' e w) ->
  forall w, try_catch c h w = try_catch c' h' w.
Proof.
  intros Hc Hh w. unfold try_catch. rewrite Hc.
  destruct (c' w) as [[a|e] w']; [reflexivity|apply Hh].
Qed.

Lemma complete_atomic {A} (c : M A) w : Async.complete (Async.atomic c) w = c w.
Proof.
  unfold Async.atomic. simpl. destruct (c w) as [[a|e] w']; reflexivity.
Qed.

Lemma complete_bind {A B} (t : Async.Task A) (k : A -> Async.Task B) w :
  Async.complete (Async.bind_task t k) w
  = bind (Async.complete t) (fun a => Async.complete (k a)) w.
Proof.
  revert w. induction t as [a|e|upd next IH|rest IH|rest IH|rest IH];
    intros w; simpl; try reflexivity; apply IH.
Qed.

Lemma complete_try_catch {A} (t : Async.Task A) h w :
  Async.complete (Async.try_catch t h) w
  = try_catch (Async.complete t) (fun e => Async.complete (h e)) w.
Proof.
  revert w. induction t as [a|e|upd next IH|rest IH|rest IH|rest IH];
    intros w; simpl; try reflexivity; apply IH.
Qed.

Lemma complete_try_finally {A} (t : Async.Task A) f w :
  Async.complete (Async.try_finally t f) w = try_finally (Async.complete t) f w.
Proof.
  revert w. induction t as [a|e|upd next IH|rest IH|rest IH|rest IH];
    intros w; simpl; try reflexivity; apply IH.
Qed.

Lemma complete_await {A} (t : Async.Task A) w :
  Async.complete (Async.await t) w = Async.complete t w.
Proof.
  revert w. induction t as [a|e|upd next IH|rest IH|rest IH|rest IH];
    intros w; simpl; try reflexivity; apply IH.
Qed.

Lemma complete_leaving {A} (t : Async.Task A) w :
  Async.complete (Async.leaving t) w = Async.complete t w.
Proof.
  revert w. induction t as [a|e|upd next IH|rest IH|rest IH|rest IH];
    intros w; simpl; try reflexivity; apply IH.
Qed.

Lemma bind_ext_at {A B} (c c' : M A) (k k' : A -> M B) w :
  c w = c' w -> (forall a w', k a w' = k' a w') -> bind c k w = bind c' k' w.
Proof.
  intros Hc Hk. unfold bind. rewrite Hc.
  destruct (c' w) as [[a|e] w']; [apply Hk|reflexivity].
Qed.

Lemma bind_gets {A B} (g : World -> A) (k : A -> M B) w :
  bind (gets g) k w = k (g w) w.
Proof. reflexivity. Qed.

Lemma bind_modify {B} (g : World -> World) (k : unit -> M B) w :
  bind (modify g) k w = k tt (g w).
Proof. reflexivity. Qed.

Lemma bind_ok {A B} (c : M A) (k : A -> M B) w a w' :
  c w = (Ok a, w') -> bind c k w = k a w'.
Proof. intros H. unfold bind. rewrite H. reflexivity. Qed.

Lemma complete_modify {B} (g : World -> World) (k : unit -> Async.Task B) w :
  Async.complete (Async.bind_task (Async.atomic (modify g)) k) w
  = Async.complete (k tt) (g w).
Proof. rewrite complete_bind. unfold bind. rewrite complete_atomic. reflexivity. Qed.

Lemma complete_gets {A B} (g : World -> A) (k : A -> Async.Task B) w :
  Async.complete (Async.bind_task (Async.atomic (gets g)) k) w
  = Async.complete (k (g w)) w.
Proof. rewrite complete_bind. unfold bind. rewrite complete_atomic. reflexivity. Qed.

Lemma complete_io {A} (c : M A) w : Async.complete (Async.io c) w = c w.
Proof. unfold Async.io. rewrite complete_await. apply complete_atomic. Qed.

Create HintDb erasure.

Ltac erase_step :=
  first
    [ solve [auto with erasure]
    | apply complete_io
    | apply complete_atomic
    | reflexivity
    | rewrite complete_await
    | rewrite complete_bind; apply bind_ext; [intros ?|intros ? ?]
    | rewrite complete_try_catch; apply try_catch_ext; [intros ?|intros ? ?]
    | match goal with
      | |- context [match ?x with _ => _ end] => destruct x
      end ].

Ltac erase := cbv zeta; repeat erase_step.

Section Erasure.
Variable env : Env.

(** The queue and the time are read before the call and written after
    the answer; the call changes neither. *)
Lemma complete_savePendingOperations w :
  Async.complete (Async.savePendingOperations env) w = savePendingOperations env w.
Proof.
  unfold Async.savePendingOperations, savePendingOperations.
  rewrite complete_try_catch. unfold try_catch.
  rewrite complete_bind. unfold bind at 1. rewrite complete_atomic.
  unfold gets at 1. rewrite complete_bind. unfold bind.
  rewrite complete_io. unfold AsyncStorage_call.
  destruct (storageRejects env (tick w) (SetItem KeyPendingOperations));
    [reflexivity|].
  rewrite complete_atomic. reflexivity.
Qed.

Lemma complete_saveLastSyncTime w :
  Async.complete (Async.saveLastSyncTime env) w = saveLastSyncTime env w.
Proof.
  unfold Async.saveLastSyncTime, saveLastSyncTime. erase.
Qed.

Lemma complete_getLocalNotes u w :
  Async.complete (Async.getLocalNotes env u) w = getLocalNotes env u w.
Proof. unfold Async.getLocalNotes, getLocalNotes. erase. Qed.

Lemma complete_saveLocalNotes u l w :
  Async.complete (Async.saveLocalNotes env u l) w = saveLocalNotes env u l w.
Proof. unfold Async.saveLocalNotes, saveLocalNotes. erase. Qed.
Hint Resolve complete_savePendingOperations complete_saveLastSyncTime
  complete_getLocalNotes complete_saveLocalNotes : erasure.

Lemma complete_updateLocalNote u n w :
  Async.complete (Async.updateLocalNote env u n) w = updateLocalNote env u n w.
Proof. unfold Async.updateLocalNote, updateLocalNote. erase. Qed.

Lemma complete_removeLocalNote u id w :
  Async.complete (Async.removeLocalNote env u id) w = removeLocalNote env u id w.
Proof. unfold Async.removeLocalNote, removeLocalNote. erase. Qed.

Lemma complete_getLocalChatThreads u w :
  Async.complete (Async.getLocalChatThreads env u) w = getLocalChatThreads env u w.
Proof. unfold Async.getLocalChatThreads, getLocalChatThreads. erase. Qed.

Lemma complete_saveLocalChatThreads u l w :
  Async.complete (Async.saveLocalChatThreads env u l) w
  = saveLocalChatThreads env u l w.
Proof. unfold Async.saveLocalChatThreads, saveLocalChatThreads. erase. Qed.
Hint Resolve complete_updateLocalNote complete_removeLocalNote
  complete_getLocalChatThreads complete_saveLocalChatThreads : erasure.

Lemma complete_updateLocalChatThread u t w :
  Async.complete (Async.updateLocalChatThread env u t) w
  = updateLocalChatThread env u t w.
Proof. unfold Async.updateLocalChatThread, updateLocalChatThread. erase. Qed.

Lemma complete_getLocalLabels u w :
  Async.complete (Async.getLocalLabels env u) w = getLocalLabels env u w.
Proof. unfold Async.getLocalLabels, getLocalLabels. erase. Qed.

Lemma complete_saveLocalLabels u l w :
  Async.complete (Async.saveLocalLabels env u l) w = saveLocalLabels env u l w.
Proof. unfold Async.saveLocalLabels, saveLocalLabels. erase. Qed.

Lemma complete_addPendingOperation t c d w :
  Async.complete (Async.addPendingOperation env t c d) w
  = addPendingOperation env t c d w.
Proof. unfold Async.addPendingOperation, addPendingOperation. erase. Qed.
Hint Resolve complete_updateLocalChatThread complete_getLocalLabels
  complete_saveLocalLabels complete_addPendingOperation : erasure.

Lemma complete_replay op w :
  Async.complete (Async.replay env op) w = replay env op w.
Proof.
  unfold Async.replay, replay, Async.processPendingNoteOperation,
    processPendingNoteOperation, Async.processPendingChatThreadOperation,
    processPendingChatThreadOperation, Async.processPendingLabelOperation,
    processPendingLabelOperation.
  cbv zeta. destruct (op_collection op), (op_type op); erase.
Qed.
Hint Resolve complete_replay : erasure.

Lemma complete_attempt op w :
  Async.complete (Async.attempt env op) w = attempt env op w.
Proof. unfold Async.attempt, attempt. erase. Qed.
Hint Resolve complete_attempt : erasure.

(** A replay neither reads nor writes the queue. *)
Lemma replay_queue op q w :
  replay env op (set_pendingOperations q w)
  = ((replay env op w).1, set_pendingOperations q (replay env op w).2).
Proof.
  assert (Hcall : forall A c (answer : nat -> Result A),
             remote_call c answer (set_pendingOperations q w)
             = ((remote_call c answer w).1,
                set_pendingOperations q (remote_call c answer w).2))
    by reflexivity.
  unfold replay, processPendingNoteOperation, processPendingChatThreadOperation,
    processPendingLabelOperation.
  cbv zeta.
  destruct (op_collection op), (op_type op); unfold bind;
    try rewrite Hcall; try reflexivity;
    match goal with
    | |- context [remote_call ?c ?a w] =>
        destruct (remote_call c a w) as [[?|?] ?]; reflexivity
    end.
Qed.

Lemma attempted_queue op q w :
  attempted env op (set_pendingOperations q w)
  = ((attempted env op w).1, set_pendingOperations q (attempted env op w).2).
Proof.
  unfold attempted. rewrite replay_queue.
  destruct (replay env op w) as [[[|]|e] w']; reflexivity.
Qed.

Lemma drained_queue ops q w :
  drained env ops (set_pendingOperations q w)
  = ((drained env ops w).1, set_pendingOperations q (drained env ops w).2).
Proof.
  revert w. induction ops as [|op ops IH]; intros w; [reflexivity|].
  simpl. rewrite attempted_queue. simpl. rewrite IH. reflexivity.
Qed.

Lemma attempted_keeps_queue op w :
  pendingOperations (attempted env op w).2 = pendingOperations w.
Proof.
  assert (Hw : set_pendingOperations (pendingOperations w) w = w)
    by (destruct w; reflexivity).
  pose proof (attempted_queue op (pendingOperations w) w) as H.
  rewrite Hw in H. rewrite H. reflexivity.
Qed.

(** The loop over the live queue, when nothing runs in between and the
    bound is no less than what is left of the queue: the replays are those
    of the sequential loop, and the queue holds the operations as the loop
    leaves them. *)
Lemma complete_drain rest :
  forall done successful fuel w,
    pendingOperations w = done ++ rest ->
    (length rest <= fuel)%nat ->
    Async.complete (Async.drain env fuel (length done) successful) w
    = (Ok (successful ++ (drained env rest w).1.2),
       set_pendingOperations (done ++ (drained env rest w).1.1)
         (drained env rest w).2).
Proof.
  induction rest as [|op rest IH]; intros done successful fuel w Hq Hfuel.
  - assert (Hw : set_pendingOperations (done ++ []) w = w)
      by (rewrite <- Hq; destruct w; reflexivity).
    simpl drained. cbn [fst snd]. rewrite Hw, app_nil_r.
    destruct fuel as [|fuel]; [reflexivity|].
    cbn [Async.drain]. rewrite complete_bind. unfold bind.
    rewrite complete_atomic. unfold gets. rewrite Hq, app_nil_r.
    rewrite lookup_ge_None_2 by lia. reflexivity.
  - destruct fuel as [|fuel]; [simpl in Hfuel; lia|].
    cbn [Async.drain]. rewrite complete_bind. unfold bind at 1.
    rewrite complete_atomic. unfold gets at 1. rewrite Hq.
    rewrite list_lookup_middle by reflexivity.
    rewrite complete_bind. unfold bind at 1.
    rewrite complete_attempt, attempt_attempted.
    rewrite complete_bind. unfold bind at 1.
    rewrite complete_atomic. unfold modify at 1.
    rewrite attempted_keeps_queue, Hq.
    rewrite (insert_app_r_alt done (op :: rest)) by lia.
    rewrite Nat.sub_diag. cbn [insert list_insert].
    pose proof (IH (done ++ [(settle op (attempted env op w).1).1])
                  (successful ++ (settle op (attempted env op w).1).2) fuel
                  (set_pendingOperations
                     ((done ++ [(settle op (attempted env op w).1).1]) ++ rest)
                     (attempted env op w).2)) as Hrest.
    rewrite length_app, Nat.add_1_r in Hrest.
    rewrite <- app_assoc in Hrest. cbn [app] in Hrest.
    rewrite Hrest; [|reflexivity|simpl in Hfuel; lia].
    rewrite drained_queue. cbn [drained fst snd].
    rewrite <- !app_assoc. reflexivity.
Qed.

Lemma complete_processPendingOperations fuel w :
  (length (pendingOperations w) <= fuel)%nat ->
  Async.complete (Async.processPendingOperations env fuel) w
  = processPendingOperations env w.
Proof.
  intros Hfuel. unfold Async.processPendingOperations, processPendingOperations.
  rewrite complete_gets, bind_gets.
  destruct (length (pendingOperations w) =? 0)%nat; [reflexivity|].
  rewrite complete_gets, bind_gets.
  destruct (currentUser w) as [user|]; [|reflexivity].
  pose proof (complete_drain (pendingOperations w) [] [] fuel w eq_refl Hfuel)
    as Hdrain.
  cbn [length app] in Hdrain.
  rewrite complete_bind. unfold bind at 1. rewrite Hdrain.
  rewrite (bind_ok _ _ _ _ _ (drain_drained env (pendingOperations w) w)).
  cbn [fst snd].
  rewrite !complete_modify, !bind_modify, complete_await.
  rewrite complete_savePendingOperations. reflexivity.
Qed.

Lemma complete_indexNote n u w :
  Async.complete (Async.indexNote env n u) w = indexNote env n u w.
Proof. unfold Async.indexNote, indexNote. erase. Qed.
Hint Resolve complete_indexNote : erasure.

Lemma complete_indexNotes l u w :
  Async.complete (Async.indexNotes env l u) w = indexNotes env l u w.
Proof.
  revert w. induction l as [|n l IH]; intros w; [reflexivity|].
  simpl. erase.
Qed.
Hint Resolve complete_indexNotes : erasure.

Lemma complete_updateSearchIndex l u w :
  Async.complete (Async.updateSearchIndex env l u) w = updateSearchIndex env l u w.
Proof. unfold Async.updateSearchIndex, updateSearchIndex. erase. Qed.

Lemma complete_mergeNotes_loop cloud m w :
  Async.complete (Async.mergeNotes_loop env cloud m) w
  = mergeNotes_loop env cloud m w.
Proof.
  revert m w. induction cloud as [|c cloud IH]; intros m w; [reflexivity|].
  cbn [Async.mergeNotes_loop mergeNotes_loop]. erase.
Qed.
Hint Resolve complete_updateSearchIndex complete_mergeNotes_loop : erasure.

Lemma complete_mergeNotes l c w :
  Async.complete (Async.mergeNotes env l c) w = mergeNotes env l c w.
Proof. unfold Async.mergeNotes, mergeNotes. erase. Qed.
Hint Resolve complete_mergeNotes : erasure.

Lemma complete_syncNotes u w :
  Async.complete (Async.syncNotes env u) w = syncNotes env u w.
Proof. unfold Async.syncNotes, syncNotes. erase. Qed.

Lemma complete_syncChatThreads u w :
  Async.complete (Async.syncChatThreads env u) w = syncChatThreads env u w.
Proof. unfold Async.syncChatThreads, syncChatThreads. erase. Qed.

Lemma complete_syncLabels u w :
  Async.complete (Async.syncLabels env u) w = syncLabels env u w.
Proof. unfold Async.syncLabels, syncLabels. erase. Qed.
Hint Resolve complete_syncNotes complete_syncChatThreads complete_syncLabels
  : erasure.

Lemma complete_syncSteps fuel user w :
  (length (pendingOperations w) <= fuel)%nat ->
  Async.complete (Async.syncSteps env fuel user) w = syncSteps env user w.
Proof.
  intros Hfuel. unfold Async.syncSteps, syncSteps.
  rewrite complete_bind.
  apply bind_ext_at;
    [rewrite complete_await; apply complete_processPendingOperations, Hfuel|].
  intros ? ?. erase.
Qed.

Lemma complete_syncCycle fuel user w :
  (length (pendingOperations w) <= fuel)%nat ->
  Async.complete (Async.syncCycle env fuel user) w = syncCycle env user w.
Proof.
  intros Hfuel. unfold Async.syncCycle, syncCycle.
  rewrite complete_try_catch. unfold try_catch.
  rewrite complete_modify, bind_modify.
  rewrite complete_syncSteps by exact Hfuel. reflexivity.
Qed.

Lemma complete_syncAll fuel w :
  (length (pendingOperations w) <= fuel)%nat ->
  Async.complete (Async.syncAll env fuel) w = syncAll env w.
Proof.
  intros Hfuel. unfold Async.syncAll, syncAll, Async.counted.
  rewrite complete_gets, bind_gets.
  destruct (isSyncing (syncStatus w)); [reflexivity|].
  rewrite complete_gets, bind_gets.
  destruct (currentUser w) as [user|]; [|reflexivity].
  rewrite complete_gets, bind_gets.
  destruct (negb (isOnline (syncStatus w))); [reflexivity|].
  cbn [Async.complete]. rewrite complete_leaving, complete_try_finally.
  unfold try_finally. rewrite complete_syncCycle by exact Hfuel. reflexivity.
Qed.

Lemma complete_pushNote user note w :
  Async.complete (Async.pushNote env user note) w = pushNote env user note w.
Proof. unfold Async.pushNote, pushNote. erase. Qed.
Hint Resolve complete_pushNote : erasure.

Lemma complete_saveNote note w :
  Async.complete (Async.saveNote env note) w = saveNote env note w.
Proof. unfold Async.saveNote, saveNote. erase. Qed.

Lemma complete_deleteNote id w :
  Async.complete (Async.deleteNote env id) w = deleteNote env id w.
Proof. unfold Async.deleteNote, deleteNote. erase. Qed.

Lemma complete_saveChatThread thread w :
  Async.complete (Async.saveChatThread env thread) w = saveChatThread env thread w.
Proof. unfold Async.saveChatThread, saveChatThread. erase. Qed.

Lemma complete_call fuel r w :
  (length (pendingOperations w) <= fuel)%nat ->
  Async.complete (Async.call env fuel r) w = perform env r w.
Proof.
  intros Hfuel.
  destruct r as [note|id|thread|[|connected| |]]; cbn [Async.call perform].
  - apply complete_saveNote.
  - apply complete_deleteNote.
  - apply complete_saveChatThread.
  - unfold Async.onInterval, onInterval.
    rewrite complete_gets, bind_gets.
    destruct (isOnline (syncStatus w) && negb (isSyncing (syncStatus w)));
      [|reflexivity].
    rewrite complete_bind.
    apply bind_ext_at; [apply complete_syncAll, Hfuel|reflexivity].
  - unfold Async.onNetInfo, onNetInfo.
    rewrite complete_gets, bind_gets.
    rewrite complete_modify, bind_modify.
    rewrite complete_gets, bind_gets.
    match goal with
    | |- context [if ?c then _ else _] => destruct c; [|reflexivity]
    end.
    rewrite complete_bind.
    apply bind_ext_at; [apply complete_syncAll, Hfuel|reflexivity].
  - unfold Async.onAppActive, onAppActive.
    rewrite complete_gets, bind_gets.
    destruct (isOnline (syncStatus w)); [|reflexivity].
    rewrite complete_bind.
    apply bind_ext_at; [apply complete_syncAll, Hfuel|reflexivity].
  - unfold Async.forcSync, forcSync.
    rewrite complete_bind.
    apply bind_ext_at;
      [rewrite complete_await; apply complete_syncAll, Hfuel|reflexivity].
Qed.
End Erasure.

(** ** Which tasks write [isSyncing] *)

Lemma flag_storage_call env c : keeps flag (AsyncStorage_call env c).
Proof.
  intros w. unfold AsyncStorage_call.
  destruct (storageRejects env (tick w) c); reflexivity.
Qed.

Lemma quiet_atomic {A} (c : M A) : keeps flag c -> Async.quiet (Async.atomic c).
Proof.
  intros Hc. apply Async.quiet_Sync; [exact Hc|]. intros w.
  destruct (c w).1; constructor.
Qed.

Lemma quiet_bind {A B} (t : Async.Task A) (k : A -> Async.Task B) :
  Async.quiet t -> (forall a, Async.quiet (k a)) ->
  Async.quiet (Async.bind_task t k).
Proof.
  intros Ht Hk. induction Ht as [a|e|upd next Hupd _ IH|rest _ IH]; simpl.
  - apply Hk.
  - constructor.
  - apply Async.quiet_Sync; [exact Hupd|exact IH].
  - constructor. exact IH.
Qed.

Lemma quiet_try_catch {A} (t : Async.Task A) h :
  Async.quiet t -> (forall e, Async.quiet (h e)) ->
  Async.quiet (Async.try_catch t h).
Proof.
  intros Ht Hh. induction Ht as [a|e|upd next Hupd _ IH|rest _ IH]; simpl.
  - constructor.
  - apply Hh.
  - apply Async.quiet_Sync; [exact Hupd|exact IH].
  - constructor. exact IH.
Qed.

Lemma quiet_await {A} (t : Async.Task A) :
  Async.quiet t -> Async.quiet (Async.await t).
Proof.
  intros Ht. induction Ht as [a|e|upd next Hupd _ IH|rest _ IH]; simpl.
  - repeat constructor.
  - repeat constructor.
  - apply Async.quiet_Sync; [exact Hupd|exact IH].
  - constructor. exact IH.
Qed.

Lemma quiet_io {A} (c : M A) : keeps flag c -> Async.quiet (Async.io c).
Proof. intros Hc. apply quiet_await, quiet_atomic, Hc. Qed.

Create HintDb quiet.

Ltac quiet_step :=
  first
    [ solve [auto with quiet]
    | apply Async.quiet_Return
    | apply Async.quiet_Raise
    | apply quiet_bind; [|intros ?]
    | apply quiet_try_catch; [|intros ?]
    | apply quiet_await
    | apply quiet_atomic; first [apply flag_storage_call | intros ?; reflexivity]
    | match goal with
      | |- Async.quiet (match ?x with _ => _ end) => destruct x
      | |- Async.quiet (if ?x then _ else _) => destruct x
      end ].

Ltac quiet := cbv zeta; repeat quiet_step.

Section Quiet.
Variable env : Env.

Lemma quiet_savePendingOperations : Async.quiet (Async.savePendingOperations env).
Proof. unfold Async.savePendingOperations. quiet. Qed.

Lemma quiet_saveLastSyncTime : Async.quiet (Async.saveLastSyncTime env).
Proof. unfold Async.saveLastSyncTime. quiet. Qed.

Lemma quiet_getLocalNotes u : Async.quiet (Async.getLocalNotes env u).
Proof. unfold Async.getLocalNotes. quiet. Qed.

Lemma quiet_saveLocalNotes u l : Async.quiet (Async.saveLocalNotes env u l).
Proof. unfold Async.saveLocalNotes. quiet. Qed.
Hint Resolve quiet_savePendingOperations quiet_saveLastSyncTime
  quiet_getLocalNotes quiet_saveLocalNotes : quiet.

Lemma quiet_updateLocalNote u n : Async.quiet (Async.updateLocalNote env u n).
Proof. unfold Async.updateLocalNote. quiet. Qed.

Lemma quiet_removeLocalNote u id : Async.quiet (Async.removeLocalNote env u id).
Proof. unfold Async.removeLocalNote. quiet. Qed.

Lemma quiet_getLocalChatThreads u : Async.quiet (Async.getLocalChatThreads env u).
Proof. unfold Async.getLocalChatThreads. quiet. Qed.

Lemma quiet_saveLocalChatThreads u l :
  Async.quiet (Async.saveLocalChatThreads env u l).
Proof. unfold Async.saveLocalChatThreads. quiet. Qed.
Hint Resolve quiet_updateLocalNote quiet_removeLocalNote
  quiet_getLocalChatThreads quiet_saveLocalChatThreads : quiet.

Lemma quiet_updateLocalChatThread u t :
  Async.quiet (Async.updateLocalChatThread env u t).
Proof. unfold Async.updateLocalChatThread. quiet. Qed.

Lemma quiet_getLocalLabels u : Async.quiet (Async.getLocalLabels env u).
Proof. unfold Async.getLocalLabels. quiet. Qed.

Lemma quiet_saveLocalLabels u l : Async.quiet (Async.saveLocalLabels env u l).
Proof. unfold Async.saveLocalLabels. quiet. Qed.

Lemma quiet_addPendingOperation t c d :
  Async.quiet (Async.addPendingOperation env t c d).
Proof. unfold Async.addPendingOperation, Date_now, newDate. quiet. Qed.
Hint Resolve quiet_updateLocalChatThread quiet_getLocalLabels
  quiet_saveLocalLabels quiet_addPendingOperation : quiet.

Lemma quiet_replay op : Async.quiet (Async.replay env op).
Proof.
  unfold Async.replay, Async.processPendingNoteOperation,
    Async.processPendingChatThreadOperation,
    Async.processPendingLabelOperation.
  quiet.
Qed.
Hint Resolve quiet_replay : quiet.

Lemma quiet_attempt op : Async.quiet (Async.attempt env op).
Proof. unfold Async.attempt. quiet. Qed.
Hint Resolve quiet_attempt : quiet.

Lemma quiet_drain fuel i successful :
  Async.quiet (Async.drain env fuel i successful).
Proof.
  revert i successful.
  induction fuel as [|fuel IH]; intros i successful; cbn [Async.drain]; quiet.
Qed.
Hint Resolve quiet_drain : quiet.

Lemma quiet_processPendingOperations fuel :
  Async.quiet (Async.processPendingOperations env fuel).
Proof. unfold Async.processPendingOperations. quiet. Qed.

Lemma quiet_indexNote n u : Async.quiet (Async.indexNote env n u).
Proof. unfold Async.indexNote. quiet. Qed.
Hint Resolve quiet_processPendingOperations quiet_indexNote : quiet.

Lemma quiet_indexNotes l u : Async.quiet (Async.indexNotes env l u).
Proof. induction l as [|n l IH]; cbn [Async.indexNotes]; quiet. Qed.
Hint Resolve quiet_indexNotes : quiet.

Lemma quiet_updateSearchIndex l u : Async.quiet (Async.updateSearchIndex env l u).
Proof. unfold Async.updateSearchIndex. quiet. Qed.

Lemma quiet_mergeNotes_loop cloud m : Async.quiet (Async.mergeNotes_loop env cloud m).
Proof.
  revert m. induction cloud as [|c cloud IH]; intros m;
    cbn [Async.mergeNotes_loop]; quiet.
Qed.
Hint Resolve quiet_updateSearchIndex quiet_mergeNotes_loop : quiet.

Lemma quiet_mergeNotes l c : Async.quiet (Async.mergeNotes env l c).
Proof. unfold Async.mergeNotes. quiet. Qed.
Hint Resolve quiet_mergeNotes : quiet.

Lemma quiet_syncNotes u : Async.quiet (Async.syncNotes env u).
Proof. unfold Async.syncNotes. quiet. Qed.

Lemma quiet_syncChatThreads u : Async.quiet (Async.syncChatThreads env u).
Proof. unfold Async.syncChatThreads. quiet. Qed.

Lemma quiet_syncLabels u : Async.quiet (Async.syncLabels env u).
Proof. unfold Async.syncLabels. quiet. Qed.
Hint Resolve quiet_syncNotes quiet_syncChatThreads quiet_syncLabels : quiet.

(** The statements of a cycle after the flag is set leave it alone. *)
Lemma quiet_syncSteps fuel user : Async.quiet (Async.syncSteps env fuel user).
Proof. unfold Async.syncSteps, newDate. quiet. Qed.

Lemma quiet_pushNote user note : Async.quiet (Async.pushNote env user note).
Proof. unfold Async.pushNote. quiet. Qed.
Hint Resolve quiet_pushNote : quiet.

(** The write methods never write the flag. *)
Lemma quiet_saveNote note : Async.quiet (Async.saveNote env note).
Proof. unfold Async.saveNote. quiet. Qed.

Lemma quiet_deleteNote id : Async.quiet (Async.deleteNote env id).
Proof. unfold Async.deleteNote. quiet. Qed.

Lemma quiet_saveChatThread thread : Async.quiet (Async.saveChatThread env thread).
Proof. unfold Async.saveChatThread. quiet. Qed.
End Quiet.

(** ** Cycles in progress *)

Lemma quiet_ok {A} (t : Async.Task A) :
  Async.quiet t -> forall b, Async.ok false b t.
Proof.
  induction 1 as [a|e|upd next Hupd _ IH|rest _ IH]; intros b.
  - constructor.
  - constructor.
  - apply Async.ok_Sync; intros w Hw; [rewrite Hupd; exact Hw|apply IH].
  - constructor. exact IH.
Qed.

Lemma ok_bind {A B} (t : Async.Task A) (k : A -> Async.Task B) inside b :
  Async.ok inside b t -> (forall a b', Async.ok false b' (k a)) ->
  Async.ok inside b (Async.bind_task t k).
Proof.
  intros Ht Hk.
  induction Ht as [b a|b e|b upd next Hupd _ IH|b rest _ IH|rest _ IH
                  |b upd next _ IH|rest _ IH|rest _ IH]; simpl.
  - apply Hk.
  - constructor.
  - apply Async.ok_Sync; [exact Hupd|exact IH].
  - constructor. exact IH.
  - constructor. exact IH.
  - apply Async.ok_inside_Sync. exact IH.
  - constructor. exact IH.
  - constructor. exact IH.
Qed.

Lemma ok_await {A} (t : Async.Task A) inside b :
  Async.ok inside b t -> Async.ok inside b (Async.await t).
Proof.
  intros Ht.
  induction Ht as [b a|b e|b upd next Hupd _ IH|b rest _ IH|rest _ IH
                  |b upd next _ IH|rest _ IH|rest _ IH]; simpl.
  - constructor. intros b'. constructor.
  - constructor. intros b'. constructor.
  - apply Async.ok_Sync; [exact Hupd|exact IH].
  - constructor. exact IH.
  - constructor. exact IH.
  - apply Async.ok_inside_Sync. exact IH.
  - constructor. exact IH.
  - constructor. exact IH.
Qed.

(** A cycle whose statements leave the flag alone keeps it set up to its
    [finally], which clears it as the cycle ends. *)
Lemma ok_cycle {A} (t : Async.Task A) f :
  Async.quiet t -> (forall w, flag (f w) = false) ->
  Async.ok true true (Async.leaving (Async.try_finally t f)).
Proof.
  intros Ht Hf. induction Ht as [a|e|upd next Hupd _ IH|rest _ IH]; simpl.
  - apply Async.ok_inside_Sync. intros w _. rewrite Hf. repeat constructor.
  - apply Async.ok_inside_Sync. intros w _. rewrite Hf. repeat constructor.
  - apply Async.ok_inside_Sync. intros w Hw. rewrite Hupd, Hw. apply IH.
  - constructor. exact IH.
Qed.

Lemma ok_gets {A B} (f : World -> A) (k : A -> Async.Task B) b :
  (forall w, flag w = b -> Async.ok false b (k (f w))) ->
  Async.ok false b (Async.bind_task (Async.atomic (gets f)) k).
Proof.
  intros Hk. unfold Async.atomic. simpl.
  apply Async.ok_Sync; [auto|]. exact Hk.
Qed.

Lemma ok_modify {B} (g : World -> World) (k : unit -> Async.Task B) b :
  (forall w, flag (g w) = flag w) -> Async.ok false b (k tt) ->
  Async.ok false b (Async.bind_task (Async.atomic (modify g)) k).
Proof.
  intros Hg Hk. unfold Async.atomic. simpl.
  apply Async.ok_Sync; [intros w <-; apply Hg|intros; exact Hk].
Qed.

Section Guard.
Variable env : Env.

(** [syncAll] enters a cycle only when it found the flag clear, and sets
    it before its first await. *)
Lemma ok_syncAll fuel b : Async.ok false b (Async.syncAll env fuel).
Proof.
  unfold Async.syncAll.
  apply ok_gets. intros w Hw. unfold flag in Hw.
  destruct (isSyncing (syncStatus w)) eqn:Hflag; [constructor|]. subst b.
  apply ok_gets. intros w1 Hw1.
  destruct (currentUser w1) as [user|]; [|constructor].
  apply ok_gets. intros w2 Hw2.
  destruct (negb (isOnline (syncStatus w2))); [constructor|].
  unfold Async.counted. constructor.
  unfold Async.syncCycle, Async.atomic.
  cbn [Async.bind_task Async.try_catch Async.try_finally Async.leaving
       modify fst snd].
  apply Async.ok_inside_Sync. intros w3 Hw3.
  change (flag (set_isSyncing true w3)) with true.
  apply (ok_cycle (Async.try_catch (Async.syncSteps env fuel user)
                     (fun _ => Async.Return false))).
  - apply quiet_try_catch; [apply quiet_syncSteps|intros; constructor].
  - reflexivity.
Qed.

Lemma ok_call fuel r b : Async.ok false b (Async.call env fuel r).
Proof.
  destruct r as [note|id|thread|[|connected| |]]; cbn [Async.call].
  - apply quiet_ok, quiet_saveNote.
  - apply quiet_ok, quiet_deleteNote.
  - apply quiet_ok, quiet_saveChatThread.
  - unfold Async.onInterval. apply ok_gets. intros w Hw.
    destruct (isOnline (syncStatus w) && negb (isSyncing (syncStatus w)));
      [|constructor].
    apply ok_bind; [apply ok_syncAll|intros; constructor].
  - unfold Async.onNetInfo. apply ok_gets. intros w Hw.
    apply ok_modify; [reflexivity|].
    apply ok_gets. intros w2 Hw2.
    destruct (negb (isOnline (syncStatus w)) && isOnline (syncStatus w2));
      [|constructor].
    apply ok_bind; [apply ok_syncAll|intros; constructor].
  - unfold Async.onAppActive. apply ok_gets. intros w Hw.
    destruct (isOnline (syncStatus w)); [|constructor].
    apply ok_bind; [apply ok_syncAll|intros; constructor].
  - apply ok_bind; [|intros; constructor].
    unfold Async.forcSync. apply ok_await, ok_syncAll.
Qed.
End Guard.

(** One stretch of a callback, from a state in which at most one cycle is
    in progress and the flag is set exactly then.  [others] is the number
    of cycles of the other callbacks.  Either the callback stops outside a
    cycle, the flag telling whether another one is in a cycle; or no other
    is, and the callback is suspended in its own cycle with the flag set. *)
Lemma advance_ok {A} (t : Async.Task A) inside b :
  Async.ok inside b t ->
  forall w others,
    flag w = b ->
    (others <= 1)%nat ->
    (inside = false -> (b = true <-> others = 1%nat)) ->
    (inside = true -> others = 0%nat) ->
    let r := Async.advance t w (if inside then 1%nat else others) in
    (r.2 = others /\ (flag r.1.2 = true <-> others = 1%nat)
     /\ Async.settled r.1.1)
    \/ (others = 0%nat /\ r.2 = 1%nat /\ flag r.1.2 = true
        /\ exists rest, r.1.1 = Async.Await rest /\ Async.ok true true rest).
Proof.
  induction 1 as [b a|b e|b upd next Hupd _ IH|b rest Hrest _|rest _ IH
                 |b upd next _ IH|rest Hrest _|rest _ IH];
    intros w others Hw Hle Hout Hin; simpl.
  - left. rewrite Hw. split; [reflexivity|]. split; [exact (Hout eq_refl)|exact I].
  - left. rewrite Hw. split; [reflexivity|]. split; [exact (Hout eq_refl)|exact I].
  - apply (IH w Hw (upd w) others); auto.
  - left. rewrite Hw. split; [reflexivity|].
    split; [exact (Hout eq_refl)|exact Hrest].
  - assert (others = 0%nat) as ->.
    { destruct (Hout eq_refl) as [_ Hone]. destruct others as [|[|n]];
        [reflexivity|specialize (Hone eq_refl); discriminate|lia]. }
    apply (IH w 0%nat); auto; discriminate.
  - apply (IH w Hw (upd w) others); auto; discriminate.
  - right. rewrite Hw. split; [apply Hin; reflexivity|].
    split; [reflexivity|]. split; [reflexivity|]. eauto.
  - assert (others = 0%nat) as -> by (apply Hin; reflexivity).
    apply (IH w 0%nat); auto; try discriminate.
    intros _. split; [discriminate|lia].
Qed.

Lemma pool_ok_app_outside pool k t :
  Async.pool_ok pool k -> (forall b, Async.ok false b t) ->
  Async.pool_ok (pool ++ [t]) k.
Proof.
  intros Hp Ht. induction Hp as [|t' pool k Ht' _ IH|t' pool k Ht' _ IH]; simpl.
  - apply Async.pool_outside; [exact Ht|constructor].
  - apply Async.pool_outside; assumption.
  - apply Async.pool_inside; assumption.
Qed.

Lemma pool_ok_app_inside pool k t :
  Async.pool_ok pool k -> Async.ok true true t ->
  Async.pool_ok (pool ++ [t]) (S k).
Proof.
  intros Hp Ht. induction Hp as [|t' pool k Ht' _ IH|t' pool k Ht' _ IH]; simpl.
  - apply Async.pool_inside; [exact Ht|constructor].
  - apply Async.pool_outside; assumption.
  - apply Async.pool_inside; assumption.
Qed.

Lemma pool_ok_delete pool k i t :
  Async.pool_ok pool k -> pool !! i = Some t ->
  ((forall b, Async.ok false b t) /\ Async.pool_ok (delete i pool) k)
  \/ (Async.ok true true t
      /\ exists k', k = S k' /\ Async.pool_ok (delete i pool) k').
Proof.
  intros Hp. revert i.
  induction Hp as [|t' pool k Ht' Hp IH|t' pool k Ht' Hp IH]; intros i Hi.
  - discriminate.
  - destruct i as [|i]; simpl in Hi.
    + injection Hi as ->. left. split; assumption.
    + destruct (IH i Hi) as [[Ht Hd]|(Ht & k' & -> & Hd)].
      * left. split; [exact Ht|]. simpl. apply Async.pool_outside; assumption.
      * right. split; [exact Ht|]. exists k'. split; [reflexivity|].
        simpl. apply Async.pool_outside; assumption.
  - destruct i as [|i]; simpl in Hi.
    + injection Hi as ->. right. split; [exact Ht'|]. eauto.
    + destruct (IH i Hi) as [[Ht Hd]|(Ht & k' & -> & Hd)].
      * left. split; [exact Ht|]. simpl. apply Async.pool_inside; assumption.
      * right. split; [exact Ht|]. exists (S k'). split; [reflexivity|].
        simpl. apply Async.pool_inside; assumption.
Qed.

Lemma proceed_outside (t : Async.Task unit) pool e :
  (forall b, Async.ok false b t) ->
  Async.pool_ok pool (Async.cycles e) ->
  (Async.cycles e <= 1)%nat ->
  (flag (Async.world e) = true <-> Async.cycles e = 1%nat) ->
  Async.invariant (Async.proceed t pool e).
Proof.
  intros Ht Hp Hle Hflag.
  pose proof (advance_ok t false (flag (Async.world e)) (Ht _)
                (Async.world e) (Async.cycles e) eq_refl Hle
                (fun _ => Hflag) ltac:(discriminate)) as Hadv.
  unfold Async.proceed, Async.invariant. cbn [negb] in Hadv. simpl in Hadv.
  destruct (Async.advance t (Async.world e) (Async.cycles e)) as [[t' w'] n'].
  simpl in *.
  destruct Hadv as [(-> & Hflag' & Hsettled)|(Hzero & -> & Hflag' & rest & -> & Hrest)].
  - split; [|split; [exact Hle|exact Hflag']].
    destruct t' as [a|err|upd next|rest|rest|rest]; simpl in *;
      try exact Hp; try contradiction.
    apply pool_ok_app_outside; assumption.
  - split; [|split; [lia|tauto]].
    simpl. rewrite Hzero in Hp. apply pool_ok_app_inside; assumption.
Qed.

Lemma proceed_inside (t : Async.Task unit) pool e :
  Async.ok true true t ->
  Async.pool_ok pool 0 ->
  Async.cycles e = 1%nat ->
  flag (Async.world e) = true ->
  Async.invariant (Async.proceed t pool e).
Proof.
  intros Ht Hp Hone Hflag.
  pose proof (advance_ok t true true Ht (Async.world e) 0%nat Hflag
                ltac:(lia) ltac:(discriminate) (fun _ => eq_refl)) as Hadv.
  unfold Async.proceed, Async.invariant. rewrite Hone. simpl in Hadv.
  destruct (Async.advance t (Async.world e) 1) as [[t' w'] n'].
  simpl in *.
  destruct Hadv as [(-> & Hflag' & Hsettled)|(_ & -> & Hflag' & rest & -> & Hrest)].
  - split; [|split; [lia|exact Hflag']].
    destruct t' as [a|err|upd next|rest|rest|rest]; simpl in *;
      try exact Hp; try contradiction.
    apply pool_ok_app_outside; assumption.
  - split; [|split; [lia|tauto]].
    simpl. apply pool_ok_app_inside; assumption.
Qed.

Lemma step_invariant env e e' :
  Async.step env e e' -> Async.invariant e -> Async.invariant e'.
Proof.
  intros Hstep (Hp & Hle & Hflag).
  destruct Hstep as [fuel r e|i t e Hi|w' e Hsame].
  - apply proceed_outside; auto. intros b. apply ok_call.
  - destruct (pool_ok_delete _ _ _ _ Hp Hi) as [[Ht Hd]|(Ht & k' & Hk & Hd)].
    + apply proceed_outside; auto.
    + assert (k' = 0%nat) as -> by lia.
      apply proceed_inside; auto. apply Hflag. exact Hk.
  - split; [exact Hp|]. split; [exact Hle|].
    simpl. rewrite Hsame. exact Hflag.
Qed.

Lemma reachable_invariant env e : Async.reachable env e -> Async.invariant e.
Proof.
  intros (w0 & Hw0 & Hsteps).
  remember (Async.mkEngine w0 0 []) as e0 eqn:He0.
  assert (Hinit : Async.invariant e0).
  { subst e0. split; [constructor|]. split; [simpl; lia|]. simpl. rewrite Hw0.
    split; discriminate. }
  clear He0.
  induction Hsteps as [e|e1 e2 e3 Hstep _ IH]; [exact Hinit|].
  apply IH. eapply step_invariant; eassumption.
Qed.

(** A task that is suspended stays so under what is wrapped around it. *)
Lemma advance_bind {A B} (t : Async.Task A) (k : A -> Async.Task B) w n rest w' n' :
  Async.advance t w n = (Async.Await rest, w', n') ->
  Async.advance (Async.bind_task t k) w n
    = (Async.Await (Async.bind_task rest k), w', n').
Proof.
  revert w n.
  induction t as [a|e|upd next IH|t _|t IH|t IH]; intros w n; simpl;
    try discriminate; auto.
  intros [= -> -> ->]. reflexivity.
Qed.

Lemma advance_try_catch {A} (t : Async.Task A) h w n rest w' n' :
  Async.advance t w n = (Async.Await rest, w', n') ->
  Async.advance (Async.try_catch t h) w n
    = (Async.Await (Async.try_catch rest h), w', n').
Proof.
  revert w n.
  induction t as [a|e|upd next IH|t _|t IH|t IH]; intros w n; simpl;
    try discriminate; auto.
  intros [= -> -> ->]. reflexivity.
Qed.

Lemma advance_try_finally {A} (t : Async.Task A) f w n rest w' n' :
  Async.advance t w n = (Async.Await rest, w', n') ->
  Async.advance (Async.try_finally t f) w n
    = (Async.Await (Async.try_finally rest f), w', n').
Proof.
  revert w n.
  induction t as [a|e|upd next IH|t _|t IH|t IH]; intros w n; simpl;
    try discriminate; auto.
  intros [= -> -> ->]. reflexivity.
Qed.

Lemma advance_leaving {A} (t : Async.Task A) w n rest w' n' :
  Async.advance t w n = (Async.Await rest, w', n') ->
  Async.advance (Async.leaving t) w n = (Async.Await (Async.leaving rest), w', n').
Proof.
  revert w n.
  induction t as [a|e|upd next IH|t _|t IH|t IH]; intros w n; simpl;
    try discriminate; auto.
  intros [= -> -> ->]. reflexivity.
Qed.

(** An awaited method that is no part of a cycle leaves its caller
    suspended, with the flag and the number of cycles as they were. *)
Lemma advance_await_quiet {A} (t : Async.Task A) :
  Async.quiet t ->
  forall w n, exists rest w',
    Async.advance (Async.await t) w n = (Async.Await rest, w', n)
    /\ flag w' = flag w.
Proof.
  induction 1 as [a|e|upd next Hupd _ IH|rest _ _]; intros w n; simpl; eauto.
  destruct (IH w (upd w) n) as (rest & w' & Hadv & Hflag).
  exists rest, w'. split; [exact Hadv|]. rewrite Hflag. apply Hupd.
Qed.

(** A [syncAll] that passes its guards is suspended at its first await
    inside the cycle, with the flag set. *)
Lemma syncAll_enters env fuel w user n :
  admits w = Some user ->
  exists rest w',
    Async.advance (Async.syncAll env fuel) w n = (Async.Await rest, w', S n)
    /\ flag w' = true.
Proof.
  unfold admits. intros Hadmits.
  destruct (isSyncing (syncStatus w)) eqn:Hflag; [discriminate|].
  destruct (currentUser w) as [u|] eqn:Huser; [|discriminate].
  destruct (isOnline (syncStatus w)) eqn:Honline; [|discriminate].
  injection Hadmits as ->.
  destruct (advance_await_quiet _ (quiet_processPendingOperations env fuel)
              (set_isSyncing true w) (S n)) as (rest & w' & Hadv & Hw').
  unfold Async.syncAll, Async.atomic, gets.
  cbn [Async.bind_task Async.advance fst snd].
  rewrite Hflag. cbn [Async.bind_task Async.advance fst snd].
  rewrite Huser. cbn [Async.bind_task Async.advance fst snd].
  rewrite Honline. cbn [negb Async.counted Async.advance].
  unfold Async.syncCycle, Async.atomic, modify.
  cbn [Async.bind_task Async.try_catch Async.try_finally Async.leaving
       Async.advance fst snd].
  unfold Async.syncSteps.
  eexists _, w'. split; [|rewrite Hw'; reflexivity].
  apply advance_leaving, advance_try_finally, advance_try_catch, advance_bind.
  exact Hadv.
Qed.

(** A [syncAll] called while a cycle is in progress comes to its end at
    once: it is not suspended, and nothing of the world is touched. *)
Lemma syncAll_busy env fuel w n :
  flag w = true ->
  Async.advance (Async.syncAll env fuel) w n = (Async.Return false, w, n).
Proof.
  unfold flag. intros Hflag.
  unfold Async.syncAll, Async.atomic, gets.
  cbn [Async.bind_task Async.advance fst snd]. rewrite Hflag. reflexivity.
Qed.

(** C1. The methods of the engine cut at their awaits are the methods of
    the source: run without anything in between, with a bound on the drain
    loop no less than the length of the queue, every callback and
    [syncAll] itself do what the sequential methods do.  In every
    interleaving of callbacks (the four triggers and the write methods,
    each run from await to await, and in between any other code, which
    does not write the flag) that starts with no sync in progress, at most
    one sync cycle is in progress, and [isSyncing] is set exactly while
    one is.  A [syncAll]
    that passes its guards is in its cycle with the flag set when it is
    first suspended; one called while the flag is set comes to its end at
    once with [false], is never suspended and leaves the whole world
    (queue, local store, trace of remote calls) untouched; a [syncAll]
    called with the flag clear always returns (it never throws) with the
    flag clear, whatever the collaborators did; the write methods, which
    may run between the awaits of a cycle, never write the flag. *)
Theorem syncAll_single_flight (env : Env) :
  ((forall fuel r w, (length (pendingOperations w) <= fuel)%nat ->
      Async.complete (Async.call env fuel r) w = perform env r w)
   /\ (forall fuel w, (length (pendingOperations w) <= fuel)%nat ->
         Async.complete (Async.syncAll env fuel) w = syncAll env w))
  /\ (forall e, Async.reachable env e ->
        (Async.cycles e <= 1)%nat
        /\ (flag (Async.world e) = true <-> Async.cycles e = 1%nat))
  /\ (forall fuel w user n, admits w = Some user ->
        exists rest w',
          Async.advance (Async.syncAll env fuel) w n
          = (Async.Await rest, w', S n)
          /\ flag w' = true)
  /\ (forall fuel w n, flag w = true ->
        Async.advance (Async.syncAll env fuel) w n = (Async.Return false, w, n))
  /\ (forall w, flag w = true -> syncAll env w = (Ok false, w))
  /\ (forall w, flag w = false ->
        exists r, (syncAll env w).1 = Ok r /\ flag (syncAll env w).2 = false)
  /\ (forall w,
        (forall note, flag (saveNote env note w).2 = flag w)
        /\ (forall noteId, flag (deleteNote env noteId w).2 = flag w)
        /\ (forall thread, flag (saveChatThread env thread w).2 = flag w)).
Proof.
  split; [split|split; [|split; [|split; [|split; [|split]]]]].
  - apply complete_call.
  - apply complete_syncAll.
  - intros e He. apply (reachable_invariant env e He).
  - intros fuel w user n. apply syncAll_enters.
  - intros fuel w n. apply syncAll_busy.
  - intros w Hw. rewrite syncAll_admits. unfold admits.
    unfold flag in Hw. rewrite Hw. reflexivity.
  - intros w Hw. destruct (syncAll_returns env w) as [r Hr].
    exists r. split; [exact Hr|]. apply syncAll_leaves_flag_clear, Hw.
  - intros w. split; [|split]; intros x.
    + apply (status_saveNote env flag); reflexivity.
    + apply (status_deleteNote env flag); reflexivity.
    + apply (status_saveChatThread env flag); reflexivity.
Qed.

Lemma syncAll_single_flight_witness :
  ((Async.cycles foregroundWhileRefreshing <= 1)%nat
   /\ (flag (Async.world foregroundWhileRefreshing) = true
       <-> Async.cycles foregroundWhileRefreshing = 1%nat))
  /\ Async.cycles refreshStarted = 1%nat
  /\ length (Async.suspended foregroundWhileRefreshing) = 1%nat
  /\ Async.complete (Async.call Sample.healthy 2 (ReqSync ExplicitRefresh))
       Sample.twoPending
     = perform Sample.healthy (ReqSync ExplicitRefresh) Sample.twoPending
  /\ (exists rest w',
        Async.advance (Async.syncAll Sample.healthy 2) Sample.twoPending 0
        = (Async.Await rest, w', 1%nat)
        /\ flag w' = true)
  /\ syncAll Sample.env (set_isSyncing true Sample.signedIn)
     = (Ok false, set_isSyncing true Sample.signedIn)
  /\ (exists r, (syncAll Sample.env Sample.signedIn).1 = Ok r
        /\ flag (syncAll Sample.env Sample.signedIn).2 = false).
Proof.
  destruct (syncAll_single_flight Sample.env)
    as (_ & Hreach & _ & _ & Hbusy & Hidle & _).
  destruct (syncAll_single_flight Sample.healthy)
    as ((Hcall & _) & _ & Henters & _).
  split; [|split; [vm_compute; reflexivity|split; [vm_compute; reflexivity|]]].
  - apply Hreach. exists Sample.signedIn. split; [reflexivity|].
    eapply rtc_l;
      [apply (Async.step_call Sample.env 8 (ReqSync ExplicitRefresh))|].
    eapply rtc_l;
      [apply (Async.step_call Sample.env 8 (ReqSync AppForeground))|].
    apply rtc_refl.
  - split; [apply Hcall; vm_compute; lia|].
    split; [apply (Henters 2%nat Sample.twoPending Sample.alice); reflexivity|].
    split; [apply Hbusy; reflexivity|apply Hidle; reflexivity].
Defined.

(** ** Replay of label updates (C10) *)

(** C10, as the code has it.  Replaying a pending operation on 'labels' of
    kind 'update' returns [false] without calling the remote store, in
    every world.  When no other queued operation has its id, a drain
    leaves it in the queue with one more retry, until the drain in which
    its count reaches the ceiling, which removes it. *)
Theorem label_update_never_applied (env : Env) (op : PendingOperation) :
  op_collection op = ColLabels -> op_type op = OpUpdate ->
  (forall w, replay env op w = (Ok false, w))
  /\ (forall w user before after,
        currentUser w = Some user ->
        pendingOperations w = before ++ op :: after ->
        ~ In (op_id op) (map op_id (before ++ after)) ->
        entriesFor (op_id op)
          (pendingOperations (processPendingOperations env w).2)
          = if (MAX_RETRY_COUNT <=? S (op_retryCount op))%nat then []
            else [retry op]).
Proof.
  intros Hc Ht.
  assert (Hr : forall w, replay env op w = (Ok false, w)).
  { intros w. unfold replay, processPendingLabelOperation.
    rewrite Hc, Ht. reflexivity. }
  split; [exact Hr|].
  intros w user before after Hu Hq Hn.
  rewrite (processPendingOperations_outcome env w user before op after Hu Hq Hn).
  rewrite Hr. reflexivity.
Qed.

Lemma label_update_never_applied_witness :
  replay Sample.healthy
      (Sample.pending OpUpdate ColLabels (DataLabel (Sample.label "l1" "work")) 0)
      Sample.signedIn
    = (Ok false, Sample.signedIn)
  /\ entriesFor "l1"
       (pendingOperations
          (processPendingOperations Sample.healthy
             (Sample.withQueue
                [Sample.pending OpUpdate ColLabels
                   (DataLabel (Sample.label "l1" "work")) 2]
                Sample.signedIn)).2) = [].
Proof.
  split.
  - apply (label_update_never_applied Sample.healthy); reflexivity.
  - apply (proj2 (label_update_never_applied Sample.healthy
                    (Sample.pending OpUpdate ColLabels
                       (DataLabel (Sample.label "l1" "work")) 2)
                    eq_refl eq_refl)
             _ Sample.alice [] []); [reflexivity|reflexivity|].
    simpl. tauto.
Defined.

(** C10 as stated fails: a label update leaves the queue without having
    reached the ceiling when another queued operation with the same id is
    removed, because removal is by id.  Here the delete of the same label
    succeeds, and the update, tried once, goes with it. *)
Lemma label_update_leaves_early_counterexample :
  pendingOperations
    (processPendingOperations Sample.healthy
       (Sample.withQueue
          [Sample.pending OpUpdate ColLabels (DataLabel (Sample.label "l1" "work")) 0;
           Sample.pending OpDelete ColLabels (DataId "l1") 0]
          Sample.signedIn)).2 = []
  /\ (S 0 < MAX_RETRY_COUNT)%nat.
Proof. split; [vm_compute; reflexivity | unfold MAX_RETRY_COUNT; lia]. Qed.

(** ** The retry ceiling (C4) *)

(** An operation that alone has its id and whose replay returns [false]
    every time is in the queue after the first and second drain and gone
    after the third. *)
Lemma failing_replay_dropped_at_ceiling :
  let op := Sample.pending OpUpdate ColNotes (DataNote (Sample.note "n1" "a" 5)) 0 in
  let w := Sample.withQueue [op] Sample.signedIn in
  pendingOperations (drainTimes Sample.env 1 w) = [retry op]
  /\ pendingOperations (drainTimes Sample.env 2 w) = [retry (retry op)]
  /\ pendingOperations (drainTimes Sample.env 3 w) = [].
Proof. vm_compute. repeat split; reflexivity. Qed.

(** An operation whose replay succeeds is removed by that drain. *)
Lemma successful_replay_removed :
  pendingOperations
    (processPendingOperations Sample.healthy
       (Sample.withQueue
          [Sample.pending OpUpdate ColNotes (DataNote (Sample.note "n1" "a" 5)) 0]
          Sample.signedIn)).2 = [].
Proof. vm_compute. reflexivity. Qed.

Lemma processPendingOperations_queue env w user :
  currentUser w = Some user ->
  pendingOperations w <> [] ->
  pendingOperations (processPendingOperations env w).2
    = List.filter
        (fun o => negb (includes (op_id o) (drained env (pendingOperations w) w).1.2))
        (drained env (pendingOperations w) w).1.1.
Proof.
  intros Hu Hq. unfold processPendingOperations.
  unfold bind at 1. unfold gets at 1.
  destruct (pendingOperations w) as [|op q] eqn:Hops; [congruence|].
  change (length (op :: q) =? 0)%nat with false. cbv iota.
  unfold bind at 1. unfold gets at 1. rewrite Hu.
  unfold bind at 1. rewrite drain_drained.
  unfold bind at 1. unfold modify at 1.
  unfold bind at 1. unfold modify at 1.
  rewrite (keeps_savePendingOperations env pendingOperations) by reflexivity.
  reflexivity.
Qed.

Lemma replay_retry env op : replay env (retry op) = replay env op.
Proof. reflexivity. Qed.

Lemma currentUser_processPendingOperations env :
  keeps currentUser (processPendingOperations env).
Proof. apply keeps_processPendingOperations; reflexivity. Qed.

(** A replay that throws every time: each drain adds a retry and keeps the
    operation, whatever its count. *)
Lemma throwing_replay_stays env n : forall w user op,
  currentUser w = Some user ->
  pendingOperations w = [op] ->
  (forall w', exists e, (replay env op w').1 = Throw e) ->
  pendingOperations (drainTimes env n w) = [Nat.iter n retry op].
Proof.
  induction n as [|n IH]; intros w user op Hu Hq Hthrow; [exact Hq|].
  simpl drainTimes.
  assert (Hone : pendingOperations (processPendingOperations env w).2 = [retry op]).
  { rewrite (processPendingOperations_queue env w user Hu) by (rewrite Hq; discriminate).
    rewrite Hq. simpl. unfold attempted.
    destruct (Hthrow w) as [e He].
    destruct (replay env op w) as [[[|]|e'] w']; simpl in He; try discriminate.
    reflexivity. }
  rewrite (IH _ user (retry op)).
  - rewrite <- Nat.iter_succ_r. reflexivity.
  - rewrite currentUser_processPendingOperations. exact Hu.
  - exact Hone.
  - intros w'. rewrite replay_retry. apply Hthrow.
Qed.

(** ** Enqueueing (C8) *)

Lemma pendingOperations_savePendingOperations env :
  keeps pendingOperations (savePendingOperations env).
Proof. apply keeps_savePendingOperations; reflexivity. Qed.

(** One enqueue: it never throws, and the queue afterwards is the queue
    before followed by the new operation. *)
Lemma addPendingOperation_queue (env : Env) type collection data w :
  (addPendingOperation env type collection data w).1 = Ok tt
  /\ pendingOperations (addPendingOperation env type collection data w).2
     = pendingOperations w ++
       [mkPendingOperation
          (if truthy (data_id data) then data_id data
           else OpType_name type +:+ "_" +:+ pretty (now env (tick w)))
          type collection data (Some (now env (tick w))) 0].
Proof.
  split.
  - destruct (total_addPendingOperation env type collection data w) as [[] H].
    exact H.
  - unfold addPendingOperation, Date_now, newDate.
    unfold bind at 1. unfold gets at 1.
    unfold bind at 1. unfold gets at 1.
    unfold bind at 1. unfold modify at 1.
    unfold bind at 1. unfold modify at 1.
    rewrite pendingOperations_savePendingOperations. reflexivity.
Qed.

(** C8, as the code has it.  For every sequence of enqueue requests, the
    queue afterwards is the queue before, every operation in place and
    unchanged, followed by one new operation per request, in request order,
    each with the kind, collection and payload of its request and
    [retryCount] 0: nothing is superseded, whatever ids and kinds the queue
    already holds. *)
Theorem addPendingOperation_appends (env : Env) reqs w :
  exists added,
    pendingOperations (enqueueAll env reqs w) = pendingOperations w ++ added
    /\ opContents <$> added
       = (fun r : OpType * Collection * OpData => (r.1.1, r.1.2, r.2, 0%nat))
           <$> reqs.
Proof.
  revert w. induction reqs as [|[[type collection] data] reqs IH]; intros w.
  - exists []. simpl. rewrite app_nil_r. split; reflexivity.
  - simpl enqueueAll.
    destruct (addPendingOperation_queue env type collection data w) as [_ Hq].
    destruct (IH (addPendingOperation env type collection data w).2)
      as (added & Hadded & Hcontents).
    rewrite Hq, <- app_assoc in Hadded.
    eexists (_ :: added). split; [exact Hadded|].
    rewrite fmap_cons, Hcontents. reflexivity.
Qed.

(** C8 as stated fails: two saves of the same note while offline leave two
    unsent 'update' operations for its id in the queue, the earlier one
    first and unchanged. *)
Lemma no_coalescing_counterexample :
  (fun o => (op_id o, op_type o, op_collection o, op_data o)) <$>
    pendingOperations
      (saveNote Sample.env (Sample.note "n1" "second" 20)
         (saveNote Sample.env (Sample.note "n1" "first" 10)
            (set_isOnline false Sample.signedIn)).2).2
  = [("n1", OpUpdate, ColNotes, DataNote (Sample.note "n1" "first" 10));
     ("n1", OpUpdate, ColNotes, DataNote (Sample.note "n1" "second" 20))].
Proof. vm_compute. reflexivity. Qed.

(** ** Maps, sorting and lookup by id *)

Section MapFacts.
Context {A : Type} (id : A -> string).

Lemma Map_get_set_eq k (v : A) m : Map_get k (Map_set k v m) = Some v.
Proof.
  induction m as [|[k' v'] m IH]; simpl.
  - rewrite String.eqb_refl. reflexivity.
  - destruct (String.eqb_spec k k') as [->|Hne]; simpl.
    + rewrite String.eqb_refl. reflexivity.
    + destruct (String.eqb_spec k k'); [contradiction|exact IH].
Qed.

Lemma Map_get_set_ne k k' (v : A) m :
  k <> k' -> Map_get k' (Map_set k v m) = Map_get k' m.
Proof.
  intros Hne. induction m as [|[k0 v0] m IH]; simpl.
  - destruct (String.eqb_spec k' k); [congruence|reflexivity].
  - destruct (String.eqb_spec k k0) as [->|Hk]; simpl.
    + destruct (String.eqb_spec k' k0); [congruence|reflexivity].
    + destruct (String.eqb_spec k' k0); [reflexivity|exact IH].
Qed.

Lemma Map_set_keys k (v : A) m x :
  In x (Map_set k v m).*1 <-> x = k \/ In x m.*1.
Proof.
  induction m as [|[k0 v0] m IH]; simpl.
  - intuition congruence.
  - destruct (String.eqb_spec k k0) as [->|Hk]; simpl.
    + intuition congruence.
    + rewrite IH. intuition congruence.
Qed.

Lemma Map_set_NoDup k (v : A) m : List.NoDup m.*1 -> List.NoDup (Map_set k v m).*1.
Proof.
  induction m as [|[k0 v0] m IH]; simpl; intros Hnd.
  - constructor; [simpl; tauto|constructor].
  - inversion Hnd as [|? ? Hnotin Hnd']; subst.
    destruct (String.eqb_spec k k0) as [->|Hk]; simpl.
    + constructor; assumption.
    + constructor; [|apply IH, Hnd'].
      rewrite Map_set_keys. intros [Heq|Hin]; [congruence|contradiction].
Qed.

Lemma Map_set_keyed k (v : A) m :
  k = id v -> keyed id m -> keyed id (Map_set k v m).
Proof.
  intros Hk. unfold keyed. induction m as [|[k0 v0] m IH]; simpl; intros Hm.
  - constructor; [exact Hk|constructor].
  - inversion Hm as [|? ? Hhd Htl]; subst. simpl in Hhd.
    destruct (String.eqb_spec (id v) k0) as [Heq|Hne].
    + constructor; [simpl; congruence|exact Htl].
    + constructor; [exact Hhd|apply IH, Htl].
Qed.

Lemma seed_from m (l : list A) :
  List.NoDup m.*1 -> keyed id m ->
  List.NoDup (foldl (fun m x => Map_set (id x) x m) m l).*1
  /\ keyed id (foldl (fun m x => Map_set (id x) x m) m l).
Proof.
  revert m. induction l as [|x l IH]; intros m Hnd Hk; simpl; [auto|].
  apply IH; [apply Map_set_NoDup, Hnd | apply Map_set_keyed; auto].
Qed.

Lemma seed_ok (l : list A) : List.NoDup (seed id l).*1 /\ keyed id (seed id l).
Proof. apply seed_from; constructor. Qed.

(** Lookup by id in the values of a keyed map is lookup by key. *)
Lemma findBy_values k (m : JsMap A) :
  keyed id m -> findBy id k (Map_values m) = Map_get k m.
Proof.
  unfold keyed, findBy, Map_values.
  induction m as [|[k0 v0] m IH]; simpl; intros Hm; [reflexivity|].
  inversion Hm as [|? ? Hhd Htl]; subst. simpl in Hhd. subst k0.
  rewrite (String.eqb_sym k (id v0)).
  destruct (String.eqb (id v0) k); [reflexivity|apply IH, Htl].
Qed.

Lemma values_ids (m : JsMap A) :
  keyed id m -> map id (Map_values m) = m.*1.
Proof.
  unfold keyed, Map_values. induction m as [|[k0 v0] m IH]; simpl;
    intros Hm; [reflexivity|].
  inversion Hm as [|? ? Hhd Htl]; subst. simpl in Hhd. subst k0.
  f_equal. apply IH, Htl.
Qed.

Lemma findBy_Some k (l : list A) x :
  List.NoDup (map id l) -> (findBy id k l = Some x <-> In x l /\ id x = k).
Proof.
  unfold findBy. induction l as [|y l IH]; simpl; intros Hnd.
  - split; [discriminate|tauto].
  - inversion Hnd as [|? ? Hnotin Hnd']; subst.
    destruct (String.eqb_spec (id y) k) as [Heq|Hne].
    + split.
      * intros [= ->]. auto.
      * intros [[->|Hin] Hid]; [reflexivity|].
        exfalso. apply Hnotin. rewrite Heq, <- Hid. apply in_map, Hin.
    + rewrite (IH Hnd'). split.
      * intros [Hin Hid]. auto.
      * intros [[->|Hin] Hid]; [contradiction|auto].
Qed.

Lemma findBy_None k (l : list A) :
  findBy id k l = None <-> ~ In k (map id l).
Proof.
  unfold findBy. induction l as [|y l IH]; simpl; [tauto|].
  destruct (String.eqb_spec (id y) k) as [Heq|Hne].
  - split; [discriminate|]. intros H. exfalso. apply H. auto.
  - rewrite IH. tauto.
Qed.

Lemma findBy_Permutation k (l l' : list A) :
  List.NoDup (map id l) -> Permutation l l' -> findBy id k l = findBy id k l'.
Proof.
  intros Hnd Hp.
  assert (Hnd' : List.NoDup (map id l')).
  { eapply Permutation_NoDup; [|exact Hnd]. apply Permutation_map, Hp. }
  destruct (findBy id k l) as [x|] eqn:Hl.
  - symmetry. apply (findBy_Some k l' x Hnd').
    apply (findBy_Some k l x Hnd) in Hl. destruct Hl as [Hin Hid].
    split; [|exact Hid]. eapply Permutation_in; eassumption.
  - symmetry. apply findBy_None. apply findBy_None in Hl.
    intros Hin. apply Hl. eapply Permutation_in; [|exact Hin].
    apply Permutation_map. symmetry. exact Hp.
Qed.
End MapFacts.

Lemma sort_insert_Permutation {A} (cmp : A -> A -> Z) x l :
  Permutation (sort_insert cmp x l) (x :: l).
Proof.
  induction l as [|y l IH]; simpl; [reflexivity|].
  destruct (0 <? cmp x y); [|reflexivity].
  rewrite IH. apply perm_swap.
Qed.

Lemma Array_sort_Permutation {A} (cmp : A -> A -> Z) l :
  Permutation (Array_sort cmp l) l.
Proof.
  unfold Array_sort. induction l as [|x l IH]; simpl; [reflexivity|].
  rewrite sort_insert_Permutation. constructor. exact IH.
Qed.

(** Lookup by id in the sorted values of a map the merges build. *)
Lemma findBy_sorted_values {A} (id : A -> string) cmp k (m : JsMap A) :
  List.NoDup m.*1 -> keyed id m ->
  findBy id k (Array_sort cmp (Map_values m)) = Map_get k m.
Proof.
  intros Hnd Hk. rewrite <- (findBy_values id k m Hk).
  symmetry. apply findBy_Permutation.
  - rewrite values_ids by exact Hk. exact Hnd.
  - symmetry. apply Array_sort_Permutation.
Qed.

(** ** The merges (C2, C7) *)

Section ReconcileFacts.
Context {A : Type} (id : A -> string) (updatedAt : A -> Date).

Lemma reconcile_same m c :
  Map_get (id c) (reconcile id updatedAt m c)
    = Some (lastWriteWins updatedAt (Map_get (id c) m) c).
Proof.
  unfold reconcile, lastWriteWins.
  destruct (Map_get (id c) m) as [l|] eqn:Hm.
  - destruct (Date_gt (updatedAt c) (updatedAt l));
      [apply Map_get_set_eq|exact Hm].
  - apply Map_get_set_eq.
Qed.

Lemma reconcile_other m c k :
  id c <> k -> Map_get k (reconcile id updatedAt m c) = Map_get k m.
Proof.
  intros Hne. unfold reconcile.
  destruct (Map_get (id c) m) as [l|];
    [destruct (Date_gt (updatedAt c) (updatedAt l))|];
    try reflexivity; apply Map_get_set_ne, Hne.
Qed.

Lemma reconcile_ok m c :
  List.NoDup m.*1 -> keyed id m ->
  List.NoDup (reconcile id updatedAt m c).*1 /\ keyed id (reconcile id updatedAt m c).
Proof.
  intros Hnd Hk. unfold reconcile.
  destruct (Map_get (id c) m) as [l|];
    [destruct (Date_gt (updatedAt c) (updatedAt l))|];
    auto using Map_set_NoDup, Map_set_keyed.
Qed.

Lemma reconciled_ok m cloud :
  List.NoDup m.*1 -> keyed id m ->
  List.NoDup (foldl (reconcile id updatedAt) m cloud).*1
  /\ keyed id (foldl (reconcile id updatedAt) m cloud).
Proof.
  revert m. induction cloud as [|c cloud IH]; intros m Hnd Hk; simpl; [auto|].
  destruct (reconcile_ok m c Hnd Hk). apply IH; assumption.
Qed.

Lemma reconciled_absent m cloud k :
  ~ In k (map id cloud) ->
  Map_get k (foldl (reconcile id updatedAt) m cloud) = Map_get k m.
Proof.
  revert m. induction cloud as [|c cloud IH]; intros m Hk; simpl; [reflexivity|].
  simpl in Hk. rewrite IH by tauto. apply reconcile_other. tauto.
Qed.

(** The entry of a cloud entity after the loop, when the cloud snapshot
    has one entity per id. *)
Lemma reconciled_present m cloud r :
  List.NoDup (map id cloud) -> In r cloud ->
  Map_get (id r) (foldl (reconcile id updatedAt) m cloud)
    = Some (lastWriteWins updatedAt (Map_get (id r) m) r).
Proof.
  revert m. induction cloud as [|c cloud IH]; intros m Hnd Hin; [destruct Hin|].
  simpl. inversion Hnd as [|? ? Hnotin Hnd']; subst.
  destruct Hin as [->|Hin].
  - rewrite reconciled_absent by exact Hnotin. apply reconcile_same.
  - rewrite (IH _ Hnd' Hin). rewrite reconcile_other; [reflexivity|].
    intros Heq. apply Hnotin. rewrite Heq. apply in_map, Hin.
Qed.
End ReconcileFacts.

Lemma Date_gt_irrefl d : Date_gt d d = false.
Proof. destruct d as [t|]; simpl; [apply Z.ltb_irrefl|reflexivity]. Qed.

Lemma Date_gt_asym a b : Date_gt a b = true -> Date_gt b a = false.
Proof.
  destruct a as [x|], b as [y|]; simpl; try discriminate.
  intros H. apply Z.ltb_lt in H. apply Z.ltb_ge. lia.
Qed.

(** The map [mergeNotes] builds and the notes it returns do not depend on
    the world. *)
Lemma mergeNotes_loop_result env cloud : forall m w,
  (mergeNotes_loop env cloud m w).1
    = Ok (foldl (reconcile note_id note_updatedAt) m cloud).
Proof.
  induction cloud as [|c cloud IH]; intros m w; simpl; [reflexivity|].
  unfold reconcile.
  destruct (Map_get (note_id c) m) as [l|]; [|apply IH].
  destruct (Date_gt (note_updatedAt c) (note_updatedAt l)); [apply IH|].
  destruct (Date_gt (note_updatedAt l) (note_updatedAt c)); [|apply IH].
  unfold bind at 1.
  destruct (total_try_catch
              (addPendingOperation env OpUpdate ColNotes (DataNote l))
              (fun _ => ret tt) (fun _ => total_ret tt) w) as [[] Hok].
  destruct (try_catch _ _ w) as [r w']. simpl in Hok. subst r. apply IH.
Qed.

Lemma mergeNotes_result env localNotes cloudNotes w :
  (mergeNotes env localNotes cloudNotes w).1
    = Ok (mergedNotes localNotes cloudNotes).
Proof.
  unfold mergeNotes, mergedNotes. unfold bind.
  pose proof (mergeNotes_loop_result env cloudNotes (seed note_id localNotes) w) as H.
  destruct (mergeNotes_loop env cloudNotes (seed note_id localNotes) w) as [r w'].
  simpl in H. subst r. reflexivity.
Qed.

(** Its effect on the queue: one 'update' operation on 'notes' appended
    for each local winner, in order. *)
Lemma mergeNotes_loop_queue env cloud : forall m w,
  opContents <$> pendingOperations (mergeNotes_loop env cloud m w).2
    = (opContents <$> pendingOperations w)
      ++ ((fun l => (OpUpdate, ColNotes, DataNote l, 0%nat)) <$> localWinners cloud m).
Proof.
  induction cloud as [|c cloud IH]; intros m w; simpl.
  - rewrite app_nil_r. reflexivity.
  - destruct (Map_get (note_id c) m) as [l|]; [|apply IH].
    destruct (Date_gt (note_updatedAt c) (note_updatedAt l)); [apply IH|].
    destruct (Date_gt (note_updatedAt l) (note_updatedAt c)); [|apply IH].
    unfold bind at 1.
    pose proof (addPendingOperation_queue env OpUpdate ColNotes (DataNote l) w)
      as [Hok Hq].
    unfold try_catch at 1.
    destruct (addPendingOperation env OpUpdate ColNotes (DataNote l) w) as [r w'].
    simpl in Hok, Hq. subst r. rewrite IH, Hq.
    rewrite fmap_app, <- app_assoc. reflexivity.
Qed.

Lemma mergeNotes_queue env localNotes cloudNotes w :
  opContents <$> pendingOperations (mergeNotes env localNotes cloudNotes w).2
    = (opContents <$> pendingOperations w)
      ++ ((fun l => (OpUpdate, ColNotes, DataNote l, 0%nat))
            <$> localWinners cloudNotes (seed note_id localNotes)).
Proof.
  unfold mergeNotes, bind.
  pose proof (mergeNotes_loop_queue env cloudNotes (seed note_id localNotes) w) as Hq.
  pose proof (mergeNotes_loop_result env cloudNotes (seed note_id localNotes) w) as Hr.
  destruct (mergeNotes_loop env cloudNotes (seed note_id localNotes) w) as [r w'].
  simpl in Hq, Hr. subst r. exact Hq.
Qed.

(** A local note that is strictly newer than the cloud note of its id is
    among the winners, when the cloud snapshot has one note per id. *)
Lemma localWinners_present cloud : forall m r l,
  List.NoDup (map note_id cloud) -> In r cloud ->
  Map_get (note_id r) m = Some l ->
  Date_gt (note_updatedAt l) (note_updatedAt r) = true ->
  In l (localWinners cloud m).
Proof.
  induction cloud as [|c cloud IH]; intros m r l Hnd Hin Hm Hgt; [destruct Hin|].
  inversion Hnd as [|? ? Hnotin Hnd']; subst. simpl.
  destruct Hin as [->|Hin].
  - rewrite Hm. rewrite (Date_gt_asym _ _ Hgt), Hgt. left. reflexivity.
  - assert (Hne : note_id c <> note_id r).
    { intros Heq. apply Hnotin. rewrite Heq. apply in_map, Hin. }
    destruct (Map_get (note_id c) m) as [l'|].
    + destruct (Date_gt (note_updatedAt c) (note_updatedAt l')).
      * apply (IH _ r l Hnd' Hin); [|exact Hgt].
        rewrite Map_get_set_ne by exact Hne. exact Hm.
      * destruct (Date_gt (note_updatedAt l') (note_updatedAt c));
          [right|]; apply (IH _ r l Hnd' Hin Hm Hgt).
    + apply (IH _ r l Hnd' Hin); [|exact Hgt].
      rewrite Map_get_set_ne by exact Hne. exact Hm.
Qed.

Section OverwriteFacts.
Context {A : Type} (id : A -> string).

(** [forEach(x => map.set(x.id, x))]: the last entity of each id. *)
Lemma overwritten_absent m (l : list A) k :
  ~ In k (map id l) ->
  Map_get k (foldl (fun m x => Map_set (id x) x m) m l) = Map_get k m.
Proof.
  revert m. induction l as [|x l IH]; intros m Hk; simpl; [reflexivity|].
  simpl in Hk. rewrite IH by tauto. apply Map_get_set_ne. tauto.
Qed.

Lemma overwritten_present m (l : list A) r :
  List.NoDup (map id l) -> In r l ->
  Map_get (id r) (foldl (fun m x => Map_set (id x) x m) m l) = Some r.
Proof.
  revert m. induction l as [|x l IH]; intros m Hnd Hin; [destruct Hin|].
  simpl. inversion Hnd as [|? ? Hnotin Hnd']; subst.
  destruct Hin as [->|Hin].
  - rewrite overwritten_absent by exact Hnotin. apply Map_get_set_eq.
  - apply IH; assumption.
Qed.

Lemma seed_get (l : list A) k :
  List.NoDup (map id l) -> Map_get k (seed id l) = findBy id k l.
Proof.
  intros Hnd. unfold seed.
  destruct (findBy id k l) as [x|] eqn:Hf.
  - apply (findBy_Some id k l x Hnd) in Hf. destruct Hf as [Hin <-].
    apply overwritten_present; assumption.
  - apply findBy_None in Hf. rewrite overwritten_absent by exact Hf.
    reflexivity.
Qed.

(** Two collections with one entity per id and the same entity under
    every id hold the same entities. *)
Lemma same_lookup_Permutation (l1 l2 : list A) :
  List.NoDup (map id l1) -> List.NoDup (map id l2) ->
  (forall k, findBy id k l1 = findBy id k l2) -> Permutation l1 l2.
Proof.
  intros H1 H2 Hsame. apply Permutation.NoDup_Permutation.
  - eapply List.NoDup_map_inv, H1.
  - eapply List.NoDup_map_inv, H2.
  - intros x. split; intros Hin.
    + apply (findBy_Some id (id x) l2 x H2). rewrite <- Hsame.
      apply (findBy_Some id (id x) l1 x H1). auto.
    + apply (findBy_Some id (id x) l1 x H1). rewrite Hsame.
      apply (findBy_Some id (id x) l2 x H2). auto.
Qed.
End OverwriteFacts.

Lemma mergedNotes_lookup localNotes cloudNotes k :
  findBy note_id k (mergedNotes localNotes cloudNotes)
    = Map_get k (foldl (reconcile note_id note_updatedAt)
                   (seed note_id localNotes) cloudNotes).
Proof.
  unfold mergedNotes.
  destruct (seed_ok note_id localNotes) as [Hnd Hk].
  destruct (reconciled_ok note_id note_updatedAt _ cloudNotes Hnd Hk).
  apply findBy_sorted_values; assumption.
Qed.

Lemma mergedNotes_ids localNotes cloudNotes :
  List.NoDup (map note_id (mergedNotes localNotes cloudNotes)).
Proof.
  unfold mergedNotes.
  destruct (seed_ok note_id localNotes) as [Hnd Hk].
  destruct (reconciled_ok note_id note_updatedAt _ cloudNotes Hnd Hk) as [Hnd' Hk'].
  eapply Permutation_NoDup.
  - apply Permutation_map. symmetry. apply Array_sort_Permutation.
  - rewrite values_ids by exact Hk'. exact Hnd'.
Qed.

(** C2, as the code has it.  With one entity per id in the remote
    snapshot:
    - notes and chat threads: the merged collection holds, under the id of
      a remote entity, the remote entity iff that id is absent locally or
      the remote [updatedAt] is strictly greater, and the local entity
      otherwise; on equal timestamps that is the local one;
    - notes: a local note strictly newer than its remote copy is kept and
      one 'update' operation on 'notes' carrying it is appended to the
      pending queue;
    - labels (which have no timestamp): the remote label always replaces
      the local one. *)
Theorem merge_last_write_wins (env : Env) :
  (forall localNotes cloudNotes w r,
     List.NoDup (map note_id cloudNotes) -> In r cloudNotes ->
     (mergeNotes env localNotes cloudNotes w).1
       = Ok (mergedNotes localNotes cloudNotes)
     /\ findBy note_id (note_id r) (mergedNotes localNotes cloudNotes)
        = Some (lastWriteWins note_updatedAt
                  (Map_get (note_id r) (seed note_id localNotes)) r)
     /\ (forall l,
           Map_get (note_id r) (seed note_id localNotes) = Some l ->
           Date_gt (note_updatedAt l) (note_updatedAt r) = true ->
           findBy note_id (note_id r) (mergedNotes localNotes cloudNotes) = Some l
           /\ exists enqueued,
                opContents <$> pendingOperations
                                 (mergeNotes env localNotes cloudNotes w).2
                  = (opContents <$> pendingOperations w) ++ enqueued
                /\ In (OpUpdate, ColNotes, DataNote l, 0%nat) enqueued))
  /\ (forall localThreads cloudThreads r,
        List.NoDup (map thread_id cloudThreads) -> In r cloudThreads ->
        findBy thread_id (thread_id r) (mergeChatThreads localThreads cloudThreads)
          = Some (lastWriteWins thread_updatedAt
                    (Map_get (thread_id r) (seed thread_id localThreads)) r))
  /\ (forall localLabels cloudLabels r,
        List.NoDup (map label_id cloudLabels) -> In r cloudLabels ->
        findBy label_id (label_id r) (mergeLabels env localLabels cloudLabels)
          = Some r)
  /\ (forall (l r : Note),
        note_updatedAt r = note_updatedAt l ->
        lastWriteWins note_updatedAt (Some l) r = l)
  /\ (forall (l r : ChatThread),
        thread_updatedAt r = thread_updatedAt l ->
        lastWriteWins thread_updatedAt (Some l) r = l).
Proof.
  split; [|split; [|split; [|split]]].
  - intros localNotes cloudNotes w r Hnd Hin.
    assert (Hfind : findBy note_id (note_id r) (mergedNotes localNotes cloudNotes)
              = Some (lastWriteWins note_updatedAt
                        (Map_get (note_id r) (seed note_id localNotes)) r)).
    { rewrite mergedNotes_lookup. apply reconciled_present; assumption. }
    split; [apply mergeNotes_result|]. split; [exact Hfind|].
    intros l Hl Hgt. split.
    + rewrite Hfind, Hl. simpl. rewrite (Date_gt_asym _ _ Hgt). reflexivity.
    + eexists. split; [apply mergeNotes_queue|].
      apply in_map_iff. exists l. split; [reflexivity|].
      eapply localWinners_present; eassumption.
  - intros localThreads cloudThreads r Hnd Hin. unfold mergeChatThreads.
    destruct (seed_ok thread_id localThreads) as [Hs Hk].
    destruct (reconciled_ok thread_id thread_updatedAt _ cloudThreads Hs Hk)
      as [Hs' Hk'].
    etransitivity; [apply (findBy_sorted_values thread_id); [exact Hs'|exact Hk']|].
    apply reconciled_present; assumption.
  - intros localLabels cloudLabels r Hnd Hin. unfold mergeLabels.
    destruct (seed_ok label_id localLabels) as [Hs Hk].
    destruct (seed_from label_id _ cloudLabels Hs Hk) as [Hs' Hk'].
    etransitivity; [apply (findBy_sorted_values label_id); [exact Hs'|exact Hk']|].
    apply overwritten_present; assumption.
  - intros l r Heq. simpl. rewrite Heq, Date_gt_irrefl. reflexivity.
  - intros l r Heq. simpl. rewrite Heq, Date_gt_irrefl. reflexivity.
Qed.

Lemma merge_last_write_wins_witness :
  findBy note_id "n1"
    (mergedNotes [Sample.note "n1" "local" 20] [Sample.note "n1" "remote" 10])
    = Some (Sample.note "n1" "local" 20)
  /\ findBy thread_id "t1"
       (mergeChatThreads [Sample.thread "t1" "local" 10]
          [Sample.thread "t1" "remote" 20])
     = Some (Sample.thread "t1" "remote" 20)
  /\ findBy label_id "l1"
       (mergeLabels Sample.env [Sample.label "l1" "old"] [Sample.label "l1" "new"])
     = Some (Sample.label "l1" "new").
Proof.
  destruct (merge_last_write_wins Sample.env) as (Hnotes & Hthreads & Hlabels & _).
  assert (Hone : forall x : string, List.NoDup [x])
    by (intros x; constructor; [simpl; tauto|constructor]).
  split; [|split].
  - destruct (Hnotes [Sample.note "n1" "local" 20] [Sample.note "n1" "remote" 10]
                Sample.signedIn (Sample.note "n1" "remote" 10))
      as (_ & _ & Hwin); [apply Hone|simpl; tauto|].
    apply (Hwin (Sample.note "n1" "local" 20)); reflexivity.
  - apply (Hthreads [Sample.thread "t1" "local" 10] [Sample.thread "t1" "remote" 20]
             (Sample.thread "t1" "remote" 20)); [apply Hone|simpl; tauto].
  - apply (Hlabels [Sample.label "l1" "old"] [Sample.label "l1" "new"]
             (Sample.label "l1" "new")); [apply Hone|simpl; tauto].
Defined.

(** C2 as stated fails on the tie: with equal [updatedAt] the merged
    collection holds the local note, not the remote one, and nothing is
    enqueued. *)
Lemma merge_tie_counterexample :
  (mergeNotes Sample.env [Sample.note "n1" "local" 10]
     [Sample.note "n1" "remote" 10] Sample.signedIn).1
    = Ok [Sample.note "n1" "local" 10]
  /\ pendingOperations
       (mergeNotes Sample.env [Sample.note "n1" "local" 10]
          [Sample.note "n1" "remote" 10] Sample.signedIn).2 = [].
Proof. vm_compute. split; reflexivity. Qed.

Lemma mergedNotes_get localNotes cloudNotes k :
  List.NoDup (map note_id localNotes) -> List.NoDup (map note_id cloudNotes) ->
  findBy note_id k (mergedNotes localNotes cloudNotes)
    = match findBy note_id k cloudNotes with
      | Some r => Some (lastWriteWins note_updatedAt (findBy note_id k localNotes) r)
      | None => findBy note_id k localNotes
      end.
Proof.
  intros Hl Hc. rewrite mergedNotes_lookup.
  destruct (findBy note_id k cloudNotes) as [r|] eqn:Hr.
  - apply (findBy_Some note_id k cloudNotes r Hc) in Hr. destruct Hr as [Hin <-].
    rewrite (reconciled_present note_id note_updatedAt _ cloudNotes r Hc Hin).
    rewrite seed_get by exact Hl. reflexivity.
  - apply findBy_None in Hr. rewrite reconciled_absent by exact Hr.
    apply seed_get, Hl.
Qed.

(** C7, as the code has it.  The notes [mergeNotes] returns are a function
    of the two snapshots alone, and the user, the sync flag and the stored
    collections are left as they are; but the call is not free of effects:
    it appends to the pending-operation queue one 'update' operation per
    local note that is strictly newer than its remote copy.  With one note
    per id on each side and strictly ordered timestamps on shared ids, the
    merged notes are the same whichever side is passed as local. *)
Theorem mergeNotes_function_of_snapshots (env : Env) :
  (forall localNotes cloudNotes w,
     (mergeNotes env localNotes cloudNotes w).1
       = Ok (mergedNotes localNotes cloudNotes)
     /\ currentUser (mergeNotes env localNotes cloudNotes w).2 = currentUser w
     /\ flag (mergeNotes env localNotes cloudNotes w).2 = flag w
     /\ item_notes (storage (mergeNotes env localNotes cloudNotes w).2)
        = item_notes (storage w)
     /\ opContents <$> pendingOperations (mergeNotes env localNotes cloudNotes w).2
        = (opContents <$> pendingOperations w)
          ++ ((fun l => (OpUpdate, ColNotes, DataNote l, 0%nat))
                <$> localWinners cloudNotes (seed note_id localNotes)))
  /\ (forall localNotes cloudNotes,
        List.NoDup (map note_id localNotes) ->
        List.NoDup (map note_id cloudNotes) ->
        (forall l r, In l localNotes -> In r cloudNotes ->
           note_id l = note_id r ->
           Date_gt (note_updatedAt l) (note_updatedAt r) = true
           \/ Date_gt (note_updatedAt r) (note_updatedAt l) = true) ->
        Permutation (mergedNotes localNotes cloudNotes)
                    (mergedNotes cloudNotes localNotes)).
Proof.
  split.
  - intros localNotes cloudNotes w.
    split; [apply mergeNotes_result|].
    split; [apply (keeps_mergeNotes env currentUser); reflexivity|].
    split; [apply (status_mergeNotes env flag); reflexivity|].
    split; [apply (keeps_mergeNotes env (fun w => item_notes (storage w)));
            reflexivity|].
    apply mergeNotes_queue.
  - intros localNotes cloudNotes Hl Hc Hstrict.
    apply (same_lookup_Permutation note_id); try apply mergedNotes_ids.
    intros k. rewrite !mergedNotes_get by assumption.
    destruct (findBy note_id k localNotes) as [l|] eqn:Hfl;
      destruct (findBy note_id k cloudNotes) as [r|] eqn:Hfr;
      try reflexivity.
    apply (findBy_Some note_id k localNotes l Hl) in Hfl. destruct Hfl as [Hinl Hidl].
    apply (findBy_Some note_id k cloudNotes r Hc) in Hfr. destruct Hfr as [Hinr Hidr].
    simpl. f_equal.
    destruct (Hstrict l r Hinl Hinr) as [Hgt|Hgt]; [congruence| |];
      rewrite Hgt, (Date_gt_asym _ _ Hgt); reflexivity.
Qed.

Lemma mergeNotes_function_of_snapshots_witness :
  Permutation
    (mergedNotes [Sample.note "n1" "local" 20; Sample.note "n2" "only local" 5]
                 [Sample.note "n1" "remote" 10])
    (mergedNotes [Sample.note "n1" "remote" 10]
                 [Sample.note "n1" "local" 20; Sample.note "n2" "only local" 5]).
Proof.
  apply (proj2 (mergeNotes_function_of_snapshots Sample.env)).
  - repeat constructor; simpl; intuition discriminate.
  - repeat constructor; simpl; tauto.
  - simpl. intros l r [<-|[<-|[]]] [<-|[]]; vm_compute;
      intuition discriminate.
Defined.

(** C7 as stated fails: merging a local note that is newer than its remote
    copy changes the pending-operation queue and the stored copy of it. *)
Lemma mergeNotes_side_effect_counterexample :
  pendingOperations Sample.signedIn = []
  /\ opContents <$> pendingOperations
       (mergeNotes Sample.env [Sample.note "n1" "local" 20]
          [Sample.note "n1" "remote" 10] Sample.signedIn).2
     = [(OpUpdate, ColNotes, DataNote (Sample.note "n1" "local" 20), 0%nat)]
  /\ length <$> item_pendingOperations
       (storage (mergeNotes Sample.env [Sample.note "n1" "local" 20]
          [Sample.note "n1" "remote" 10] Sample.signedIn).2)
     = Some 1%nat.
Proof. vm_compute. repeat split; reflexivity. Qed.

(** ** The immediate write path (C5) *)

Lemma remoteCalls_storage tr c : remoteCalls (tr ++ [EvStorage c]) = remoteCalls tr.
Proof. unfold remoteCalls. rewrite omap_app. simpl. apply app_nil_r. Qed.

Lemma remoteCalls_record_storage c w :
  remoteCalls (trace (record_event (EvStorage c) w)) = remoteCalls (trace w).
Proof. apply remoteCalls_storage. Qed.

Lemma tick_record_event e w : tick (record_event e w) = S (tick w).
Proof. unfold tick. simpl. rewrite length_app. simpl. lia. Qed.

Lemma findIndex_lt {A} (p : A -> bool) l i : findIndex p l = Some i -> (i < length l)%nat.
Proof.
  revert i. induction l as [|x l IH]; intros i; simpl; [discriminate|].
  destruct (p x); [intros [= <-]; lia|].
  destruct (findIndex p l) as [j|]; [|discriminate].
  intros [= <-]. specialize (IH j eq_refl). lia.
Qed.

Lemma In_list_insert {A} (l : list A) i x : (i < length l)%nat -> In x (<[i:=x]> l).
Proof.
  revert i. induction l as [|y l IH]; intros i Hi; simpl in *; [lia|].
  destruct i as [|i]; simpl; [auto|]. right. apply IH. lia.
Qed.

Lemma getLocalNotes_reads env u w :
  exists notes,
    getLocalNotes env u w
      = (Ok notes, record_event (EvStorage (GetItem (KeyNotes u))) w).
Proof.
  unfold getLocalNotes, try_catch, bind, AsyncStorage_call, gets, ret.
  destruct (storageRejects env (tick w) (GetItem (KeyNotes u))); simpl; [eauto|].
  destruct (item_notes (storage w) !! u); eauto.
Qed.

Lemma saveLocalNotes_writes env u notes w :
  saveLocalNotes env u notes w
    = (Ok tt,
       let w1 := record_event (EvStorage (SetItem (KeyNotes u))) w in
       if storageRejects env (tick w) (SetItem (KeyNotes u)) then w1
       else set_storage (fun st =>
              mkStorage (<[u := Note_toJSON <$> notes]> (item_notes st))
                (item_chatThreads st) (item_labels st)
                (item_pendingOperations st) (item_lastSyncTime st)) w1).
Proof.
  unfold saveLocalNotes, try_catch, bind, AsyncStorage_call, modify, ret.
  destruct (storageRejects env (tick w) (SetItem (KeyNotes u))); reflexivity.
Qed.

Lemma updateLocalNote_steps env u note w :
  exists notes',
    In note notes'
    /\ updateLocalNote env u note w
       = saveLocalNotes env u notes'
           (record_event (EvStorage (GetItem (KeyNotes u))) w).
Proof.
  unfold updateLocalNote, bind.
  destruct (getLocalNotes_reads env u w) as [notes ->].
  eexists. split; [|reflexivity].
  match goal with
  | |- context [findIndex ?p ?l] => destruct (findIndex p l) as [i|] eqn:Hi
  end; [|simpl; auto].
  apply In_list_insert. eapply findIndex_lt, Hi.
Qed.

(** The local write of a note: one read and one write of the user's
    notes item, whatever happens; when the write is accepted, the stored
    collection contains the note. *)
Lemma updateLocalNote_writes env u note w :
  (updateLocalNote env u note w).1 = Ok tt
  /\ trace (updateLocalNote env u note w).2
     = trace w ++ [EvStorage (GetItem (KeyNotes u)); EvStorage (SetItem (KeyNotes u))]
  /\ (storageRejects env (S (tick w)) (SetItem (KeyNotes u)) = false ->
      exists stored,
        item_notes (storage (updateLocalNote env u note w).2) !! u = Some stored
        /\ In (Note_toJSON note) stored).
Proof.
  destruct (updateLocalNote_steps env u note w) as (notes' & Hin & ->).
  rewrite saveLocalNotes_writes, tick_record_event. simpl.
  split; [reflexivity|]. split.
  - destruct (storageRejects env (S (tick w)) (SetItem (KeyNotes u))); simpl;
      rewrite <- app_assoc; reflexivity.
  - intros ->. exists (Note_toJSON <$> notes'). split.
    + simpl. apply lookup_insert_eq.
    + apply in_map, Hin.
Qed.

Lemma saveNote_after_local_write env note w :
  saveNote env note w
    = (Ok tt,
       (pushNote env (currentUser w) note
          (updateLocalNote env (storageUserId (currentUser w)) note w).2).2).
Proof.
  unfold saveNote. unfold bind at 1. unfold gets at 1.
  unfold try_catch, bind.
  destruct (updateLocalNote_writes env (storageUserId (currentUser w)) note w)
    as [Hok _].
  destruct (updateLocalNote env (storageUserId (currentUser w)) note w) as [r w1].
  simpl in Hok. subst r. simpl.
  destruct (pushNote env (currentUser w) note w1) as [[[]|e] w2]; reflexivity.
Qed.

Lemma online_updateLocalNote env u note :
  keeps (fun w => isOnline (syncStatus w)) (updateLocalNote env u note).
Proof. apply keeps_updateLocalNote; reflexivity. Qed.

Lemma queue_updateLocalNote env u note :
  keeps pendingOperations (updateLocalNote env u note).
Proof. apply keeps_updateLocalNote; reflexivity. Qed.

Lemma remoteCalls_updateLocalNote env u note :
  keeps (fun w => remoteCalls (trace w)) (updateLocalNote env u note).
Proof.
  apply keeps_updateLocalNote; [apply remoteCalls_record_storage|reflexivity].
Qed.

Lemma remoteCalls_addPendingOperation env t c d :
  keeps (fun w => remoteCalls (trace w)) (addPendingOperation env t c d).
Proof.
  apply keeps_addPendingOperation;
    [apply remoteCalls_record_storage|reflexivity..].
Qed.

Lemma notes_pushNote env user note :
  keeps (fun w => item_notes (storage w)) (pushNote env user note).
Proof.
  unfold pushNote.
  apply keeps_bind; [apply keeps_gets|intros online].
  destruct user as [u|]; [|apply keeps_ret].
  destruct (negb (String.eqb (user_id u) "guest") && online).
  - apply keeps_try_catch;
      [|intros; apply keeps_addPendingOperation; reflexivity].
    apply keeps_bind; [apply keeps_remote; reflexivity|intros [saved|]];
      [apply keeps_indexNote|apply keeps_addPendingOperation]; reflexivity.
  - destruct (String.eqb (user_id u) "guest");
      [apply keeps_ret|apply keeps_addPendingOperation; reflexivity].
Qed.

Lemma pushNote_stays_local env user note w :
  match user with
  | Some u => negb (String.eqb (user_id u) "guest") && isOnline (syncStatus w)
  | None => false
  end = false ->
  remoteCalls (trace (pushNote env user note w).2) = remoteCalls (trace w).
Proof.
  intros Hlocal. unfold pushNote. unfold bind at 1. unfold gets at 1.
  destruct user as [u|]; [|reflexivity]. rewrite Hlocal.
  destruct (String.eqb (user_id u) "guest"); [reflexivity|].
  apply remoteCalls_addPendingOperation.
Qed.

Lemma pushNote_enqueues_on_failure env u note w :
  negb (String.eqb (user_id u) "guest") && isOnline (syncStatus w) = true ->
  match db_saveNote (databaseService env) (tick w) note (user_id u) with
  | Ok (Some _) => False
  | _ => True
  end ->
  exists op,
    pendingOperations (pushNote env (Some u) note w).2 = pendingOperations w ++ [op]
    /\ opContents op = (OpUpdate, ColNotes, DataNote note, 0%nat).
Proof.
  intros Hremote Hfail. unfold pushNote. unfold bind at 1. unfold gets at 1.
  rewrite Hremote. unfold try_catch, bind, remote_call, db.
  set (w' := record_event (EvRemote (CallSaveNote note (user_id u))) w).
  pose proof (addPendingOperation_queue env OpUpdate ColNotes (DataNote note) w')
    as [Hok Hq].
  destruct (db_saveNote (databaseService env) (tick w) note (user_id u))
    as [[saved|]|e]; [destruct Hfail| |].
  - destruct (addPendingOperation env OpUpdate ColNotes (DataNote note) w')
      as [r w2]. simpl in Hok, Hq. subst r. simpl. rewrite Hq.
    eexists. split; [reflexivity|reflexivity].
  - destruct (addPendingOperation env OpUpdate ColNotes (DataNote note) w')
      as [r w2]. simpl in Hok, Hq. subst r. simpl. rewrite Hq.
    eexists. split; [reflexivity|reflexivity].
Qed.

(** Update first, create when the update did not produce a note
    (not found, or any other failure of the update). *)
Lemma DatabaseService_saveNote_creates_instead supabase t note userId :
  truthy (note_id note) = true -> note_id note <> "temp" ->
  match sb_notes_update supabase t (note_id note) (DataNote note) with
  | SbData (Some _) => False
  | _ => True
  end ->
  DatabaseService.saveNote supabase t note userId
    = DatabaseService.createNote supabase t
        (DataNote (DatabaseService.noteData note userId)).
Proof.
  intros Hid Htemp Hupd. unfold DatabaseService.saveNote. rewrite Hid.
  destruct (String.eqb_spec (note_id note) "temp") as [|_]; [contradiction|].
  simpl. unfold DatabaseService.updateNote, DatabaseService.createNote,
    DatabaseService.single_request.
  destruct (sb_notes_update supabase t (note_id note) (DataNote note))
    as [[row|]|err|err]; [destruct Hupd| | |];
    destruct (sb_notes_insert supabase t _) as [[row|]|err'|err']; reflexivity.
Qed.



(** ** The local chat thread store *)

Lemma getLocalChatThreads_value env u w :
  getLocalChatThreads env u w
    = (Ok (if storageRejects env (tick w) (GetItem (KeyChatThreads u)) then []
           else ChatThread_revive <$> default [] (item_chatThreads (storage w) !! u)),
       record_event (EvStorage (GetItem (KeyChatThreads u))) w).
Proof.
  unfold getLocalChatThreads, try_catch, bind, AsyncStorage_call, gets, ret.
  destruct (storageRejects env (tick w) (GetItem (KeyChatThreads u))); simpl;
    [reflexivity|].
  destruct (item_chatThreads (storage w) !! u); reflexivity.
Qed.

Lemma saveLocalChatThreads_writes env u threads w :
  saveLocalChatThreads env u threads w
    = (Ok tt,
       let w1 := record_event (EvStorage (SetItem (KeyChatThreads u))) w in
       if storageRejects env (tick w) (SetItem (KeyChatThreads u)) then w1
       else set_storage (fun st =>
              mkStorage (item_notes st)
                (<[u := ChatThread_toJSON <$> threads]> (item_chatThreads st))
                (item_labels st) (item_pendingOperations st)
                (item_lastSyncTime st)) w1).
Proof.
  unfold saveLocalChatThreads, try_catch, bind, AsyncStorage_call, modify, ret.
  destruct (storageRejects env (tick w) (SetItem (KeyChatThreads u))); reflexivity.
Qed.

Lemma updateLocalChatThread_writes env u thread w :
  (updateLocalChatThread env u thread w).1 = Ok tt
  /\ trace (updateLocalChatThread env u thread w).2
     = trace w ++ [EvStorage (GetItem (KeyChatThreads u));
                   EvStorage (SetItem (KeyChatThreads u))]
  /\ (storageRejects env (S (tick w)) (SetItem (KeyChatThreads u)) = false ->
      exists stored,
        item_chatThreads (storage (updateLocalChatThread env u thread w).2) !! u
          = Some stored
        /\ In (ChatThread_toJSON thread) stored).
Proof.
  unfold updateLocalChatThread, bind. rewrite getLocalChatThreads_value.
  rewrite saveLocalChatThreads_writes, tick_record_event. simpl.
  split; [reflexivity|]. split.
  - destruct (storageRejects env (S (tick w)) (SetItem (KeyChatThreads u))); simpl;
      rewrite <- app_assoc; reflexivity.
  - intros ->. eexists. split; [simpl; apply lookup_insert_eq|].
    apply in_map.
    match goal with
    | |- context [findIndex ?p ?l] => destruct (findIndex p l) as [i|] eqn:Hi
    end; [|simpl; auto].
    apply In_list_insert. eapply findIndex_lt, Hi.
Qed.

(** ** Guest mode (C6) *)

Section Guest.
Variable env : Env.

Lemma guest_not_admitted w : currentUser w = None -> admits w = None.
Proof.
  intros Hu. unfold admits. rewrite Hu.
  destruct (isSyncing (syncStatus w)); reflexivity.
Qed.

Lemma guest_syncAll w : currentUser w = None -> syncAll env w = (Ok false, w).
Proof. intros Hu. rewrite syncAll_admits, guest_not_admitted by exact Hu. reflexivity. Qed.

Lemma guest_saveNote note w :
  currentUser w = None ->
  saveNote env note w = (Ok tt, (updateLocalNote env "guest" note w).2).
Proof.
  intros Hu. rewrite saveNote_after_local_write, Hu. reflexivity.
Qed.

Lemma removeLocalNote_total u id w : (removeLocalNote env u id w).1 = Ok tt.
Proof.
  unfold removeLocalNote, bind.
  destruct (getLocalNotes_reads env u w) as [notes ->].
  rewrite saveLocalNotes_writes. reflexivity.
Qed.

Lemma guest_deleteNote id w :
  currentUser w = None ->
  deleteNote env id w = (Ok tt, (removeLocalNote env "guest" id w).2).
Proof.
  intros Hu. unfold deleteNote. unfold bind at 1. unfold gets at 1. rewrite Hu.
  unfold try_catch, bind. simpl storageUserId.
  pose proof (removeLocalNote_total "guest" id w) as Hok.
  destruct (removeLocalNote env "guest" id w) as [r w1].
  simpl in Hok. subst r. reflexivity.
Qed.

Lemma guest_saveChatThread thread w :
  currentUser w = None ->
  saveChatThread env thread w = updateLocalChatThread env "guest" thread w.
Proof.
  intros Hu. unfold saveChatThread, bind, gets. rewrite Hu. reflexivity.
Qed.

Lemma guest_sync t w :
  currentUser w = None ->
  perform env (ReqSync t) w = (Ok tt, (listen t w).1).
Proof.
  intros Hu.
  assert (Hl : currentUser (listen t w).1 = None) by (destruct t; exact Hu).
  destruct (listeners_listen env w) as (Ht & Hn & Ha & Hf).
  assert (Hreq : forall t',
    currentUser (listen t' w).1 = None ->
    (if (listen t' w).2 then (syncAll env ;;; ret tt) (listen t' w).1
     else (Ok tt, (listen t' w).1)) = (Ok tt, (listen t' w).1)).
  { intros t' Hu'. destruct (listen t' w).2; [|reflexivity].
    unfold bind. rewrite guest_syncAll by exact Hu'. reflexivity. }
  destruct t as [|c| |]; simpl perform.
  - rewrite Ht. apply Hreq, Hu.
  - rewrite Hn. apply Hreq, Hu.
  - rewrite Ha. apply Hreq, Hu.
  - unfold bind, forcSync. rewrite guest_syncAll by exact Hu. reflexivity.
Qed.

(** What a guest request leaves unchanged: there is still no user, the
    flag, the queue and the remote calls are as before, and so are the
    notes and chat threads of every other user. *)
Lemma guest_perform r w :
  currentUser w = None ->
  currentUser (perform env r w).2 = None
  /\ flag (perform env r w).2 = flag w
  /\ pendingOperations (perform env r w).2 = pendingOperations w
  /\ remoteCalls (trace (perform env r w).2) = remoteCalls (trace w)
  /\ (forall u, u <> "guest" ->
        item_notes (storage (perform env r w).2) !! u = item_notes (storage w) !! u
        /\ item_chatThreads (storage (perform env r w).2) !! u
           = item_chatThreads (storage w) !! u).
Proof.
  intros Hu.
  assert (Hnotes : forall u' x w0,
    u' <> "guest" ->
    item_notes (storage (saveLocalNotes env "guest" x w0).2) !! u'
      = item_notes (storage w0) !! u').
  { intros u' x w0 Hne. rewrite saveLocalNotes_writes. simpl.
    destruct (storageRejects env (tick w0) (SetItem (KeyNotes "guest")));
      simpl; [reflexivity|]. apply lookup_insert_ne. congruence. }
  destruct r as [note|id|thread|t].
  - simpl perform. rewrite guest_saveNote by exact Hu. simpl.
    split; [rewrite (keeps_updateLocalNote env currentUser) by reflexivity; exact Hu|].
    split; [apply (keeps_updateLocalNote env flag); reflexivity|].
    split; [apply queue_updateLocalNote|].
    split; [apply remoteCalls_updateLocalNote|].
    intros u Hne. split.
    + destruct (updateLocalNote_steps env "guest" note w) as (l & _ & ->).
      rewrite Hnotes by exact Hne. reflexivity.
    + apply (keeps_updateLocalNote env
               (fun w => item_chatThreads (storage w) !! u)); reflexivity.
  - simpl perform. rewrite guest_deleteNote by exact Hu. simpl.
    split; [rewrite (keeps_removeLocalNote env currentUser) by reflexivity; exact Hu|].
    split; [apply (keeps_removeLocalNote env flag); reflexivity|].
    split; [apply (keeps_removeLocalNote env pendingOperations); reflexivity|].
    split; [apply (keeps_removeLocalNote env (fun w => remoteCalls (trace w)));
            [apply remoteCalls_record_storage|reflexivity]|].
    intros u Hne. split.
    + unfold removeLocalNote, bind.
      destruct (getLocalNotes_reads env "guest" w) as [l ->].
      rewrite Hnotes by exact Hne. reflexivity.
    + apply (keeps_removeLocalNote env
               (fun w => item_chatThreads (storage w) !! u)); reflexivity.
  - simpl perform. rewrite guest_saveChatThread by exact Hu.
    split; [rewrite (keeps_updateLocalChatThread env currentUser) by reflexivity;
            exact Hu|].
    split; [apply (keeps_updateLocalChatThread env flag); reflexivity|].
    split; [apply (keeps_updateLocalChatThread env pendingOperations); reflexivity|].
    split; [apply (keeps_updateLocalChatThread env (fun w => remoteCalls (trace w)));
            [apply remoteCalls_record_storage|reflexivity]|].
    intros u Hne. split.
    + apply (keeps_updateLocalChatThread env
               (fun w => item_notes (storage w) !! u)); reflexivity.
    + unfold updateLocalChatThread, bind.
      assert (Hget : exists l, getLocalChatThreads env "guest" w
                = (Ok l, record_event (EvStorage (GetItem (KeyChatThreads "guest"))) w)).
      { unfold getLocalChatThreads, try_catch, bind, AsyncStorage_call, gets, ret.
        destruct (storageRejects env (tick w) (GetItem (KeyChatThreads "guest")));
          simpl; [eauto|].
        destruct (item_chatThreads (storage w) !! "guest"); eauto. }
      destruct Hget as [l ->].
      unfold saveLocalChatThreads, try_catch, bind, AsyncStorage_call, modify, ret.
      destruct (storageRejects env _ (SetItem (KeyChatThreads "guest")));
        simpl; [reflexivity|]. apply lookup_insert_ne. congruence.
  - rewrite guest_sync by exact Hu.
    destruct t; simpl; repeat split; auto.
Qed.

Lemma guest_run rs : forall w,
  currentUser w = None ->
  currentUser (run env rs w) = None
  /\ flag (run env rs w) = flag w
  /\ pendingOperations (run env rs w) = pendingOperations w
  /\ remoteCalls (trace (run env rs w)) = remoteCalls (trace w)
  /\ (forall u, u <> "guest" ->
        item_notes (storage (run env rs w)) !! u = item_notes (storage w) !! u
        /\ item_chatThreads (storage (run env rs w)) !! u
           = item_chatThreads (storage w) !! u).
Proof.
  induction rs as [|r rs IH]; intros w Hu; simpl; [auto 10|].
  destruct (guest_perform r w Hu) as (Hu1 & Hf1 & Hq1 & Hr1 & Hs1).
  destruct (IH _ Hu1) as (Hu2 & Hf2 & Hq2 & Hr2 & Hs2).
  split; [exact Hu2|]. split; [congruence|]. split; [congruence|].
  split; [congruence|].
  intros u Hne. destruct (Hs1 u Hne), (Hs2 u Hne). split; congruence.
Qed.
End Guest.

Lemma findIndex_insert_ids (note : Note) (l : list Note) i :
  findIndex (fun n : Note => String.eqb (note_id n) (note_id note)) l = Some i ->
  note_id <$> <[i:=note]> l = note_id <$> l.
Proof.
  revert i. induction l as [|x l IH]; intros i; simpl; [discriminate|].
  destruct (String.eqb_spec (note_id x) (note_id note)) as [Heq|Hne].
  - intros [= <-]. simpl. rewrite Heq. reflexivity.
  - destruct (findIndex _ l) as [j|] eqn:Hj; [|discriminate].
    intros [= <-]. simpl. f_equal. apply IH. reflexivity.
Qed.

Lemma revive_ids (l : list NoteJson) : note_id <$> (Note_revive <$> l) = note_id <$> l.
Proof. induction l as [|x l IH]; simpl; [reflexivity|]. f_equal. exact IH. Qed.

Lemma toJSON_ids (l : list Note) : note_id <$> (Note_toJSON <$> l) = note_id <$> l.
Proof. induction l as [|x l IH]; simpl; [reflexivity|]. f_equal. exact IH. Qed.

Lemma findIndex_insert_thread_ids (thread : ChatThread) (l : list ChatThread) i :
  findIndex (fun t : ChatThread => String.eqb (thread_id t) (thread_id thread)) l
    = Some i ->
  thread_id <$> <[i:=thread]> l = thread_id <$> l.
Proof.
  revert i. induction l as [|x l IH]; intros i; simpl; [discriminate|].
  destruct (String.eqb_spec (thread_id x) (thread_id thread)) as [Heq|Hne].
  - intros [= <-]. simpl. rewrite Heq. reflexivity.
  - destruct (findIndex _ l) as [j|] eqn:Hj; [|discriminate].
    intros [= <-]. simpl. f_equal. apply IH. reflexivity.
Qed.

Lemma findIndex_thread_id (thread : ChatThread) (l : list ChatThread) i :
  findIndex (fun t : ChatThread => String.eqb (thread_id t) (thread_id thread)) l
    = Some i ->
  In (thread_id thread) (thread_id <$> l).
Proof.
  revert i. induction l as [|x l IH]; intros i; simpl; [discriminate|].
  destruct (String.eqb_spec (thread_id x) (thread_id thread)) as [Heq|Hne];
    [auto|].
  destruct (findIndex _ l) as [j|] eqn:Hj; [|discriminate].
  intros _. right. eapply IH. reflexivity.
Qed.

Lemma thread_revive_ids (l : list ChatThreadJson) :
  thread_id <$> (ChatThread_revive <$> l) = thread_id <$> l.
Proof. induction l as [|x l IH]; simpl; [reflexivity|]. f_equal. exact IH. Qed.

Lemma thread_toJSON_ids (l : list ChatThread) :
  thread_id <$> (ChatThread_toJSON <$> l) = thread_id <$> l.
Proof. induction l as [|x l IH]; simpl; [reflexivity|]. f_equal. exact IH. Qed.

Section GuestStore.
Variable env : Env.
Hypothesis storage_works : forall t c, storageRejects env t c = false.

Lemma getLocalNotes_works u w :
  getLocalNotes env u w
    = (Ok (Note_revive <$> default [] (item_notes (storage w) !! u)),
       record_event (EvStorage (GetItem (KeyNotes u))) w).
Proof using storage_works.
  unfold getLocalNotes, try_catch, bind, AsyncStorage_call, gets, ret.
  rewrite storage_works. simpl.
  destruct (item_notes (storage w) !! u); reflexivity.
Qed.

Lemma storedNoteIds_saveLocalNotes u l w :
  storedNoteIds u (saveLocalNotes env u l w).2 = note_id <$> l.
Proof using storage_works.
  rewrite saveLocalNotes_writes, storage_works. unfold storedNoteIds. simpl.
  rewrite lookup_insert_eq. simpl. apply toJSON_ids.
Qed.

(** A save keeps the stored ids and adds the id of the note. *)
Lemma storedNoteIds_updateLocalNote u note w k :
  In k (storedNoteIds u (updateLocalNote env u note w).2)
  <-> k = note_id note \/ In k (storedNoteIds u w).
Proof using storage_works.
  unfold updateLocalNote, bind. rewrite getLocalNotes_works.
  rewrite storedNoteIds_saveLocalNotes.
  set (notes := Note_revive <$> default [] (item_notes (storage w) !! u)).
  assert (Hids : note_id <$> notes = storedNoteIds u w) by apply revive_ids.
  rewrite <- Hids.
  destruct (findIndex (fun n : Note => String.eqb (note_id n) (note_id note)) notes)
    as [i|] eqn:Hi.
  - rewrite (findIndex_insert_ids note notes i Hi). split; [auto|].
    intros [->|H]; [|exact H].
    clear Hids. revert i Hi. induction notes as [|x l IH]; intros i; simpl;
      [discriminate|].
    destruct (String.eqb_spec (note_id x) (note_id note)) as [Heq|Hne]; [auto|].
    destruct (findIndex _ l) as [j|] eqn:Hj; [|discriminate].
    intros _. right. eapply IH. reflexivity.
  - simpl. intuition congruence.
Qed.

(** A delete removes that id and no other. *)
Lemma storedNoteIds_removeLocalNote u id w k :
  In k (storedNoteIds u (removeLocalNote env u id w).2)
  <-> k <> id /\ In k (storedNoteIds u w).
Proof using storage_works.
  unfold removeLocalNote, bind. rewrite getLocalNotes_works.
  rewrite storedNoteIds_saveLocalNotes.
  set (notes := Note_revive <$> default [] (item_notes (storage w) !! u)).
  assert (Hids : note_id <$> notes = storedNoteIds u w) by apply revive_ids.
  rewrite <- Hids. clear Hids.
  induction notes as [|x l IH]; simpl; [tauto|].
  destruct (String.eqb_spec (note_id x) id) as [Heq|Hne]; simpl.
  - rewrite IH. intuition congruence.
  - rewrite IH. intuition congruence.
Qed.

Lemma guest_perform_stored r w k :
  currentUser w = None ->
  In k (storedNoteIds "guest" (perform env r w).2)
  <-> match r with
      | ReqSaveNote note => k = note_id note \/ In k (storedNoteIds "guest" w)
      | ReqDeleteNote id => k <> id /\ In k (storedNoteIds "guest" w)
      | _ => In k (storedNoteIds "guest" w)
      end.
Proof using storage_works.
  intros Hu. destruct r as [note|id|thread|t].
  - simpl perform. rewrite guest_saveNote by exact Hu.
    apply storedNoteIds_updateLocalNote.
  - simpl perform. rewrite guest_deleteNote by exact Hu.
    apply storedNoteIds_removeLocalNote.
  - simpl perform. rewrite guest_saveChatThread by exact Hu.
    unfold storedNoteIds.
    rewrite (keeps_updateLocalChatThread env (fun w => item_notes (storage w)))
      by reflexivity. reflexivity.
  - rewrite guest_sync by exact Hu. destruct t; reflexivity.
Qed.

(** A save of a chat thread keeps the stored ids and adds the id of the
    thread. *)
Lemma storedThreadIds_updateLocalChatThread u thread w k :
  In k (storedThreadIds u (updateLocalChatThread env u thread w).2)
  <-> k = thread_id thread \/ In k (storedThreadIds u w).
Proof using storage_works.
  unfold updateLocalChatThread, bind.
  rewrite getLocalChatThreads_value, saveLocalChatThreads_writes.
  rewrite !storage_works. unfold storedThreadIds. simpl.
  rewrite lookup_insert_eq. simpl. rewrite thread_toJSON_ids.
  set (threads := ChatThread_revive
                    <$> default [] (item_chatThreads (storage w) !! u)).
  assert (Hids : thread_id <$> threads
                 = thread_id <$> default [] (item_chatThreads (storage w) !! u))
    by apply thread_revive_ids.
  rewrite <- Hids.
  destruct (findIndex
              (fun t : ChatThread => String.eqb (thread_id t) (thread_id thread))
              threads) as [i|] eqn:Hi.
  - rewrite (findIndex_insert_thread_ids thread threads i Hi).
    split; [auto|]. intros [->|H]; [|exact H].
    eapply findIndex_thread_id, Hi.
  - simpl. intuition congruence.
Qed.

(** No request of a guest removes a stored chat thread. *)
Lemma guest_perform_stored_threads r w k :
  currentUser w = None ->
  In k (storedThreadIds "guest" (perform env r w).2)
  <-> match r with
      | ReqSaveChatThread thread =>
          k = thread_id thread \/ In k (storedThreadIds "guest" w)
      | _ => In k (storedThreadIds "guest" w)
      end.
Proof using storage_works.
  intros Hu. destruct r as [note|id|thread|t].
  - simpl perform. rewrite guest_saveNote by exact Hu.
    unfold storedThreadIds. cbn [snd].
    rewrite (keeps_updateLocalNote env (fun w => item_chatThreads (storage w)))
      by reflexivity. reflexivity.
  - simpl perform. rewrite guest_deleteNote by exact Hu.
    unfold storedThreadIds. cbn [snd].
    rewrite (keeps_removeLocalNote env (fun w => item_chatThreads (storage w)))
      by reflexivity. reflexivity.
  - simpl perform. rewrite guest_saveChatThread by exact Hu.
    apply storedThreadIds_updateLocalChatThread.
  - rewrite guest_sync by exact Hu. destruct t; reflexivity.
Qed.

(** A chat thread saved in guest mode is still stored under the guest key
    after any further requests. *)
Lemma guest_saved_threads_persist post : forall w k,
  currentUser w = None ->
  In k (storedThreadIds "guest" w) ->
  In k (storedThreadIds "guest" (run env post w)).
Proof using storage_works.
  induction post as [|r post IH]; intros w k Hu Hin; simpl; [exact Hin|].
  apply IH.
  - apply guest_perform, Hu.
  - apply guest_perform_stored_threads; [exact Hu|].
    destruct r as [note|id|thread|t]; auto.
Qed.

(** A note saved in guest mode is still stored under the guest key after
    any further requests that do not delete it. *)
Lemma guest_saved_notes_persist post : forall w k,
  currentUser w = None ->
  In k (storedNoteIds "guest" w) ->
  ~ In (ReqDeleteNote k) post ->
  In k (storedNoteIds "guest" (run env post w)).
Proof using storage_works.
  induction post as [|r post IH]; intros w k Hu Hin Hdel; simpl; [exact Hin|].
  apply IH.
  - apply guest_perform, Hu.
  - apply guest_perform_stored; [exact Hu|].
    destruct r as [note|id|thread|t]; auto.
    split; [|exact Hin]. intros ->. apply Hdel. left. reflexivity.
  - intros H. apply Hdel. right. exact H.
Qed.
End GuestStore.

Lemma run_app env pre post w : run env (pre ++ post) w = run env post (run env pre w).
Proof. revert w. induction pre as [|r pre IH]; intros w; simpl; [reflexivity|apply IH]. Qed.

(** C6.  After any sequence of saves, deletes and sync triggers made with
    no authenticated user: there is still no user and [isSyncing] is
    clear; a [syncAll] is turned away with the world untouched; no remote
    call was issued and no pending operation enqueued; the items of other
    users are as before.  A note saved next is written under the key
    'notes_guest', a chat thread saved next under the key
    'chatThreads_guest', and, when AsyncStorage accepts the write, each is
    in the collection stored there.  When AsyncStorage never rejects, the
    id of every note saved is still stored under 'notes_guest' after any
    further requests that do not delete it, and the id of every chat thread
    saved is still stored under 'chatThreads_guest' after any further
    requests. *)
Theorem guest_mode_is_local_only (env : Env) (w : World) (rs : list Request) :
  currentUser w = None -> flag w = false ->
  (currentUser (run env rs w) = None
   /\ flag (run env rs w) = false
   /\ syncAll env (run env rs w) = (Ok false, run env rs w)
   /\ remoteCalls (trace (run env rs w)) = remoteCalls (trace w)
   /\ pendingOperations (run env rs w) = pendingOperations w
   /\ (forall u, u <> "guest" ->
         item_notes (storage (run env rs w)) !! u = item_notes (storage w) !! u
         /\ item_chatThreads (storage (run env rs w)) !! u
            = item_chatThreads (storage w) !! u))
  /\ (forall note,
        key_name (KeyNotes (storageUserId (currentUser (run env rs w))))
          = "notes_guest"
        /\ (storageRejects env (S (tick (run env rs w))) (SetItem (KeyNotes "guest"))
              = false ->
            exists stored,
              item_notes (storage (run env (rs ++ [ReqSaveNote note]) w)) !! "guest"
                = Some stored
              /\ In (Note_toJSON note) stored))
  /\ (forall thread,
        trace (run env (rs ++ [ReqSaveChatThread thread]) w)
          = trace (run env rs w)
            ++ [EvStorage (GetItem (KeyChatThreads "guest"));
                EvStorage (SetItem (KeyChatThreads "guest"))]
        /\ key_name (KeyChatThreads "guest") = "chatThreads_guest"
        /\ (storageRejects env (S (tick (run env rs w)))
              (SetItem (KeyChatThreads "guest")) = false ->
            exists stored,
              item_chatThreads
                (storage (run env (rs ++ [ReqSaveChatThread thread]) w)) !! "guest"
                = Some stored
              /\ In (ChatThread_toJSON thread) stored))
  /\ ((forall t c, storageRejects env t c = false) ->
      (forall pre note post,
         rs = pre ++ ReqSaveNote note :: post ->
         ~ In (ReqDeleteNote (note_id note)) post ->
         In (note_id note) (storedNoteIds "guest" (run env rs w)))
      /\ (forall pre thread post,
            rs = pre ++ ReqSaveChatThread thread :: post ->
            In (thread_id thread) (storedThreadIds "guest" (run env rs w)))).
Proof.
  intros Hu Hf.
  destruct (guest_run env rs w Hu) as (Hu' & Hf' & Hq' & Hr' & Hs').
  split; [|split; [|split]].
  - split; [exact Hu'|]. split; [congruence|].
    split; [apply guest_syncAll, Hu'|]. auto.
  - intros note. rewrite Hu'. split; [reflexivity|]. intros Hacc.
    rewrite run_app. simpl run.
    rewrite guest_saveNote by exact Hu'. simpl.
    apply updateLocalNote_writes, Hacc.
  - intros thread. rewrite run_app. simpl run.
    rewrite guest_saveChatThread by exact Hu'.
    destruct (updateLocalChatThread_writes env "guest" thread (run env rs w))
      as (_ & Htrace & Hstored).
    split; [exact Htrace|]. split; [reflexivity|exact Hstored].
  - intros Hworks. split.
    + intros pre note post -> Hdel.
      rewrite run_app. simpl run.
      destruct (guest_run env pre w Hu) as (Hu1 & _).
      apply guest_saved_notes_persist.
      * exact Hworks.
      * apply (guest_perform env (ReqSaveNote note)), Hu1.
      * apply (guest_perform_stored env Hworks (ReqSaveNote note)); [exact Hu1|auto].
      * exact Hdel.
    + intros pre thread post ->.
      rewrite run_app. simpl run.
      destruct (guest_run env pre w Hu) as (Hu1 & _).
      apply guest_saved_threads_persist.
      * exact Hworks.
      * apply (guest_perform env (ReqSaveChatThread thread)), Hu1.
      * apply (guest_perform_stored_threads env Hworks (ReqSaveChatThread thread));
          [exact Hu1|auto].
Qed.

(** ** Persistence of the queue (C9) *)

Lemma PendingOperation_round_trip op :
  fourDigitYear (op_timestamp op) ->
  PendingOperation_revive (PendingOperation_toJSON op) = asStored op.
Proof.
  intros (t & Ht & Hrange).
  unfold PendingOperation_revive, PendingOperation_toJSON, asStored. simpl.
  rewrite Ht. simpl.
  rewrite DateCodecFacts.Date_parse_toISOString by exact Hrange. reflexivity.
Qed.

Lemma OpData_json_idempotent d : OpData_json (OpData_json d) = OpData_json d.
Proof. destruct d; reflexivity. Qed.

(** C9, as the code has it.  When AsyncStorage accepts the write and the
    read, and every timestamp is a valid Date of the years 0000 to 9999:
    saving the queue and loading it in any later state of the engine (a
    restart included) yields as many operations, in the same order, each
    with its id, kind, collection and retry count, its timestamp read back
    to the same instant, and its payload in JSON form: a Note or ChatThread
    payload comes back with its dates as ISO strings, which nothing
    revives.  Operations whose payload is already plain JSON come back
    equal, and so does every operation from the second round trip on. *)
Theorem pendingOperations_round_trip (env : Env) (w w2 : World) :
  Forall (fun op => fourDigitYear (op_timestamp op)) (pendingOperations w) ->
  storageRejects env (tick w) (SetItem KeyPendingOperations) = false ->
  storage w2 = storage (savePendingOperations env w).2 ->
  storageRejects env (tick w2) (GetItem KeyPendingOperations) = false ->
  pendingOperations (loadPendingOperations env w2).2
    = asStored <$> pendingOperations w
  /\ pendingChanges (syncStatus (loadPendingOperations env w2).2)
     = length (pendingOperations w)
  /\ (Forall (fun op => OpData_json (op_data op) = op_data op)
        (pendingOperations w) ->
      pendingOperations (loadPendingOperations env w2).2 = pendingOperations w)
  /\ asStored <$> (asStored <$> pendingOperations w)
     = asStored <$> pendingOperations w.
Proof.
  intros Hvalid Hset Hst Hget.
  assert (Hitem : item_pendingOperations (storage w2)
                  = Some (PendingOperation_toJSON <$> pendingOperations w)).
  { rewrite Hst. unfold savePendingOperations, try_catch, bind,
      AsyncStorage_call, modify. rewrite Hset. reflexivity. }
  assert (Hrt : PendingOperation_revive <$> (PendingOperation_toJSON <$> pendingOperations w)
                = asStored <$> pendingOperations w).
  { clear Hitem Hst. induction Hvalid as [|op ops Hop _ IH]; simpl; [reflexivity|].
    rewrite PendingOperation_round_trip by exact Hop. f_equal. exact IH. }
  assert (Hload : pendingOperations (loadPendingOperations env w2).2
                  = asStored <$> pendingOperations w
                  /\ pendingChanges (syncStatus (loadPendingOperations env w2).2)
                     = length (pendingOperations w)).
  { unfold loadPendingOperations, try_catch, bind, AsyncStorage_call, gets, modify.
    rewrite Hget. simpl. rewrite Hitem. simpl. rewrite Hrt.
    split; [reflexivity|]. apply length_fmap. }
  destruct Hload as [Hq Hn].
  split; [exact Hq|]. split; [exact Hn|]. split.
  - intros Hplain. rewrite Hq. clear -Hplain.
    induction Hplain as [|op ops Hop _ IH]; [reflexivity|].
    rewrite fmap_cons, IH. f_equal. destruct op as [i t c d ts r].
    unfold asStored. simpl in *. rewrite Hop. reflexivity.
  - rewrite <- list_fmap_compose. apply list_fmap_ext. intros i op _.
    unfold asStored. simpl. rewrite OpData_json_idempotent. reflexivity.
Qed.

Lemma pendingOperations_round_trip_witness :
  pendingOperations
    (loadPendingOperations Sample.env
       (restart (savePendingOperations Sample.env Sample.twoPending).2)).2
  = asStored <$> pendingOperations Sample.twoPending.
Proof.
  apply (pendingOperations_round_trip Sample.env Sample.twoPending
           (restart (savePendingOperations Sample.env Sample.twoPending).2));
    try reflexivity.
  repeat constructor; exists 1700000000000; split; try reflexivity; lia.
Defined.

(** C9 as stated fails: the reloaded queue is not the saved one when a
    payload holds Dates.  The note carried by the update comes back as
    plain JSON, its [updatedAt] the string "1970-01-01T00:00:00.005Z". *)
Lemma payload_dates_not_revived_counterexample :
  op_data <$>
    pendingOperations
      (loadPendingOperations Sample.env
         (restart (savePendingOperations Sample.env Sample.twoPending).2)).2
  = [DataId "n0"; DataNoteJson (Note_toJSON (Sample.note "n1" "a" 5))]
  /\ note_updatedAt (Note_toJSON (Sample.note "n1" "a" 5))
     = Some "1970-01-01T00:00:00.005Z"
  /\ pendingOperations
       (loadPendingOperations Sample.env
          (restart (savePendingOperations Sample.env Sample.twoPending).2)).2
     <> pendingOperations Sample.twoPending.
Proof.
  split; [vm_compute; reflexivity|]. split; [vm_compute; reflexivity|].
  intros H. apply (f_equal (fmap (M := list) op_data)) in H.
  vm_compute in H. discriminate H.
Qed.

Lemma guest_mode_is_local_only_witness :
  remoteCalls (trace (run Sample.env fiveSaves Sample.guest)) = []
  /\ pendingOperations (run Sample.env fiveSaves Sample.guest) = []
  /\ In "n3" (storedNoteIds "guest" (run Sample.env fiveSaves Sample.guest))
  /\ In "t1" (storedThreadIds "guest" (run Sample.env guestChat Sample.guest))
  /\ pendingOperations (run Sample.env guestChat Sample.guest) = [].
Proof.
  destruct (guest_mode_is_local_only Sample.env Sample.guest fiveSaves
              eq_refl eq_refl) as ((_ & _ & _ & Hcalls & Hqueue & _) & _ & _ & Hkept).
  destruct (guest_mode_is_local_only Sample.env Sample.guest guestChat
              eq_refl eq_refl) as ((_ & _ & _ & _ & Hqueue2 & _) & _ & _ & Hkept2).
  split; [exact Hcalls|]. split; [exact Hqueue|]. split; [|split].
  - apply (proj1 (Hkept (fun _ _ => eq_refl))
             [ReqSaveNote (Sample.note "n1" "one" 1);
              ReqSaveNote (Sample.note "n2" "two" 2); ReqSync ExplicitRefresh]
             (Sample.note "n3" "three" 3)
             [ReqSaveNote (Sample.note "n4" "four" 4); ReqSync AppForeground;
              ReqSaveNote (Sample.note "n5" "five" 5)]);
      [reflexivity|].
    simpl. intuition discriminate.
  - apply (proj2 (Hkept2 (fun _ _ => eq_refl)) []
             (Sample.thread "t1" "first chat" 1)
             (tail guestChat)).
    reflexivity.
  - exact Hqueue2.
Defined.

(** ** Invariants: what every method preserves *)

Section Preserves.
Context (P : World -> Prop).

Lemma preserves_ret {A} (a : A) : preserves P (ret a).
Proof. intros w H. exact H. Qed.

Lemma preserves_throw {A} e : preserves P (@throw A e).
Proof. intros w H. exact H. Qed.

Lemma preserves_gets {A} (g : World -> A) : preserves P (gets g).
Proof. intros w H. exact H. Qed.

Lemma preserves_modify (g : World -> World) :
  (forall w, P w -> P (g w)) -> preserves P (modify g).
Proof. intros H w Hw. apply H, Hw. Qed.

Lemma preserves_bind {A B} (c : M A) (k : A -> M B) :
  preserves P c -> (forall a, preserves P (k a)) -> preserves P (bind c k).
Proof.
  intros Hc Hk w Hw. unfold bind. specialize (Hc w Hw).
  destruct (c w) as [[a|e] w']; simpl in *; [apply Hk, Hc | exact Hc].
Qed.

Lemma preserves_try_catch {A} (c : M A) (h : JsError -> M A) :
  preserves P c -> (forall e, preserves P (h e)) -> preserves P (try_catch c h).
Proof.
  intros Hc Hh w Hw. unfold try_catch. specialize (Hc w Hw).
  destruct (c w) as [[a|e] w']; simpl in *; [exact Hc | apply Hh, Hc].
Qed.

Lemma preserves_try_finally {A} (c : M A) (g : World -> World) :
  preserves P c -> (forall w, P w -> P (g w)) -> preserves P (try_finally c g).
Proof.
  intros Hc Hg w Hw. unfold try_finally. specialize (Hc w Hw).
  destruct (c w) as [r w']; simpl in *. apply Hg, Hc.
Qed.

Lemma keeps_preserves {X A} (f : World -> X) (c : M A) :
  (forall w w', f w = f w' -> P w' -> P w) -> keeps f c -> preserves P c.
Proof. intros Hf Hc w Hw. eapply Hf; [apply Hc | exact Hw]. Qed.
End Preserves.

Ltac preserves_step :=
  first
    [ apply preserves_ret | apply preserves_throw | apply preserves_gets
    | apply preserves_bind; [| intros ?]
    | apply preserves_try_catch; [| intros ?]
    | match goal with
      | |- preserves _ (match ?x with _ => _ end) => destruct x
      | |- preserves _ (if ?x then _ else _) => destruct x
      end
    | progress cbv beta zeta ].

Create HintDb inv.

Lemma drained_settled env ops w :
  Forall (fun o' => exists o, In o ops /\ (o' = o \/ o' = retry o))
    (drained env ops w).1.1.
Proof.
  revert w. induction ops as [|op ops IH]; intros w; simpl; [constructor|].
  constructor.
  - exists op. split; [left; reflexivity|].
    destruct (attempted env op w).1; unfold settle; simpl; auto.
    match goal with |- context [if ?c then _ else _] => destruct c end;
      simpl; auto.
  - eapply List.Forall_impl; [|apply IH].
    intros o' (o & Ho & Heq). exists o. split; [right; exact Ho|exact Heq].
Qed.

Section EngineInvariant.
Variable env : Env.
Context (P : World -> Prop) (expected : PendingOperation -> Prop).

Hypothesis Hev_storage : forall c w, P w -> P (record_event (EvStorage c) w).
Hypothesis Hev_remote : forall c w,
  createsOrDeletesBeyondNotes c = false -> P w -> P (record_event (EvRemote c) w).
Hypothesis Hflag : forall b w, P w -> P (set_isSyncing b w).
Hypothesis Honline : forall b w, P w -> P (set_isOnline b w).
Hypothesis Hlast : forall d w, P w -> P (set_lastSyncTime d w).
Hypothesis Hnotes : forall v w, P w ->
  P (set_storage (fun st =>
       mkStorage (v st) (item_chatThreads st) (item_labels st)
         (item_pendingOperations st) (item_lastSyncTime st)) w).
Hypothesis Hthreads : forall v w, P w ->
  P (set_storage (fun st =>
       mkStorage (item_notes st) (v st) (item_labels st)
         (item_pendingOperations st) (item_lastSyncTime st)) w).
Hypothesis Hlabels : forall v w, P w ->
  P (set_storage (fun st =>
       mkStorage (item_notes st) (item_chatThreads st) (v st)
         (item_pendingOperations st) (item_lastSyncTime st)) w).
Hypothesis HlastSync : forall v w, P w ->
  P (set_storage (fun st =>
       mkStorage (item_notes st) (item_chatThreads st) (item_labels st)
         (item_pendingOperations st) (v st)) w).
Hypothesis Hpersist : forall w, P w ->
  P (set_storage (fun st =>
       mkStorage (item_notes st) (item_chatThreads st) (item_labels st)
         (Some (PendingOperation_toJSON <$> pendingOperations w))
         (item_lastSyncTime st)) w).
Hypothesis Henqueue : forall id type collection data timestamp w,
  enqueuedKind type collection = true -> P w ->
  P (requeue (pendingOperations w
              ++ [mkPendingOperation id type collection data timestamp 0]) w).
Hypothesis Hsettled : forall q w, P w ->
  Forall (fun o' => exists o, In o (pendingOperations w)
                              /\ (o' = o \/ o' = retry o)) q ->
  P (requeue q w).
Hypothesis Hexpected : forall w, P w -> Forall expected (pendingOperations w).
Hypothesis Hreplay : forall op, expected op -> preserves P (replay env op).

Lemma inv_storage_call c : preserves P (AsyncStorage_call env c).
Proof using Hev_storage.
  intros w Hw. unfold AsyncStorage_call.
  destruct (storageRejects env (tick w) c); simpl; apply Hev_storage, Hw.
Qed.

Lemma inv_remote {A} c (answer : nat -> Result A) :
  createsOrDeletesBeyondNotes c = false -> preserves P (remote_call c answer).
Proof using Hev_remote. intros Hc w Hw. apply Hev_remote; assumption. Qed.

Ltac inv_frame :=
  repeat first
    [ solve [auto with inv]
    | apply inv_storage_call
    | apply inv_remote; reflexivity
    | apply preserves_modify; intros ? ?;
      first [ apply Hflag | apply Honline | apply Hlast | apply Hnotes
            | apply Hthreads | apply Hlabels | apply HlastSync | apply Hpersist ];
      assumption
    | preserves_step ].

Lemma inv_getLocalNotes u : preserves P (getLocalNotes env u).
Proof using Hev_storage. unfold getLocalNotes. inv_frame. Qed.

Lemma inv_saveLocalNotes u l : preserves P (saveLocalNotes env u l).
Proof using Hev_storage Hnotes. unfold saveLocalNotes. inv_frame. Qed.

Lemma inv_updateLocalNote u n : preserves P (updateLocalNote env u n).
Proof using Hev_storage Hnotes.
  unfold updateLocalNote.
  apply preserves_bind; [apply inv_getLocalNotes|intros ?].
  apply inv_saveLocalNotes.
Qed.

Lemma inv_removeLocalNote u id : preserves P (removeLocalNote env u id).
Proof using Hev_storage Hnotes.
  unfold removeLocalNote.
  apply preserves_bind; [apply inv_getLocalNotes|intros ?].
  apply inv_saveLocalNotes.
Qed.

Lemma inv_getLocalChatThreads u : preserves P (getLocalChatThreads env u).
Proof using Hev_storage. unfold getLocalChatThreads. inv_frame. Qed.

Lemma inv_saveLocalChatThreads u l : preserves P (saveLocalChatThreads env u l).
Proof using Hev_storage Hthreads. unfold saveLocalChatThreads. inv_frame. Qed.

Lemma inv_updateLocalChatThread u t : preserves P (updateLocalChatThread env u t).
Proof using Hev_storage Hthreads.
  unfold updateLocalChatThread.
  apply preserves_bind; [apply inv_getLocalChatThreads|intros ?].
  apply inv_saveLocalChatThreads.
Qed.

Lemma inv_getLocalLabels u : preserves P (getLocalLabels env u).
Proof using Hev_storage. unfold getLocalLabels. inv_frame. Qed.

Lemma inv_saveLocalLabels u l : preserves P (saveLocalLabels env u l).
Proof using Hev_storage Hlabels. unfold saveLocalLabels. inv_frame. Qed.

Lemma inv_savePendingOperations : preserves P (savePendingOperations env).
Proof using Hev_storage Hpersist. unfold savePendingOperations. inv_frame. Qed.

Lemma inv_saveLastSyncTime : preserves P (saveLastSyncTime env).
Proof using Hev_storage HlastSync. unfold saveLastSyncTime. inv_frame. Qed.

Lemma inv_addPendingOperation type collection data :
  enqueuedKind type collection = true ->
  preserves P (addPendingOperation env type collection data).
Proof using Hev_storage Hpersist Henqueue.
  intros Hkind w Hw. unfold addPendingOperation, Date_now, newDate.
  unfold bind at 1. unfold gets at 1. unfold bind at 1. unfold gets at 1.
  unfold bind at 1. unfold modify at 1. unfold bind at 1. unfold modify at 1.
  apply inv_savePendingOperations.
  apply (Henqueue _ type collection data _ w Hkind Hw).
Qed.

Lemma inv_drain ops :
  Forall expected ops -> preserves P (drain env ops).
Proof using Hreplay.
  induction 1 as [|op ops Hop _ IH]; simpl; [apply preserves_ret|].
  apply preserves_bind; [|intros ?; apply preserves_bind;
                           [exact IH|intros; apply preserves_ret]].
  unfold attempt. apply preserves_try_catch; [|intros; apply preserves_ret].
  apply preserves_bind; [apply Hreplay, Hop|intros; apply preserves_ret].
Qed.

Lemma inv_processPendingOperations : preserves P (processPendingOperations env).
Proof using Hev_storage Hpersist Hsettled Hexpected Hreplay.
  intros w Hw. unfold processPendingOperations.
  unfold bind at 1. unfold gets at 1.
  destruct (length (pendingOperations w) =? 0)%nat; [exact Hw|].
  unfold bind at 1. unfold gets at 1.
  destruct (currentUser w) as [user|]; [|exact Hw].
  unfold bind at 1.
  pose proof (inv_drain (pendingOperations w) (Hexpected w Hw) w Hw) as Hd.
  pose proof (keeps_drain env pendingOperations (fun _ _ => eq_refl)
                (pendingOperations w) w) as Hq.
  rewrite drain_drained in Hd, Hq |- *. simpl in Hd, Hq.
  unfold bind at 1. unfold modify at 1. unfold bind at 1. unfold modify at 1.
  apply inv_savePendingOperations.
  apply (Hsettled _ _ Hd). rewrite Hq.
  apply List.Forall_forall. intros o' Ho'. apply List.filter_In in Ho' as [Ho' _].
  pose proof (drained_settled env (pendingOperations w) w) as Hs.
  rewrite List.Forall_forall in Hs. apply Hs, Ho'.
Qed.

Lemma inv_indexNote n u : preserves P (indexNote env n u).
Proof using Hev_remote. unfold indexNote. inv_frame. Qed.

Lemma inv_indexNotes l u : preserves P (indexNotes env l u).
Proof using Hev_remote.
  induction l as [|n l IH]; simpl; [apply preserves_ret|].
  apply preserves_bind; [apply inv_indexNote|intros; exact IH].
Qed.

Lemma inv_updateSearchIndex l u : preserves P (updateSearchIndex env l u).
Proof using Hev_remote.
  unfold updateSearchIndex.
  apply preserves_try_catch; [apply inv_indexNotes|intros; apply preserves_ret].
Qed.

Lemma inv_mergeNotes_loop cloud m : preserves P (mergeNotes_loop env cloud m).
Proof using Hev_storage Hpersist Henqueue.
  revert m. induction cloud as [|c cloud IH]; intros m; simpl;
    [apply preserves_ret|].
  destruct (Map_get (note_id c) m) as [l|]; [|apply IH].
  destruct (Date_gt (note_updatedAt c) (note_updatedAt l)); [apply IH|].
  destruct (Date_gt (note_updatedAt l) (note_updatedAt c)); [|apply IH].
  apply preserves_bind; [|intros; apply IH].
  apply preserves_try_catch; [|intros; apply preserves_ret].
  apply inv_addPendingOperation. reflexivity.
Qed.

Lemma inv_mergeNotes l c : preserves P (mergeNotes env l c).
Proof using Hev_storage Hpersist Henqueue.
  unfold mergeNotes.
  apply preserves_bind; [apply inv_mergeNotes_loop|intros; apply preserves_ret].
Qed.

Lemma inv_syncNotes u : preserves P (syncNotes env u).
Proof using Hev_storage Hev_remote Hpersist Henqueue Hnotes.
  unfold syncNotes. apply preserves_try_catch; [|intros; apply preserves_throw].
  apply preserves_bind; [apply inv_getLocalNotes|intros ?].
  apply preserves_bind; [apply inv_remote; reflexivity|intros ?].
  apply preserves_bind; [apply inv_mergeNotes|intros ?].
  apply preserves_bind; [apply inv_saveLocalNotes|intros ?].
  apply inv_updateSearchIndex.
Qed.

Lemma inv_syncChatThreads u : preserves P (syncChatThreads env u).
Proof using Hev_storage Hev_remote Hthreads.
  unfold syncChatThreads. apply preserves_try_catch; [|intros; apply preserves_throw].
  apply preserves_bind; [apply inv_getLocalChatThreads|intros ?].
  apply preserves_bind; [apply inv_remote; reflexivity|intros ?].
  apply inv_saveLocalChatThreads.
Qed.

Lemma inv_syncLabels u : preserves P (syncLabels env u).
Proof using Hev_storage Hev_remote Hlabels.
  unfold syncLabels. apply preserves_try_catch; [|intros; apply preserves_throw].
  apply preserves_bind; [apply inv_getLocalLabels|intros ?].
  apply preserves_bind; [apply inv_remote; reflexivity|intros ?].
  apply inv_saveLocalLabels.
Qed.

Lemma inv_syncAll : preserves P (syncAll env).
Proof using All.
  unfold syncAll.
  apply preserves_bind; [apply preserves_gets|intros syncing].
  destruct syncing; [apply preserves_ret|].
  apply preserves_bind; [apply preserves_gets|intros [user|]];
    [|apply preserves_ret].
  apply preserves_bind; [apply preserves_gets|intros online].
  destruct (negb online); [apply preserves_ret|].
  apply preserves_try_finally; [|intros; apply Hflag; assumption].
  unfold syncCycle. apply preserves_try_catch; [|intros; apply preserves_ret].
  apply preserves_bind;
    [apply preserves_modify; intros; apply Hflag; assumption|intros _].
  unfold syncSteps, newDate.
  apply preserves_bind; [apply inv_processPendingOperations|intros _].
  apply preserves_bind; [apply inv_syncNotes|intros _].
  apply preserves_bind; [apply inv_syncChatThreads|intros _].
  apply preserves_bind; [apply inv_syncLabels|intros _].
  apply preserves_bind; [apply preserves_gets|intros d].
  apply preserves_bind;
    [apply preserves_modify; intros; apply Hlast; assumption|intros _].
  apply preserves_bind; [apply inv_saveLastSyncTime|intros _].
  apply preserves_ret.
Qed.

Lemma inv_saveNote note : preserves P (saveNote env note).
Proof using Hev_storage Hev_remote Hpersist Henqueue Hnotes.
  unfold saveNote.
  apply preserves_bind; [apply preserves_gets|intros user].
  apply preserves_try_catch; [|intros; apply preserves_ret].
  apply preserves_bind; [apply inv_updateLocalNote|intros _].
  unfold pushNote.
  apply preserves_bind; [apply preserves_gets|intros online].
  destruct user as [u|]; [|apply preserves_ret].
  destruct (negb (String.eqb (user_id u) "guest") && online).
  - apply preserves_try_catch;
      [|intros; apply inv_addPendingOperation; reflexivity].
    apply preserves_bind; [apply inv_remote; reflexivity|intros [saved|]].
    + apply inv_indexNote.
    + apply inv_addPendingOperation. reflexivity.
  - destruct (String.eqb (user_id u) "guest"); [apply preserves_ret|].
    apply inv_addPendingOperation. reflexivity.
Qed.

Lemma inv_deleteNote noteId : preserves P (deleteNote env noteId).
Proof using Hev_storage Hev_remote Hpersist Henqueue Hnotes.
  unfold deleteNote.
  apply preserves_bind; [apply preserves_gets|intros user].
  apply preserves_try_catch; [|intros; apply preserves_ret].
  apply preserves_bind; [apply inv_removeLocalNote|intros _].
  apply preserves_bind; [apply preserves_gets|intros online].
  destruct user as [u|]; [|apply preserves_ret].
  destruct (negb (String.eqb (user_id u) "guest") && online).
  - apply preserves_bind.
    + apply preserves_try_catch;
        [|intros; apply inv_addPendingOperation; reflexivity].
      apply preserves_bind; [apply inv_remote; reflexivity|intros [|]];
        [apply preserves_ret|apply inv_addPendingOperation; reflexivity].
    + intros _. apply preserves_try_catch; [|intros; apply preserves_ret].
      apply inv_remote. reflexivity.
  - destruct (String.eqb (user_id u) "guest"); [apply preserves_ret|].
    apply inv_addPendingOperation. reflexivity.
Qed.

Lemma inv_saveChatThread thread : preserves P (saveChatThread env thread).
Proof using Hev_storage Hev_remote Hpersist Henqueue Hthreads.
  unfold saveChatThread.
  apply preserves_bind; [apply preserves_gets|intros [u|]];
    [|apply inv_updateLocalChatThread].
  apply preserves_try_catch;
    [|intros; apply inv_addPendingOperation; reflexivity].
  apply preserves_bind; [apply inv_updateLocalChatThread|intros _].
  apply preserves_bind; [apply preserves_gets|intros online].
  destruct online; [|apply inv_addPendingOperation; reflexivity].
  apply preserves_bind; [apply inv_remote; reflexivity|intros [saved|]];
    [apply preserves_ret|apply inv_addPendingOperation; reflexivity].
Qed.

Lemma inv_perform r : preserves P (perform env r).
Proof using All.
  destruct r as [note|noteId|thread|[ |connected| | ]]; simpl.
  - apply inv_saveNote.
  - apply inv_deleteNote.
  - apply inv_saveChatThread.
  - unfold onInterval.
    apply preserves_bind; [apply preserves_gets|intros st].
    destruct (isOnline st && negb (isSyncing st)); [|apply preserves_ret].
    apply preserves_bind; [apply inv_syncAll|intros; apply preserves_ret].
  - unfold onNetInfo.
    apply preserves_bind; [apply preserves_gets|intros wasOffline].
    apply preserves_bind;
      [apply preserves_modify; intros; apply Honline; assumption|intros _].
    apply preserves_bind; [apply preserves_gets|intros online].
    destruct (wasOffline && online); [|apply preserves_ret].
    apply preserves_bind; [apply inv_syncAll|intros; apply preserves_ret].
  - unfold onAppActive.
    apply preserves_bind; [apply preserves_gets|intros online].
    destruct online; [|apply preserves_ret].
    apply preserves_bind; [apply inv_syncAll|intros; apply preserves_ret].
  - unfold forcSync.
    apply preserves_bind; [apply inv_syncAll|intros; apply preserves_ret].
Qed.

Lemma inv_run rs : forall w, P w -> P (run env rs w).
Proof using All.
  induction rs as [|r rs IH]; intros w Hw; [exact Hw|].
  simpl. apply IH, inv_perform, Hw.
Qed.
End EngineInvariant.

(** ** The pending-changes counter *)

Lemma countsQueue_perform env r : preserves countsQueue (perform env r).
Proof.
  apply (inv_perform env countsQueue (fun _ => True));
    try (intros; assumption); try (intros; reflexivity).
  - intros w _. apply List.Forall_forall. intros; exact I.
  - intros op _.
    apply (keeps_preserves countsQueue
             (fun w => (pendingChanges (syncStatus w), pendingOperations w))).
    + unfold countsQueue. intros w w' [= -> ->] H. exact H.
    + apply keeps_replay. reflexivity.
Qed.

Lemma countsQueue_loadPendingOperations env w :
  countsQueue w -> countsQueue (loadPendingOperations env w).2.
Proof.
  intros Hw. unfold loadPendingOperations, try_catch, bind, AsyncStorage_call.
  destruct (storageRejects env (tick w) (GetItem KeyPendingOperations));
    [exact Hw|].
  simpl. destruct (item_pendingOperations (storage w)); [reflexivity|exact Hw].
Qed.

(** X1.  The counter [pendingChanges] that [getSyncStatus] reports is the
    length of the queue after every sequence of requests, and again after a
    restart has reloaded the queue; so [hasPendingChanges()] answers true
    exactly when an operation is waiting. *)
Theorem pendingChanges_counts_queue (env : Env) (rs : list Request) (w : World) :
  countsQueue w ->
  pendingChanges (getSyncStatus (run env rs w))
    = length (pendingOperations (run env rs w))
  /\ (hasPendingChanges (run env rs w) = true
      <-> pendingOperations (run env rs w) <> [])
  /\ countsQueue (loadPendingOperations env (restart (run env rs w))).2.
Proof.
  intros Hw.
  assert (Hrun : countsQueue (run env rs w)).
  { revert w Hw. induction rs as [|r rs IH]; intros w Hw; [exact Hw|].
    simpl. apply IH, countsQueue_perform, Hw. }
  split; [exact Hrun|]. split.
  - unfold hasPendingChanges. rewrite Hrun.
    destruct (pendingOperations (run env rs w)) as [|op q]; simpl.
    + split; [discriminate|]. intros H. contradiction H. reflexivity.
    + split; [discriminate|reflexivity].
  - apply countsQueue_loadPendingOperations. reflexivity.
Qed.

Lemma pendingChanges_counts_queue_witness :
  hasPendingChanges
    (run Sample.env [ReqSync (ConnectivityChange (Some false));
                     ReqSaveNote (Sample.note "n1" "one" 1)] Sample.signedIn)
  = true
  <-> pendingOperations
        (run Sample.env [ReqSync (ConnectivityChange (Some false));
                         ReqSaveNote (Sample.note "n1" "one" 1)] Sample.signedIn)
      <> [].
Proof.
  apply (pendingChanges_counts_queue Sample.env
           [ReqSync (ConnectivityChange (Some false));
            ReqSaveNote (Sample.note "n1" "one" 1)] Sample.signedIn).
  reflexivity.
Defined.

(** ** What the engine never sends *)

Lemma remoteCalls_remote tr c : remoteCalls (tr ++ [EvRemote c]) = remoteCalls tr ++ [c].
Proof. unfold remoteCalls. rewrite omap_app. reflexivity. Qed.

Lemma engineMade_remote {A} c (answer : nat -> Result A) :
  createsOrDeletesBeyondNotes c = false ->
  preserves engineMade (remote_call c answer).
Proof.
  intros Hc w (Hq & Hs & Ht). split; [exact Hq|]. split; [exact Hs|].
  simpl. rewrite remoteCalls_remote. apply Forall_app. split; [exact Ht|].
  constructor; [exact Hc|constructor].
Qed.

Lemma engineMade_replay env op :
  enqueuedKind (op_type op) (op_collection op) = true ->
  preserves engineMade (replay env op).
Proof.
  intros Hkind.
  unfold replay, processPendingNoteOperation,
    processPendingChatThreadOperation, processPendingLabelOperation.
  destruct (op_collection op), (op_type op); try discriminate Hkind;
    repeat first [ apply engineMade_remote; reflexivity | preserves_step ].
Qed.

Lemma engineMade_perform env r : preserves engineMade (perform env r).
Proof.
  apply (inv_perform env engineMade
           (fun op => enqueuedKind (op_type op) (op_collection op) = true)).
  - intros c w (Hq & Hs & Ht). split; [exact Hq|]. split; [exact Hs|].
    simpl. rewrite remoteCalls_storage. exact Ht.
  - intros c w Hc Hw. apply (engineMade_remote c (fun _ => Ok tt) Hc w Hw).
  - intros b w H. exact H.
  - intros b w H. exact H.
  - intros d w H. exact H.
  - intros v w H. exact H.
  - intros v w H. exact H.
  - intros v w H. exact H.
  - intros v w H. exact H.
  - intros w (Hq & Hs & Ht). split; [exact Hq|]. split; [|exact Ht].
    simpl. apply Forall_fmap. exact Hq.
  - intros id type collection data timestamp w Hkind (Hq & Hs & Ht).
    split; [|split; [exact Hs|exact Ht]].
    simpl. apply Forall_app. split; [exact Hq|].
    constructor; [exact Hkind|constructor].
  - intros q w (Hq & Hs & Ht) Hsettled.
    split; [|split; [exact Hs|exact Ht]].
    simpl. rewrite List.Forall_forall in Hq.
    eapply List.Forall_impl; [|exact Hsettled].
    intros o' (o & Ho & [-> | ->]); apply (Hq o Ho).
  - intros w (Hq & _). exact Hq.
  - intros op Hop. apply engineMade_replay, Hop.
Qed.

Lemma engineMade_loadPendingOperations env w :
  engineMade w -> engineMade (loadPendingOperations env w).2.
Proof.
  intros (Hq & Hs & Ht).
  assert (Hev : Forall (fun c => createsOrDeletesBeyondNotes c = false)
                  (remoteCalls (trace w ++ [EvStorage (GetItem KeyPendingOperations)]))).
  { rewrite remoteCalls_storage. exact Ht. }
  unfold loadPendingOperations, try_catch, bind, AsyncStorage_call.
  destruct (storageRejects env (tick w) (GetItem KeyPendingOperations)).
  - split; [exact Hq|]. split; [exact Hs|exact Hev].
  - unfold gets. cbn [record_event storage].
    destruct (item_pendingOperations (storage w)) as [ops|] eqn:Hops.
    + split; [|split].
      * cbn. apply Forall_fmap. exact Hs.
      * cbn. rewrite Hops. exact Hs.
      * exact Hev.
    + split; [exact Hq|]. split; [|exact Hev]. cbn. rewrite Hops. exact Hs.
Qed.

(** X2.  Started with a queue of its own making (an empty one, say), the
    engine never asks [databaseService] to create a note, a chat thread or
    a label, nor to delete a chat thread or a label, whatever is requested
    of it and whatever the collaborators answer: it only ever enqueues
    note updates, note deletions and chat-thread updates, so the other
    branches of the replay handlers are never taken.  This holds across a
    restart that reloads the queue. *)
Theorem engine_never_creates_remote_rows (env : Env) (rs : list Request) (w : World) :
  engineMade w ->
  (forall c, In c (remoteCalls (trace (run env rs w))) ->
     createsOrDeletesBeyondNotes c = false)
  /\ (forall op, In op (pendingOperations (run env rs w)) ->
        enqueuedKind (op_type op) (op_collection op) = true)
  /\ engineMade (loadPendingOperations env (restart (run env rs w))).2.
Proof.
  intros Hw.
  assert (Hrun : engineMade (run env rs w)).
  { revert w Hw. induction rs as [|r rs IH]; intros w Hw; [exact Hw|].
    simpl. apply IH, engineMade_perform, Hw. }
  destruct Hrun as (Hq & Hs & Ht). split; [|split].
  - apply List.Forall_forall, Ht.
  - apply List.Forall_forall, Hq.
  - apply engineMade_loadPendingOperations.
    split; [constructor|]. split; [exact Hs|exact Ht].
Qed.

Lemma engine_never_creates_remote_rows_witness :
  Forall (fun c => createsOrDeletesBeyondNotes c = false)
    (remoteCalls (trace
       (run Sample.env [ReqSaveChatThread (Sample.thread "t1" "new" 1);
                        ReqSync ExplicitRefresh] Sample.signedIn))).
Proof.
  apply List.Forall_forall.
  apply (engine_never_creates_remote_rows Sample.env
           [ReqSaveChatThread (Sample.thread "t1" "new" 1);
            ReqSync ExplicitRefresh] Sample.signedIn).
  split; [constructor|]. split; constructor.
Defined.

(** ** The engine over the shipped database client *)

Lemma total_remote {A} c (answer : nat -> Result A) :
  (forall t, exists a, answer t = Ok a) -> total (remote_call c answer).
Proof. intros H w. unfold remote_call. simpl. apply H. Qed.

Lemma total_getLocalLabels env u : total (getLocalLabels env u).
Proof. unfold getLocalLabels. repeat frame_step. Qed.

Lemma total_saveLocalLabels env u l : total (saveLocalLabels env u l).
Proof. unfold saveLocalLabels. repeat frame_step. Qed.

Lemma total_saveLastSyncTime env : total (saveLastSyncTime env).
Proof. unfold saveLastSyncTime. repeat frame_step. Qed.

Lemma total_indexNote env n u : total (indexNote env n u).
Proof. unfold indexNote. repeat frame_step. Qed.

Lemma total_updateSearchIndex env l u : total (updateSearchIndex env l u).
Proof. unfold updateSearchIndex. repeat frame_step. Qed.

Lemma total_mergeNotes env l c : total (mergeNotes env l c).
Proof.
  intros w. rewrite mergeNotes_result. eexists. reflexivity.
Qed.

Lemma total_try_catch_body {A} (c : M A) (h : JsError -> M A) :
  total c -> total (try_catch c h).
Proof.
  intros Hc w. unfold try_catch. destruct (Hc w) as [a Ha].
  destruct (c w) as [[a'|e] w']; simpl in *; [eexists; reflexivity|discriminate].
Qed.

(** What a total computation makes of a [bind]. *)
Lemma bind_total {A B} (c : M A) (k : A -> M B) w :
  total c -> exists a, (c w).1 = Ok a /\ bind c k w = k a (c w).2.
Proof.
  intros Hc. destruct (Hc w) as [a Ha]. exists a. split; [exact Ha|].
  unfold bind. destruct (c w) as [[a'|e] w']; simpl in *; congruence.
Qed.

Section ShippedClient.
Variable supabase : Supabase.
Variable env : Env.
Hypothesis Hclient : databaseService env = DatabaseService.client supabase.

Lemma client_list_request {A} (reply : SbReply (list A)) :
  exists l, DatabaseService.list_request reply = Ok l.
Proof. destruct reply as [[l|]| |]; eexists; reflexivity. Qed.

Lemma client_single_request {A} (reply : SbReply A) :
  exists r, DatabaseService.single_request reply = Ok r.
Proof. destruct reply as [[r|]| |]; eexists; reflexivity. Qed.

Lemma client_delete_request reply :
  exists b, DatabaseService.delete_request reply = Ok b.
Proof. destruct reply; eexists; reflexivity. Qed.

Lemma total_replay_client op : total (replay env op).
Proof using Hclient.
  unfold replay, processPendingNoteOperation,
    processPendingChatThreadOperation, processPendingLabelOperation, db.
  rewrite Hclient.
  destruct (op_collection op), (op_type op);
    repeat first
      [ apply total_remote; intros t; simpl;
        first [ apply client_single_request | apply client_delete_request ]
      | frame_step ].
Qed.

Lemma total_syncNotes_client u : total (syncNotes env u).
Proof using Hclient.
  unfold syncNotes. apply total_try_catch_body.
  apply total_bind; [apply total_getLocalNotes|intros ?].
  apply total_bind;
    [apply total_remote; intros t; unfold db; rewrite Hclient;
     apply client_list_request|intros ?].
  apply total_bind; [apply total_mergeNotes|intros ?].
  apply total_bind; [apply total_saveLocalNotes|intros ?].
  apply total_updateSearchIndex.
Qed.

Lemma total_syncChatThreads_client u : total (syncChatThreads env u).
Proof using Hclient.
  unfold syncChatThreads. apply total_try_catch_body.
  apply total_bind; [apply total_getLocalChatThreads|intros ?].
  apply total_bind;
    [apply total_remote; intros t; unfold db; rewrite Hclient;
     apply client_list_request|intros ?].
  apply total_saveLocalChatThreads.
Qed.

End ShippedClient.

(** ** The retry ceiling (C4) *)

Lemma entriesFor_nil id q : entriesFor id q = [] -> ~ In id (map op_id q).
Proof.
  induction q as [|o q IH]; simpl; [tauto|].
  destruct (String.eqb_spec (op_id o) id) as [Heq|Hne]; [discriminate|].
  intros H [Ho|Hin]; [congruence|]. exact (IH H Hin).
Qed.

(** An operation that alone has its id splits the queue in two parts
    without that id. *)
Lemma entriesFor_single id q x :
  entriesFor id q = [x] ->
  exists before after,
    q = before ++ x :: after
    /\ ~ In id (map op_id (before ++ after))
    /\ op_id x = id.
Proof.
  induction q as [|o q IH]; simpl; [discriminate|].
  destruct (String.eqb_spec (op_id o) id) as [Heq|Hne].
  - intros [= -> Hrest]. exists [], q. split; [reflexivity|].
    split; [apply entriesFor_nil, Hrest|exact Heq].
  - intros H. destruct (IH H) as (before & after & -> & Hout & Hid).
    exists (o :: before), after. split; [reflexivity|].
    split; [|exact Hid]. simpl. intros [Ho|Hin]; [congruence|exact (Hout Hin)].
Qed.

Lemma entriesFor_ids id q : Forall (fun o => op_id o = id) (entriesFor id q).
Proof.
  unfold entriesFor. apply List.Forall_forall. intros o Ho.
  apply List.filter_In in Ho as [_ Ho]. apply String.eqb_eq, Ho.
Qed.

Lemma filter_none {A} (p : A -> bool) l :
  Forall (fun x => p x = false) l -> List.filter p l = [].
Proof.
  induction 1 as [|x l Hx _ IH]; simpl; [reflexivity|]. rewrite Hx. exact IH.
Qed.

(** A replay that succeeds puts the id on the removal list, and the
    filter removes every entry with that id. *)
Lemma successful_replay_clears_id env w user before op after :
  currentUser w = Some user ->
  pendingOperations w = before ++ op :: after ->
  (replay env op (drained env before w).2).1 = Ok true ->
  entriesFor (op_id op) (pendingOperations (processPendingOperations env w).2) = [].
Proof.
  intros Hu Hq Hok.
  rewrite (processPendingOperations_queue env w user Hu)
    by (rewrite Hq; destruct before; discriminate).
  rewrite Hq, entriesFor_filter, drained_app. cbn [fst snd].
  assert (Hin : In (op_id op)
                  ((drained env before w).1.2
                   ++ (drained env (op :: after) (drained env before w).2).1.2)).
  { apply in_or_app. right. simpl. apply in_or_app. left.
    unfold attempted.
    destruct (replay env op (drained env before w).2) as [[[|]|e] w'];
      simpl in Hok; try discriminate.
    simpl. left. reflexivity. }
  apply includes_In in Hin.
  apply filter_none. eapply List.Forall_impl; [|apply entriesFor_ids].
  intros o Ho. simpl in Ho. rewrite Ho, Hin. reflexivity.
Qed.

Section CeilingOverShippedClient.
Variable supabase : Supabase.
Variable env : Env.
Hypothesis Hclient : databaseService env = DatabaseService.client supabase.

(** One drain over the shipped client, for an operation that alone has
    its id and whose replay fails. *)
Lemma failing_replay_one_drain w user op :
  currentUser w = Some user ->
  entriesFor (op_id op) (pendingOperations w) = [op] ->
  (forall w', (replay env op w').1 <> Ok true) ->
  entriesFor (op_id op) (pendingOperations (processPendingOperations env w).2)
  = if (MAX_RETRY_COUNT <=? S (op_retryCount op))%nat then [] else [retry op].
Proof using Hclient.
  intros Hu Hone Hfails.
  destruct (entriesFor_single _ _ _ Hone) as (before & after & Hq & Hout & _).
  rewrite (processPendingOperations_outcome env w user before op after Hu Hq Hout).
  destruct (total_replay_client supabase env Hclient op (drained env before w).2)
    as [b Hb].
  specialize (Hfails (drained env before w).2).
  destruct (replay env op (drained env before w).2) as [[[|]|e] w'];
    simpl in *; congruence.
Qed.
End CeilingOverShippedClient.

(** C4, as the code has it.  Over the shipped [DatabaseService] no replay
    throws: a replay that fails returns [false].  An operation that alone
    in the queue has its id, enqueued with no retry, and whose replay fails
    at every attempt is in the queue after the first and after the second
    drain, with one and two retries, and is removed by the third, the one
    in which its count reaches [MAX_RETRY_COUNT].  An operation that
    alone in the queue has its id and whose replay succeeds is removed by
    that drain. *)
Theorem failing_replay_leaves_at_the_ceiling (supabase : Supabase) (env : Env) :
  databaseService env = DatabaseService.client supabase ->
  (forall op w, exists b, (replay env op w).1 = Ok b)
  /\ (forall w user op,
        currentUser w = Some user ->
        entriesFor (op_id op) (pendingOperations w) = [op] ->
        op_retryCount op = 0%nat ->
        (forall w', (replay env op w').1 <> Ok true) ->
        entriesFor (op_id op) (pendingOperations (drainTimes env 1 w))
          = [retry op]
        /\ entriesFor (op_id op) (pendingOperations (drainTimes env 2 w))
           = [retry (retry op)]
        /\ entriesFor (op_id op)
             (pendingOperations (drainTimes env MAX_RETRY_COUNT w)) = [])
  /\ (forall w user before op after,
        currentUser w = Some user ->
        pendingOperations w = before ++ op :: after ->
        entriesFor (op_id op) (pendingOperations w) = [op] ->
        (replay env op (drained env before w).2).1 = Ok true ->
        entriesFor (op_id op)
          (pendingOperations (processPendingOperations env w).2) = []).
Proof.
  intros Hclient. split; [|split].
  - intros op w. apply (total_replay_client supabase env Hclient).
  - intros w user op Hu Hone Hzero Hfails.
    set (w1 := (processPendingOperations env w).2).
    set (w2 := (processPendingOperations env w1).2).
    assert (Hu1 : currentUser w1 = Some user)
      by (unfold w1; rewrite currentUser_processPendingOperations; exact Hu).
    assert (Hu2 : currentUser w2 = Some user)
      by (unfold w2; rewrite currentUser_processPendingOperations; exact Hu1).
    assert (H1 : entriesFor (op_id op) (pendingOperations w1) = [retry op]).
    { unfold w1.
      rewrite (failing_replay_one_drain supabase env Hclient w user op Hu Hone Hfails).
      rewrite Hzero. reflexivity. }
    assert (H2 : entriesFor (op_id op) (pendingOperations w2)
                 = [retry (retry op)]).
    { unfold w2.
      pose proof (failing_replay_one_drain supabase env Hclient w1 user (retry op)
                    Hu1 H1 Hfails) as Hdrain.
      change (op_id (retry op)) with (op_id op) in Hdrain.
      rewrite Hdrain. simpl. rewrite Hzero. reflexivity. }
    split; [exact H1|]. split; [exact H2|].
    change (drainTimes env MAX_RETRY_COUNT w)
      with (processPendingOperations env w2).2.
    pose proof (failing_replay_one_drain supabase env Hclient w2 user
                  (retry (retry op)) Hu2 H2 Hfails) as Hdrain.
    change (op_id (retry (retry op))) with (op_id op) in Hdrain.
    rewrite Hdrain. reflexivity.
  - intros w user before op after Hu Hq _. revert Hu Hq.
    apply successful_replay_clears_id.
Qed.

Lemma failing_replay_leaves_at_the_ceiling_witness :
  entriesFor "n1"
    (pendingOperations
       (drainTimes Sample.missingRow 2
          (Sample.withQueue
             [Sample.pending OpDelete ColNotes (DataId "n0") 0;
              Sample.pending OpUpdate ColNotes
                (DataNote (Sample.note "n1" "a" 5)) 0]
             Sample.signedIn)))
  = [Sample.pending OpUpdate ColNotes (DataNote (Sample.note "n1" "a" 5)) 2]
  /\ entriesFor "n1"
       (pendingOperations
          (drainTimes Sample.missingRow MAX_RETRY_COUNT
             (Sample.withQueue
                [Sample.pending OpDelete ColNotes (DataId "n0") 0;
                 Sample.pending OpUpdate ColNotes
                   (DataNote (Sample.note "n1" "a" 5)) 0]
                Sample.signedIn)))
     = [].
Proof.
  destruct (failing_replay_leaves_at_the_ceiling Sample.missingRowSupabase
              Sample.missingRow eq_refl) as (_ & Hfailing & _).
  destruct (Hfailing
              (Sample.withQueue
                 [Sample.pending OpDelete ColNotes (DataId "n0") 0;
                  Sample.pending OpUpdate ColNotes
                    (DataNote (Sample.note "n1" "a" 5)) 0]
                 Sample.signedIn)
              Sample.alice
              (Sample.pending OpUpdate ColNotes
                 (DataNote (Sample.note "n1" "a" 5)) 0)
              eq_refl eq_refl eq_refl)
    as (_ & Htwo & Hthree).
  - intros w'. vm_compute. discriminate.
  - split; [exact Htwo|exact Hthree].
Defined.

(** C4 as stated fails: removal is by id, and the id of an operation is
    the id of its entity.  [alice] saved the note 'n1' twice while offline,
    which queued two updates with the id 'n1'.  The replay of the first
    fails at every attempt; the replay of the second succeeds in the first
    drain, and the first operation, tried once, leaves the queue with
    it. *)
Lemma failing_replay_removed_early_counterexample :
  map opContents (pendingOperations savedTwiceOffline)
    = [(OpUpdate, ColNotes, DataNote (Sample.note "n1" "draft" 1), 0%nat);
       (OpUpdate, ColNotes, DataNote (Sample.note "n1" "final" 2), 0%nat)]
  /\ map op_id (pendingOperations savedTwiceOffline) = ["n1"; "n1"]
  /\ (forall op w,
        head (pendingOperations savedTwiceOffline) = Some op ->
        (replay noDrafts op w).1 = Ok false)
  /\ pendingOperations (processPendingOperations noDrafts savedTwiceOffline).2
     = []
  /\ pendingOperations
       (run noDrafts [ReqSync (ConnectivityChange (Some true))] savedTwiceOffline)
     = []
  /\ (1 < MAX_RETRY_COUNT)%nat.
Proof.
  split; [vm_compute; reflexivity|]. split; [vm_compute; reflexivity|].
  split; [|split; [vm_compute; reflexivity|
                   split; [vm_compute; reflexivity|unfold MAX_RETRY_COUNT; lia]]].
  intros op w. vm_compute. intros [= <-]. reflexivity.
Qed.

(** ** A cycle over the shipped client (C3) *)

Lemma list_request_rows {A} (reply : SbReply (list A)) :
  DatabaseService.list_request reply = Ok (rows reply).
Proof. destruct reply as [[l|]| |]; reflexivity. Qed.

Lemma getLocalLabels_value env u w :
  getLocalLabels env u w
    = (Ok (localLabels env u w),
       record_event (EvStorage (GetItem (KeyLabels u))) w).
Proof.
  unfold getLocalLabels, localLabels, try_catch, bind, AsyncStorage_call, gets,
    ret.
  destruct (storageRejects env (tick w) (GetItem (KeyLabels u))); reflexivity.
Qed.

Lemma saveLocalLabels_writes env u labels w :
  saveLocalLabels env u labels w
    = (Ok tt,
       let w1 := record_event (EvStorage (SetItem (KeyLabels u))) w in
       if storageRejects env (tick w) (SetItem (KeyLabels u)) then w1
       else set_storage (fun st =>
              mkStorage (item_notes st) (item_chatThreads st)
                (<[u := labels]> (item_labels st))
                (item_pendingOperations st) (item_lastSyncTime st)) w1).
Proof.
  unfold saveLocalLabels, try_catch, bind, AsyncStorage_call, modify, ret.
  destruct (storageRejects env (tick w) (SetItem (KeyLabels u))); reflexivity.
Qed.

(** What follows a computation that returns is run in the world it
    left. *)
Lemma try_catch_bind_total {A B} (c : M A) (k : A -> M B) h w :
  total c ->
  exists a, (c w).1 = Ok a
            /\ try_catch (bind c k) h w = try_catch (k a) h (c w).2.
Proof.
  intros Hc. destruct (bind_total c k w Hc) as (a & Ha & Hbind).
  exists a. split; [exact Ha|]. unfold try_catch. rewrite Hbind. reflexivity.
Qed.

(** What [f] observes after [bind c k], when no continuation changes
    it, is what it observes after [c]. *)
Lemma keeps_after {X A B} (f : World -> X) (c : M A) (k : A -> M B) w :
  (forall a, keeps f (k a)) -> f (bind c k w).2 = f (c w).2.
Proof.
  intros Hk. unfold bind. destruct (c w) as [[a|e] w']; [apply Hk|reflexivity].
Qed.

Section CycleOverShippedClient.
Variable supabase : Supabase.
Variable env : Env.
Hypothesis Hclient : databaseService env = DatabaseService.client supabase.

(** The chat-thread sync never throws: it reads the local and the remote
    threads, and writes their merge. *)
Lemma syncChatThreads_client u w :
  syncChatThreads env u w
  = saveLocalChatThreads env u
      (mergeChatThreads (localChatThreads env u w)
         (rows (sb_chat_threads_select supabase (S (tick w)) u)))
      (record_event (EvRemote (CallGetChatThreads u))
         (record_event (EvStorage (GetItem (KeyChatThreads u))) w)).
Proof using Hclient.
  unfold syncChatThreads, try_catch. unfold bind at 1.
  rewrite getLocalChatThreads_value. fold (localChatThreads env u w).
  unfold bind at 1, remote_call, db. rewrite Hclient. simpl db_getChatThreads.
  unfold DatabaseService.getChatThreads. rewrite list_request_rows.
  rewrite tick_record_event. cbn [fst snd].
  rewrite saveLocalChatThreads_writes. reflexivity.
Qed.

(** The label sync reads the local and the remote labels, and writes
    their merge. *)
Lemma syncLabels_client u w :
  syncLabels env u w
  = saveLocalLabels env u
      (mergeLabels env (localLabels env u w)
         (rows (sb_labels_select supabase (S (tick w)) u)))
      (record_event (EvRemote (CallGetLabels u))
         (record_event (EvStorage (GetItem (KeyLabels u))) w)).
Proof using Hclient.
  unfold syncLabels, try_catch. unfold bind at 1.
  rewrite getLocalLabels_value.
  unfold bind at 1, remote_call, db. rewrite Hclient. simpl db_getLabels.
  unfold DatabaseService.getLabels. rewrite list_request_rows.
  rewrite tick_record_event. cbn [fst snd].
  rewrite saveLocalLabels_writes. reflexivity.
Qed.

(** A cycle that starts gets to the label sync, in the world the
    chat-thread sync left: the drain, the notes sync and the chat-thread
    sync return, whatever Supabase, AsyncStorage and the search index
    did. *)
Lemma syncAll_reaches_labels w user :
  admits w = Some user ->
  let w1 := (processPendingOperations env (set_isSyncing true w)).2 in
  let w2 := (syncNotes env (user_id user) w1).2 in
  let w3 := (syncChatThreads env (user_id user) w2).2 in
  (syncNotes env (user_id user) w1).1 = Ok tt
  /\ (syncChatThreads env (user_id user) w2).1 = Ok tt
  /\ syncAll env w
     = try_finally (try_catch (syncLabelsOn env user) (fun _ => ret false))
         (set_isSyncing false) w3.
Proof using Hclient.
  intros Hadmits w1 w2 w3.
  split; [|split].
  - destruct (total_syncNotes_client supabase env Hclient (user_id user) w1)
      as [[] H]. exact H.
  - destruct (total_syncChatThreads_client supabase env Hclient (user_id user) w2)
      as [[] H]. exact H.
  - rewrite syncAll_admits, Hadmits.
    unfold try_finally, syncCycle, syncSteps. fold (syncLabelsOn env user).
    f_equal.
    assert (Hstart : forall (k : M bool) h,
              try_catch (modify (set_isSyncing true) ;;; k) h w
              = try_catch k h (set_isSyncing true w)) by reflexivity.
    rewrite Hstart.
    destruct (try_catch_bind_total (processPendingOperations env)
                (fun _ => syncNotes env (user_id user) ;;;
                          syncChatThreads env (user_id user) ;;;
                          syncLabelsOn env user)
                (fun _ => ret false) (set_isSyncing true w)
                (total_processPendingOperations env)) as (a1 & _ & ->).
    fold w1.
    destruct (try_catch_bind_total (syncNotes env (user_id user))
                (fun _ => syncChatThreads env (user_id user) ;;;
                          syncLabelsOn env user)
                (fun _ => ret false) w1
                (total_syncNotes_client supabase env Hclient _)) as (a2 & _ & ->).
    fold w2.
    destruct (try_catch_bind_total (syncChatThreads env (user_id user))
                (fun _ => syncLabelsOn env user)
                (fun _ => ret false) w2
                (total_syncChatThreads_client supabase env Hclient _))
      as (a3 & _ & ->).
    reflexivity.
Qed.
End CycleOverShippedClient.





(** ** The retry ceiling when no replay throws *)

(** One pass of the loop in which no replay throws: an operation that
    stays has failed, counts one more retry and is below the ceiling. *)
Lemma drained_remaining env ops k : forall w,
  (forall op w', (attempted env op w').1 <> Threw) ->
  Forall (fun o => (k <= op_retryCount o)%nat) ops ->
  forall o', In o' (drained env ops w).1.1 ->
    ~ In (op_id o') (drained env ops w).1.2 ->
    (S k <= op_retryCount o' < MAX_RETRY_COUNT)%nat.
Proof.
  induction ops as [|op ops IH]; intros w Hno Hk o' Hin Hout; [destruct Hin|].
  inversion Hk as [|? ? Hop Hrest]; subst.
  simpl in Hin, Hout. rewrite in_app_iff in Hout.
  destruct Hin as [<-|Hin]; [|eapply IH; eauto].
  assert (Hhead : ~ In (op_id (settle op (attempted env op w).1).1)
                      (settle op (attempted env op w).1).2) by tauto.
  specialize (Hno op w).
  destruct (attempted env op w).1; [| |congruence].
  - exfalso. apply Hhead. simpl. left. reflexivity.
  - unfold settle in *.
    destruct (MAX_RETRY_COUNT <=? op_retryCount (retry op))%nat eqn:Hceil.
    + exfalso. apply Hhead. simpl. left. reflexivity.
    + apply Nat.leb_gt in Hceil. simpl in *. lia.
Qed.

Lemma processPendingOperations_remaining env w user k :
  (forall op w', (attempted env op w').1 <> Threw) ->
  currentUser w = Some user ->
  Forall (fun o => (k <= op_retryCount o)%nat) (pendingOperations w) ->
  Forall (fun o => (S k <= op_retryCount o < MAX_RETRY_COUNT)%nat)
    (pendingOperations (processPendingOperations env w).2).
Proof.
  intros Hno Hu Hk.
  destruct (pendingOperations w) as [|op q] eqn:Hq.
  - unfold processPendingOperations, bind, gets. rewrite Hq. simpl.
    rewrite Hq. constructor.
  - rewrite (processPendingOperations_queue env w user Hu) by congruence.
    rewrite Hq. apply List.Forall_forall. intros o' Ho'.
    apply List.filter_In in Ho' as [Hin Hout].
    apply negb_true_iff in Hout.
    eapply drained_remaining; eauto.
    intros Hin'. apply includes_In in Hin'. congruence.
Qed.

Lemma attempted_client supabase env op w :
  databaseService env = DatabaseService.client supabase ->
  (attempted env op w).1 <> Threw.
Proof.
  intros Hclient. unfold attempted.
  destruct (total_replay_client supabase env Hclient op w) as [b Hb].
  destruct (replay env op w) as [[[|]|e] w']; simpl in *; congruence.
Qed.

(** X4.  Over the shipped [DatabaseService], whose methods never reject,
    the retry ceiling holds for every operation: with a user signed in,
    three consecutive drains leave the queue empty whatever it held and
    whatever Supabase answered, each operation having either been applied
    or failed three times. *)
Theorem three_drains_empty_queue_over_shipped_client
    (supabase : Supabase) (env : Env) (w : World) (user : AuthUser) :
  databaseService env = DatabaseService.client supabase ->
  currentUser w = Some user ->
  Forall (fun o => (op_retryCount o < MAX_RETRY_COUNT)%nat)
    (pendingOperations (drainTimes env 1 w))
  /\ pendingOperations (drainTimes env MAX_RETRY_COUNT w) = [].
Proof.
  intros Hclient Hu.
  pose proof (fun op w' => attempted_client supabase env op w' Hclient) as Hno.
  set (w1 := (processPendingOperations env w).2).
  set (w2 := (processPendingOperations env w1).2).
  assert (Hu1 : currentUser w1 = Some user)
    by (unfold w1; rewrite currentUser_processPendingOperations; exact Hu).
  assert (Hu2 : currentUser w2 = Some user)
    by (unfold w2; rewrite currentUser_processPendingOperations; exact Hu1).
  assert (H1 : Forall (fun o => (1 <= op_retryCount o < MAX_RETRY_COUNT)%nat)
                 (pendingOperations w1)).
  { apply (processPendingOperations_remaining env w user 0 Hno Hu).
    apply List.Forall_forall. intros; lia. }
  assert (H2 : Forall (fun o => (2 <= op_retryCount o < MAX_RETRY_COUNT)%nat)
                 (pendingOperations w2)).
  { apply (processPendingOperations_remaining env w1 user 1 Hno Hu1).
    eapply List.Forall_impl; [|exact H1]. simpl. intros; lia. }
  pose proof (processPendingOperations_remaining env w2 user 2 Hno Hu2) as H3.
  split.
  - simpl. eapply List.Forall_impl; [|exact H1]. simpl. intros; lia.
  - change (drainTimes env MAX_RETRY_COUNT w)
      with (processPendingOperations env w2).2.
    destruct (pendingOperations (processPendingOperations env w2).2) as [|o q];
      [reflexivity|].
    exfalso.
    assert (Hall : Forall (fun o => (2 <= op_retryCount o)%nat) (pendingOperations w2)).
    { eapply List.Forall_impl; [|exact H2]. simpl. intros; lia. }
    specialize (H3 Hall). inversion H3 as [|? ? Ho _]; subst.
    unfold MAX_RETRY_COUNT in Ho. lia.
Qed.

Lemma three_drains_empty_queue_over_shipped_client_witness :
  pendingOperations
    (drainTimes Sample.missingRow MAX_RETRY_COUNT
       (Sample.withQueue
          [Sample.pending OpUpdate ColNotes (DataNote (Sample.note "n1" "a" 5)) 0;
           Sample.pending OpCreate ColLabels (DataLabel (Sample.label "l1" "work")) 0]
          Sample.signedIn)) = [].
Proof.
  apply (three_drains_empty_queue_over_shipped_client Sample.missingRowSupabase
           Sample.missingRow _ Sample.alice);
    reflexivity.
Defined.

(** ** Deleting a note *)

Lemma getLocalNotes_value env u w :
  getLocalNotes env u w
    = (Ok (if storageRejects env (tick w) (GetItem (KeyNotes u)) then []
           else Note_revive <$> default [] (item_notes (storage w) !! u)),
       record_event (EvStorage (GetItem (KeyNotes u))) w).
Proof.
  unfold getLocalNotes, try_catch, bind, AsyncStorage_call, gets, ret.
  destruct (storageRejects env (tick w) (GetItem (KeyNotes u))); simpl;
    [reflexivity|].
  destruct (item_notes (storage w) !! u); reflexivity.
Qed.

Lemma removeLocalNote_trace env u id w :
  trace (removeLocalNote env u id w).2
  = trace w ++ [EvStorage (GetItem (KeyNotes u)); EvStorage (SetItem (KeyNotes u))].
Proof.
  unfold removeLocalNote, bind. rewrite getLocalNotes_value.
  rewrite saveLocalNotes_writes. simpl.
  destruct (storageRejects env _ (SetItem (KeyNotes u))); simpl;
    rewrite <- app_assoc; reflexivity.
Qed.

Lemma tick_removeLocalNote env u id w :
  tick (removeLocalNote env u id w).2 = (tick w + 2)%nat.
Proof. unfold tick. rewrite removeLocalNote_trace, length_app. simpl. lia. Qed.

Lemma removeLocalNote_stored env u id w :
  storageRejects env (S (tick w)) (SetItem (KeyNotes u)) = false ->
  ~ In id (storedNoteIds u (removeLocalNote env u id w).2).
Proof.
  intros Hset. unfold removeLocalNote, bind. rewrite getLocalNotes_value.
  rewrite saveLocalNotes_writes, tick_record_event, Hset.
  unfold storedNoteIds. simpl. rewrite lookup_insert_eq. simpl.
  rewrite toJSON_ids.
  intros Hin. apply in_map_iff in Hin as (n & Hid & Hn).
  apply List.filter_In in Hn as [_ Hne].
  rewrite <- Hid, String.eqb_refl in Hne. discriminate.
Qed.

(** [deleteNote], statement by statement. *)
Lemma deleteNote_unfold env noteId w :
  deleteNote env noteId w
  = (Ok tt,
     let w1 := (removeLocalNote env (storageUserId (currentUser w)) noteId w).2 in
     match currentUser w with
     | Some u =>
         if negb (String.eqb (user_id u) "guest") && isOnline (syncStatus w) then
           let w2 := record_event (EvRemote (CallDeleteNote noteId)) w1 in
           let w3 :=
             match db_deleteNote (databaseService env) (tick w1) noteId with
             | Ok true => w2
             | _ => (addPendingOperation env OpDelete ColNotes (DataId noteId) w2).2
             end in
           record_event (EvRemote (CallUnindexNote noteId)) w3
         else if String.eqb (user_id u) "guest" then w1
         else (addPendingOperation env OpDelete ColNotes (DataId noteId) w1).2
     | None => w1
     end).
Proof.
  unfold deleteNote. unfold bind at 1. unfold gets at 1.
  unfold try_catch. unfold bind at 1.
  pose proof (removeLocalNote_total env (storageUserId (currentUser w)) noteId w)
    as Hok.
  pose proof (keeps_removeLocalNote env (fun w => isOnline (syncStatus w))
                (fun _ _ => eq_refl) (fun _ _ => eq_refl)
                (storageUserId (currentUser w)) noteId w) as Honline.
  destruct (removeLocalNote env (storageUserId (currentUser w)) noteId w)
    as [r w1].
  simpl in Hok, Honline. subst r. cbv zeta. simpl snd.
  unfold bind at 1. unfold gets at 1. rewrite Honline.
  destruct (currentUser w) as [u|]; [|reflexivity].
  destruct (negb (String.eqb (user_id u) "guest") && isOnline (syncStatus w)).
  - unfold bind, remote_call, db. cbv beta.
    set (w2 := record_event (EvRemote (CallDeleteNote noteId)) w1).
    pose proof (addPendingOperation_queue env OpDelete ColNotes (DataId noteId) w2)
      as [Hadd _].
    destruct (db_deleteNote (databaseService env) (tick w1) noteId)
      as [[|]|e]; simpl.
    + destruct (pinecone_deleteNote env _ noteId) as [[]|?]; reflexivity.
    + destruct (addPendingOperation env OpDelete ColNotes (DataId noteId) w2)
        as [r w3]. simpl in Hadd. subst r. simpl.
      destruct (pinecone_deleteNote env _ noteId) as [[]|?]; reflexivity.
    + destruct (addPendingOperation env OpDelete ColNotes (DataId noteId) w2)
        as [r w3]. simpl in Hadd. subst r. simpl.
      destruct (pinecone_deleteNote env _ noteId) as [[]|?]; reflexivity.
  - destruct (String.eqb (user_id u) "guest"); [reflexivity|].
    pose proof (addPendingOperation_queue env OpDelete ColNotes (DataId noteId) w1)
      as [Hadd _].
    destruct (addPendingOperation env OpDelete ColNotes (DataId noteId) w1)
      as [r w3]. simpl in Hadd. subst r. reflexivity.
Qed.

Lemma notes_addPendingOperation env t c d :
  keeps (fun w => item_notes (storage w)) (addPendingOperation env t c d).
Proof. apply keeps_addPendingOperation; reflexivity. Qed.

Lemma trace_addPendingOperation env t c d w :
  exists rest, trace (addPendingOperation env t c d w).2 = trace w ++ rest.
Proof.
  unfold addPendingOperation, Date_now, newDate, savePendingOperations,
    try_catch, bind, gets, modify, AsyncStorage_call. simpl.
  destruct (storageRejects env _ (SetItem KeyPendingOperations)); simpl;
    eexists; reflexivity.
Qed.

(** X5.  [deleteNote] never throws and removes the note from the local
    store first, under the key of the current user or of the guest: it
    reads and writes the notes item before anything else, and once the
    write is accepted no stored note has that id.  The remote deletion and
    the removal from the search index are attempted only for a signed-in
    user who is online, the second whatever the first came to; when the
    remote deletion answers [false] or rejects, or when the user is
    offline, one [delete] operation carrying the id is appended to the
    queue, and otherwise the queue is left as it was. *)
Theorem deleteNote_local_first (env : Env) (noteId : string) (w : World) :
  let userId := storageUserId (currentUser w) in
  (deleteNote env noteId w).1 = Ok tt
  /\ (exists rest,
        trace (deleteNote env noteId w).2
        = trace w ++ [EvStorage (GetItem (KeyNotes userId));
                      EvStorage (SetItem (KeyNotes userId))] ++ rest)
  /\ (storageRejects env (S (tick w)) (SetItem (KeyNotes userId)) = false ->
      ~ In noteId (storedNoteIds userId (deleteNote env noteId w).2))
  /\ remoteCalls (trace (deleteNote env noteId w).2)
     = remoteCalls (trace w)
       ++ (if goesRemote w then [CallDeleteNote noteId; CallUnindexNote noteId]
           else [])
  /\ (forall u, currentUser w = Some u -> user_id u <> "guest" ->
      (isOnline (syncStatus w) = true ->
       db_deleteNote (databaseService env) (tick w + 2) noteId <> Ok true) ->
      exists op,
        pendingOperations (deleteNote env noteId w).2 = pendingOperations w ++ [op]
        /\ opContents op = (OpDelete, ColNotes, DataId noteId, 0%nat))
  /\ ((goesRemote w = true ->
       db_deleteNote (databaseService env) (tick w + 2) noteId = Ok true) ->
      (forall u, currentUser w = Some u -> user_id u <> "guest" ->
         isOnline (syncStatus w) = true) ->
      pendingOperations (deleteNote env noteId w).2 = pendingOperations w).
Proof.
  intros userId. rewrite deleteNote_unfold. cbv zeta. simpl fst. simpl snd.
  fold userId.
  set (w1 := (removeLocalNote env userId noteId w).2).
  assert (Htrace1 : trace w1 = trace w ++ [EvStorage (GetItem (KeyNotes userId));
                                           EvStorage (SetItem (KeyNotes userId))])
    by apply removeLocalNote_trace.
  assert (Htick1 : tick w1 = (tick w + 2)%nat) by apply tick_removeLocalNote.
  assert (Hq1 : pendingOperations w1 = pendingOperations w)
    by (apply (keeps_removeLocalNote env pendingOperations); reflexivity).
  assert (Hcalls1 : remoteCalls (trace w1) = remoteCalls (trace w)).
  { rewrite Htrace1. unfold remoteCalls. rewrite omap_app. simpl.
    apply app_nil_r. }
  split; [reflexivity|].
  unfold goesRemote. rewrite Htick1.
  destruct (currentUser w) as [u|] eqn:Hu.
  2:{ split; [exists []; rewrite Htrace1; reflexivity|].
      split; [intros Hset; apply removeLocalNote_stored, Hset|].
      split; [rewrite Hcalls1, app_nil_r; reflexivity|].
      split; [intros u' [=]|]. intros _ _. exact Hq1. }
  destruct (String.eqb_spec (user_id u) "guest") as [Hguest|Hguest]; simpl negb;
    cbn [andb].
  { split; [exists []; rewrite Htrace1; reflexivity|].
    split; [intros Hset; apply removeLocalNote_stored, Hset|].
    split; [rewrite Hcalls1, app_nil_r; reflexivity|].
    split; [intros u' [= <-] Hne; contradiction|]. intros _ _. exact Hq1. }
  destruct (isOnline (syncStatus w)) eqn:Honline.
  - set (w2 := record_event (EvRemote (CallDeleteNote noteId)) w1).
    pose proof (addPendingOperation_queue env OpDelete ColNotes (DataId noteId) w2)
      as [_ Hadd].
    pose proof (remoteCalls_addPendingOperation env OpDelete ColNotes
                  (DataId noteId) w2) as Hcalls.
    pose proof (notes_addPendingOperation env OpDelete ColNotes
                  (DataId noteId) w2) as Hnotes.
    destruct (trace_addPendingOperation env OpDelete ColNotes (DataId noteId) w2)
      as [rest Hrest].
    simpl in Hcalls, Hnotes.
    split; [|split; [|split; [|split]]].
    + destruct (db_deleteNote (databaseService env) (tick w + 2) noteId)
        as [[|]|e]; simpl; rewrite ?Hrest; simpl; rewrite Htrace1;
        rewrite <- ?app_assoc; eexists; simpl; reflexivity.
    + intros Hset. unfold storedNoteIds.
      assert (Hsame : forall w3,
                item_notes (storage w3) = item_notes (storage w1) ->
                ~ In noteId (note_id <$> default []
                               (item_notes (storage
                                  (record_event (EvRemote (CallUnindexNote noteId)) w3))
                                !! userId))).
      { intros w3 H3. simpl. rewrite H3.
        apply (removeLocalNote_stored env userId noteId w Hset). }
      destruct (db_deleteNote (databaseService env) (tick w + 2) noteId)
        as [[|]|e]; apply Hsame; first [reflexivity | exact Hnotes].
    + destruct (db_deleteNote (databaseService env) (tick w + 2) noteId)
        as [[|]|e]; simpl; rewrite remoteCalls_remote; rewrite ?Hcalls;
        simpl; rewrite remoteCalls_remote, Hcalls1, <- app_assoc; reflexivity.
    + intros u' _ _ Hfail. specialize (Hfail eq_refl).
      destruct (db_deleteNote (databaseService env) (tick w + 2) noteId)
        as [[|]|e]; [congruence| |]; simpl; rewrite Hadd; simpl; rewrite Hq1;
        eexists; split; reflexivity.
    + intros Hok _. rewrite (Hok eq_refl). simpl. exact Hq1.
  - pose proof (addPendingOperation_queue env OpDelete ColNotes (DataId noteId) w1)
      as [_ Hadd].
    destruct (trace_addPendingOperation env OpDelete ColNotes (DataId noteId) w1)
      as [rest Hrest].
    split; [|split; [|split; [|split]]].
    + exists rest. rewrite Hrest, Htrace1, <- app_assoc. reflexivity.
    + intros Hset. unfold storedNoteIds.
      rewrite (notes_addPendingOperation env OpDelete ColNotes (DataId noteId) w1).
      apply (removeLocalNote_stored env userId noteId w Hset).
    + rewrite (remoteCalls_addPendingOperation env OpDelete ColNotes
                 (DataId noteId) w1), Hcalls1, app_nil_r. reflexivity.
    + intros u' _ _ _. rewrite Hadd, Hq1. eexists. split; reflexivity.
    + intros _ Hon. specialize (Hon u eq_refl Hguest). discriminate.
Qed.

Lemma deleteNote_local_first_witness :
  exists op,
    pendingOperations (deleteNote Sample.rejecting "n1" Sample.signedIn).2
      = pendingOperations Sample.signedIn ++ [op]
    /\ opContents op = (OpDelete, ColNotes, DataId "n1", 0%nat).
Proof.
  destruct (deleteNote_local_first Sample.rejecting "n1" Sample.signedIn)
    as (_ & _ & _ & _ & Henqueued & _).
  apply (Henqueued Sample.alice eq_refl).
  - simpl. discriminate.
  - intros _. simpl. discriminate.
Defined.

(** ** Saving a chat thread *)

(** [saveChatThread], statement by statement. *)
Lemma saveChatThread_unfold env thread w :
  saveChatThread env thread w
  = (Ok tt,
     match currentUser w with
     | None => (updateLocalChatThread env "guest" thread w).2
     | Some u =>
         let w1 := (updateLocalChatThread env (user_id u) thread w).2 in
         if isOnline (syncStatus w) then
           let w2 :=
             record_event
               (EvRemote (CallUpdateChatThread (thread_id thread)
                            (DataChatThread thread))) w1 in
           match db_updateChatThread (databaseService env) (tick w1)
                   (thread_id thread) (DataChatThread thread) with
           | Ok (Some _) => w2
           | _ => (addPendingOperation env OpUpdate ColChatThreads
                     (DataChatThread thread) w2).2
           end
         else (addPendingOperation env OpUpdate ColChatThreads
                 (DataChatThread thread) w1).2
     end).
Proof.
  unfold saveChatThread. unfold bind at 1. unfold gets at 1.
  destruct (currentUser w) as [u|].
  2:{ destruct (updateLocalChatThread_writes env "guest" thread w) as [Hok _].
      destruct (updateLocalChatThread env "guest" thread w) as [r w1].
      simpl in Hok. subst r. reflexivity. }
  unfold try_catch. unfold bind at 1.
  destruct (updateLocalChatThread_writes env (user_id u) thread w) as [Hok _].
  pose proof (keeps_updateLocalChatThread env (fun w => isOnline (syncStatus w))
                (fun _ _ => eq_refl) (fun _ _ => eq_refl)
                (user_id u) thread w) as Honline.
  destruct (updateLocalChatThread env (user_id u) thread w) as [r w1].
  simpl in Hok, Honline. subst r. cbv zeta. simpl snd.
  unfold bind at 1. unfold gets at 1. rewrite Honline.
  destruct (isOnline (syncStatus w)).
  - unfold bind, remote_call, db. cbv beta.
    set (w2 := record_event _ w1).
    pose proof (addPendingOperation_queue env OpUpdate ColChatThreads
                  (DataChatThread thread) w2) as [Hadd _].
    destruct (db_updateChatThread (databaseService env) (tick w1)
                (thread_id thread) (DataChatThread thread)) as [[saved|]|e];
      simpl; [reflexivity| |];
      destruct (addPendingOperation env OpUpdate ColChatThreads
                  (DataChatThread thread) w2) as [r w3];
      simpl in Hadd; subst r; reflexivity.
  - pose proof (addPendingOperation_queue env OpUpdate ColChatThreads
                  (DataChatThread thread) w1) as [Hadd _].
    destruct (addPendingOperation env OpUpdate ColChatThreads
                (DataChatThread thread) w1) as [r w3].
    simpl in Hadd. subst r. reflexivity.
Qed.

Lemma threads_addPendingOperation env t c d :
  keeps (fun w => item_chatThreads (storage w)) (addPendingOperation env t c d).
Proof. apply keeps_addPendingOperation; reflexivity. Qed.

(** X6.  [saveChatThread] never throws and writes the thread to the local
    store first, under the id of the current user or under ['guest']
    without one.  For a signed-in user who is online it then asks the
    remote store to update the thread (it never asks to create it); when
    that answers [null] or rejects, or when the user is offline, one
    [update] operation carrying the thread is appended to the queue.
    Without a user nothing is sent and nothing is enqueued. *)
Theorem saveChatThread_local_first (env : Env) (thread : ChatThread) (w : World) :
  let userId :=
    match currentUser w with Some u => user_id u | None => "guest" end in
  (saveChatThread env thread w).1 = Ok tt
  /\ (exists rest,
        trace (saveChatThread env thread w).2
        = trace w ++ [EvStorage (GetItem (KeyChatThreads userId));
                      EvStorage (SetItem (KeyChatThreads userId))] ++ rest)
  /\ (storageRejects env (S (tick w)) (SetItem (KeyChatThreads userId)) = false ->
      exists stored,
        item_chatThreads (storage (saveChatThread env thread w).2) !! userId
          = Some stored
        /\ In (ChatThread_toJSON thread) stored)
  /\ remoteCalls (trace (saveChatThread env thread w).2)
     = remoteCalls (trace w)
       ++ (if is_some (currentUser w) && isOnline (syncStatus w)
           then [CallUpdateChatThread (thread_id thread) (DataChatThread thread)]
           else [])
  /\ (is_some (currentUser w) = true ->
      (isOnline (syncStatus w) = true ->
       match db_updateChatThread (databaseService env) (tick w + 2)
               (thread_id thread) (DataChatThread thread) with
       | Ok (Some _) => False
       | _ => True
       end) ->
      exists op,
        pendingOperations (saveChatThread env thread w).2
          = pendingOperations w ++ [op]
        /\ opContents op = (OpUpdate, ColChatThreads, DataChatThread thread, 0%nat))
  /\ (currentUser w = None ->
      pendingOperations (saveChatThread env thread w).2 = pendingOperations w).
Proof.
  intros userId. rewrite saveChatThread_unfold. simpl fst. simpl snd.
  destruct (updateLocalChatThread_writes env userId thread w)
    as (_ & Htrace1 & Hstored1).
  assert (Hq1 : pendingOperations (updateLocalChatThread env userId thread w).2
                = pendingOperations w)
    by (apply (keeps_updateLocalChatThread env pendingOperations); reflexivity).
  assert (Hcalls1 : remoteCalls (trace (updateLocalChatThread env userId thread w).2)
                    = remoteCalls (trace w)).
  { rewrite Htrace1. unfold remoteCalls. rewrite omap_app. simpl.
    apply app_nil_r. }
  assert (Htick1 : tick (updateLocalChatThread env userId thread w).2
                   = (tick w + 2)%nat).
  { unfold tick. rewrite Htrace1, length_app. simpl. lia. }
  split; [reflexivity|].
  subst userId. destruct (currentUser w) as [u|] eqn:Hu; cbv zeta.
  2:{ split; [exists []; rewrite Htrace1; reflexivity|].
      split; [exact Hstored1|].
      split; [rewrite Hcalls1, app_nil_r; reflexivity|].
      split; [intros [=]|]. intros _. exact Hq1. }
  set (w1 := (updateLocalChatThread env (user_id u) thread w).2) in *.
  rewrite Htick1. simpl is_some. cbn [andb].
  destruct (isOnline (syncStatus w)) eqn:Honline.
  - set (w2 := record_event _ w1).
    pose proof (addPendingOperation_queue env OpUpdate ColChatThreads
                  (DataChatThread thread) w2) as [_ Hadd].
    pose proof (remoteCalls_addPendingOperation env OpUpdate ColChatThreads
                  (DataChatThread thread) w2) as Hcalls.
    pose proof (threads_addPendingOperation env OpUpdate ColChatThreads
                  (DataChatThread thread) w2) as Hthreads.
    destruct (trace_addPendingOperation env OpUpdate ColChatThreads
                (DataChatThread thread) w2) as [rest Hrest].
    simpl in Hcalls, Hthreads.
    split; [|split; [|split; [|split]]].
    + destruct (db_updateChatThread (databaseService env) (tick w + 2)
                  (thread_id thread) (DataChatThread thread)) as [[saved|]|e];
        rewrite ?Hrest; simpl; rewrite Htrace1;
        rewrite <- ?app_assoc; eexists; simpl; reflexivity.
    + intros Hset. destruct (Hstored1 Hset) as (stored & Hlook & Hin).
      exists stored. split; [|exact Hin].
      destruct (db_updateChatThread (databaseService env) (tick w + 2)
                  (thread_id thread) (DataChatThread thread)) as [[saved|]|e];
        rewrite ?Hthreads; exact Hlook.
    + destruct (db_updateChatThread (databaseService env) (tick w + 2)
                  (thread_id thread) (DataChatThread thread)) as [[saved|]|e];
        rewrite ?Hcalls; unfold w2; simpl;
        rewrite remoteCalls_remote, Hcalls1; reflexivity.
    + intros _ Hfail. specialize (Hfail eq_refl).
      destruct (db_updateChatThread (databaseService env) (tick w + 2)
                  (thread_id thread) (DataChatThread thread)) as [[saved|]|e];
        [destruct Hfail| |]; rewrite Hadd; simpl; rewrite Hq1;
        eexists; split; reflexivity.
    + intros [=].
  - pose proof (addPendingOperation_queue env OpUpdate ColChatThreads
                  (DataChatThread thread) w1) as [_ Hadd].
    destruct (trace_addPendingOperation env OpUpdate ColChatThreads
                (DataChatThread thread) w1) as [rest Hrest].
    split; [|split; [|split; [|split]]].
    + exists rest. rewrite Hrest, Htrace1, <- app_assoc. reflexivity.
    + intros Hset. destruct (Hstored1 Hset) as (stored & Hlook & Hin).
      exists stored. split; [|exact Hin].
      rewrite (threads_addPendingOperation env OpUpdate ColChatThreads
                 (DataChatThread thread) w1). exact Hlook.
    + rewrite (remoteCalls_addPendingOperation env OpUpdate ColChatThreads
                 (DataChatThread thread) w1), Hcalls1, app_nil_r. reflexivity.
    + intros _ _. rewrite Hadd, Hq1. eexists. split; reflexivity.
    + intros [=].
Qed.

Lemma saveChatThread_local_first_witness :
  exists op,
    pendingOperations
      (saveChatThread Sample.env (Sample.thread "t1" "new" 1) Sample.signedIn).2
      = pendingOperations Sample.signedIn ++ [op]
    /\ opContents op
       = (OpUpdate, ColChatThreads, DataChatThread (Sample.thread "t1" "new" 1),
          0%nat).
Proof.
  destruct (saveChatThread_local_first Sample.env (Sample.thread "t1" "new" 1)
              Sample.signedIn) as (_ & _ & _ & _ & Henqueued & _).
  apply Henqueued; [reflexivity|]. intros _. exact I.
Defined.

(** ** The shape of a merged collection *)

Section SortFacts.
Context {A : Type} (cmp : A -> A -> Z) (R : A -> A -> Prop) (ok : A -> Prop).
Hypothesis Hbefore : forall x y, ok x -> ok y -> (0 <? cmp x y) = false -> R x y.
Hypothesis Hafter : forall x y, ok x -> ok y -> (0 <? cmp x y) = true -> R y x.
Hypothesis Htrans : forall x y z, R x y -> R y z -> R x z.

Lemma sort_insert_In x l y : In y (sort_insert cmp x l) <-> y = x \/ In y l.
Proof.
  induction l as [|z l IH]; simpl; [intuition congruence|].
  destruct (0 <? cmp x z); simpl; [rewrite IH|]; intuition congruence.
Qed.

Lemma sort_insert_sorted x l :
  ok x -> Forall ok l -> StronglySorted R l ->
  StronglySorted R (sort_insert cmp x l).
Proof using Hbefore Hafter Htrans.
  intros Hx Hok Hs. induction Hs as [|z l Hs IH Hz]; simpl.
  - constructor; constructor.
  - inversion Hok as [|? ? Hokz Hokl]; subst.
    destruct (0 <? cmp x z) eqn:Hc.
    + constructor; [apply IH, Hokl|].
      apply List.Forall_forall. intros y Hy.
      apply sort_insert_In in Hy as [->|Hy].
      * apply Hafter; assumption.
      * rewrite List.Forall_forall in Hz. apply Hz, Hy.
    + constructor; [constructor; assumption|].
      constructor; [apply Hbefore; assumption|].
      eapply List.Forall_impl; [|exact Hz].
      intros y Hy. eapply Htrans; [|exact Hy]. apply Hbefore; assumption.
Qed.

Lemma Array_sort_sorted l :
  Forall ok l -> StronglySorted R (Array_sort cmp l).
Proof using Hbefore Hafter Htrans.
  unfold Array_sort. induction 1 as [|x l Hx Hl IH]; simpl; [constructor|].
  apply sort_insert_sorted; [exact Hx| |exact IH].
  apply List.Forall_forall. intros y Hy.
  eapply Permutation_in in Hy; [|apply (Array_sort_Permutation cmp l)].
  rewrite List.Forall_forall in Hl. apply Hl, Hy.
Qed.
End SortFacts.

Lemma newestFirst_sorted {A} (updatedAt : A -> Date) l :
  Forall (fun x => is_some (updatedAt x) = true) l ->
  StronglySorted (fun a b => notOlder (updatedAt a) (updatedAt b))
    (Array_sort (newestFirst updatedAt) l).
Proof.
  apply Array_sort_sorted.
  - intros x y Hx Hy. unfold newestFirst, notOlder.
    destruct (updatedAt x), (updatedAt y); try discriminate. simpl.
    intros H. apply Z.ltb_ge in H. lia.
  - intros x y Hx Hy. unfold newestFirst, notOlder.
    destruct (updatedAt x), (updatedAt y); try discriminate. simpl.
    intros H. apply Z.ltb_lt in H. lia.
  - intros x y z. unfold notOlder.
    destruct (updatedAt x), (updatedAt y), (updatedAt z); try tauto. lia.
Qed.

Section MergeMembers.
Context {A : Type} (id : A -> string).

Lemma Map_set_values k (v : A) m x :
  In x (Map_values (Map_set k v m)) -> x = v \/ In x (Map_values m).
Proof.
  unfold Map_values. induction m as [|[k0 v0] m IH]; simpl.
  - intuition congruence.
  - destruct (String.eqb k k0); simpl; intuition congruence.
Qed.

Lemma seed_values (l : list A) x : In x (Map_values (seed id l)) -> In x l.
Proof.
  unfold seed.
  assert (H : forall m, In x (Map_values (foldl (fun m x => Map_set (id x) x m) m l)) ->
                        In x (Map_values m) \/ In x l).
  { induction l as [|y l IH]; intros m; simpl; [auto|].
    intros Hin. apply IH in Hin as [Hin|Hin]; [|auto].
    apply Map_set_values in Hin as [->|Hin]; auto. }
  intros Hin. apply H in Hin as [[]|Hin]. exact Hin.
Qed.

Lemma seed_keys (l : list A) k : In k (seed id l).*1 <-> In k (map id l).
Proof.
  unfold seed.
  assert (H : forall m, In k (foldl (fun m x => Map_set (id x) x m) m l).*1 <->
                        In k m.*1 \/ In k (map id l)).
  { induction l as [|y l IH]; intros m; simpl; [tauto|].
    rewrite IH, (Map_set_keys id).
    split; [intros [[->|?]|?]|intros [?|[<-|?]]]; auto. }
  rewrite H. simpl. tauto.
Qed.

Lemma overwritten_values m (l : list A) x :
  In x (Map_values (foldl (fun m x => Map_set (id x) x m) m l)) ->
  In x (Map_values m) \/ In x l.
Proof.
  revert m. induction l as [|y l IH]; intros m; simpl; [auto|].
  intros Hin. apply IH in Hin as [Hin|Hin]; [|auto].
  apply Map_set_values in Hin as [->|Hin]; auto.
Qed.

Lemma overwritten_keys m (l : list A) k :
  In k (foldl (fun m x => Map_set (id x) x m) m l).*1
  <-> In k m.*1 \/ In k (map id l).
Proof.
  revert m. induction l as [|y l IH]; intros m; simpl; [tauto|].
  rewrite IH, (Map_set_keys id).
    split; [intros [[->|?]|?]|intros [?|[<-|?]]]; auto.
Qed.

Lemma overwritten_ok m (l : list A) :
  List.NoDup m.*1 -> keyed id m ->
  List.NoDup (foldl (fun m x => Map_set (id x) x m) m l).*1
  /\ keyed id (foldl (fun m x => Map_set (id x) x m) m l).
Proof. apply seed_from. Qed.

End MergeMembers.

Section ReconcileMembers.
Context {A : Type} (id : A -> string) (updatedAt : A -> Date).

Lemma reconciled_values m cloud x :
  In x (Map_values (foldl (reconcile id updatedAt) m cloud)) ->
  In x (Map_values m) \/ In x cloud.
Proof.
  revert m. induction cloud as [|c cloud IH]; intros m; simpl; [auto|].
  intros Hin. apply IH in Hin as [Hin|Hin]; [|auto].
  unfold reconcile in Hin.
  destruct (Map_get (id c) m) as [l|];
    [destruct (Date_gt (updatedAt c) (updatedAt l))|]; auto;
    apply Map_set_values in Hin as [->|Hin]; auto.
Qed.

Lemma reconcile_keys m c k :
  In k (reconcile id updatedAt m c).*1 <-> k = id c \/ In k m.*1.
Proof.
  unfold reconcile.
  destruct (Map_get (id c) m) as [l|] eqn:Hget;
    [destruct (Date_gt (updatedAt c) (updatedAt l))|];
    try apply (Map_set_keys id).
  split; [auto|]. intros [->|H]; [|exact H].
  clear -Hget. induction m as [|[k0 v0] m IH]; simpl in *; [discriminate|].
  destruct (String.eqb_spec (id c) k0); auto.
Qed.

Lemma reconciled_keys m cloud k :
  In k (foldl (reconcile id updatedAt) m cloud).*1
  <-> In k m.*1 \/ In k (map id cloud).
Proof.
  revert m. induction cloud as [|c cloud IH]; intros m; simpl; [tauto|].
  rewrite IH, reconcile_keys.
  split; [intros [[->|?]|?]|intros [?|[<-|?]]]; auto.
Qed.

(** What a merge by last write returns, before it is sorted: one entity
    per id, the ids of both sides, and only entities of either side. *)
Lemma reconciled_shape cmp (localEntities cloud : list A) :
  let merged :=
    Array_sort cmp
      (Map_values (foldl (reconcile id updatedAt) (seed id localEntities) cloud)) in
  List.NoDup (map id merged)
  /\ (forall k, In k (map id merged)
                <-> In k (map id localEntities) \/ In k (map id cloud))
  /\ (forall x, In x merged -> In x localEntities \/ In x cloud).
Proof.
  intros merged.
  destruct (seed_ok id localEntities) as [Hnd Hk].
  destruct (reconciled_ok id updatedAt _ cloud Hnd Hk) as [Hnd' Hk'].
  assert (Hperm : Permutation (map id merged)
                    (foldl (reconcile id updatedAt) (seed id localEntities) cloud).*1).
  { rewrite <- (values_ids id _ Hk'). apply Permutation_map.
    apply Array_sort_Permutation. }
  split; [|split].
  - eapply Permutation_NoDup; [symmetry; exact Hperm|exact Hnd'].
  - intros k. rewrite <- (seed_keys id localEntities k).
    rewrite <- (reconciled_keys (seed id localEntities) cloud k). split; intros H.
    + eapply Permutation_in; [exact Hperm|exact H].
    + eapply Permutation_in; [symmetry; exact Hperm|exact H].
  - intros x Hx.
    eapply Permutation_in in Hx; [|apply Array_sort_Permutation].
    apply reconciled_values in Hx as [Hx|Hx]; [|auto].
    left. apply (seed_values id), Hx.
Qed.
End ReconcileMembers.

(** X7.  What [mergeNotes] and [mergeChatThreads] return, for all local
    and remote snapshots, duplicates included: exactly one entity for
    every id that occurs on either side, each of them an entity of one of
    the two snapshots, and, when every timestamp is a valid date, the most
    recently updated first. *)
Theorem merged_notes_and_threads_shape (env : Env) :
  (forall localNotes cloudNotes w,
     let merged := mergedNotes localNotes cloudNotes in
     (mergeNotes env localNotes cloudNotes w).1 = Ok merged
     /\ List.NoDup (map note_id merged)
     /\ (forall k, In k (map note_id merged)
                   <-> In k (map note_id localNotes) \/ In k (map note_id cloudNotes))
     /\ (forall n, In n merged -> In n localNotes \/ In n cloudNotes)
     /\ (Forall (fun n => is_some (note_updatedAt n) = true)
           (localNotes ++ cloudNotes) ->
         StronglySorted
           (fun a b => notOlder (note_updatedAt a) (note_updatedAt b)) merged))
  /\ (forall localThreads cloudThreads,
        let merged := mergeChatThreads localThreads cloudThreads in
        List.NoDup (map thread_id merged)
        /\ (forall k, In k (map thread_id merged)
                      <-> In k (map thread_id localThreads)
                          \/ In k (map thread_id cloudThreads))
        /\ (forall t, In t merged -> In t localThreads \/ In t cloudThreads)
        /\ (Forall (fun t => is_some (thread_updatedAt t) = true)
              (localThreads ++ cloudThreads) ->
            StronglySorted
              (fun a b => notOlder (thread_updatedAt a) (thread_updatedAt b))
              merged)).
Proof.
  split.
  - intros localNotes cloudNotes w merged.
    destruct (reconciled_shape note_id note_updatedAt (newestFirst note_updatedAt)
                localNotes cloudNotes) as (Hnd & Hids & Hmem).
    split; [apply mergeNotes_result|].
    split; [exact Hnd|]. split; [exact Hids|]. split; [exact Hmem|].
    intros Hvalid. apply newestFirst_sorted.
    rewrite List.Forall_forall in Hvalid |- *. intros n Hn.
    apply Hvalid, in_app_iff.
    apply (reconciled_values note_id note_updatedAt) in Hn as [Hn|Hn]; [|auto].
    left. apply (seed_values note_id), Hn.
  - intros localThreads cloudThreads merged.
    destruct (reconciled_shape thread_id thread_updatedAt
                (newestFirst thread_updatedAt) localThreads cloudThreads)
      as (Hnd & Hids & Hmem).
    split; [exact Hnd|]. split; [exact Hids|]. split; [exact Hmem|].
    intros Hvalid. apply newestFirst_sorted.
    rewrite List.Forall_forall in Hvalid |- *. intros t Ht.
    apply Hvalid, in_app_iff.
    apply (reconciled_values thread_id thread_updatedAt) in Ht as [Ht|Ht]; [|auto].
    left. apply (seed_values thread_id), Ht.
Qed.

Lemma merged_notes_and_threads_shape_witness :
  StronglySorted (fun a b => notOlder (note_updatedAt a) (note_updatedAt b))
    (mergedNotes [Sample.note "n1" "old" 1; Sample.note "n2" "kept" 7]
                 [Sample.note "n1" "new" 5; Sample.note "n3" "remote" 9]).
Proof.
  destruct (merged_notes_and_threads_shape Sample.env) as [Hnotes _].
  destruct (Hnotes [Sample.note "n1" "old" 1; Sample.note "n2" "kept" 7]
                   [Sample.note "n1" "new" 5; Sample.note "n3" "remote" 9]
                   Sample.signedIn) as (_ & _ & _ & _ & Hsorted).
  apply Hsorted. repeat constructor.
Defined.

Lemma compare_le_trans (a b c : string) :
  String.compare a b <> Gt -> String.compare b c <> Gt -> String.compare a c <> Gt.
Proof.
  revert b c. induction a as [|x a IH]; intros [|y b] [|z c]; simpl;
    try congruence.
  unfold Ascii.compare.
  destruct (N.compare_spec (N_of_ascii x) (N_of_ascii y)),
           (N.compare_spec (N_of_ascii y) (N_of_ascii z)),
           (N.compare_spec (N_of_ascii x) (N_of_ascii z));
    try congruence; try lia; eauto.
Qed.

Lemma codePointCompare_le a b :
  Sample.codePointCompare a b <= 0 <-> String.compare a b <> Gt.
Proof.
  unfold Sample.codePointCompare.
  destruct (String.compare a b); split; intros H; try lia; congruence.
Qed.

(** X8.  What [mergeLabels] returns, for all local and remote snapshots:
    exactly one label for every id that occurs on either side, each of
    them a label of one of the two snapshots, and, when [localeCompare] is
    a total preorder on the names, the labels in the order of their
    names. *)
Theorem merged_labels_shape (env : Env) (localLabels cloudLabels : list Label) :
  let merged := mergeLabels env localLabels cloudLabels in
  List.NoDup (map label_id merged)
  /\ (forall k, In k (map label_id merged)
                <-> In k (map label_id localLabels) \/ In k (map label_id cloudLabels))
  /\ (forall l, In l merged -> In l localLabels \/ In l cloudLabels)
  /\ ((forall a b, 0 < localeCompare env a b -> localeCompare env b a <= 0) ->
      (forall a b c, localeCompare env a b <= 0 -> localeCompare env b c <= 0 ->
                     localeCompare env a c <= 0) ->
      StronglySorted
        (fun a b => localeCompare env (label_name a) (label_name b) <= 0) merged).
Proof.
  intros merged. unfold mergeLabels in merged.
  set (m := foldl (fun m label => Map_set (label_id label) label m)
              (seed label_id localLabels) cloudLabels) in *.
  destruct (seed_ok label_id localLabels) as [Hnd Hk].
  destruct (overwritten_ok label_id _ cloudLabels Hnd Hk) as [Hnd' Hk'].
  fold m in Hnd', Hk'.
  assert (Hperm : Permutation (map label_id merged) m.*1).
  { rewrite <- (values_ids label_id _ Hk'). apply Permutation_map.
    apply Array_sort_Permutation. }
  split; [|split; [|split]].
  - eapply Permutation_NoDup; [symmetry; exact Hperm|exact Hnd'].
  - intros k. rewrite <- (seed_keys label_id localLabels k).
    rewrite <- (overwritten_keys label_id (seed label_id localLabels) cloudLabels k).
    split; intros H.
    + eapply Permutation_in; [exact Hperm|exact H].
    + eapply Permutation_in; [symmetry; exact Hperm|exact H].
  - intros l Hl.
    eapply Permutation_in in Hl; [|apply Array_sort_Permutation].
    apply (overwritten_values label_id) in Hl as [Hl|Hl]; [|auto].
    left. apply (seed_values label_id), Hl.
  - intros Hanti Htrans.
    apply (Array_sort_sorted _ _ (fun _ => True)).
    + intros x y _ _ H. apply Z.ltb_ge in H. exact H.
    + intros x y _ _ H. apply Z.ltb_lt in H. apply Hanti, H.
    + intros x y z. apply Htrans.
    + apply List.Forall_forall. intros; exact I.
Qed.

Lemma merged_labels_shape_witness :
  StronglySorted
    (fun a b => localeCompare Sample.env (label_name a) (label_name b) <= 0)
    (mergeLabels Sample.env [Sample.label "l2" "work"; Sample.label "l1" "home"]
                 [Sample.label "l3" "ideas"; Sample.label "l2" "errands"]).
Proof.
  destruct (merged_labels_shape Sample.env
              [Sample.label "l2" "work"; Sample.label "l1" "home"]
              [Sample.label "l3" "ideas"; Sample.label "l2" "errands"])
    as (_ & _ & _ & Hsorted).
  apply Hsorted.
  - intros a b Hgt. simpl in *. apply codePointCompare_le.
    rewrite String.compare_antisym. unfold Sample.codePointCompare in Hgt.
    destruct (String.compare a b); simpl; try lia; congruence.
  - intros a b c Hab Hbc. simpl in *. apply codePointCompare_le.
    apply codePointCompare_le in Hab, Hbc. eapply compare_le_trans; eassumption.
Defined.

(** ** The time of the last sync across a restart *)

Lemma toISOString_truthy t :
  -62167219200000 <= t < 253402300800000 ->
  truthy (DateCodec.toISOString t) = true.
Proof.
  intros Ht. unfold truthy.
  destruct (String.eqb_spec (DateCodec.toISOString t) "") as [Heq|Hne];
    [|reflexivity].
  pose proof (DateCodecFacts.Date_parse_toISOString t Ht) as Hparse.
  rewrite Heq in Hparse. discriminate Hparse.
Qed.

(** X9.  [saveLastSyncTime] and [loadLastSyncTime] never throw.  A time
    of the last sync whose year has four digits, once saved, is read back
    as the same instant by a later [loadLastSyncTime], in particular after
    a restart.  When the engine never synced, or when the time is Invalid
    Date (whose [toISOString] throws), nothing is written and no call to
    AsyncStorage is made; and a load that finds nothing stored leaves the
    time as it is. *)
Theorem lastSyncTime_round_trip (env : Env) (w w2 : World) :
  (saveLastSyncTime env w).1 = Ok tt
  /\ (loadLastSyncTime env w2).1 = Ok tt
  /\ (forall t,
        lastSyncTime (syncStatus w) = Some (Some t) ->
        -62167219200000 <= t < 253402300800000 ->
        storageRejects env (tick w) (SetItem KeyLastSyncTime) = false ->
        storage w2 = storage (saveLastSyncTime env w).2 ->
        storageRejects env (tick w2) (GetItem KeyLastSyncTime) = false ->
        lastSyncTime (syncStatus (loadLastSyncTime env w2).2) = Some (Some t))
  /\ (lastSyncTime (syncStatus w) = None \/ lastSyncTime (syncStatus w) = Some None ->
      saveLastSyncTime env w = (Ok tt, w))
  /\ (item_lastSyncTime (storage w2) = None ->
      lastSyncTime (syncStatus (loadLastSyncTime env w2).2)
        = lastSyncTime (syncStatus w2)).
Proof.
  split; [|split; [|split; [|split]]].
  - unfold saveLastSyncTime, try_catch, bind, gets, AsyncStorage_call.
    destruct (lastSyncTime (syncStatus w)) as [[t|]|]; simpl; [|reflexivity..].
    destruct (storageRejects env (tick w) (SetItem KeyLastSyncTime)); reflexivity.
  - unfold loadLastSyncTime, try_catch, bind, gets, AsyncStorage_call.
    destruct (storageRejects env (tick w2) (GetItem KeyLastSyncTime)); simpl;
      [reflexivity|].
    destruct (item_lastSyncTime (storage w2)) as [s|]; [|reflexivity].
    destruct (truthy s); reflexivity.
  - intros t Hlast Ht Hset Hstore Hget.
    assert (Hitem : item_lastSyncTime (storage w2) = Some (DateCodec.toISOString t)).
    { rewrite Hstore.
      unfold saveLastSyncTime, try_catch, bind, gets, AsyncStorage_call.
      rewrite Hlast, Hset. reflexivity. }
    unfold loadLastSyncTime, try_catch, bind, gets, AsyncStorage_call.
    rewrite Hget. simpl. rewrite Hitem, (toISOString_truthy t Ht). simpl.
    rewrite DateCodecFacts.Date_parse_toISOString by exact Ht. reflexivity.
  - intros Hnone. unfold saveLastSyncTime, try_catch, bind, gets.
    destruct Hnone as [-> | ->]; reflexivity.
  - intros Hnone. unfold loadLastSyncTime, try_catch, bind, gets, AsyncStorage_call.
    destruct (storageRejects env (tick w2) (GetItem KeyLastSyncTime)); simpl;
      [reflexivity|].
    rewrite Hnone. reflexivity.
Qed.

Lemma lastSyncTime_round_trip_witness :
  lastSyncTime
    (syncStatus
       (loadLastSyncTime Sample.env
          (restart (saveLastSyncTime Sample.env
                      (set_lastSyncTime (Some 1709210096789) Sample.signedIn)).2)).2)
  = Some (Some 1709210096789).
Proof.
  destruct (lastSyncTime_round_trip Sample.env
              (set_lastSyncTime (Some 1709210096789) Sample.signedIn)
              (restart (saveLastSyncTime Sample.env
                          (set_lastSyncTime (Some 1709210096789) Sample.signedIn)).2))
    as (_ & _ & Htrip & _).
  apply Htrip; [reflexivity|lia|reflexivity|reflexivity|reflexivity].
Defined.

(** ** The search index *)

Lemma indexNote_world env note u w :
  indexNote env note u w
  = (Ok tt,
     if truthy (searchText note)
     then record_event (EvRemote (CallIndexNote note u)) w else w).
Proof.
  unfold indexNote, try_catch, remote_call. fold (searchText note).
  destruct (truthy (searchText note)); [|reflexivity].
  destruct (pinecone_indexNote env (tick w) note u) as [[]|e]; reflexivity.
Qed.

Lemma indexNotes_world env u notes : forall w,
  (indexNotes env notes u w).1 = Ok tt
  /\ trace (indexNotes env notes u w).2
     = trace w ++ ((fun n => EvRemote (CallIndexNote n u))
                     <$> List.filter (fun n => truthy (searchText n)) notes)
  /\ syncStatus (indexNotes env notes u w).2 = syncStatus w
  /\ pendingOperations (indexNotes env notes u w).2 = pendingOperations w
  /\ storage (indexNotes env notes u w).2 = storage w.
Proof.
  induction notes as [|n notes IH]; intros w; simpl.
  - rewrite app_nil_r. repeat split; reflexivity.
  - unfold bind. rewrite indexNote_world.
    destruct (truthy (searchText n)).
    + destruct (IH (record_event (EvRemote (CallIndexNote n u)) w))
        as (Hok & Htrace & Hstatus & Hqueue & Hstore).
      rewrite Hok, Htrace, Hstatus, Hqueue, Hstore. simpl.
      rewrite <- app_assoc. repeat split; reflexivity.
    + apply IH.
Qed.

(** X10.  [updateSearchIndex] never throws and changes nothing but the
    search index: it asks [pineconeService] to index, in order, exactly
    the notes that have a non-blank title or content or a transcript and
    whose search text is not empty, and it goes on to the next note when
    an indexing request rejects.  A note that has only labels is therefore
    skipped, although [indexNote] itself would index it. *)
Theorem updateSearchIndex_calls (env : Env) (notes : list Note) (u : string)
    (w : World) :
  (updateSearchIndex env notes u w).1 = Ok tt
  /\ trace (updateSearchIndex env notes u w).2
     = trace w ++ ((fun n => EvRemote (CallIndexNote n u))
                     <$> List.filter
                           (fun n => hasContent n && truthy (searchText n)) notes)
  /\ syncStatus (updateSearchIndex env notes u w).2 = syncStatus w
  /\ pendingOperations (updateSearchIndex env notes u w).2 = pendingOperations w
  /\ storage (updateSearchIndex env notes u w).2 = storage w
  /\ (forall n,
        note_title n = "" -> note_content n = "" ->
        note_audioTranscript n = None ->
        hasContent n = false
        /\ searchText n = trim (join " " (note_labels n))
        /\ (truthy (trim (join " " (note_labels n))) = true ->
            trace (indexNote env n u w).2
              = trace w ++ [EvRemote (CallIndexNote n u)])).
Proof.
  assert (Hfilter : forall l : list Note,
            List.filter (fun n => truthy (searchText n)) (List.filter hasContent l)
            = List.filter (fun n => hasContent n && truthy (searchText n)) l).
  { induction l as [|n l IH]; simpl; [reflexivity|].
    destruct (hasContent n); simpl; [|exact IH].
    destruct (truthy (searchText n)); simpl; [f_equal|]; exact IH. }
  unfold updateSearchIndex, try_catch. fold hasContent.
  destruct (indexNotes_world env u (List.filter hasContent notes) w)
    as (Hok & Htrace & Hstatus & Hqueue & Hstore).
  destruct (indexNotes env (List.filter hasContent notes) u w) as [r w'].
  simpl in *. subst r. simpl. rewrite <- Hfilter.
  split; [reflexivity|]. split; [exact Htrace|]. split; [exact Hstatus|].
  split; [exact Hqueue|]. split; [exact Hstore|].
  intros n Htitle Hcontent Haudio.
  assert (Htext : searchText n = trim (join " " (note_labels n))).
  { unfold searchText. rewrite Htitle, Hcontent, Haudio. simpl.
    destruct (truthy (join " " (note_labels n))) eqn:Hl; simpl; [reflexivity|].
    unfold truthy in Hl. apply negb_false_iff, String.eqb_eq in Hl.
    rewrite Hl. reflexivity. }
  split; [unfold hasContent; rewrite Htitle, Hcontent, Haudio; reflexivity|].
  split; [exact Htext|].
  intros Hlabels. rewrite indexNote_world, Htext, Hlabels. reflexivity.
Qed.

(** White space of any script is blank: a note whose title is a no-break
    space and whose content is an ideographic space between two ASCII
    spaces is skipped. *)
Lemma trim_white_space :
  trim (" " +:+ noBreakSpace +:+ "a b" +:+ ideographicSpace +:+ " ") = "a b"
  /\ trim noBreakSpace = ""
  /\ trim (" " +:+ ideographicSpace +:+ " ") = ""
  /\ hasContent
       (mkNote "n0" None noBreakSpace (" " +:+ ideographicSpace +:+ " ")
          "default" false false [] None None None [] None (Some 0) (Some 1))
     = false.
Proof. vm_compute. repeat split; reflexivity. Qed.

Lemma updateSearchIndex_calls_witness :
  trace (indexNote Sample.env
           (mkNote "n1" None "" "" "default" false false ["work"] None None None
              [] None (Some 0) (Some 1)) "auth0|alice" Sample.signedIn).2
  = trace Sample.signedIn
    ++ [EvRemote (CallIndexNote
                    (mkNote "n1" None "" "" "default" false false ["work"] None
                       None None [] None (Some 0) (Some 1)) "auth0|alice")]
  /\ trace (updateSearchIndex Sample.env
              [mkNote "n0" None noBreakSpace (" " +:+ ideographicSpace +:+ " ")
                 "default" false false [] None None None [] None (Some 0)
                 (Some 1);
               Sample.note "n2" "two" 2] "auth0|alice" Sample.signedIn).2
     = trace Sample.signedIn
       ++ [EvRemote (CallIndexNote (Sample.note "n2" "two" 2) "auth0|alice")].
Proof.
  split.
  - destruct (updateSearchIndex_calls Sample.env [] "auth0|alice" Sample.signedIn)
      as (_ & _ & _ & _ & _ & Hlabels).
    apply Hlabels; reflexivity.
  - destruct (updateSearchIndex_calls Sample.env
                [mkNote "n0" None noBreakSpace (" " +:+ ideographicSpace +:+ " ")
                   "default" false false [] None None None [] None (Some 0)
                   (Some 1);
                 Sample.note "n2" "two" 2] "auth0|alice" Sample.signedIn)
      as (_ & Htrace & _).
    rewrite Htrace. vm_compute. reflexivity.
Defined.

(** ** The local note store *)

Lemma findBy_fmap {A B} (idA : A -> string) (idB : B -> string) (f : A -> B) k l :
  (forall x, idB (f x) = idA x) ->
  findBy idB k (f <$> l) = f <$> findBy idA k l.
Proof.
  intros Hid. unfold findBy. induction l as [|x l IH]; simpl; [reflexivity|].
  rewrite Hid. destruct (String.eqb (idA x) k); [reflexivity|exact IH].
Qed.

Lemma findIndex_includes (note : Note) (l : list Note) :
  is_some (findIndex (fun n : Note => String.eqb (note_id n) (note_id note)) l)
  = includes (note_id note) (note_id <$> l).
Proof.
  unfold includes. induction l as [|x l IH]; simpl; [reflexivity|].
  rewrite (String.eqb_sym (note_id note) (note_id x)).
  destruct (String.eqb (note_id x) (note_id note)); simpl; [reflexivity|].
  change (list_fmap Note string note_id l) with (note_id <$> l).
  rewrite <- IH. destruct (findIndex _ l); reflexivity.
Qed.

(** The list [updateLocalNote] writes back. *)
Lemma upsert_lookup (note : Note) (l : list Note) :
  let l' :=
    match findIndex (fun n : Note => String.eqb (note_id n) (note_id note)) l with
    | Some index => <[index := note]> l
    | None => note :: l
    end in
  findBy note_id (note_id note) l' = Some note
  /\ (forall k, k <> note_id note -> findBy note_id k l' = findBy note_id k l)
  /\ note_id <$> l'
     = (if includes (note_id note) (note_id <$> l) then note_id <$> l
        else note_id note :: (note_id <$> l)).
Proof.
  intros l'. subst l'. rewrite <- findIndex_includes.
  induction l as [|x l IH]; simpl.
  - unfold findBy. simpl. rewrite String.eqb_refl.
    split; [reflexivity|]. split; [|reflexivity].
    intros k Hk.
    destruct (String.eqb_spec (note_id note) k); [congruence|reflexivity].
  - destruct (String.eqb_spec (note_id x) (note_id note)) as [Heq|Hne]; simpl.
    + unfold findBy. simpl. rewrite String.eqb_refl.
      split; [reflexivity|]. split; [|rewrite Heq; reflexivity].
      intros k Hk. rewrite Heq.
      destruct (String.eqb_spec (note_id note) k); [congruence|reflexivity].
    + destruct IH as (Hfound & Hother & Hids).
      destruct (findIndex _ l) as [i|] eqn:Hi; simpl in *.
      * unfold findBy in *. simpl.
        destruct (String.eqb_spec (note_id x) (note_id note)); [contradiction|].
        split; [exact Hfound|]. split; [|f_equal; exact Hids].
        intros k Hk. destruct (String.eqb (note_id x) k); [reflexivity|].
        apply Hother, Hk.
      * unfold findBy in *. simpl. rewrite String.eqb_refl.
        split; [reflexivity|]. split; [|reflexivity].
        intros k Hk.
        destruct (String.eqb_spec (note_id note) k); [congruence|reflexivity].
Qed.

(** X11.  [saveNote] is an insert-or-replace on the local store, when
    AsyncStorage accepts the read and the write: afterwards the lookup of
    the note's id gives the note as saved; a note already stored under that
    id is replaced where it stands and otherwise the note is put in front;
    every other stored note is read and written back. *)
Theorem saveNote_upserts_local_note (env : Env) (note : Note) (w : World) :
  let userId := storageUserId (currentUser w) in
  let before := default [] (item_notes (storage w) !! userId) in
  let after :=
    default [] (item_notes (storage (saveNote env note w).2) !! userId) in
  storageRejects env (tick w) (GetItem (KeyNotes userId)) = false ->
  storageRejects env (S (tick w)) (SetItem (KeyNotes userId)) = false ->
  findBy note_id (note_id note) after = Some (Note_toJSON note)
  /\ (forall k, k <> note_id note ->
        findBy note_id k after
        = (fun stored => Note_toJSON (Note_revive stored))
            <$> findBy note_id k before)
  /\ note_id <$> after
     = (if includes (note_id note) (note_id <$> before) then note_id <$> before
        else note_id note :: (note_id <$> before)).
Proof.
  intros userId before after Hget Hset.
  assert (Hafter :
    after
    = Note_toJSON <$>
        match findIndex (fun n : Note => String.eqb (note_id n) (note_id note))
                (Note_revive <$> before) with
        | Some index => <[index := note]> (Note_revive <$> before)
        | None => note :: (Note_revive <$> before)
        end).
  { subst after. rewrite saveNote_after_local_write. simpl snd.
    rewrite (notes_pushNote env (currentUser w) note). fold userId.
    unfold updateLocalNote, bind. rewrite getLocalNotes_value, Hget.
    rewrite saveLocalNotes_writes, tick_record_event, Hset. simpl.
    rewrite lookup_insert_eq. reflexivity. }
  rewrite Hafter. clear Hafter after.
  destruct (upsert_lookup note (Note_revive <$> before)) as (Hfound & Hother & Hids).
  split; [|split].
  - rewrite (findBy_fmap note_id note_id Note_toJSON) by reflexivity.
    rewrite Hfound. reflexivity.
  - intros k Hk.
    rewrite (findBy_fmap note_id note_id Note_toJSON) by reflexivity.
    rewrite (Hother k Hk).
    rewrite (findBy_fmap note_id note_id Note_revive) by reflexivity.
    destruct (findBy note_id k before); reflexivity.
  - rewrite toJSON_ids, Hids, revive_ids. reflexivity.
Qed.

Lemma saveNote_upserts_local_note_witness :
  findBy note_id "n1"
    (default []
       (item_notes
          (storage
             (saveNote Sample.env (Sample.note "n1" "two" 2)
                (saveNote Sample.env (Sample.note "n1" "one" 1) Sample.guest).2).2)
        !! "guest"))
  = Some (Note_toJSON (Sample.note "n1" "two" 2)).
Proof.
  apply (saveNote_upserts_local_note Sample.env (Sample.note "n1" "two" 2)
           (saveNote Sample.env (Sample.note "n1" "one" 1) Sample.guest).2);
    reflexivity.
Defined.

(** X12.  A read of the notes item that AsyncStorage rejects is taken for
    an empty collection: if the write that follows is accepted, [saveNote]
    leaves the saved note as the only stored note and [deleteNote] leaves
    none, whatever was stored before. *)
Theorem rejected_read_overwrites_local_notes (env : Env) (w : World) :
  let userId := storageUserId (currentUser w) in
  storageRejects env (tick w) (GetItem (KeyNotes userId)) = true ->
  storageRejects env (S (tick w)) (SetItem (KeyNotes userId)) = false ->
  (forall note,
     item_notes (storage (saveNote env note w).2) !! userId
     = Some [Note_toJSON note])
  /\ (forall noteId,
        item_notes (storage (deleteNote env noteId w).2) !! userId = Some []).
Proof.
  intros userId Hget Hset. split.
  - intros note. rewrite saveNote_after_local_write. simpl snd.
    rewrite (notes_pushNote env (currentUser w) note). fold userId.
    unfold updateLocalNote, bind. rewrite getLocalNotes_value, Hget.
    rewrite saveLocalNotes_writes, tick_record_event, Hset. simpl.
    apply lookup_insert_eq.
  - intros noteId.
    assert (Hlocal : item_notes (storage (removeLocalNote env userId noteId w).2)
                     !! userId = Some []).
    { unfold removeLocalNote, bind. rewrite getLocalNotes_value, Hget.
      rewrite saveLocalNotes_writes, tick_record_event, Hset. simpl.
      apply lookup_insert_eq. }
    rewrite deleteNote_unfold. simpl snd. fold userId.
    destruct (currentUser w) as [u|]; [|exact Hlocal].
    destruct (negb (String.eqb (user_id u) "guest") && isOnline (syncStatus w)).
    + destruct (db_deleteNote (databaseService env) _ noteId) as [[|]|e];
        simpl; rewrite ?notes_addPendingOperation; exact Hlocal.
    + destruct (String.eqb (user_id u) "guest"); [exact Hlocal|].
      rewrite notes_addPendingOperation. exact Hlocal.
Qed.

Lemma rejected_read_overwrites_local_notes_witness :
  item_notes
    (storage
       (saveNote unreadableStorage (Sample.note "n2" "two" 2)
          (saveNote Sample.env (Sample.note "n1" "one" 1) Sample.guest).2).2)
  !! "guest"
  = Some [Note_toJSON (Sample.note "n2" "two" 2)].
Proof.
  pose proof (rejected_read_overwrites_local_notes unreadableStorage
                (saveNote Sample.env (Sample.note "n1" "one" 1) Sample.guest).2)
    as Hwiped.
  cbv zeta in Hwiped.
  destruct Hwiped as [Hsave _]; [vm_compute; reflexivity..|].
  exact (Hsave (Sample.note "n2" "two" 2)).
Defined.

(** ** The local store, written and read back *)

Lemma new_Date_toJSON d : fourDigitYear d -> new_Date (Date_toJSON d) = d.
Proof.
  intros (t & -> & Ht). simpl.
  apply DateCodecFacts.Date_parse_toISOString, Ht.
Qed.

Lemma Note_round_trip (n : Note) :
  fourDigitYear (note_createdAt n) -> fourDigitYear (note_updatedAt n) ->
  Note_revive (Note_toJSON n) = n.
Proof.
  intros Hc Hu. destruct n. unfold Note_revive, Note_toJSON. simpl in *.
  rewrite (new_Date_toJSON _ Hc), (new_Date_toJSON _ Hu). reflexivity.
Qed.

Lemma ChatThread_round_trip (t : ChatThread) :
  fourDigitYear (thread_createdAt t) -> fourDigitYear (thread_updatedAt t) ->
  Forall (fun m => fourDigitYear (msg_timestamp m)) (thread_messages t) ->
  ChatThread_revive (ChatThread_toJSON t) = t.
Proof.
  intros Hc Hu Hm. destruct t as [i u ti ms c up].
  unfold ChatThread_revive, ChatThread_toJSON. simpl in *.
  rewrite (new_Date_toJSON _ Hc), (new_Date_toJSON _ Hu). f_equal.
  induction Hm as [|m ms Hm _ IH]; [reflexivity|].
  rewrite !fmap_cons, IH. f_equal.
  destruct m. unfold ChatMessage_revive, ChatMessage_toJSON. simpl in *.
  rewrite (new_Date_toJSON _ Hm). reflexivity.
Qed.

(** X13.  What [saveLocalNotes], [saveLocalChatThreads] and
    [saveLocalLabels] wrote is what [getLocalNotes], [getLocalChatThreads]
    and [getLocalLabels] read back, when AsyncStorage accepts both calls:
    the same entities in the same order, every timestamp whose year has
    four digits parsed back to the same instant (the timestamps of the
    messages of a thread included).  A timestamp that is Invalid Date is
    stored as [null] and comes back as the epoch. *)
Theorem local_store_round_trip (env : Env) (u : string) (w w2 : World) :
  (forall notes,
     storageRejects env (tick w) (SetItem (KeyNotes u)) = false ->
     storage w2 = storage (saveLocalNotes env u notes w).2 ->
     storageRejects env (tick w2) (GetItem (KeyNotes u)) = false ->
     Forall (fun n => fourDigitYear (note_createdAt n)
                      /\ fourDigitYear (note_updatedAt n)) notes ->
     (getLocalNotes env u w2).1 = Ok notes)
  /\ (forall threads,
        storageRejects env (tick w) (SetItem (KeyChatThreads u)) = false ->
        storage w2 = storage (saveLocalChatThreads env u threads w).2 ->
        storageRejects env (tick w2) (GetItem (KeyChatThreads u)) = false ->
        Forall (fun t => fourDigitYear (thread_createdAt t)
                         /\ fourDigitYear (thread_updatedAt t)
                         /\ Forall (fun m => fourDigitYear (msg_timestamp m))
                              (thread_messages t)) threads ->
        (getLocalChatThreads env u w2).1 = Ok threads)
  /\ (forall labels,
        storageRejects env (tick w) (SetItem (KeyLabels u)) = false ->
        storage w2 = storage (saveLocalLabels env u labels w).2 ->
        storageRejects env (tick w2) (GetItem (KeyLabels u)) = false ->
        (getLocalLabels env u w2).1 = Ok labels)
  /\ (forall n : Note,
        note_updatedAt n = None ->
        note_updatedAt (Note_toJSON n) = None
        /\ note_updatedAt (Note_revive (Note_toJSON n)) = Some 0).
Proof.
  split; [|split; [|split]].
  - intros notes Hset Hstore Hget Hdates.
    rewrite getLocalNotes_value, Hget, Hstore, saveLocalNotes_writes, Hset.
    simpl. rewrite lookup_insert_eq. simpl. f_equal. clear Hstore.
    induction Hdates as [|n notes [Hc Hu] _ IH]; [reflexivity|].
    rewrite !fmap_cons, IH, (Note_round_trip n Hc Hu). reflexivity.
  - intros threads Hset Hstore Hget Hdates.
    rewrite getLocalChatThreads_value, Hget, Hstore,
      saveLocalChatThreads_writes, Hset.
    simpl. rewrite lookup_insert_eq. simpl. f_equal. clear Hstore.
    induction Hdates as [|t threads (Hc & Hu & Hm) _ IH]; [reflexivity|].
    rewrite !fmap_cons, IH, (ChatThread_round_trip t Hc Hu Hm). reflexivity.
  - intros labels Hset Hstore Hget.
    unfold getLocalLabels, try_catch, bind, AsyncStorage_call, gets, ret.
    rewrite Hget. simpl. rewrite Hstore.
    unfold saveLocalLabels, try_catch, bind, AsyncStorage_call, modify.
    rewrite Hset. simpl. rewrite lookup_insert_eq. reflexivity.
  - intros n Hn. unfold Note_revive, Note_toJSON. simpl. rewrite Hn.
    split; reflexivity.
Qed.

Lemma local_store_round_trip_witness :
  (getLocalNotes Sample.env "guest"
     (saveLocalNotes Sample.env "guest"
        [Sample.note "n1" "one" 1709210096789] Sample.guest).2).1
  = Ok [Sample.note "n1" "one" 1709210096789].
Proof.
  destruct (local_store_round_trip Sample.env "guest" Sample.guest
              (saveLocalNotes Sample.env "guest"
                 [Sample.note "n1" "one" 1709210096789] Sample.guest).2)
    as (Hnotes & _).
  apply Hnotes; [reflexivity..|].
  constructor; [|constructor].
  split; eexists; (split; [reflexivity|lia]).
Defined.

(** ** The shipped database client *)

(** X14.  No method of the shipped [DatabaseService] ever rejects: a
    failure of Supabase, reported or thrown, comes back as the empty list
    from the readers, as [null] from the writers and as [false] from the
    deletions.  [saveNote] returns the updated note when the update
    produced one and otherwise what creating the note returns; it does not
    try an update for a note without an id or with the id ['temp']. *)
Theorem DatabaseService_never_rejects (supabase : Supabase) (t : nat) :
  let client := DatabaseService.client supabase in
  (forall userId,
     (exists l, db_getNotes client t userId = Ok l)
     /\ (exists l, db_getChatThreads client t userId = Ok l)
     /\ (exists l, db_getLabels client t userId = Ok l)
     /\ (forall e, sb_notes_select supabase t userId = SbError e
                   \/ sb_notes_select supabase t userId = SbReject e ->
                   db_getNotes client t userId = Ok []))
  /\ (forall data,
        (exists r, db_createNote client t data = Ok r)
        /\ (exists r, db_createChatThread client t data = Ok r)
        /\ (exists r, db_createLabel client t data = Ok r)
        /\ (forall e, sb_notes_insert supabase t data = SbError e
                      \/ sb_notes_insert supabase t data = SbReject e ->
                      db_createNote client t data = Ok None))
  /\ (forall id data,
        (exists r, db_updateNote client t id data = Ok r)
        /\ (exists r, db_updateChatThread client t id data = Ok r))
  /\ (forall id,
        (exists b, db_deleteNote client t id = Ok b)
        /\ (exists b, db_deleteChatThread client t id = Ok b)
        /\ (exists b, db_deleteLabel client t id = Ok b)
        /\ (forall e, sb_notes_delete supabase t id = SbError e
                      \/ sb_notes_delete supabase t id = SbReject e ->
                      db_deleteNote client t id = Ok false))
  /\ (forall note userId,
        (exists r, db_saveNote client t note userId = Ok r)
        /\ db_saveNote client t note userId
           = (if truthy (note_id note) && negb (String.eqb (note_id note) "temp")
              then
                match db_updateNote client t (note_id note) (DataNote note) with
                | Ok (Some updatedNote) => Ok (Some updatedNote)
                | _ => db_createNote client t
                         (DataNote (DatabaseService.noteData note userId))
                end
              else db_createNote client t
                     (DataNote (DatabaseService.noteData note userId)))).
Proof.
  intros client. subst client. simpl.
  unfold DatabaseService.getNotes, DatabaseService.getChatThreads,
    DatabaseService.getLabels, DatabaseService.createNote,
    DatabaseService.createChatThread, DatabaseService.createLabel,
    DatabaseService.updateNote, DatabaseService.updateChatThread,
    DatabaseService.deleteNote, DatabaseService.deleteChatThread,
    DatabaseService.deleteLabel.
  split; [|split; [|split; [|split]]].
  - intros userId. repeat split; try apply client_list_request.
    intros e [-> | ->]; reflexivity.
  - intros data. repeat split; try apply client_single_request.
    intros e [-> | ->]; reflexivity.
  - intros id data. split; apply client_single_request.
  - intros id. repeat split; try apply client_delete_request.
    intros e [-> | ->]; reflexivity.
  - intros note userId.
    assert (Heq : DatabaseService.saveNote supabase t note userId
              = (if truthy (note_id note) && negb (String.eqb (note_id note) "temp")
                 then
                   match DatabaseService.single_request
                           (sb_notes_update supabase t (note_id note) (DataNote note)) with
                   | Ok (Some updatedNote) => Ok (Some updatedNote)
                   | _ => DatabaseService.single_request
                            (sb_notes_insert supabase t
                               (DataNote (DatabaseService.noteData note userId)))
                   end
                 else DatabaseService.single_request
                        (sb_notes_insert supabase t
                           (DataNote (DatabaseService.noteData note userId))))).
    { unfold DatabaseService.saveNote, DatabaseService.updateNote,
        DatabaseService.createNote.
      destruct (truthy (note_id note) && negb (String.eqb (note_id note) "temp")).
      - destruct (sb_notes_update supabase t (note_id note) (DataNote note))
          as [[row|]|e|e]; simpl;
          destruct (sb_notes_insert supabase t (DataNote (DatabaseService.noteData note userId))) as [[row'|]|e'|e']; reflexivity.
      - destruct (sb_notes_insert supabase t (DataNote (DatabaseService.noteData note userId))) as [[row'|]|e'|e']; reflexivity. }
    split; [|exact Heq]. rewrite Heq.
    destruct (truthy (note_id note) && negb (String.eqb (note_id note) "temp")).
    + destruct (sb_notes_update supabase t (note_id note) (DataNote note))
        as [[row|]|e|e]; simpl; try (eexists; reflexivity);
        destruct (sb_notes_insert supabase t (DataNote (DatabaseService.noteData note userId))) as [[row'|]|e'|e'];
        eexists; reflexivity.
    + destruct (sb_notes_insert supabase t (DataNote (DatabaseService.noteData note userId))) as [[row'|]|e'|e'];
        eexists; reflexivity.
Qed.

Lemma DatabaseService_never_rejects_witness :
  db_createNote (DatabaseService.client Sample.missingRowSupabase) 0
    (DataNote (Sample.note "n1" "a" 5)) = Ok None.
Proof.
  destruct (DatabaseService_never_rejects Sample.missingRowSupabase 0)
    as (_ & Hcreate & _).
  destruct (Hcreate (DataNote (Sample.note "n1" "a" 5))) as (_ & _ & _ & Hfail).
  apply (Hfail Sample.networkError). right. reflexivity.
Defined.

(** ** AuthService *)

Module AuthServiceFacts.
Import AuthService.

Section Facts.
Variable env : AuthEnv.

(** The state after the listeners were called with [user]. *)
Lemma notified ls user : forall s,
  let s' := foldl (fun s' l => record (Notified l user) s') s ls in
  currentUser s' = currentUser s
  /\ credentials s' = credentials s
  /\ initialized s' = initialized s
  /\ listeners s' = listeners s
  /\ store s' = store s
  /\ history s' = history s ++ ((fun l => Notified l user) <$> ls).
Proof.
  induction ls as [|l ls IH]; intros s; simpl.
  - rewrite app_nil_r. repeat split; reflexivity.
  - destruct (IH (record (Notified l user) s)) as (Hu & Hc & Hi & Hl & Hs & Hh).
    simpl in *. rewrite Hu, Hc, Hi, Hl, Hs, Hh, <- app_assoc.
    repeat split; reflexivity.
Qed.

Lemma notifyListeners_state s :
  let s' := (notifyListeners s).2 in
  (notifyListeners s).1 = Ok tt
  /\ currentUser s' = currentUser s
  /\ credentials s' = credentials s
  /\ initialized s' = initialized s
  /\ listeners s' = listeners s
  /\ store s' = store s
  /\ history s' = history s
                  ++ ((fun l => Notified l (currentUser s)) <$> listeners s).
Proof.
  unfold notifyListeners, update. simpl. split; [reflexivity|].
  apply notified.
Qed.

Lemma notifyListeners_eq s : notifyListeners s = (Ok tt, (notifyListeners s).2).
Proof. reflexivity. Qed.

Lemma clock_record e s : clock (record e s) = S (clock s).
Proof. unfold clock. simpl. rewrite length_app. simpl. lia. Qed.

(** [initialize], statement by statement. *)
Lemma initialize_eq s :
  initialize env s
  = (Ok tt,
     let s1 := record (Called (AuthGetItem KeyCredentials)) s in
     let s2 := record (Called (AuthGetItem KeyCurrentUser)) s1 in
     if rejects env (clock s) (AuthGetItem KeyCredentials)
     then set_initialized true s1
     else if rejects env (S (clock s)) (AuthGetItem KeyCurrentUser)
     then set_initialized true s2
     else
       (notifyListeners
          (set_initialized true
             match item_credentials (store s), item_currentUser (store s) with
             | Some c, Some u =>
                 set_currentUser (Some u) (set_credentials (Some c) s2)
             | _, _ => s2
             end)).2).
Proof.
  unfold initialize, catch, mbind, AuthM_bind, storage_call, get, update, mret,
    AuthM_ret.
  destruct (rejects env (clock s) (AuthGetItem KeyCredentials)); [reflexivity|].
  rewrite clock_record.
  destruct (rejects env (S (clock s)) (AuthGetItem KeyCurrentUser));
    [reflexivity|].
  cbn [record store].
  destruct (item_credentials (store s)) as [c|], (item_currentUser (store s)) as [u|];
    reflexivity.
Qed.

(** [initialize] reads the two items; a stored session is one that has
    both. *)
Lemma initialize_state s :
  let s' := (initialize env s).2 in
  let readable :=
    negb (rejects env (clock s) (AuthGetItem KeyCredentials))
    && negb (rejects env (S (clock s)) (AuthGetItem KeyCurrentUser)) in
  (initialize env s).1 = Ok tt
  /\ initialized s' = true
  /\ store s' = store s
  /\ listeners s' = listeners s
  /\ (currentUser s', credentials s')
     = match readable, item_credentials (store s), item_currentUser (store s) with
       | true, Some c, Some u => (Some u, Some c)
       | _, _, _ => (currentUser s, credentials s)
       end.
Proof.
  rewrite initialize_eq. cbv zeta. simpl fst. simpl snd.
  destruct (rejects env (clock s) (AuthGetItem KeyCredentials)); simpl;
    [repeat split; reflexivity|].
  destruct (rejects env (S (clock s)) (AuthGetItem KeyCurrentUser)); simpl;
    [repeat split; reflexivity|].
  match goal with
  | |- context [foldl ?f ?x ?ls] =>
      destruct (notified ls (currentUser x) x) as (Hu & Hc & Hi & Hl & Hs & _)
  end.
  cbv zeta in Hu, Hc, Hi, Hl, Hs.
  destruct (item_credentials (store s)) as [c|], (item_currentUser (store s)) as [u|];
    simpl in *; rewrite Hu, Hc, Hi, Hl, Hs; repeat split; reflexivity.
Qed.

(** [logout], statement by statement. *)
Lemma logout_eq s :
  logout env s
  = (Ok tt,
     let s1 :=
       match credentials s with
       | Some _ => record (Called ClearSession) s
       | None => s
       end in
     let s2 :=
       record (Called (AuthMultiRemove [KeyCredentials; KeyCurrentUser])) s1 in
     let forget := fun x => set_currentUser None (set_credentials None x) in
     match credentials s, clearSession env (clock s) with
     | Some _, Throw _ => (notifyListeners (forget s1)).2
     | _, _ =>
         if rejects env (clock s1)
              (AuthMultiRemove [KeyCredentials; KeyCurrentUser])
         then (notifyListeners (forget s2)).2
         else (notifyListeners
                 (forget (set_store (fun _ => mkSessionStore None None) s2))).2
     end).
Proof.
  unfold logout, catch, mbind, AuthM_bind, storage_call, auth0_call, get,
    update, mret, AuthM_ret.
  destruct (credentials s) as [c|]; simpl.
  - destruct (clearSession env (clock s)) as [[]|e]; simpl; [|reflexivity].
    destruct (rejects env _ (AuthMultiRemove [KeyCredentials; KeyCurrentUser]));
      reflexivity.
  - destruct (clearSession env (clock s)) as [[]|e]; simpl;
      destruct (rejects env _ (AuthMultiRemove [KeyCredentials; KeyCurrentUser]));
      reflexivity.
Qed.

(** After [logout] nobody is signed in. *)
Lemma logout_always_signs_out_state s :
  currentUser (logout env s).2 = None /\ credentials (logout env s).2 = None.
Proof.
  rewrite logout_eq. cbv zeta. cbn [snd].
  assert (Hforget : forall x,
            currentUser (notifyListeners
                           (set_currentUser None (set_credentials None x))).2 = None
            /\ credentials (notifyListeners
                              (set_currentUser None (set_credentials None x))).2
               = None).
  { intros x.
    destruct (notifyListeners_state (set_currentUser None (set_credentials None x)))
      as (_ & Hu & Hc & _).
    cbv zeta in Hu, Hc. rewrite Hu, Hc. split; reflexivity. }
  destruct (credentials s) as [c|], (clearSession env (clock s)) as [[]|e];
    try apply Hforget;
    destruct (rejects env _ (AuthMultiRemove [KeyCredentials; KeyCurrentUser]));
    apply Hforget.
Qed.
End Facts.

(** X15.  [logout] never throws and always ends signed out in memory: no
    current user, no credentials, every listener called with [null] last.
    The stored session is removed only when neither the Auth0 call nor
    [multiRemove] rejected; when one of them did, AsyncStorage is left as
    it was, and the next [initialize] of a new instance that can read it
    signs the user in again. *)
Theorem logout_always_signs_out (env : AuthEnv) (s : AuthState) :
  let s' := (logout env s).2 in
  let removed :=
    match credentials s, clearSession env (clock s) with
    | Some _, Throw _ => false
    | Some _, Ok _ =>
        negb (rejects env (S (clock s))
                (AuthMultiRemove [KeyCredentials; KeyCurrentUser]))
    | None, _ =>
        negb (rejects env (clock s)
                (AuthMultiRemove [KeyCredentials; KeyCurrentUser]))
    end in
  (logout env s).1 = Ok tt
  /\ currentUser s' = None
  /\ credentials s' = None
  /\ isAuthenticated s' = false
  /\ listeners s' = listeners s
  /\ (exists calls,
        history s'
        = history s ++ (Called <$> calls)
          ++ ((fun l => Notified l None) <$> listeners s))
  /\ store s' = (if removed then mkSessionStore None None else store s)
  /\ (forall c u,
        removed = false ->
        item_credentials (store s) = Some c ->
        item_currentUser (store s) = Some u ->
        rejects env (clock (relaunch s')) (AuthGetItem KeyCredentials) = false ->
        rejects env (S (clock (relaunch s'))) (AuthGetItem KeyCurrentUser) = false ->
        currentUser (initialize env (relaunch s')).2 = Some u
        /\ isAuthenticated (initialize env (relaunch s')).2 = true).
Proof.
  intros s' removed.
  assert (Hmain :
    (logout env s).1 = Ok tt
    /\ currentUser s' = None
    /\ credentials s' = None
    /\ listeners s' = listeners s
    /\ (exists calls,
          history s'
          = history s ++ (Called <$> calls)
            ++ ((fun l => Notified l None) <$> listeners s))
    /\ store s' = (if removed then mkSessionStore None None else store s)).
  { subst s' removed. rewrite logout_eq. cbv zeta. simpl fst. simpl snd.
    split; [reflexivity|].
    assert (Hnotify : forall x calls,
              history x = history s ++ (Called <$> calls) ->
              listeners x = listeners s ->
              let y := (notifyListeners
                          (set_currentUser None (set_credentials None x))).2 in
              currentUser y = None /\ credentials y = None
              /\ listeners y = listeners s
              /\ (exists calls',
                    history y
                    = history s ++ (Called <$> calls')
                      ++ ((fun l => Notified l None) <$> listeners s))
              /\ store y = store x).
    { intros x calls Hh Hl y.
      destruct (notifyListeners_state
                  (set_currentUser None (set_credentials None x)))
        as (_ & Hu & Hc & _ & Hl' & Hs & Hh').
      fold y in Hu, Hc, Hl', Hs, Hh'. simpl in *.
      rewrite Hu, Hc, Hl', Hs, Hh', Hh, Hl, <- app_assoc.
      repeat split; try reflexivity. exists calls. reflexivity. }
    destruct (credentials s) as [c|] eqn:Hcreds.
    - destruct (clearSession env (clock s)) as [[]|e].
      + rewrite clock_record.
        destruct (rejects env (S (clock s))
                    (AuthMultiRemove [KeyCredentials; KeyCurrentUser])); simpl.
        * destruct (Hnotify
                      (record (Called (AuthMultiRemove [KeyCredentials; KeyCurrentUser]))
                         (record (Called ClearSession) s))
                      [ClearSession; AuthMultiRemove [KeyCredentials; KeyCurrentUser]])
            as (Hu & Hc & Hl & Hh & Hs);
            [simpl; rewrite <- app_assoc; reflexivity|reflexivity|].
          repeat split; assumption.
        * destruct (Hnotify
                      (set_store (fun _ => mkSessionStore None None)
                         (record (Called (AuthMultiRemove [KeyCredentials; KeyCurrentUser]))
                            (record (Called ClearSession) s)))
                      [ClearSession; AuthMultiRemove [KeyCredentials; KeyCurrentUser]])
            as (Hu & Hc & Hl & Hh & Hs);
            [simpl; rewrite <- app_assoc; reflexivity|reflexivity|].
          repeat split; assumption.
      + destruct (Hnotify (record (Called ClearSession) s) [ClearSession])
          as (Hu & Hc & Hl & Hh & Hs); [reflexivity|reflexivity|].
        repeat split; assumption.
    - assert (Hgoal :
        let y :=
          (if rejects env (clock s)
                (AuthMultiRemove [KeyCredentials; KeyCurrentUser])
           then (notifyListeners
                   (set_currentUser None
                      (set_credentials None
                         (record (Called (AuthMultiRemove [KeyCredentials; KeyCurrentUser]))
                            s)))).2
           else (notifyListeners
                   (set_currentUser None
                      (set_credentials None
                         (set_store (fun _ => mkSessionStore None None)
                            (record (Called (AuthMultiRemove [KeyCredentials; KeyCurrentUser]))
                               s))))).2) in
        currentUser y = None /\ credentials y = None
        /\ listeners y = listeners s
        /\ (exists calls,
              history y
              = history s ++ (Called <$> calls)
                ++ ((fun l => Notified l None) <$> listeners s))
        /\ store y
           = (if negb (rejects env (clock s)
                         (AuthMultiRemove [KeyCredentials; KeyCurrentUser]))
              then mkSessionStore None None else store s)).
      { destruct (rejects env (clock s)
                    (AuthMultiRemove [KeyCredentials; KeyCurrentUser])); simpl.
        - destruct (Hnotify
                      (record (Called (AuthMultiRemove [KeyCredentials; KeyCurrentUser])) s)
                      [AuthMultiRemove [KeyCredentials; KeyCurrentUser]])
            as (Hu & Hc & Hl & Hh & Hs); [reflexivity|reflexivity|].
          repeat split; assumption.
        - destruct (Hnotify
                      (set_store (fun _ => mkSessionStore None None)
                         (record (Called (AuthMultiRemove [KeyCredentials; KeyCurrentUser])) s))
                      [AuthMultiRemove [KeyCredentials; KeyCurrentUser]])
            as (Hu & Hc & Hl & Hh & Hs); [reflexivity|reflexivity|].
          repeat split; assumption. }
      destruct (clearSession env (clock s)) as [[]|e]; exact Hgoal. }
  destruct Hmain as (Hok & Hu & Hc & Hl & Hh & Hs).
  split; [exact Hok|]. split; [exact Hu|]. split; [exact Hc|].
  split; [unfold isAuthenticated; rewrite Hu; reflexivity|].
  split; [exact Hl|]. split; [exact Hh|]. split; [exact Hs|].
  intros c u Hremoved Hcreds Huser Hget1 Hget2.
  destruct (initialize_state env (relaunch s'))
    as (_ & _ & _ & _ & Hrestored).
  cbv zeta in Hrestored. rewrite Hget1, Hget2 in Hrestored.
  simpl in Hrestored. rewrite Hs, Hremoved, Hcreds, Huser in Hrestored.
  injection Hrestored as Hu' Hc'.
  unfold isAuthenticated. rewrite Hu', Hc'. split; reflexivity.
Qed.

Section LoginFacts.
Variable env : AuthEnv.

(** [getUserInfo], statement by statement: it never throws. *)
Lemma getUserInfo_eq s :
  getUserInfo env s
  = match credentials s with
    | Some c =>
        if truthy (accessToken c) then
          let s1 := record (Called (GetUserInfo (accessToken c))) s in
          match userInfo env (clock s) (accessToken c) with
          | Ok info => (Ok (Some (toAuthUser info (generateId env (clock s1)))), s1)
          | Throw _ => (Ok None, s1)
          end
        else (Ok None, s)
    | None => (Ok None, s)
    end.
Proof.
  unfold getUserInfo, catch, mbind, AuthM_bind, auth0_call, get, throwError,
    mret, AuthM_ret.
  simpl. destruct (credentials s) as [c|]; [|reflexivity].
  destruct (truthy (accessToken c)); [|reflexivity].
  destruct (userInfo env (clock s) (accessToken c)); reflexivity.
Qed.

(** [login], statement by statement. *)
Lemma login_eq s :
  login env s
  = let s1 := record (Called Authorize) s in
    match authorize env (clock s) with
    | Throw _ => (Ok None, s1)
    | Ok creds =>
        let s2 := set_credentials (Some creds) s1 in
        if truthy (accessToken creds) then
          let s3 := record (Called (GetUserInfo (accessToken creds))) s2 in
          match userInfo env (S (clock s)) (accessToken creds) with
          | Throw _ => (Ok None, s3)
          | Ok info =>
              let u := toAuthUser info (generateId env (S (S (clock s)))) in
              let s4 :=
                record (Called (AuthSetItem KeyCredentials))
                  (set_currentUser (Some u) s3) in
              if rejects env (S (S (clock s))) (AuthSetItem KeyCredentials)
              then (Ok None, s4)
              else
                let s5 :=
                  record (Called (AuthSetItem KeyCurrentUser))
                    (set_store (fun st =>
                       mkSessionStore (Some creds) (item_currentUser st)) s4) in
                if rejects env (S (S (S (clock s)))) (AuthSetItem KeyCurrentUser)
                then (Ok None, s5)
                else
                  (Ok (Some u),
                   (notifyListeners
                      (set_store (fun st =>
                         mkSessionStore (item_credentials st) (Some u)) s5)).2)
          end
        else (Ok None, s2)
    end.
Proof.
  unfold login, catch, mbind, AuthM_bind, auth0_call, storage_call, get, update,
    throwError, mret, AuthM_ret.
  cbv zeta. destruct (authorize env (clock s)) as [creds|e]; [|reflexivity].
  rewrite getUserInfo_eq. cbn [credentials set_credentials].
  destruct (truthy (accessToken creds)); [|reflexivity].
  unfold clock. cbn [history record set_currentUser set_credentials set_store].
  rewrite ?length_app. cbn [length]. rewrite ?Nat.add_1_r.
  destruct (userInfo env (S (length (history s))) (accessToken creds))
    as [info|e]; [|reflexivity].
  cbn [history record set_currentUser set_credentials set_store].
  rewrite ?length_app. cbn [length]. rewrite ?Nat.add_1_r.
  destruct (rejects env (S (S (length (history s)))) (AuthSetItem KeyCredentials));
    [reflexivity|].
  cbn [history record set_currentUser set_credentials set_store].
  rewrite ?length_app. cbn [length]. rewrite ?Nat.add_1_r.
  destruct (rejects env (S (S (S (length (history s))))) (AuthSetItem KeyCurrentUser));
    reflexivity.
Qed.
End LoginFacts.

(** X16.  A [login] that returns a user has signed that user in and
    stored the session: the current user is the one returned, the
    credentials are those Auth0 gave, both are in AsyncStorage, and every
    listener was called with the user last.  A new instance of the service
    that can read AsyncStorage restores the same user and credentials in
    [initialize] and is authenticated. *)
Theorem login_persists_session (env : AuthEnv) (s : AuthState) (u : AuthUser) :
  (login env s).1 = Ok (Some u) ->
  let s' := (login env s).2 in
  currentUser s' = Some u
  /\ (exists creds,
        authorize env (clock s) = Ok creds
        /\ credentials s' = Some creds
        /\ store s' = mkSessionStore (Some creds) (Some u))
  /\ isAuthenticated s' = true
  /\ (exists calls,
        history s'
        = history s ++ (Called <$> calls)
          ++ ((fun l => Notified l (Some u)) <$> listeners s))
  /\ (rejects env (clock (relaunch s')) (AuthGetItem KeyCredentials) = false ->
      rejects env (S (clock (relaunch s'))) (AuthGetItem KeyCurrentUser) = false ->
      currentUser (initialize env (relaunch s')).2 = Some u
      /\ credentials (initialize env (relaunch s')).2 = credentials s'
      /\ isAuthenticated (initialize env (relaunch s')).2 = true).
Proof.
  intros Hlogin s'.
  assert (Hmain :
    currentUser s' = Some u
    /\ (exists creds,
          authorize env (clock s) = Ok creds
          /\ credentials s' = Some creds
          /\ store s' = mkSessionStore (Some creds) (Some u))
    /\ (exists calls,
          history s'
          = history s ++ (Called <$> calls)
            ++ ((fun l => Notified l (Some u)) <$> listeners s))).
  { subst s'. revert Hlogin. rewrite login_eq. cbv zeta.
    destruct (authorize env (clock s)) as [creds|e]; [|discriminate].
    destruct (truthy (accessToken creds)); [|discriminate].
    destruct (userInfo env (S (clock s)) (accessToken creds)) as [info|e];
      [|discriminate].
    destruct (rejects env (S (S (clock s))) (AuthSetItem KeyCredentials));
      [discriminate|].
    destruct (rejects env (S (S (S (clock s)))) (AuthSetItem KeyCurrentUser));
      [discriminate|].
    cbn [fst snd]. intros [= Hu].
    match goal with
    | |- context [notifyListeners ?x] =>
        destruct (notifyListeners_state x) as (_ & Hcu & Hc & _ & _ & Hs & Hh)
    end.
    cbv zeta in Hcu, Hc, Hs, Hh. rewrite Hcu, Hc, Hs, Hh. simpl.
    rewrite Hu. split; [reflexivity|]. split.
    - exists creds. repeat split; reflexivity.
    - exists [Authorize; GetUserInfo (accessToken creds);
              AuthSetItem KeyCredentials; AuthSetItem KeyCurrentUser].
      rewrite <- !app_assoc. reflexivity. }
  destruct Hmain as (Hu & (creds & Hauth & Hc & Hs) & Hh).
  split; [exact Hu|]. split; [exists creds; auto|].
  split; [unfold isAuthenticated; rewrite Hu, Hc; reflexivity|].
  split; [exact Hh|].
  intros Hget1 Hget2.
  destruct (initialize_state env (relaunch s')) as (_ & _ & _ & _ & Hrestored).
  cbv zeta in Hrestored. rewrite Hget1, Hget2 in Hrestored.
  simpl in Hrestored. rewrite Hs in Hrestored. simpl in Hrestored.
  injection Hrestored as Hu' Hc'.
  unfold isAuthenticated. rewrite Hu', Hc', Hc. repeat split; reflexivity.
Qed.

(** X17.  [login] never throws, and when it returns [null] the service
    may be left in between: if Auth0 refuses the authorization nothing
    changed; if the user's profile could not be fetched the new
    credentials are kept although nobody is signed in; and if AsyncStorage
    rejects one of the two writes the user is signed in and authenticated
    in memory although [login] answered [null], no listener was told and
    the session is not, or only half, stored. *)
Theorem login_failure_modes (env : AuthEnv) (s : AuthState) :
  let s' := (login env s).2 in
  (exists r, (login env s).1 = Ok r)
  /\ listeners s' = listeners s
  /\ ((login env s).1 = Ok None ->
      exists calls, history s' = history s ++ (Called <$> calls))
  /\ (forall e, authorize env (clock s) = Throw e ->
      (login env s).1 = Ok None
      /\ currentUser s' = currentUser s
      /\ credentials s' = credentials s
      /\ store s' = store s)
  /\ (forall creds,
        authorize env (clock s) = Ok creds ->
        truthy (accessToken creds) = false
        \/ (exists e, userInfo env (S (clock s)) (accessToken creds) = Throw e) ->
        (login env s).1 = Ok None
        /\ currentUser s' = currentUser s
        /\ credentials s' = Some creds
        /\ store s' = store s)
  /\ (forall creds info,
        authorize env (clock s) = Ok creds ->
        truthy (accessToken creds) = true ->
        userInfo env (S (clock s)) (accessToken creds) = Ok info ->
        rejects env (S (S (clock s))) (AuthSetItem KeyCredentials) = true
        \/ rejects env (S (S (S (clock s)))) (AuthSetItem KeyCurrentUser) = true ->
        (login env s).1 = Ok None
        /\ currentUser s'
           = Some (toAuthUser info (generateId env (S (S (clock s)))))
        /\ isAuthenticated s' = true
        /\ item_currentUser (store s') = item_currentUser (store s)).
Proof.
  intros s'. subst s'. rewrite login_eq. cbv zeta.
  destruct (authorize env (clock s)) as [creds|e].
  2:{ simpl. split; [eexists; reflexivity|]. split; [reflexivity|].
      split; [intros _; exists [Authorize]; reflexivity|].
      split; [intros e' _; repeat split; reflexivity|].
      split; [intros creds [=]|intros creds info [=]]. }
  destruct (truthy (accessToken creds)) eqn:Htoken.
  2:{ simpl. split; [eexists; reflexivity|]. split; [reflexivity|].
      split; [intros _; exists [Authorize]; reflexivity|].
      split; [intros e [=]|].
      split; [intros creds' [= <-] _; repeat split; reflexivity|].
      intros creds' info [= <-] Ht. congruence. }
  destruct (userInfo env (S (clock s)) (accessToken creds)) as [info|e] eqn:Hinfo.
  2:{ simpl. split; [eexists; reflexivity|]. split; [reflexivity|].
      split; [intros _; exists [Authorize; GetUserInfo (accessToken creds)];
              rewrite <- app_assoc; reflexivity|].
      split; [intros e' [=]|].
      split; [intros creds' [= <-] _; repeat split; reflexivity|].
      intros creds' info [= <-] _. rewrite Hinfo. intros [=]. }
  destruct (rejects env (S (S (clock s))) (AuthSetItem KeyCredentials)) eqn:H1.
  { simpl. split; [eexists; reflexivity|]. split; [reflexivity|].
    split; [intros _; exists [Authorize; GetUserInfo (accessToken creds);
                              AuthSetItem KeyCredentials];
            rewrite <- !app_assoc; reflexivity|].
    split; [intros e' [=]|].
    split; [intros creds' [= <-] [Ht|[e' He']]; congruence|].
    intros creds' info' [= <-] _. rewrite Hinfo. intros [= <-] _.
    repeat split; reflexivity. }
  destruct (rejects env (S (S (S (clock s)))) (AuthSetItem KeyCurrentUser)) eqn:H2.
  { simpl. split; [eexists; reflexivity|]. split; [reflexivity|].
    split; [intros _; exists [Authorize; GetUserInfo (accessToken creds);
                              AuthSetItem KeyCredentials; AuthSetItem KeyCurrentUser];
            rewrite <- !app_assoc; reflexivity|].
    split; [intros e' [=]|].
    split; [intros creds' [= <-] [Ht|[e' He']]; congruence|].
    intros creds' info' [= <-] _. rewrite Hinfo. intros [= <-] _.
    repeat split; reflexivity. }
  cbn [fst snd].
  match goal with
  | |- context [notifyListeners ?x] =>
      destruct (notifyListeners_state x) as (_ & _ & _ & _ & Hl & _)
  end.
  cbv zeta in Hl.
  split; [eexists; reflexivity|]. split; [rewrite Hl; reflexivity|].
  split; [intros [=]|].
  split; [intros e' [=]|].
  split; [intros creds' [= <-] [Ht|[e' He']]; congruence|].
  intros creds' info' [= <-] _ _ [Hr|Hr]; congruence.
Qed.

Section ProfileFacts.
Variable env : AuthEnv.

(** [updateUserProfile], statement by statement. *)
Lemma updateUserProfile_eq updates s :
  updateUserProfile env updates s
  = match currentUser s with
    | None => (Ok None, s)
    | Some u =>
        let s1 :=
          record (Called (AuthSetItem KeyCurrentUser))
            (set_currentUser (Some (applyUpdates u updates)) s) in
        if rejects env (clock s) (AuthSetItem KeyCurrentUser) then (Ok None, s1)
        else
          (Ok (Some (applyUpdates u updates)),
           (notifyListeners
              (set_store (fun st =>
                 mkSessionStore (item_credentials st)
                   (Some (applyUpdates u updates))) s1)).2)
    end.
Proof.
  unfold updateUserProfile, catch, mbind, AuthM_bind, storage_call, get, update,
    throwError, mret, AuthM_ret.
  destruct (currentUser s) as [u|]; [|reflexivity].
  unfold clock. cbn [history set_currentUser].
  destruct (rejects env (length (history s)) (AuthSetItem KeyCurrentUser));
    [reflexivity|].
  match goal with
  | |- context [notifyListeners ?x] =>
      destruct (notifyListeners_state x) as (Hok & Hu & _)
  end.
  cbv zeta in Hu.
  match goal with
  | |- context [notifyListeners ?x] => destruct (notifyListeners x) as [r x']
  end.
  simpl in *. subst r. rewrite Hu. reflexivity.
Qed.

(** [refreshTokens], statement by statement. *)
Lemma refreshTokens_eq s :
  refreshTokens env s
  = match credentials s with
    | Some c =>
        match refreshToken c with
        | Some r =>
            if truthy r then
              let s1 := record (Called (RefreshToken r)) s in
              match refreshToken_request env (clock s) r with
              | Throw _ => (Ok false, s1)
              | Ok newCredentials =>
                  let s2 :=
                    record (Called (AuthSetItem KeyCredentials))
                      (set_credentials
                         (Some (mergeCredentials c newCredentials)) s1) in
                  if rejects env (S (clock s)) (AuthSetItem KeyCredentials)
                  then (Ok false, s2)
                  else
                    (Ok true,
                     set_store (fun st =>
                       mkSessionStore (Some (mergeCredentials c newCredentials))
                         (item_currentUser st)) s2)
              end
            else (Ok false, s)
        | None => (Ok false, s)
        end
    | None => (Ok false, s)
    end.
Proof.
  unfold refreshTokens, catch, mbind, AuthM_bind, storage_call, auth0_call, get,
    update, mret, AuthM_ret.
  simpl. destruct (credentials s) as [c|]; [|reflexivity].
  destruct (refreshToken c) as [r|]; [|reflexivity].
  destruct (truthy r); [|reflexivity].
  destruct (refreshToken_request env (clock s) r) as [newCredentials|e];
    [|reflexivity].
  unfold clock. cbn [history record set_credentials].
  rewrite length_app. cbn [length]. rewrite Nat.add_1_r.
  destruct (rejects env (S (length (history s))) (AuthSetItem KeyCredentials));
    reflexivity.
Qed.
End ProfileFacts.

(** X18.  [updateUserProfile] never throws.  Without a current user it
    returns [null] and changes nothing.  With one, the updates are merged
    into the user in memory at once; when AsyncStorage accepts the write
    the merged user is stored, every listener is called with it and it is
    returned; when the write is rejected the method returns [null],
    although the user in memory has changed, and no listener is told. *)
Theorem updateUserProfile_outcomes
    (env : AuthEnv) (updates : AuthUserUpdates) (s : AuthState) :
  let s' := (updateUserProfile env updates s).2 in
  (currentUser s = None -> updateUserProfile env updates s = (Ok None, s))
  /\ (forall u,
        currentUser s = Some u ->
        currentUser s' = Some (applyUpdates u updates)
        /\ credentials s' = credentials s
        /\ (rejects env (clock s) (AuthSetItem KeyCurrentUser) = false ->
            (updateUserProfile env updates s).1
              = Ok (Some (applyUpdates u updates))
            /\ item_currentUser (store s') = Some (applyUpdates u updates)
            /\ item_credentials (store s') = item_credentials (store s)
            /\ history s'
               = history s ++ [Called (AuthSetItem KeyCurrentUser)]
                 ++ ((fun l => Notified l (Some (applyUpdates u updates)))
                       <$> listeners s))
        /\ (rejects env (clock s) (AuthSetItem KeyCurrentUser) = true ->
            (updateUserProfile env updates s).1 = Ok None
            /\ store s' = store s
            /\ history s' = history s ++ [Called (AuthSetItem KeyCurrentUser)]))
  /\ (forall u, applyUpdates u (mkUpdates None None None None None) = u)
  /\ (forall u, applyUpdates (applyUpdates u updates) updates
                = applyUpdates u updates).
Proof.
  intros s'. subst s'. rewrite updateUserProfile_eq.
  split; [intros ->; reflexivity|]. split; [|split].
  - intros u ->. cbv zeta.
    destruct (rejects env (clock s) (AuthSetItem KeyCurrentUser)).
    + simpl. split; [reflexivity|]. split; [reflexivity|].
      split; [discriminate|]. intros _. repeat split; reflexivity.
    + cbn [fst snd].
      match goal with
      | |- context [notifyListeners ?x] =>
          destruct (notifyListeners_state x) as (_ & Hu & Hc & _ & _ & Hs & Hh)
      end.
      cbv zeta in Hu, Hc, Hs, Hh. rewrite Hu, Hc, Hs, Hh. simpl.
      split; [reflexivity|]. split; [reflexivity|].
      split; [|discriminate]. intros _.
      rewrite <- app_assoc. repeat split; reflexivity.
  - intros [i e n a v]. reflexivity.
  - intros [i e n a v]. destruct updates as [[?|] [?|] [?|] [?|] [?|]];
      reflexivity.
Qed.

(** X19.  [refreshTokens] never throws.  Without credentials, or without a
    refresh token, it returns [false] and calls nobody.  Otherwise it asks
    Auth0 once: if that rejects nothing changed; if it answers, the new
    credentials replace the old ones in memory, keeping the old refresh
    token when the new ones carry none, and the method returns [true]
    exactly when AsyncStorage accepted to store them. *)
Theorem refreshTokens_outcomes (env : AuthEnv) (s : AuthState) :
  let s' := (refreshTokens env s).2 in
  (exists b, (refreshTokens env s).1 = Ok b)
  /\ currentUser s' = currentUser s
  /\ ((forall c r, credentials s = Some c -> refreshToken c = Some r ->
         truthy r = false) ->
      refreshTokens env s = (Ok false, s))
  /\ (forall c r,
        credentials s = Some c -> refreshToken c = Some r -> truthy r = true ->
        history s' <> history s
        /\ (forall e, refreshToken_request env (clock s) r = Throw e ->
              (refreshTokens env s).1 = Ok false
              /\ credentials s' = credentials s /\ store s' = store s)
        /\ (forall newCredentials,
              refreshToken_request env (clock s) r = Ok newCredentials ->
              credentials s' = Some (mergeCredentials c newCredentials)
              /\ (refreshToken newCredentials = None ->
                  refreshToken (mergeCredentials c newCredentials) = Some r)
              /\ (refreshTokens env s).1
                 = Ok (negb (rejects env (S (clock s)) (AuthSetItem KeyCredentials)))
              /\ store s'
                 = (if rejects env (S (clock s)) (AuthSetItem KeyCredentials)
                    then store s
                    else mkSessionStore (Some (mergeCredentials c newCredentials))
                           (item_currentUser (store s))))).
Proof.
  intros s'. subst s'. rewrite refreshTokens_eq.
  destruct (credentials s) as [c|] eqn:Hc.
  2:{ simpl. split; [eexists; reflexivity|]. split; [reflexivity|].
      split; [reflexivity|]. intros c r [=]. }
  destruct (refreshToken c) as [r|] eqn:Hr.
  2:{ simpl. split; [eexists; reflexivity|]. split; [reflexivity|].
      split; [reflexivity|]. intros c' r' [= <-]. rewrite Hr. intros [=]. }
  destruct (truthy r) eqn:Ht.
  2:{ simpl. split; [eexists; reflexivity|]. split; [reflexivity|].
      split; [reflexivity|]. intros c' r' [= <-]. rewrite Hr.
      intros [= <-]. congruence. }
  cbv zeta.
  assert (Hgrow : forall l e, history s ++ e :: l <> history s).
  { intros l e H. apply (f_equal length) in H. rewrite length_app in H.
    simpl in H. lia. }
  destruct (refreshToken_request env (clock s) r) as [newCredentials|e] eqn:Hreq.
  - destruct (rejects env (S (clock s)) (AuthSetItem KeyCredentials)); simpl.
    + split; [eexists; reflexivity|]. split; [reflexivity|].
      split; [intros Hnone; specialize (Hnone c r eq_refl Hr); congruence|].
      intros c' r' [= <-]. rewrite Hr. intros [= <-] _.
      split; [rewrite <- app_assoc; apply Hgrow|].
      split; [intros e He; congruence|]. intros n Hn.
      assert (n = newCredentials) by congruence. subst n.
      split; [reflexivity|]. split; [|split; reflexivity].
      intros Hnew. unfold mergeCredentials. simpl. rewrite Hnew.
      first [exact Hr | reflexivity].
    + split; [eexists; reflexivity|]. split; [reflexivity|].
      split; [intros Hnone; specialize (Hnone c r eq_refl Hr); congruence|].
      intros c' r' [= <-]. rewrite Hr. intros [= <-] _.
      split; [rewrite <- app_assoc; apply Hgrow|].
      split; [intros e He; congruence|]. intros n Hn.
      assert (n = newCredentials) by congruence. subst n.
      split; [reflexivity|]. split; [|split; reflexivity].
      intros Hnew. unfold mergeCredentials. simpl. rewrite Hnew.
      first [exact Hr | reflexivity].
  - simpl. split; [eexists; reflexivity|]. split; [reflexivity|].
    split; [intros Hnone; specialize (Hnone c r eq_refl Hr); congruence|].
    intros c' r' [= <-]. rewrite Hr. intros [= <-] _.
    split; [apply Hgrow|].
    split; [intros e' _; repeat split; first [reflexivity|exact Hc]|].
    intros n Hn. congruence.
Qed.

Lemma indexOf_first callback ls index :
  indexOf callback ls = Some index ->
  exists before after,
    ls = before ++ callback :: after
    /\ ~ In callback before
    /\ splice1 index ls = before ++ after.
Proof.
  revert index. induction ls as [|l ls IH]; intros index; simpl; [discriminate|].
  destruct (Nat.eqb_spec l callback) as [->|Hne].
  - intros [= <-]. exists [], ls. repeat split; auto.
  - destruct (indexOf callback ls) as [i|]; [|discriminate].
    intros [= <-]. destruct (IH i eq_refl) as (before & after & -> & Hnot & Hsplice).
    exists (l :: before), after. split; [reflexivity|]. split.
    + simpl. intros [H|H]; [congruence|contradiction].
    + unfold splice1 in *. simpl. f_equal. exact Hsplice.
Qed.

Lemma indexOf_absent callback ls :
  indexOf callback ls = None <-> ~ In callback ls.
Proof.
  induction ls as [|l ls IH]; simpl; [tauto|].
  destruct (Nat.eqb_spec l callback) as [->|Hne].
  - split; [discriminate|]. intros H. exfalso. apply H. auto.
  - destruct (indexOf callback ls) as [i|]; simpl.
    + split; [discriminate|]. intros H. exfalso.
      destruct IH as [_ IH]. assert (Hnone : None = Some i); [|discriminate].
      symmetry. apply IH. tauto.
    + split; [|reflexivity]. intros _ [H|H]; [congruence|].
      destruct IH as [IH _]. apply (IH eq_refl), H.
Qed.

(** X20.  Listeners of the authentication state.  Registering a callback
    appends it and calls it at once with the current user; that first call
    is not guarded, so when it throws [addAuthStateListener] throws, after
    the callback was registered.  [notifyListeners] never throws and calls
    every registered callback once, in the order of registration.  The
    function [addAuthStateListener] returns removes the first registration
    of the callback and no other, and does nothing when there is none. *)
Theorem auth_state_listeners (env : AuthEnv) (callback : Listener) (s : AuthState) :
  let s1 := (addAuthStateListener env callback s).2 in
  (listeners s1 = listeners s ++ [callback]
   /\ history s1 = history s ++ [Notified callback (currentUser s)]
   /\ currentUser s1 = currentUser s
   /\ credentials s1 = credentials s
   /\ store s1 = store s
   /\ (listenerThrows env callback (currentUser s) = false ->
       (addAuthStateListener env callback s).1 = Ok tt)
   /\ (listenerThrows env callback (currentUser s) = true ->
       exists e, (addAuthStateListener env callback s).1 = Throw e))
  /\ ((notifyListeners s).1 = Ok tt
      /\ history (notifyListeners s).2
         = history s ++ ((fun l => Notified l (currentUser s)) <$> listeners s)
      /\ listeners (notifyListeners s).2 = listeners s)
  /\ ((unsubscribe callback s).1 = Ok tt
      /\ (~ In callback (listeners s) -> (unsubscribe callback s).2 = s)
      /\ (In callback (listeners s) ->
          exists before after,
            listeners s = before ++ callback :: after
            /\ ~ In callback before
            /\ listeners (unsubscribe callback s).2 = before ++ after)
      /\ (~ In callback (listeners s) ->
          listeners (unsubscribe callback s1).2 = listeners s)).
Proof.
  intros s1. split; [|split].
  - subst s1.
    unfold addAuthStateListener, mbind, AuthM_bind, get, update, throwError,
      mret, AuthM_ret.
    cbn [currentUser set_listeners record].
    destruct (listenerThrows env callback (currentUser s)); simpl;
      repeat split; try reflexivity; try discriminate.
    intros _. eexists. reflexivity.
  - destruct (notifyListeners_state s) as (Hok & _ & _ & _ & Hl & _ & Hh).
    split; [exact Hok|]. split; [exact Hh|exact Hl].
  - split; [reflexivity|]. split; [|split].
    + intros Hnot. apply indexOf_absent in Hnot.
      unfold unsubscribe, update. simpl. rewrite Hnot. reflexivity.
    + intros Hin. unfold unsubscribe, update. simpl.
      destruct (indexOf callback (listeners s)) as [index|] eqn:Hindex.
      * destruct (indexOf_first _ _ _ Hindex) as (before & after & Hl & Hnot & Hs).
        exists before, after. simpl. repeat split; assumption.
      * apply indexOf_absent in Hindex. contradiction.
    + intros Hnot.
      assert (Hl1 : listeners s1 = listeners s ++ [callback]).
      { subst s1.
        unfold addAuthStateListener, mbind, AuthM_bind, get, update, throwError,
          mret, AuthM_ret.
        cbn [currentUser set_listeners record].
        destruct (listenerThrows env callback (currentUser s)); reflexivity. }
      unfold unsubscribe, update. simpl. rewrite Hl1.
      destruct (indexOf callback (listeners s ++ [callback])) as [index|] eqn:Hindex.
      * destruct (indexOf_first _ _ _ Hindex) as (before & after & Hl & Hnot' & Hs).
        simpl. rewrite Hs.
        assert (Hafter : after = []).
        { destruct after as [|a after] using rev_ind; [reflexivity|].
          exfalso. apply Hnot.
          change (before ++ callback :: after ++ [a])
            with (before ++ (callback :: after) ++ [a]) in Hl.
          rewrite app_assoc in Hl. apply app_inj_tail in Hl as [Hl _].
          rewrite Hl. apply in_or_app. right. left. reflexivity. }
        subst after. rewrite app_nil_r.
        apply app_inj_tail in Hl as [Hl _]. symmetry. exact Hl.
      * exfalso. apply indexOf_absent in Hindex. apply Hindex.
        apply in_or_app. right. left. reflexivity.
Qed.

(** X21.  [deleteAccount] never throws and answers whether the service
    was authenticated: when it was not, nothing changes; when it was, the
    account is not deleted anywhere, the user is signed out as by [logout]
    and the answer is [true] whatever Auth0 and AsyncStorage did. *)
Theorem deleteAccount_reports_authentication (env : AuthEnv) (s : AuthState) :
  (deleteAccount env s).1 = Ok (isAuthenticated s)
  /\ (isAuthenticated s = false -> (deleteAccount env s).2 = s)
  /\ (isAuthenticated s = true ->
      (deleteAccount env s).2 = (logout env s).2
      /\ isAuthenticated (deleteAccount env s).2 = false)
  /\ (isAuthenticated s = true <->
      exists u c, currentUser s = Some u /\ credentials s = Some c).
Proof.
  unfold deleteAccount, catch, mbind, AuthM_bind, get, throwError, mret,
    AuthM_ret.
  cbn beta iota.
  pose proof (logout_eq env s) as Hlogout.
  destruct (isAuthenticated s) eqn:Hauth.
  - rewrite Hlogout. cbn [fst snd]. split; [reflexivity|].
    split; [discriminate|]. split.
    + intros _. split; [reflexivity|].
      pose proof (logout_always_signs_out_state env s) as (Hu & _).
      rewrite Hlogout in Hu. cbn [snd] in Hu.
      unfold isAuthenticated. rewrite Hu. reflexivity.
    + split; [intros _|reflexivity]. unfold isAuthenticated in Hauth.
      destruct (currentUser s) as [u|], (credentials s) as [c|];
        try discriminate. eauto.
  - simpl. split; [reflexivity|]. split; [reflexivity|].
    split; [discriminate|]. split; [discriminate|].
    intros (u & c & Hu & Hc). unfold isAuthenticated in Hauth.
    rewrite Hu, Hc in Hauth. discriminate.
Qed.

Import AuthSample.

Lemma logout_always_signs_out_witness :
  isAuthenticated (logout readOnly signedIn).2 = false
  /\ store (logout readOnly signedIn).2 = store signedIn
  /\ currentUser (initialize readOnly (relaunch (logout readOnly signedIn).2)).2
     = Some ada.
Proof.
  pose proof (logout_always_signs_out readOnly signedIn) as H. cbv zeta in H.
  destruct H as (_ & _ & _ & Hauth & _ & _ & Hstore & Hagain).
  split; [exact Hauth|]. split; [exact Hstore|].
  apply (Hagain tokens ada); vm_compute; reflexivity.
Defined.

Lemma login_persists_session_witness :
  (login healthy (fresh empty)).1 = Ok (Some ada)
  /\ currentUser (login healthy (fresh empty)).2 = Some ada
  /\ isAuthenticated
       (initialize healthy (relaunch (login healthy (fresh empty)).2)).2 = true.
Proof.
  assert (Hlogin : (login healthy (fresh empty)).1 = Ok (Some ada))
    by (vm_compute; reflexivity).
  split; [exact Hlogin|].
  pose proof (login_persists_session healthy (fresh empty) ada Hlogin) as H.
  cbv zeta in H. destruct H as (Huser & _ & _ & _ & Hagain).
  split; [exact Huser|].
  apply Hagain; vm_compute; reflexivity.
Defined.

Lemma login_failure_modes_witness :
  (login readOnly (fresh empty)).1 = Ok None
  /\ currentUser (login readOnly (fresh empty)).2 = Some ada
  /\ isAuthenticated (login readOnly (fresh empty)).2 = true.
Proof.
  pose proof (login_failure_modes readOnly (fresh empty)) as H. cbv zeta in H.
  destruct H as (_ & _ & _ & _ & _ & Hwrite).
  destruct (Hwrite tokens profile) as (Hnull & Huser & Hauth & _);
    [vm_compute; reflexivity.. | left; vm_compute; reflexivity |].
  split; [exact Hnull|]. split; [exact Huser|exact Hauth].
Defined.

Lemma updateUserProfile_outcomes_witness :
  (updateUserProfile readOnly rename signedIn).1 = Ok None
  /\ currentUser (updateUserProfile readOnly rename signedIn).2
     = Some (applyUpdates ada rename)
  /\ store (updateUserProfile readOnly rename signedIn).2 = store signedIn.
Proof.
  pose proof (updateUserProfile_outcomes readOnly rename signedIn) as H.
  cbv zeta in H. destruct H as (_ & Hsome & _).
  destruct (Hsome ada) as (Huser & _ & _ & Hrejected); [reflexivity|].
  destruct Hrejected as (Hnull & Hstore & _); [vm_compute; reflexivity|].
  split; [exact Hnull|]. split; [exact Huser|exact Hstore].
Defined.

Lemma refreshTokens_outcomes_witness :
  (refreshTokens healthy signedIn).1 = Ok true
  /\ credentials (refreshTokens healthy signedIn).2
     = Some (mkCredentials "access2" "id2" (Some "refresh")).
Proof.
  pose proof (refreshTokens_outcomes healthy signedIn) as H. cbv zeta in H.
  destruct H as (_ & _ & _ & Hrefresh).
  destruct (Hrefresh tokens "refresh") as (_ & _ & Hanswer);
    [vm_compute; reflexivity..|].
  destruct (Hanswer renewed) as (Hcreds & _ & Htrue & _);
    [vm_compute; reflexivity|].
  split; [exact Htrue|exact Hcreds].
Defined.

Lemma auth_state_listeners_witness :
  listeners (addAuthStateListener healthy 5%nat signedIn).2 = [0; 1; 5]%nat
  /\ listeners
       (unsubscribe 5%nat (addAuthStateListener healthy 5%nat signedIn).2).2
     = [0; 1]%nat.
Proof.
  pose proof (auth_state_listeners healthy 5%nat signedIn) as H. cbv zeta in H.
  destruct H as ((Hadded & _) & _ & _ & _ & _ & Hremoved).
  split; [exact Hadded|].
  apply Hremoved. intros [H|[H|[]]]; discriminate.
Defined.

Lemma deleteAccount_reports_authentication_witness :
  (deleteAccount readOnly signedIn).1 = Ok true
  /\ isAuthenticated (deleteAccount readOnly signedIn).2 = false
  /\ (deleteAccount readOnly (fresh empty)).2 = fresh empty.
Proof.
  destruct (deleteAccount_reports_authentication readOnly signedIn)
    as (Hanswer & _ & Hout & _).
  destruct (deleteAccount_reports_authentication readOnly (fresh empty))
    as (_ & Hnothing & _).
  split; [exact Hanswer|]. split.
  - apply Hout. vm_compute; reflexivity.
  - apply Hnothing. vm_compute; reflexivity.
Defined.

End AuthServiceFacts.
